(* ===== verification/_CoqProject ===== *)
-Q . S2P
Prelude.v
GoLib.v
Domain.v
Retry.v
Sql.v
SqlFacts.v
Redis.v
RedisFacts.v
Effects.v
Discipline.v
Frames.v
NotificationRepo.v
NotificationStore.v
Typed.v
NotificationSpec.v
Listing.v
Releasing.v
Batches.v
Attempts.v
Queue.v
QueueSpec.v
Groups.v
QueueSim.v
RateLimit.v
Delivery.v
DeliverySpec.v
Hub.v
HubSpec.v
Worker.v
RateLimitSpec.v
MemberSpec.v
WorkerSpec.v
Lifecycle.v
Validator.v
Contents.v
Templates.v
TemplateSpec.v
TemplateSim.v
Service.v
Api.v
ServiceSpec.v
SchedulerSpec.v
Draining.v
Retrying.v
Wiring.v
Boot.v
Journey.v
Consuming.v
ApiSpec.v
Paging.v
Routing.v
Interleave.v
History.v
Ledger.v
System.v
Running.v
Answers.v
Shutdown.v
Aside.v
Custody.v
CustodyStore.v
CustodyInv.v
CustodyStep.v
CustodyRun.v
CustodySystem.v
Duty.v
DutyInv.v
DutyStep.v
DutyRun.v
DutySystem.v
Plain.v
Tally.v
TallySystem.v
Sockets.v
Ref.v
Simulation.v
Samples.v
Races.v
Losses.v
Witnesses.v
