(* ===== verification/Prelude.v ===== *)
(** * Verification of the notification service

    This library models the Go program under [internal/] and [cmd/notifier] (a
    service that accepts notifications over HTTP, stores them in Postgres,
    queues them in Redis streams and delivers them through a webhook with
    retries) and proves what makes it correct.

    ** How the program is modelled

    Every function of the program that calls its surroundings is a [prog A]
    (Effects.v): a tree of effects, one for each call of Postgres, Redis, the
    HTTP client, a WebSocket connection, the clock, the UUID generator, the
    context, a metric, or a critical section under a lock. It is written in the
    order of the Go code, with its branches and early returns. A Go [(T, error)]
    is a [result error T]; a lone [error] an [option error]; errors keep the
    tree of their [fmt.Errorf] wrapping, so that [errors.Is] and the error's text
    are functions on them. [int] arithmetic that can wrap is [wrap64];
    [math.Pow] and the conversion to [time.Duration] are binary64 (GoLib.v).
    Channels, priorities and statuses are strings, as in Go, so that the values
    outside the constants exist in the model as well.

    The surroundings are not under [src/], so they are a parameter: the class
    [Services] gives a relation between an effect, the state before, the answer
    and the state after, and [ServicesOk] states what the program relies on, one
    law for each. They are the documented behaviour of the servers: what a
    statement of the SQL the repositories build does to tables with the
    constraints of the migrations (Sql.v; failing at any time, and free in all
    orders the statement leaves open; rows that other sessions hold locked,
    [db_locked], are what SKIP LOCKED skips; a stream of rows may break off, and
    its statement may be undone then, [broken_off]), what each Redis command does
    to streams, consumer groups, sorted sets and expiring keys (Redis.v; failing
    before or after it took effect), that the clock does not run backwards, and
    so on. go-redis sends a command again when its answer is lost or late, three
    times as main leaves it ([MaxRetries]): the law of Redis allows that many
    sendings without an answer before the one that is answered, each of which
    may have taken effect, all at one instant of an interleaving ([resent_doc]).
    Theorems about what is in the queue exactly have the hypothesis that the
    client sends nothing again, the class [SentOnce]; it holds if [MaxRetries] is
    switched off, which main does not do (Losses has a run in which it matters).
    UUID text,
    [text/template], the tag validator, [mail.ParseAddress], RFC 3339 texts and
    JSON decoding are further class parameters. Ref.v has a deterministic
    implementation that satisfies the laws; Samples.v instances of the others.

    [exec p w tr a w'] is a run of a program alone, with the trace [tr] of its
    effects and their answers; [interleaves] (Interleave.v) is a run of any
    number of goroutines, one effect of one of them at a time. A run is
    [fault_free] when no answer reports that a server failed: no error of
    Postgres other than a unique violation, no error of Redis. Theorems without
    that hypothesis hold whatever the servers answer. A transaction is a handle
    of the driver's, never given twice ([tx_begin]).

    ** The parts

    - Prelude, GoLib: results, lists, strings; what the program uses of Go.
    - Domain (internal/domain): the types, their constants, the errors.
    - Retry (internal/delivery/retry.go): [Backoff], [RetryAt], [ShouldRetry].
    - Sql, SqlFacts, Redis, RedisFacts, Effects, Discipline, Frames: the
      surroundings, programs and the rules to reason about them. [only P p] says
      that every effect in the text of [p] satisfies [P].
    - NotificationRepo (repository/notification.go): one program per method,
      with the same statements, placeholders and scans. NotificationStore is the
      abstract store (a finite map from ids to notifications, [Module Spec], and
      [abs], which reads it off the tables); NotificationSpec, Listing,
      Releasing, Batches and Attempts prove each method against it, Simulation
      all of them together. Typed: what the schema makes of the rows.
    - Queue (internal/queue): producer, consumer, dead-letter queue. QueueSpec,
      Groups (consumer groups, claiming, dead letters) and QueueSim: the abstract
      queue of lanes and delayed retries.
    - RateLimit (internal/ratelimit): the Lua script as a function on Redis.
    - Delivery (internal/delivery): the three providers; DeliverySpec: the class
      [ProviderOk] through which the dispatcher knows them, and the class
      [Webhook] of what is posted where.
    - Hub (internal/api/websocket): subscribers by reference, critical sections
      under the lock; HubSpec: its invariant.
    - Worker (internal/worker): dispatcher, delayed retries, scheduler.
      WorkerSpec, Lifecycle, SchedulerSpec, MemberSpec, RateLimitSpec: what they
      do to the abstract store and queue. Draining, Retrying, Journey: what a
      worker and the processor of retries bring to an end together.
    - Validator, Contents (internal/validator): tags as data, content checks.
    - Templates (repository/template.go, service/template.go); TemplateSpec and
      TemplateSim: the abstract store of templates.
    - Service (service/notification.go); ServiceSpec: the outcome of a request.
    - Api (internal/api): handlers, error mapping, middleware, router; ApiSpec,
      Answers, Paging, Routing.
    - Wiring, Boot, Consuming (internal/config, internal/tracing,
      cmd/notifier/main.go, api/server.go, worker/pool.go): the parts as [run]
      builds them, starting up and ending, goroutines.
    - Interleave, History, System, Running: the invariants of all interleavings
      of the process's goroutines. Shutdown: what is left of a worker once the
      context has ended, and of its messages. [main_threads] has the interval of
      the scheduler as it is configured; a goroutine that panics goes no further
      there (in Go it ends the process, which is the interleaving in which no
      other goroutine goes on either). Races: interleavings that break what one
      would expect, as closed runs.
    - Custody to CustodySystem: who is to go on with a notification, over all
      interleavings. Custody says what a goroutine has in hand after each effect
      (a ghost of the model, [Ghost]; not of the program) and what it may do
      then; CustodyStore what the statements do to attempts and schedules;
      CustodyInv the invariant, that a notification is in one place at a time;
      CustodyStep that every allowed effect keeps it; CustodyRun and
      CustodySystem that the programs only have allowed effects.
    - Duty to DutySystem: who has to see a notification through, in the same
      way: what a goroutine owes ([Duty], a ghost as well), the invariant that
      every notification is cared for, and that effects and programs keep it as
      long as nothing fails. Ledger is what the two have in common: going
      through a program with an account, and an account for each goroutine of
      an interleaving; Aside collects the programs that touch neither.
    - Plain, Tally, TallySystem: how often a notification was sent, in the same
      way: a goroutine's account of attempts counted and calls made, the books
      of all goroutines together. Plain is the programs without either.
    - Sockets: what becomes of WebSockets behind the router and Logging.
    - Losses: how a notification is lost or is in two places, as closed runs.
    - Ref, Samples, Witnesses: the theorems at work on concrete runs.

    ** What is shown

    - The data: the repository refines the abstract store, call by call and in
      sequence, under every fault it is all or nothing (C1, C2); the same for
      templates, but that a listing may be cut short (C23); attempts are a log that is read back (C33); the listing,
      followed by its cursors, is complete (C25).
    - Liveness: an accepted notification comes to an end
      (C8), as does every queued one
      (C16); a worker empties the queue (C17).
    - Delivery: how the processing of a message ends (C7), how often a
      notification can be posted (C38 for one
      worker, C6 for the process), the exact backoff (C28), the limiter's
      window, as far as the clocks agree (C24), what a provider posts (C30) and what the
      process as main wires it does with a message (C9), what the
      scheduler and the processor
      of retries do (C21, C22), the queue as a refinement, commands sent again included (C20), and its
      round trips (C39, C35).
    - The API: creating one or many (C18, C19), error statuses (C26, C27), reads
      change nothing (C36), validation (C29), router (C37),
      query texts ([filter_roundtrip] of Paging), WebSocket updates (C31,
      of the hub alone: behind the router no handshake succeeds, C32).
    - The process: schema, streams and hub stay well-formed under every
      interleaving and fault, and nothing panics but the scheduler of an interval
      that is not positive (C10), notifications are never lost or
      rewritten (C12), messages stay until they are acknowledged (C13), what
      is stored is well-typed (C11), starting up (C34), and
      shutting down: every worker stops (C14).
    - Single custody: under every interleaving and every moment at
      which the process stops, a notification waits in one place at most, has
      an attempt left while it waits and never more attempts than its limit
      (C4), and no two goroutines go on with the same one (C5); for one
      process, as long as the Redis client sends nothing again, Redis answers the
      removals from the delayed set and the scheduler's rows do not break off,
      whatever else fails. Each of the three is needed (closed runs of Losses),
      and with two processes it does not hold ([retry_delivered_twice] of Races).
    - The webhook: under the same conditions, and as long as the counts of
      attempts are answered, every call of it is for a stored notification, and a
      notification is sent at most as often as it has attempts left, whatever else
      fails and whenever the process stops (C6).
    - Nothing lost: under every interleaving and every moment at which the
      process stops, every stored notification has its end recorded or is found
      where it waits (C3), as long as no server fails, the
      Redis client sends nothing again and the goroutines that move notifications
      without a message to acknowledge are at rest. That servers answer and that
      those goroutines rest is needed: closed runs of Losses end with a lost
      notification after a stop or a fault at the wrong moment.
    - What the code does not guarantee: races of the statuses and a retry that
      two processes deliver twice (closed runs of Races), messages in flight that no later process takes
      up (C15). Also [limiter_same_draw] of RateLimitSpec, a limiter that is
      passed with equal draws; a notification the scheduler leaves behind
      (C40); [unknown_status_is_500] of ApiSpec,
      a client's mistake answered as a server error.

    ** Bounds

    Loops that end only with the context ([Work], [ProcessDelayed], [Run], the
    WebSocket's reader) take the number of their rounds, over which theorems
    quantify. The wait for the rate limiter takes a fuel, and 21 turns are
    proved to be enough (50 ms each, for a window of one second). All other
    recursion is structural; a client that follows cursors needs one request
    for each notification at most.

    ** Not modelled

    Spans and logging output, the metrics page (written by the Prometheus
    library; the counters' increments are effects that change none of the
    state), the listening socket (net/http; how it ends is a parameter), what
    the migration runner executes (the schema it creates is Sql.v's). The
    environment's parser, the tracing exporter and the pool's
    constructor are parameters ([Platform], Boot.v). An answer of a server that
    never comes blocks a goroutine; that is an interleaving in which it takes no
    further step. *)

From stdpp Require Export base tactics list strings pretty gmap sorting.
From Stdlib Require Export ZArith Lia.

#[global] Open Scope Z_scope.
#[global] Set Default Goal Selector "!".
#[global] Set Warnings "-clear-no-such-hyp".

(** Notations of the development live in a scope of their own. *)
Declare Scope notifier_scope.
Delimit Scope notifier_scope with notifier.
#[global] Open Scope notifier_scope.

(** The development's hint databases: [notifier] resolves side conditions,
    [notifier_rw] normalises lookups and monadic binds. *)
Create HintDb notifier discriminated.
Create HintDb notifier_rw.

(** ** Results of fallible Go functions

    A Go function returning [(T, error)] is a [result E T]; one returning only
    [error] is an [option E]. *)
Inductive result (E A : Type) : Type :=
  | Ok (a : A)
  | Er (e : E).
Arguments Ok {E A} a.
Arguments Er {E A} e.

Definition is_ok {E A} (r : result E A) : bool :=
  match r with Ok _ => true | Er _ => false end.

(** ** Tactics *)

(** Split a boolean conjunction or disjunction in the hypotheses. *)
Ltac bool_hyps :=
  repeat match goal with
  | H : _ && _ = true |- _ => apply andb_true_iff in H as [? ?]
  | H : _ || _ = false |- _ => apply orb_false_iff in H as [? ?]
  | H : negb _ = true |- _ => apply negb_true_iff in H
  | H : negb _ = false |- _ => apply negb_false_iff in H
  | H : bool_decide _ = true |- _ => apply bool_decide_eq_true in H
  | H : bool_decide _ = false |- _ => apply bool_decide_eq_false in H
  | H : (_ =? _)%string = true |- _ => apply String.eqb_eq in H
  | H : (_ =? _)%string = false |- _ => apply String.eqb_neq in H
  end.

(** Case on the innermost [match] or [if] of the goal, remembering the case. *)
Ltac case_goal :=
  match goal with
  | |- context [match ?x with _ => _ end] =>
      lazymatch x with
      | context [match _ with _ => _ end] => fail
      | _ => destruct x eqn:?
      end
  end.

(** ** Lists *)

Lemma take_drop_nil {A} (n : nat) (l : list A) :
  drop n l = [] ↔ (length l ≤ n)%nat.
Proof.
  split; intros H.
  - apply (f_equal length) in H. rewrite length_drop in H. cbn in H. lia.
  - by apply drop_ge.
Qed.

Lemma last_take_S {A} (n : nat) (l : list A) (x : A) :
  l !! n = Some x → last (take (S n) l) = Some x.
Proof.
  intros H. rewrite (take_S_r _ _ _ H). by rewrite last_snoc.
Qed.

(** Sorting a list and filtering it commute, up to the sorted order, for a
    total order on the elements of the list. *)
Lemma filter_sorted {A} (R : relation A) (P : A → Prop) `{!∀ x, Decision (P x)} (l : list A) :
  StronglySorted R l → StronglySorted R (filter P l).
Proof.
  induction 1 as [|x l Hs IH Hx]; [constructor|].
  rewrite filter_cons. case_decide; [|done].
  constructor; [done|].
  rewrite Forall_forall in Hx |- *. intros y Hy.
  apply Hx. by apply list_elem_of_filter in Hy as [_ ?].
Qed.

Lemma filter_none {A} (P : A → Prop) `{!∀ x, Decision (P x)} (l : list A) :
  Forall (λ x, ¬ P x) l → filter P l = [].
Proof.
  induction 1 as [|x l Hx _ IH]; [done|]. by rewrite filter_cons_False.
Qed.

Lemma filter_id {A} (P : A → Prop) `{!∀ x, Decision (P x)} (l : list A) :
  Forall P l → filter P l = l.
Proof.
  induction 1 as [|x l Hx _ IH]; [done|]. by rewrite filter_cons_True, IH.
Qed.

(** Filtering twice, the second test implying the first. *)
Lemma filter_filter_imp {A} (P Q R : A → Prop) `{!∀ x, Decision (P x)}
    `{!∀ x, Decision (Q x)} `{!∀ x, Decision (R x)} (l : list A) :
  (∀ x, R x ↔ Q x ∧ P x) → filter R l = filter Q (filter P l).
Proof.
  intros HR. induction l as [|x l IH]; [done|]. rewrite !filter_cons. pose proof (HR x) as Hx.
  destruct (decide (P x)), (decide (R x)); rewrite ?filter_cons, ?IH; repeat case_decide;
    tauto || done.
Qed.

(** A permutation of one of two related lists permutes the other. *)
Lemma Forall2_perm_l {A B} (P : A → B → Prop) (l l' : list A) (k : list B) :
  l ≡ₚ l' → Forall2 P l k → ∃ k', k' ≡ₚ k ∧ Forall2 P l' k'.
Proof.
  intros Hp. revert k. induction Hp as [|x l l' Hp IH|x y l|l l' l'' Hp1 IH1 Hp2 IH2]; intros k H.
  - by exists k.
  - apply Forall2_cons_inv_l in H as (b & k1 & Hb & H & ->).
    destruct (IH _ H) as (k' & ? & ?). exists (b :: k'). split; [by f_equiv|by constructor].
  - apply Forall2_cons_inv_l in H as (b & k1 & Hb & H & ->).
    apply Forall2_cons_inv_l in H as (c & k2 & Hc & H & ->).
    exists (c :: b :: k2). split; [apply Permutation_swap|by repeat constructor].
  - destruct (IH1 _ H) as (k' & Hk & H'). destruct (IH2 _ H') as (k'' & Hk' & H'').
    exists k''. split; [by etrans|done].
Qed.

Lemma mapM_app_option {A B} (f : A → option B) (l k : list A) :
  mapM f (l ++ k) = x ← mapM f l; y ← mapM f k; Some (x ++ y).
Proof.
  induction l as [|a l IH]; cbn; [by destruct (mapM f k)|].
  destruct (f a); cbn; [|done]. rewrite IH. by destruct (mapM f l), (mapM f k).
Qed.
