(* ===== verification/GoLib.v ===== *)
(** * The parts of Go and its standard library the service uses

    Machine integers, UUID values and the UUID package's text form, the
    [strings] functions, formatting of integers, and the binary64 arithmetic
    behind [math.Pow] and the conversion to [time.Duration]. *)

From Corelib Require Import SpecFloat.
From stdpp Require Import countable proof_irrel.
From Stdlib Require Import Ascii.
From S2P Require Import Prelude.

(** ** Machine integers *)

(** Two's complement wrap-around at [w] bits. *)
Definition wrapw (w z : Z) : Z :=
  let m := 2 ^ w in
  let r := z mod m in
  if r <? 2 ^ (w - 1) then r else r - m.

(** Go's [int] is 64 bits wide on the platforms the service targets. *)
Definition wrap64 (z : Z) : Z := wrapw 64 z.
Definition int_max : Z := 2 ^ 63 - 1.
Definition int_min : Z := - 2 ^ 63.

Definition int64_range (z : Z) : Prop := int_min ≤ z ≤ int_max.

Lemma wrapw_id w z : 0 < w → - 2 ^ (w - 1) ≤ z < 2 ^ (w - 1) → wrapw w z = z.
Proof.
  intros Hw Hz. unfold wrapw.
  assert (H2 : 2 ^ w = 2 * 2 ^ (w - 1)).
  { rewrite <- Z.pow_succ_r by lia. f_equal. lia. }
  destruct (decide (0 ≤ z)) as [Hp|Hn].
  - rewrite Z.mod_small by lia.
    destruct (Z.ltb_spec z (2 ^ (w - 1))); lia.
  - assert (Hm : z mod 2 ^ w = z + 2 ^ w).
    { symmetry. apply Z.mod_unique_pos with (q := -1); lia. }
    rewrite Hm. destruct (Z.ltb_spec (z + 2 ^ w) (2 ^ (w - 1))); lia.
Qed.

Lemma wrap64_id z : int64_range z → wrap64 z = z.
Proof.
  unfold int64_range, int_min, int_max, wrap64. intros H.
  apply wrapw_id; [lia|].
  change (64 - 1) with 63. lia.
Qed.

(** ** UUID values

    [type UUID [16]byte]: a 128-bit value, read big-endian. *)
Record UUID := mkUUID { uuid_n : N; uuid_bound : (uuid_n <? 2 ^ 128)%N = true }.

Lemma uuid_eq (u v : UUID) : uuid_n u = uuid_n v → u = v.
Proof.
  destruct u as [m Hm], v as [n Hn]. cbn. intros ->.
  f_equal. apply proof_irrel.
Qed.

#[export] Instance UUID_eq_dec : EqDecision UUID.
Proof.
  refine (λ u v, cast_if (decide (uuid_n u = uuid_n v))).
  - by apply uuid_eq.
  - by intros ->.
Defined.

(** The 128 low bits of a number, as a UUID. *)
Definition uuid_of_N (n : N) : UUID.
Proof.
  refine (mkUUID (n mod 2 ^ 128) _).
  apply N.ltb_lt. by apply N.mod_lt.
Defined.

Lemma uuid_of_N_n (u : UUID) : uuid_of_N (uuid_n u) = u.
Proof.
  apply uuid_eq. cbn [uuid_n uuid_of_N].
  apply N.mod_small. apply N.ltb_lt, uuid_bound.
Qed.

#[export] Program Instance UUID_countable : Countable UUID :=
  inj_countable uuid_n (λ n, Some (uuid_of_N n)) _.
Next Obligation. intros u. cbn. by rewrite uuid_of_N_n. Qed.

Definition uuid_Nil : UUID := uuid_of_N 0.

(** The text form of the UUID package (github.com/google/uuid), a parameter:
    [String] and [Parse], with what the service relies on. *)
Class UuidText := {
  uuid_String : UUID → string;
  uuid_Parse : string → option UUID;
  (* the value returned along with the error, when [Parse] fails *)
  uuid_Parse_junk : string → UUID;
}.

(** Documented: [Parse] reads back what [String] prints, and the text form
    (hexadecimal digits and dashes) holds no colon and is not empty. *)
Class UuidTextOk (T : UuidText) := {
  uuid_Parse_String u : uuid_Parse (uuid_String u) = Some u;
  uuid_String_colon u : ":"%char ∉ String.list_ascii_of_string (uuid_String u);
  uuid_String_nonempty u : uuid_String u ≠ "";
}.

(** ** Strings *)

(** The suffix of [s] after [p], when [p] is a prefix of [s]. *)
Fixpoint strip_prefix (p s : string) : option string :=
  match p, s with
  | EmptyString, _ => Some s
  | String a p', String b s' => if Ascii.eqb a b then strip_prefix p' s' else None
  | String _ _, EmptyString => None
  end.

(** [strings.Contains]. *)
Fixpoint strings_Contains (s sub : string) : bool :=
  match strip_prefix sub s with
  | Some _ => true
  | None => match s with
            | EmptyString => false
            | String _ s' => strings_Contains s' sub
            end
  end.

(** [strings.Join]. *)
Fixpoint strings_Join (l : list string) (sep : string) : string :=
  match l with
  | [] => ""
  | [x] => x
  | x :: l' => x +:+ sep +:+ strings_Join l' sep
  end.

(** [len(s)]: the number of bytes. *)
Definition len (s : string) : Z := Z.of_nat (String.length s).

Definition bytes (l : list N) : string :=
  String.string_of_list_ascii (map ascii_of_N l).

(** The UTF-8 encodings of the code points for which [unicode.IsSpace] holds:
    tab to carriage return, space, U+0085, U+00A0, U+1680, U+2000 to U+200A,
    U+2028, U+2029, U+202F, U+205F and U+3000. *)
Definition space_runes : list string :=
  map bytes
    ([[9]; [10]; [11]; [12]; [13]; [32]; [194; 133]; [194; 160]; [225; 154; 128];
      [226; 128; 128]; [226; 128; 129]; [226; 128; 130]; [226; 128; 131];
      [226; 128; 132]; [226; 128; 133]; [226; 128; 134]; [226; 128; 135];
      [226; 128; 136]; [226; 128; 137]; [226; 128; 138]; [226; 128; 168];
      [226; 128; 169]; [226; 128; 175]; [226; 129; 159]; [227; 128; 128]])%N.

(** Drop one leading rune of the list, if there is one. *)
Fixpoint strip_rune (runes : list string) (s : string) : option string :=
  match runes with
  | [] => None
  | r :: runes' => match strip_prefix r s with
                   | Some s' => Some s'
                   | None => strip_rune runes' s
                   end
  end.

(** Drop leading runes of the list; each costs at least a byte, so the length
    of the string is enough fuel. *)
Fixpoint trim_left_fuel (fuel : nat) (runes : list string) (s : string) : string :=
  match fuel with
  | O => s
  | S fuel' => match strip_rune runes s with
               | Some s' => trim_left_fuel fuel' runes s'
               | None => s
               end
  end.

Definition string_rev (s : string) : string :=
  String.string_of_list_ascii (rev (String.list_ascii_of_string s)).

(** [strings.TrimSpace]: the leading spaces, then the trailing ones (read
    backwards, a rune's bytes are reversed). *)
Definition strings_TrimSpace (s : string) : string :=
  let l := trim_left_fuel (String.length s) space_runes s in
  string_rev (trim_left_fuel (String.length l) (map string_rev space_runes) (string_rev l)).

(** [fmt]'s [%d]. *)
Definition fmt_d (z : Z) : string := pretty z.

(** ** Time *)

(** Instants and durations are numbers of nanoseconds. *)
Definition time_Millisecond : Z := 10 ^ 6.
Definition time_Second : Z := 10 ^ 9.
Definition time_Minute : Z := 60 * time_Second.

(** [t.UnixMilli()]. *)
Definition UnixMilli (t : Z) : Z := t / 10 ^ 6.

(** [t.Format(time.RFC3339)] of a local time, a parameter: the text depends on
    the time zone of the process. *)
Class TimeText := { Format_RFC3339 : Z → string }.

(** ** binary64 *)

Definition f64 : Type := spec_float.

Definition f64_of_Z (z : Z) : f64 := binary_normalize 53 1024 z 0 false.
Definition f64_mul (x y : f64) : f64 := SFmul 53 1024 x y.
Definition f64_gtb (x y : f64) : bool :=
  match SFcompare x y with Some Gt => true | _ => false end.

(** [math.Pow(2, float64(n))] for an integer [n]: the power is exact where
    binary64 has it (subnormals included), zero below and infinite above.
    (Rounding [n] to binary64 first cannot change the case.) *)
Definition math_Pow2 (n : Z) : f64 :=
  if n <? -1074 then S754_zero false
  else if n <? -1022 then S754_finite false (Z.to_pos (2 ^ (n + 1074))) (-1074)
  else if n <=? 1023 then S754_finite false (Z.to_pos (2 ^ 52)) (n - 52)
  else S754_infinity false.

(** The conversion [int64(x)]: truncation; what is not a finite number of the
    range converts to the value amd64 gives. *)
Definition f64_to_int64 (x : f64) : Z :=
  match x with
  | S754_zero _ => 0
  | S754_finite s m e =>
      let a := if 0 <=? e then Z.pos m * 2 ^ e else Z.pos m / 2 ^ (- e) in
      let v := if s then - a else a in
      if (int_min <=? v) && (v <=? int_max) then v else int_min
  | _ => int_min
  end.

