(* ===== verification/Domain.v ===== *)
(** * The domain types (internal/domain)

    Channels, priorities and statuses are Go strings with named constants, and
    so they are here: a value read from outside need not be one of the
    constants. Errors are values built from the sentinels of errors.go by
    [fmt.Errorf] wrapping. *)

From stdpp Require Import gmap.
From S2P Require Import Prelude GoLib.

(** ** Errors (errors.go) *)

Inductive Sentinel :=
  | ErrNotFound
  | ErrDuplicate
  | ErrIdempotencyConflict
  | ErrInvalidStatus
  | ErrCannotCancel
  | ErrBatchTooLarge
  | ErrInvalidChannel
  | ErrInvalidPriority
  | ErrTemplateRender
  | ErrRateLimited
  | ErrProviderFailure
  | ErrValidation.

#[export] Instance Sentinel_eq_dec : EqDecision Sentinel.
Proof. solve_decision. Defined.

Definition sentinel_text (s : Sentinel) : string :=
  match s with
  | ErrNotFound => "not found"
  | ErrDuplicate => "duplicate entry"
  | ErrIdempotencyConflict => "idempotency key already exists with different parameters"
  | ErrInvalidStatus => "invalid status transition"
  | ErrCannotCancel => "notification cannot be cancelled in current status"
  | ErrBatchTooLarge => "batch size exceeds maximum of 1000"
  | ErrInvalidChannel => "invalid channel"
  | ErrInvalidPriority => "invalid priority"
  | ErrTemplateRender => "template rendering failed"
  | ErrRateLimited => "rate limited"
  | ErrProviderFailure => "delivery provider failure"
  | ErrValidation => "validation error"
  end.

(** An error value: a sentinel, an error of a library (its text is all the
    service looks at), or [fmt.Errorf] of a format whose [%w] stands between
    the texts [pre] and [post]. *)
Inductive error :=
  | ESentinel (s : Sentinel)
  | EText (msg : string)
  | EWrap (pre : string) (inner : error) (post : string).

#[export] Instance error_eq_dec : EqDecision error.
Proof. solve_decision. Defined.

(** [err.Error()]. *)
Fixpoint Error (e : error) : string :=
  match e with
  | ESentinel s => sentinel_text s
  | EText m => m
  | EWrap pre e' post => pre +:+ Error e' +:+ post
  end.

(** [errors.Is(err, s)]: [s] is in the chain of wrapped errors. *)
Fixpoint errors_Is (e : error) (s : Sentinel) : bool :=
  match e with
  | ESentinel s' => bool_decide (s' = s)
  | EText _ => false
  | EWrap _ e' _ => errors_Is e' s
  end.

(** The sentinel at the end of the chain, if there is one. *)
Fixpoint root_sentinel (e : error) : option Sentinel :=
  match e with
  | ESentinel s => Some s
  | EText _ => None
  | EWrap _ e' _ => root_sentinel e'
  end.

Lemma errors_Is_root e s : errors_Is e s = bool_decide (root_sentinel e = Some s).
Proof.
  induction e as [s'|m|pre e IH post]; cbn; [|done|done].
  by apply bool_decide_ext; split; [intros ->|intros [=]].
Qed.

(** ** Channels, priorities, statuses (notification.go) *)

Definition Channel : Type := string.
Definition ChannelSMS : Channel := "sms".
Definition ChannelEmail : Channel := "email".
Definition ChannelPush : Channel := "push".

Definition Channel_Valid (c : Channel) : bool :=
  (c =? ChannelSMS)%string || (c =? ChannelEmail)%string || (c =? ChannelPush)%string.

Definition Priority : Type := string.
Definition PriorityHigh : Priority := "high".
Definition PriorityNormal : Priority := "normal".
Definition PriorityLow : Priority := "low".

Definition Priority_Valid (p : Priority) : bool :=
  (p =? PriorityHigh)%string || (p =? PriorityNormal)%string || (p =? PriorityLow)%string.

Definition StreamKey (p : Priority) : string := "notifications:" +:+ p.

Definition Status : Type := string.
Definition StatusPending : Status := "pending".
Definition StatusScheduled : Status := "scheduled".
Definition StatusQueued : Status := "queued".
Definition StatusProcessing : Status := "processing".
Definition StatusDelivered : Status := "delivered".
Definition StatusFailed : Status := "failed".
Definition StatusCancelled : Status := "cancelled".

(** ** Records *)

(** Pointers of the structs are options ([nil] is [None]); a Go map of the
    struct is an optional finite map. *)
Definition Vars : Type := option (gmap string string).

Record Notification := mkNotification {
  n_ID : UUID;
  n_IdempotencyKey : string;
  n_BatchID : option UUID;
  n_Channel : Channel;
  n_Priority : Priority;
  n_Recipient : string;
  n_Subject : string;
  n_Body : string;
  n_TemplateID : option UUID;
  n_TemplateVars : Vars;
  n_Status : Status;
  n_ScheduledAt : option Z;
  n_AttemptCount : Z;
  n_MaxRetries : Z;
  n_LastError : string;
  n_DeliveredAt : option Z;
  n_CreatedAt : Z;
  n_UpdatedAt : Z;
}.

Record CreateNotificationRequest := mkCreateReq {
  r_IdempotencyKey : string;
  r_Channel : Channel;
  r_Priority : Priority;
  r_Recipient : string;
  r_Subject : string;
  r_Body : string;
  r_TemplateID : option UUID;
  r_TemplateVars : Vars;
  r_ScheduledAt : option Z;
  r_MaxRetries : option Z;
}.

(** The slice may be [nil]. *)
Record BatchCreateRequest := mkBatchReq {
  b_Notifications : option (list CreateNotificationRequest);
}.

Record Cursor := mkCursor { c_CreatedAt : Z; c_ID : UUID }.

Record NotificationFilter := mkFilter {
  f_Status : option Status;
  f_Channel : option Channel;
  f_BatchID : option UUID;
  f_Cursor : option Cursor;
  f_Limit : Z;
}.

Record NotificationList := mkList {
  l_Notifications : list Notification;
  l_NextCursor : option Cursor;
}.

Record DeliveryAttempt := mkAttempt {
  a_ID : UUID;
  a_NotificationID : UUID;
  a_AttemptNumber : Z;
  a_StatusCode : Z;
  a_ResponseBody : string;
  a_Error : string;
  a_DurationMs : Z;
  a_CreatedAt : Z;
}.

(** template.go *)
Record Template := mkTemplate {
  t_ID : UUID;
  t_Name : string;
  t_Channel : Channel;
  t_Subject : string;
  t_Body : string;
  t_CreatedAt : Z;
  t_UpdatedAt : Z;
}.

Record CreateTemplateRequest := mkCreateTemplateReq {
  ct_Name : string;
  ct_Channel : Channel;
  ct_Subject : string;
  ct_Body : string;
}.

Record UpdateTemplateRequest := mkUpdateTemplateReq {
  ut_Name : option string;
  ut_Channel : option Channel;
  ut_Subject : option string;
  ut_Body : option string;
}.

(** ** Field assignments of a notification *)

Definition set_ident (i : UUID) (c u : Z) (n : Notification) : Notification :=
  let (_, k, b, ch, p, rc, sb, bd, ti, tv, st, sa, ac, mr, le, da, _, _) := n in
  mkNotification i k b ch p rc sb bd ti tv st sa ac mr le da c u.

Definition set_content (sb bd : string) (n : Notification) : Notification :=
  let (i, k, b, ch, p, rc, _, _, ti, tv, st, sa, ac, mr, le, da, c, u) := n in
  mkNotification i k b ch p rc sb bd ti tv st sa ac mr le da c u.

Definition set_Status (st : Status) (n : Notification) : Notification :=
  let (i, k, b, ch, p, rc, sb, bd, ti, tv, _, sa, ac, mr, le, da, c, u) := n in
  mkNotification i k b ch p rc sb bd ti tv st sa ac mr le da c u.

Definition set_ScheduledAt (sa : option Z) (n : Notification) : Notification :=
  let (i, k, b, ch, p, rc, sb, bd, ti, tv, st, _, ac, mr, le, da, c, u) := n in
  mkNotification i k b ch p rc sb bd ti tv st sa ac mr le da c u.

Definition set_AttemptCount (ac : Z) (n : Notification) : Notification :=
  let (i, k, b, ch, p, rc, sb, bd, ti, tv, st, sa, _, mr, le, da, c, u) := n in
  mkNotification i k b ch p rc sb bd ti tv st sa ac mr le da c u.

Definition set_MaxRetries (mr : Z) (n : Notification) : Notification :=
  let (i, k, b, ch, p, rc, sb, bd, ti, tv, st, sa, ac, _, le, da, c, u) := n in
  mkNotification i k b ch p rc sb bd ti tv st sa ac mr le da c u.

Definition set_LastError (le : string) (n : Notification) : Notification :=
  let (i, k, b, ch, p, rc, sb, bd, ti, tv, st, sa, ac, mr, _, da, c, u) := n in
  mkNotification i k b ch p rc sb bd ti tv st sa ac mr le da c u.

Definition set_DeliveredAt (da : option Z) (n : Notification) : Notification :=
  let (i, k, b, ch, p, rc, sb, bd, ti, tv, st, sa, ac, mr, le, _, c, u) := n in
  mkNotification i k b ch p rc sb bd ti tv st sa ac mr le da c u.

Definition set_UpdatedAt (u : Z) (n : Notification) : Notification :=
  let (i, k, b, ch, p, rc, sb, bd, ti, tv, st, sa, ac, mr, le, da, c, _) := n in
  mkNotification i k b ch p rc sb bd ti tv st sa ac mr le da c u.

(** ** Facts *)

Lemma Channel_Valid_spec c :
  Channel_Valid c = true ↔ c ∈ [ChannelSMS; ChannelEmail; ChannelPush].
Proof.
  unfold Channel_Valid. rewrite !orb_true_iff, !String.eqb_eq.
  rewrite !elem_of_cons, elem_of_nil. tauto.
Qed.

Lemma Priority_Valid_spec p :
  Priority_Valid p = true ↔ p ∈ [PriorityHigh; PriorityNormal; PriorityLow].
Proof.
  unfold Priority_Valid. rewrite !orb_true_iff, !String.eqb_eq.
  rewrite !elem_of_cons, elem_of_nil. tauto.
Qed.

#[export] Instance StreamKey_inj : Inj (=) (=) StreamKey.
Proof. intros p q H. unfold StreamKey in H. by simplify_eq. Qed.
