(* ===== verification/Retry.v ===== *)
(** * The retry policy (internal/delivery/retry.go)

    [Backoff] computes in binary64 as the code does; the theorems give its
    exact integer value for every [int] argument. *)

From Corelib Require Import SpecFloat.
From S2P Require Import Prelude GoLib Domain.

(** ** Definitions *)

(** [func Backoff(attempt int) time.Duration]. *)
Definition Backoff (attempt : Z) : Z :=
  let base := f64_of_Z time_Second in
  let delay := f64_mul base (math_Pow2 attempt) in
  let maxDelay := f64_of_Z (5 * time_Minute) in
  let delay := if f64_gtb delay maxDelay then maxDelay else delay in
  f64_to_int64 delay.

(** [func RetryAt(attempt int) time.Time], at the instant [now]. *)
Definition RetryAt (now attempt : Z) : Z := now + Backoff attempt.

(** [func ShouldRetry(attemptCount, maxRetries int) bool]. *)
Definition ShouldRetry (attemptCount maxRetries : Z) : bool := attemptCount <? maxRetries.

(** ** The exact value of the backoff *)

(** The reference: whole nanoseconds of [1s * 2^attempt], at most five minutes. *)
Definition backoff_ref (attempt : Z) : Z :=
  if 0 <=? attempt then Z.min (time_Second * 2 ^ attempt) (5 * time_Minute)
  else time_Second / 2 ^ (- attempt).

(** Inside the exponent range of binary64 the equality is computed. *)
Lemma Backoff_in_range n : -1100 ≤ n < 1100 → Backoff n = backoff_ref n.
Proof.
  intros H.
  assert (Hall : forallb (λ i, Backoff (Z.of_nat i - 1100) =? backoff_ref (Z.of_nat i - 1100))
                         (List.seq 0 2200) = true) by (vm_compute; reflexivity).
  rewrite forallb_forall in Hall.
  specialize (Hall (Z.to_nat (n + 1100))).
  replace (Z.of_nat (Z.to_nat (n + 1100)) - 1100) with n in Hall by lia.
  apply Z.eqb_eq, Hall, in_seq. lia.
Qed.

Lemma Backoff_overflow n : 1024 ≤ n → Backoff n = 5 * time_Minute.
Proof.
  intros H. unfold Backoff, math_Pow2.
  destruct (Z.ltb_spec n (-1074)); [lia|].
  destruct (Z.ltb_spec n (-1022)); [lia|].
  destruct (Z.leb_spec n 1023); [lia|].
  vm_compute. reflexivity.
Qed.

Lemma Backoff_underflow n : n < -1074 → Backoff n = 0.
Proof.
  intros H. unfold Backoff, math_Pow2.
  destruct (Z.ltb_spec n (-1074)); [|lia].
  vm_compute. reflexivity.
Qed.

Lemma backoff_ref_capped n : 9 ≤ n → backoff_ref n = 5 * time_Minute.
Proof.
  intros H. unfold backoff_ref.
  destruct (Z.leb_spec 0 n); [|lia].
  apply Z.min_r.
  assert (2 ^ 9 ≤ 2 ^ n) by (apply Z.pow_le_mono_r; lia).
  unfold time_Minute, time_Second. lia.
Qed.

Lemma backoff_ref_vanishes n : n ≤ -30 → backoff_ref n = 0.
Proof.
  intros H. unfold backoff_ref.
  destruct (Z.leb_spec 0 n); [lia|].
  assert (2 ^ 30 ≤ 2 ^ (- n)) by (apply Z.pow_le_mono_r; lia).
  apply Z.div_small. unfold time_Second. lia.
Qed.

Lemma backoff_ref_bounds n : 0 ≤ backoff_ref n ≤ 5 * time_Minute.
Proof.
  unfold backoff_ref. destruct (Z.leb_spec 0 n).
  - split; [|apply Z.le_min_r].
    apply Z.min_glb; unfold time_Minute, time_Second; lia.
  - assert (1 ≤ 2 ^ (- n)) by (apply (Z.pow_le_mono_r 2 0); lia).
    split; [apply Z.div_pos; unfold time_Second; lia|].
    etransitivity; [apply Z.div_le_mono with (b := time_Second)|]; try reflexivity.
    all: unfold time_Minute, time_Second in *.
    + lia.
    + apply Z.div_le_upper_bound; lia.
Qed.

Lemma backoff_ref_mono m n : m ≤ n → backoff_ref m ≤ backoff_ref n.
Proof.
  intros H. unfold backoff_ref.
  destruct (Z.leb_spec 0 m), (Z.leb_spec 0 n); try lia.
  - apply Z.min_le_compat_r, Z.mul_le_mono_nonneg_l; [done|].
    apply Z.pow_le_mono_r; lia.
  - assert (1 ≤ 2 ^ (- m)) by (apply (Z.pow_le_mono_r 2 0); lia).
    assert (1 ≤ 2 ^ n) by (apply (Z.pow_le_mono_r 2 0); lia).
    assert (time_Second / 2 ^ (- m) ≤ time_Second).
    { apply Z.div_le_upper_bound; unfold time_Second; lia. }
    apply Z.min_glb; unfold time_Minute, time_Second in *; lia.
  - apply Z.div_le_compat_l; [done|].
    split; [apply Z.pow_pos_nonneg; lia|apply Z.pow_le_mono_r; lia].
Qed.

(** ** Theorems *)

Lemma Backoff_is_ref n : Backoff n = backoff_ref n.
Proof.
  destruct (decide (n < -1074)); [rewrite Backoff_underflow, backoff_ref_vanishes; lia|].
  destruct (decide (1024 ≤ n)); [rewrite Backoff_overflow, backoff_ref_capped; lia|].
  apply Backoff_in_range. lia.
Qed.

(** (C28) On every [int], [Backoff] is the whole number of nanoseconds of
    [1s * 2^attempt] capped at five minutes: the binary64 computation loses
    nothing, overflow to infinity included. So it never falls as attempts are
    made, a first retry waits two seconds and from the ninth attempt on it is
    the cap. *)
Theorem Backoff_exact :
  (∀ n, Backoff n = backoff_ref n) ∧ (∀ n, 0 ≤ Backoff n ≤ 5 * time_Minute) ∧
  (∀ m n, m ≤ n → Backoff m ≤ Backoff n) ∧
  Backoff 1 = 2 * time_Second ∧ (∀ n, Backoff n = 5 * time_Minute ↔ 9 ≤ n).
Proof.
  split_and!; [apply Backoff_is_ref| | |done|]; intros *; rewrite !Backoff_is_ref.
  - apply backoff_ref_bounds.
  - apply backoff_ref_mono.
  - split; [|apply backoff_ref_capped]. intros H. destruct (decide (9 ≤ n)) as [?|Hn]; [done|].
    assert (Hm : backoff_ref n ≤ backoff_ref 8) by (apply backoff_ref_mono; lia).
    rewrite H in Hm. by vm_compute in Hm.
Qed.
