(* ===== verification/Sql.v ===== *)
(** * The SQL the repositories send (internal/repository, migrations)

    Values, the schema of the migrations, the abstract syntax of the statements
    the repositories build (with their numbered placeholders), and the
    documented meaning of such a statement on the tables, as a relation: the
    server is free to fail, and to choose an order where the statement gives
    none. *)

From stdpp Require Import gmap.
From S2P Require Import Prelude GoLib.

(** ** Values and rows *)

(** A JSON document as far as [template_vars] needs it. *)
Inductive Json := JNull | JObj (m : gmap string string).

#[export] Instance Json_eq_dec : EqDecision Json.
Proof. solve_decision. Defined.

Inductive Val :=
  | VNull
  | VUuid (u : UUID)
  | VText (s : string)
  | VInt (z : Z)
  | VTime (t : Z)
  | VJson (j : Json).

#[export] Instance Val_eq_dec : EqDecision Val.
Proof. solve_decision. Defined.

(** A row without its [id], which is the key of its table. *)
Abbreviation Row := (gmap string Val).
Abbreviation Table := (gmap UUID Row).

(** ** The schema (migrations/001 to 003) *)

Inductive ColType :=
  | TUuid
  | TVarchar (n : Z)
  | TText
  | TInteger
  | TBigint
  | TJsonb
  | TTimestamptz
  | TEnum (labels : list string).

Record Column := mkCol { col_name : string; col_type : ColType; col_not_null : bool }.

Definition channel_type : ColType := TEnum ["sms"; "email"; "push"].
Definition priority_type : ColType := TEnum ["high"; "normal"; "low"].
Definition status_type : ColType :=
  TEnum ["pending"; "scheduled"; "queued"; "processing"; "delivered"; "failed"; "cancelled"].

Inductive TableName := Notifications | Templates | DeliveryAttempts.

#[export] Instance TableName_eq_dec : EqDecision TableName.
Proof. solve_decision. Defined.

Definition notifications_columns : list Column :=
  [ mkCol "idempotency_key" (TVarchar 255) false;
    mkCol "batch_id" TUuid false;
    mkCol "channel" channel_type true;
    mkCol "priority" priority_type true;
    mkCol "recipient" (TVarchar 500) true;
    mkCol "subject" (TVarchar 500) false;
    mkCol "body" TText true;
    mkCol "template_id" TUuid false;
    mkCol "template_vars" TJsonb false;
    mkCol "status" status_type true;
    mkCol "scheduled_at" TTimestamptz false;
    mkCol "attempt_count" TInteger true;
    mkCol "max_retries" TInteger true;
    mkCol "last_error" TText false;
    mkCol "delivered_at" TTimestamptz false;
    mkCol "created_at" TTimestamptz true;
    mkCol "updated_at" TTimestamptz true ].

Definition templates_columns : list Column :=
  [ mkCol "name" (TVarchar 255) true;
    mkCol "channel" channel_type true;
    mkCol "subject" (TVarchar 500) false;
    mkCol "body" TText true;
    mkCol "created_at" TTimestamptz true;
    mkCol "updated_at" TTimestamptz true ].

Definition delivery_attempts_columns : list Column :=
  [ mkCol "notification_id" TUuid true;
    mkCol "attempt_number" TInteger true;
    mkCol "status_code" TInteger false;
    mkCol "response_body" TText false;
    mkCol "error" TText false;
    mkCol "duration_ms" TBigint true;
    mkCol "created_at" TTimestamptz true ].

Definition columns (t : TableName) : list Column :=
  match t with
  | Notifications => notifications_columns
  | Templates => templates_columns
  | DeliveryAttempts => delivery_attempts_columns
  end.

(** The unique constraints besides the primary key: name and column. Rows with
    a NULL in the column do not conflict (the partial index, and SQL's rule). *)
Definition unique_constraints (t : TableName) : list (string * string) :=
  match t with
  | Notifications => [("idx_notifications_idempotency_key", "idempotency_key")]
  | Templates => [("templates_name_key", "name")]
  | DeliveryAttempts => []
  end.

Definition pkey (t : TableName) : string :=
  match t with
  | Notifications => "notifications_pkey"
  | Templates => "templates_pkey"
  | DeliveryAttempts => "delivery_attempts_pkey"
  end.

(** Foreign keys: column and the table it refers to. *)
Definition foreign_keys (t : TableName) : list (string * TableName) :=
  match t with
  | Notifications => [("template_id", Templates)]
  | Templates => []
  | DeliveryAttempts => [("notification_id", Notifications)]
  end.

(** The tables; and, as other sessions come and go, the rows of which they hold
    a lock, at each instant. *)
Record DB := mkDB {
  db_notifications : Table;
  db_templates : Table;
  db_attempts : Table;
  db_locked : Z → gset UUID;
}.

Definition table (t : TableName) (db : DB) : Table :=
  match t with
  | Notifications => db_notifications db
  | Templates => db_templates db
  | DeliveryAttempts => db_attempts db
  end.

Definition set_table (t : TableName) (m : Table) (db : DB) : DB :=
  match t with
  | Notifications => mkDB m (db_templates db) (db_attempts db) (db_locked db)
  | Templates => mkDB (db_notifications db) m (db_attempts db) (db_locked db)
  | DeliveryAttempts => mkDB (db_notifications db) (db_templates db) m (db_locked db)
  end.

(** ** Typing of values *)

(** The characters of UTF-8 text: the bytes that are not continuation bytes. *)
Fixpoint rune_count (s : string) : Z :=
  match s with
  | EmptyString => 0
  | String a s' =>
      let b := Ascii.N_of_ascii a in
      (if (128 <=? b)%N && (b <? 192)%N then 0 else 1) + rune_count s'
  end.

Definition int4_max : Z := 2 ^ 31 - 1.

(** The value a column of the type stores for a parameter, or a type error. A
    [timestamptz] keeps microseconds. *)
Definition coerce (ty : ColType) (v : Val) : option Val :=
  match ty, v with
  | TUuid, VUuid _ => Some v
  | TVarchar n, VText s => if rune_count s <=? n then Some v else None
  | TText, VText _ => Some v
  | TInteger, VInt z => if (- 2 ^ 31 <=? z) && (z <=? int4_max) then Some v else None
  | TBigint, VInt z => if (int_min <=? z) && (z <=? int_max) then Some v else None
  | TJsonb, VJson _ => Some v
  | TTimestamptz, VTime t => Some (VTime (t / 1000 * 1000))
  | TEnum ls, VText s => if bool_decide (s ∈ ls) then Some v else None
  | _, _ => None
  end.

Definition coerce_col (c : Column) (v : Val) : option Val :=
  match v with
  | VNull => if col_not_null c then None else Some VNull
  | _ => coerce (col_type c) v
  end.

Definition find_col (t : TableName) (name : string) : option Column :=
  List.find (λ c, (col_name c =? name)%string) (columns t).

(** The value of a column of a row, [id] included. *)
Definition col_val (id : UUID) (r : Row) (c : string) : Val :=
  if (c =? "id")%string then VUuid id else default VNull (r !! c).

(** ** Statements *)

Inductive Expr :=
  | EArg (k : nat)                        (* the placeholder [$k] *)
  | ELit (v : Val)
  | ENow                                  (* [NOW()] *)
  | EColPlus (c : string) (z : Z).        (* [c + z] *)

Inductive Cond :=
  | CEq (c : string) (e : Expr)                    (* [c = e] *)
  | CIn (c : string) (l : list string)             (* [c IN ('..', ..)] *)
  | CLe (c : string) (e : Expr)                    (* [c <= e] *)
  | CRowLt (c1 c2 : string) (e1 e2 : Expr).        (* [(c1, c2) < (e1, e2)] *)

Inductive Dir := Asc | Desc.

Inductive Stmt :=
  | SInsert (t : TableName) (cols : list string) (vals : list Expr)
  | SSelect (t : TableName) (cols : list string) (wh : list Cond)
      (ord : list (string * Dir)) (lim : option Expr)
  | SUpdate (t : TableName) (sets : list (string * Expr)) (wh : list Cond)
      (ret : list string)
  (* UPDATE t SET .. WHERE id IN (SELECT id FROM t WHERE .. ORDER BY ..
     LIMIT .. FOR UPDATE SKIP LOCKED) RETURNING .. *)
  | SUpdateIn (t : TableName) (sets : list (string * Expr)) (wh : list Cond)
      (ord : list (string * Dir)) (lim : Expr) (ret : list string)
  | SDelete (t : TableName) (wh : list Cond).

(** Errors of the driver: a [pgconn.PgError], with its code and constraint
    name, or any other error. *)
Inductive DbErr :=
  | DbPg (code constraint msg : string)
  | DbOther (msg : string).

Inductive PgRes :=
  | PgDone (affected : Z) (rows : list (list Val))
  | PgFail (e : DbErr).

(** ** Evaluation *)

(** [$k] is the [k]th argument, from 1. *)
Definition eval (args : list Val) (now : Z) (r : Row) (e : Expr) : option Val :=
  match e with
  | EArg O => None
  | EArg (S k) => args !! k
  | ELit v => Some v
  | ENow => Some (VTime now)
  | EColPlus c z => match r !! c with Some (VInt x) => Some (VInt (x + z)) | _ => None end
  end.

(** A condition whose expressions are evaluated, at the type of the column. *)
Inductive RCond :=
  | REq (c : string) (v : Val)
  | RIn (c : string) (l : list string)
  | RLe (c : string) (v : Val)
  | RRowLt (c1 c2 : string) (v1 v2 : Val).

Definition col_type_of (t : TableName) (c : string) : option ColType :=
  if (c =? "id")%string then Some TUuid else col_type <$> find_col t c.

Definition eval_at (t : TableName) (args : list Val) (now : Z) (c : string) (e : Expr)
    : option Val :=
  ty ← col_type_of t c;
  v ← eval args now ∅ e;
  match e with
  | EArg _ => coerce ty v
  | _ => Some v
  end.

Definition resolve (t : TableName) (args : list Val) (now : Z) (c : Cond) : option RCond :=
  match c with
  | CEq c e => REq c <$> eval_at t args now c e
  | CIn c l => Some (RIn c l)
  | CLe c e => RLe c <$> eval_at t args now c e
  | CRowLt c1 c2 e1 e2 =>
      v1 ← eval_at t args now c1 e1; v2 ← eval_at t args now c2 e2; Some (RRowLt c1 c2 v1 v2)
  end.

(** Comparison of two values of one type; NULL compares with nothing. Text is
    compared by the collation of the database, about which nothing is said. *)
Definition val_lt (x y : Val) : bool :=
  match x, y with
  | VInt a, VInt b | VTime a, VTime b => a <? b
  | VUuid u, VUuid v => (uuid_n u <? uuid_n v)%N
  | _, _ => false
  end.

Definition val_eq (x y : Val) : bool :=
  match x with VNull => false | _ => bool_decide (x = y) end.

Definition sat1 (id : UUID) (r : Row) (c : RCond) : bool :=
  match c with
  | REq c v => val_eq (col_val id r c) v
  | RIn c l => match col_val id r c with VText s => bool_decide (s ∈ l) | _ => false end
  | RLe c v => val_lt (col_val id r c) v || val_eq (col_val id r c) v
  | RRowLt c1 c2 v1 v2 =>
      val_lt (col_val id r c1) v1 ||
      (val_eq (col_val id r c1) v1 && val_lt (col_val id r c2) v2)
  end.

Definition sat (cs : list RCond) (id : UUID) (r : Row) : bool := forallb (sat1 id r) cs.

(** The rows of a table that satisfy the conditions. *)
Definition matching (cs : list RCond) (m : Table) : list (UUID * Row) :=
  filter (λ p, sat cs p.1 p.2 = true) (map_to_list m).

(** The order of [ORDER BY] on values: NULL is above everything; text follows
    the collation of the database, about which nothing is said. *)
Definition val_key (v : Val) : Z * Z :=
  match v with
  | VInt z => (0, z)
  | VTime t => (1, t)
  | VUuid u => (2, Z.of_N (uuid_n u))
  | VText _ => (3, 0)
  | VJson _ => (4, 0)
  | VNull => (5, 0)
  end.

Definition key_lt (a b : Z * Z) : bool := (a.1 <? b.1) || ((a.1 =? b.1) && (a.2 <? b.2)).

(** [p] may stand before [q]. *)
Fixpoint ord_le (ord : list (string * Dir)) (p q : UUID * Row) : bool :=
  match ord with
  | [] => true
  | (c, d) :: ord' =>
      let x := val_key (col_val p.1 p.2 c) in
      let y := val_key (col_val q.1 q.2 c) in
      let (lo, hi) := match d with Asc => (x, y) | Desc => (y, x) end in
      key_lt lo hi || (negb (key_lt hi lo) && ord_le ord' p q)
  end.

(** A sequence of rows the server may produce for the matching rows. *)
Definition ordered (ord : list (string * Dir)) (l m : list (UUID * Row)) : Prop :=
  l ≡ₚ m ∧ StronglySorted (λ p q, ord_le ord p q = true) l.

Definition limited (args : list Val) (now : Z) (lim : option Expr) (l l' : list (UUID * Row))
    : Prop :=
  match lim with
  | None => l' = l
  | Some e => ∃ n, eval args now ∅ e = Some (VInt n) ∧ 0 ≤ n ∧ l' = take (Z.to_nat n) l
  end.

Definition project (cols : list string) (p : UUID * Row) : list Val := col_val p.1 p.2 <$> cols.

(** The value of one [SET] or [VALUES] item, stored in its column. *)
Definition store (t : TableName) (args : list Val) (now : Z) (old : Row)
    (p : string * Expr) : option (string * Val) :=
  c ← find_col t p.1;
  v ← eval args now old p.2;
  w ← coerce_col c v;
  Some (p.1, w).

Definition set_all (kvs : list (string * Val)) (r : Row) : Row :=
  foldl (λ r kv, <[kv.1 := kv.2]> r) r kvs.

Definition update_row (t : TableName) (sets : list (string * Expr)) (args : list Val) (now : Z)
    (r : Row) : option Row :=
  kvs ← mapM (store t args now r) sets; Some (set_all kvs r).

(** The row of an INSERT: its first column is [id]; a column the statement
    does not name is NULL (no such column of the schema has another default
    the service relies on). *)
Definition insert_row (t : TableName) (cols : list string) (vals : list Expr) (args : list Val)
    (now : Z) : option (UUID * Row) :=
  match cols, vals with
  | "id" :: cols', e :: vals' =>
      match eval args now ∅ e with
      | Some (VUuid id) =>
          kvs ← mapM (store t args now ∅) (zip cols' vals'); Some (id, set_all kvs ∅)
      | _ => None
      end
  | _, _ => None
  end.

(** Update the rows of the list in the table. *)
Definition update_rows (t : TableName) (sets : list (string * Expr)) (args : list Val) (now : Z)
    (l : list (UUID * Row)) : option (list (UUID * Row)) :=
  mapM (λ p, r' ← update_row t sets args now p.2; Some (p.1, r')) l.

Definition put_rows (l : list (UUID * Row)) (m : Table) : Table :=
  foldl (λ m p, <[p.1 := p.2]> m) m l.

(** ** Constraints *)

Definition typed_row (t : TableName) (r : Row) : Prop :=
  Forall (λ c, coerce_col c (default VNull (r !! col_name c))
               = Some (default VNull (r !! col_name c))) (columns t).

Definition unique_on (c : string) (m : Table) : Prop :=
  map_Forall (λ i r, map_Forall (λ j r', i = j ∨ r !! c ≠ r' !! c
                                  ∨ default VNull (r !! c) = VNull) m) m.

Definition fk_ok (c : string) (m target : Table) : Prop :=
  map_Forall (λ _ r, match r !! c with
                     | Some (VUuid u) => is_Some (target !! u)
                     | _ => True
                     end) m.

Record table_ok (db : DB) (t : TableName) : Prop := {
  tok_typed : map_Forall (λ _ r, typed_row t r) (table t db);
  tok_unique : Forall (λ p, unique_on p.2 (table t db)) (unique_constraints t);
  tok_fk : Forall (λ p, fk_ok p.1 (table t db) (table p.2 db)) (foreign_keys t);
}.

(** Everything the schema declares holds. *)
Definition db_ok (db : DB) : Prop := ∀ t, table_ok db t.

(** The constraint [name] (primary key or unique) rejects the statement's
    effect: inserting [id], or ending in [db']. *)
Definition violates (db db' : DB) (t : TableName) (ins : option UUID) (name : string) : Prop :=
  (name = pkey t ∧ ∃ id, ins = Some id ∧ is_Some (table t db !! id)) ∨
  (∃ c, (name, c) ∈ unique_constraints t ∧ ¬ unique_on c (table t db')).

(** ** The meaning of a statement *)

(** [sql_effect s args now db affected rows db' ins t]: what the statement does
    when no constraint rejects it; [ins] is the id it inserts. *)
Inductive sql_effect (args : list Val) (now : Z) (db : DB)
    : Stmt → Z → list (list Val) → DB → option UUID → TableName → Prop :=
  | eff_insert t cols vals id r :
      insert_row t cols vals args now = Some (id, r) →
      sql_effect args now db (SInsert t cols vals) 1 []
        (set_table t (<[id := r]> (table t db)) db) (Some id) t
  | eff_select t cols wh cs ord lim l l' :
      mapM (resolve t args now) wh = Some cs →
      ordered ord l (matching cs (table t db)) →
      limited args now lim l l' →
      sql_effect args now db (SSelect t cols wh ord lim)
        (Z.of_nat (length l')) (project cols <$> l') db None t
  | eff_update t sets wh cs ret l l' :
      mapM (resolve t args now) wh = Some cs →
      l ≡ₚ matching cs (table t db) →
      update_rows t sets args now l = Some l' →
      sql_effect args now db (SUpdate t sets wh ret)
        (Z.of_nat (length l')) (project ret <$> l')
        (set_table t (put_rows l' (table t db)) db) None t
  | eff_update_in t sets wh cs ord lim ret sel l l' :
      mapM (resolve t args now) wh = Some cs →
      (∃ s, ordered ord s (filter (λ p, p.1 ∉ db_locked db now) (matching cs (table t db))) ∧
            limited args now (Some lim) s sel) →
      l ≡ₚ sel →
      update_rows t sets args now l = Some l' →
      sql_effect args now db (SUpdateIn t sets wh ord lim ret)
        (Z.of_nat (length l')) (project ret <$> l')
        (set_table t (put_rows l' (table t db)) db) None t
  | eff_delete t wh cs l :
      mapM (resolve t args now) wh = Some cs →
      l ≡ₚ matching cs (table t db) →
      sql_effect args now db (SDelete t wh) (Z.of_nat (length l)) []
        (set_table t (foldr delete (table t db) l.*1) db) None t.

(** The outcomes of sending a statement: it takes effect and every constraint
    holds after it; a unique constraint rejects it; or another error is
    reported. An error that is not the server's (a lost connection) leaves it
    open whether the statement took effect. *)
Inductive sql_step (args : list Val) (now : Z) (db : DB) (s : Stmt) : PgRes → DB → Prop :=
  | step_ok n rows db' ins t :
      sql_effect args now db s n rows db' ins t →
      (∀ id, ins = Some id → table t db !! id = None) →
      db_ok db' →
      sql_step args now db s (PgDone n rows) db'
  | step_unique n rows db' ins t name msg :
      sql_effect args now db s n rows db' ins t →
      violates db db' t ins name →
      sql_step args now db s (PgFail (DbPg "23505" name msg)) db
  | step_error code name msg :
      code ≠ "23505" →
      sql_step args now db s (PgFail (DbPg code name msg)) db
  | step_lost msg :
      sql_step args now db s (PgFail (DbOther msg)) db
  | step_lost_applied n rows db' ins t msg :
      sql_effect args now db s n rows db' ins t →
      (∀ id, ins = Some id → table t db !! id = None) →
      db_ok db' →
      sql_step args now db s (PgFail (DbOther msg)) db'.
