(* ===== verification/SqlFacts.v ===== *)
(** * Facts about the SQL fragment

    Which rows a statement on a primary key touches, the order of ORDER BY, and
    inversion principles for the meaning of each form of statement. *)

From stdpp Require Import gmap.
From S2P Require Import Prelude GoLib Sql.

(** ** Rows selected by primary key *)

Lemma elem_of_matching cs m i r : (i, r) ∈ matching cs m ↔ m !! i = Some r ∧ sat cs i r = true.
Proof.
  unfold matching. rewrite list_elem_of_filter, elem_of_map_to_list. cbn. tauto.
Qed.

Lemma NoDup_matching cs m : NoDup (matching cs m).
Proof. apply NoDup_filter, NoDup_map_to_list. Qed.

Lemma NoDup_matching_fst cs m : NoDup (matching cs m).*1.
Proof.
  apply NoDup_fmap_fst; [|apply NoDup_matching].
  intros i r1 r2 H1 H2. apply elem_of_matching in H1 as [? _], H2 as [? _]. congruence.
Qed.

Lemma sat_id id cs i r :
  sat (REq "id" (VUuid id) :: cs) i r = true ↔ i = id ∧ sat cs i r = true.
Proof.
  unfold sat. cbn [forallb sat1]. rewrite andb_true_iff.
  unfold col_val. cbn. rewrite bool_decide_eq_true. naive_solver.
Qed.

(** The rows with a given [id] and more conditions: at most one. *)
Definition row_at (id : UUID) (cs : list RCond) (m : Table) : list (UUID * Row) :=
  match m !! id with
  | Some r => if sat cs id r then [(id, r)] else []
  | None => []
  end.

Lemma matching_id id cs m l :
  l ≡ₚ matching (REq "id" (VUuid id) :: cs) m → l = row_at id cs m.
Proof.
  intros Hl. unfold row_at.
  assert (Hel : ∀ i r, (i, r) ∈ l ↔ i = id ∧ m !! id = Some r ∧ sat cs id r = true).
  { intros i r. rewrite Hl, elem_of_matching, sat_id. naive_solver. }
  assert (Hnd : NoDup l) by (rewrite Hl; apply NoDup_matching).
  clear Hl. destruct (m !! id) as [r|] eqn:E.
  2: { destruct l as [|[i r] l]; [done|].
       destruct (proj1 (Hel i r)) as (_ & ? & _); [by left|done]. }
  destruct (sat cs id r) eqn:Es.
  2: { destruct l as [|[i r'] l]; [done|].
       destruct (proj1 (Hel i r')) as (_ & ? & ?); [by left|congruence]. }
  apply Permutation_singleton_r, NoDup_Permutation; [done|apply NoDup_singleton|].
  intros [i r']. rewrite Hel, list_elem_of_singleton. naive_solver.
Qed.

(** ** Inversion of the forms of statement *)

Lemma sql_update_inv args now db t sets wh ret n rows db' ins t' :
  sql_effect args now db (SUpdate t sets wh ret) n rows db' ins t' →
  ∃ cs l l', mapM (resolve t args now) wh = Some cs ∧
    l ≡ₚ matching cs (table t db) ∧ update_rows t sets args now l = Some l' ∧
    n = Z.of_nat (length l') ∧ rows = project ret <$> l' ∧
    db' = set_table t (put_rows l' (table t db)) db ∧ t' = t ∧ ins = None.
Proof. inversion 1; subst. eauto 12. Qed.

(** An update of the row with a given [id] (and more conditions). *)
Lemma sql_update_by_id args now db t sets wh ret n rows db' ins t' id cs :
  mapM (resolve t args now) wh = Some (REq "id" (VUuid id) :: cs) →
  sql_effect args now db (SUpdate t sets wh ret) n rows db' ins t' →
  (∃ r r', table t db !! id = Some r ∧ sat cs id r = true ∧
     update_row t sets args now r = Some r' ∧ n = 1 ∧ rows = [project ret (id, r')] ∧
     db' = set_table t (<[id := r']> (table t db)) db) ∨
  ((∀ r, table t db !! id = Some r → sat cs id r = false) ∧ n = 0 ∧ rows = [] ∧ db' = db).
Proof.
  intros Hr H. apply sql_update_inv in H as (cs' & l & l' & Hm & Hl & Hu & -> & -> & -> & -> & ->).
  rewrite Hr in Hm. injection Hm as <-. apply matching_id in Hl as ->.
  unfold row_at in Hu. destruct (table t db !! id) as [r|] eqn:E.
  - destruct (sat cs id r) eqn:Es.
    + left. cbn in Hu. destruct (update_row t sets args now r) as [r'|] eqn:Er; [|done].
      injection Hu as <-. exists r, r'. naive_solver.
    + right. cbn in Hu. injection Hu as <-. cbn.
      split; [naive_solver|]. by destruct t, db.
  - right. cbn in Hu. injection Hu as <-. cbn.
    split; [naive_solver|]. by destruct t, db.
Qed.

Lemma sql_select_inv args now db t cols wh ord lim n rows db' ins t' :
  sql_effect args now db (SSelect t cols wh ord lim) n rows db' ins t' →
  ∃ cs l l', mapM (resolve t args now) wh = Some cs ∧
    ordered ord l (matching cs (table t db)) ∧ limited args now lim l l' ∧
    n = Z.of_nat (length l') ∧ rows = project cols <$> l' ∧ db' = db.
Proof. inversion 1; subst. eauto 12. Qed.

Lemma sql_select_by_id args now db t cols wh n rows db' ins t' id :
  mapM (resolve t args now) wh = Some [REq "id" (VUuid id)] →
  sql_effect args now db (SSelect t cols wh [] None) n rows db' ins t' →
  db' = db ∧ head rows = (λ r, project cols (id, r)) <$> table t db !! id.
Proof.
  intros Hr H.
  apply sql_select_inv in H as (cs & l & l' & Hm & [Hl _] & -> & -> & -> & ->).
  rewrite Hr in Hm. injection Hm as <-. apply matching_id in Hl as ->.
  split; [done|]. unfold row_at. by destruct (table t db !! id).
Qed.

Lemma sql_insert_inv args now db t cols vals n rows db' ins t' :
  sql_effect args now db (SInsert t cols vals) n rows db' ins t' →
  ∃ id r, insert_row t cols vals args now = Some (id, r) ∧ n = 1 ∧ rows = [] ∧
    db' = set_table t (<[id := r]> (table t db)) db ∧ ins = Some id ∧ t' = t.
Proof. inversion 1; subst. eauto 10. Qed.

Lemma sql_update_in_inv args now db t sets wh ord lim ret n rows db' ins t' :
  sql_effect args now db (SUpdateIn t sets wh ord lim ret) n rows db' ins t' →
  ∃ cs s sel l l', mapM (resolve t args now) wh = Some cs ∧
    ordered ord s (filter (λ p, p.1 ∉ db_locked db now) (matching cs (table t db))) ∧
    limited args now (Some lim) s sel ∧
    l ≡ₚ sel ∧ update_rows t sets args now l = Some l' ∧
    n = Z.of_nat (length l') ∧ rows = project ret <$> l' ∧
    db' = set_table t (put_rows l' (table t db)) db ∧ t' = t ∧ ins = None.
Proof. inversion 1; subst. destruct_and?; naive_solver. Qed.

(** ** The outcome of a statement *)

(** What an answer tells about the tables: done, rejected, or unknown. *)
Lemma sql_step_inv args now db s r db' :
  sql_step args now db s r db' →
  (∃ n rows ins t, r = PgDone n rows ∧ sql_effect args now db s n rows db' ins t ∧
     (∀ id, ins = Some id → table t db !! id = None) ∧ db_ok db') ∨
  (∃ name msg n rows db1 ins t, r = PgFail (DbPg "23505" name msg) ∧ db' = db ∧
     sql_effect args now db s n rows db1 ins t ∧ violates db db1 t ins name) ∨
  (∃ code name msg, code ≠ "23505" ∧ r = PgFail (DbPg code name msg) ∧ db' = db) ∨
  (∃ msg, r = PgFail (DbOther msg) ∧
     (db' = db ∨ ∃ n rows ins t, sql_effect args now db s n rows db' ins t ∧
        (∀ id, ins = Some id → table t db !! id = None) ∧ db_ok db')).
Proof. destruct 1; naive_solver. Qed.

(** A statement leaves a well-formed database well formed. *)
Lemma sql_step_ok args now db s r db' : sql_step args now db s r db' → db_ok db → db_ok db'.
Proof. destruct 1; done. Qed.

(** ** ORDER BY *)

Lemma key_lt_irrefl a : key_lt a a = false.
Proof. destruct a as [x y]. unfold key_lt. cbn. lia. Qed.

Lemma ord_le_total ord p q : ord_le ord p q = true ∨ ord_le ord q p = true.
Proof.
  induction ord as [|[c d] ord IH]; cbn; [by left|].
  destruct (val_key (col_val p.1 p.2 c)) as [x1 x2], (val_key (col_val q.1 q.2 c)) as [y1 y2].
  destruct d; unfold key_lt; cbn;
    destruct (ord_le ord p q), (ord_le ord q p); destruct IH; try done; lia.
Qed.

Lemma ord_le_trans ord p q r :
  ord_le ord p q = true → ord_le ord q r = true → ord_le ord p r = true.
Proof.
  induction ord as [|[c d] ord IH]; cbn; [done|].
  destruct (val_key (col_val p.1 p.2 c)) as [x1 x2], (val_key (col_val q.1 q.2 c)) as [y1 y2],
    (val_key (col_val r.1 r.2 c)) as [z1 z2].
  destruct d; unfold key_lt; cbn;
    destruct (ord_le ord p q), (ord_le ord q r), (ord_le ord p r); intros;
    try (specialize (IH eq_refl eq_refl); discriminate IH); lia.
Qed.

(** ** Reading a table into values *)

(** Values filed under their keys are distinct. *)
Lemma NoDup_keyed {A} (key : A → UUID) (M : gmap UUID A) :
  map_Forall (λ i a, key a = i) M → NoDup (map_to_list M).*2.
Proof.
  intros Hk. apply NoDup_fmap_2_strong; [|apply NoDup_map_to_list].
  intros [i n] [j m] Hi Hj E. cbn in E. apply elem_of_map_to_list in Hi, Hj.
  pose proof (Hk _ _ Hi). pose proof (Hk _ _ Hj). cbn in *. congruence.
Qed.

Section Reading.
Context {A : Type} (dec : UUID → Row → option A) (key : A → UUID).
Context (dec_key : ∀ i r a, dec i r = Some a → key a = i).

Lemma keyed_read m : map_Forall (λ i a, key a = i) (map_imap dec m).
Proof.
  intros i a H. rewrite map_lookup_imap in H. apply bind_Some in H as (r & _ & H).
  by eapply dec_key.
Qed.

(** Selected rows, as values: [Pr] is the selection on rows and [Q] the same
    selection on values. *)
Lemma rows_read (m : Table) (Pr : UUID → Row → Prop) (Q : A → Prop) `{!∀ a, Decision (Q a)} l :
  (∀ i r, m !! i = Some r → is_Some (dec i r)) → NoDup l.*1 →
  (∀ id r, (id, r) ∈ l ↔ m !! id = Some r ∧ Pr id r) →
  (∀ id r a, dec id r = Some a → Pr id r ↔ Q a) →
  ∃ xs, Forall2 (λ p a, dec p.1 p.2 = Some a) l xs ∧
        xs ≡ₚ filter Q (map_to_list (map_imap dec m)).*2.
Proof.
  intros Hdec Hnd Hl HQ.
  assert (Hxs : ∃ xs, Forall2 (λ p a, dec p.1 p.2 = Some a) l xs).
  { assert (Hd : Forall (λ p, ∃ a, dec p.1 p.2 = Some a) l).
    { apply Forall_forall. intros [id r] Hp. apply Hl in Hp as [Hr _]. by apply Hdec. }
    by apply Forall_exists_Forall2_l in Hd. }
  destruct Hxs as [xs HF]. exists xs. split; [done|]. apply NoDup_Permutation.
  - apply (NoDup_fmap_1 key). replace (key <$> xs) with l.*1; [done|]. clear -HF dec_key.
    induction HF as [|p a l xs Hd _ IH]; [done|]. rewrite !fmap_cons, IH. f_equal.
    symmetry. by eapply dec_key.
  - apply NoDup_filter, (NoDup_keyed key), keyed_read.
  - intros a. rewrite list_elem_of_filter, list_elem_of_fmap. split.
    + intros (i & Hi)%list_elem_of_lookup_1.
      destruct (Forall2_lookup_r _ _ _ _ _ HF Hi) as ([id r] & Hir & Hd). cbn in Hd.
      apply list_elem_of_lookup_2, Hl in Hir as [Hr HP]. apply (HQ _ _ _ Hd) in HP.
      split; [done|]. exists (id, a). split; [done|]. apply elem_of_map_to_list.
      by rewrite map_lookup_imap, Hr.
    + intros (Hq & [id b] & -> & Hm). cbn in *. apply elem_of_map_to_list in Hm.
      rewrite map_lookup_imap in Hm. apply bind_Some in Hm as (r & Hr & Hd).
      assert (Hir : (id, r) ∈ l) by (apply Hl; split; [done|by eapply HQ]).
      apply list_elem_of_lookup_1 in Hir as [i Hi].
      destruct (Forall2_lookup_l _ _ _ _ _ HF Hi) as (c & Hi' & Hd'). cbn in Hd, Hd'.
      apply list_elem_of_lookup_2 in Hi'. rewrite Hd in Hd'. by injection Hd' as <-.
Qed.
End Reading.
