(* ===== verification/Redis.v ===== *)
(** * The Redis commands the queue and the rate limiter send

    Streams with consumer groups, sorted sets and the documented effect of each
    command on them. A key holds a stream or a sorted set; the two kinds of key
    the service uses never meet (proved in Queue.v), and are kept apart here. *)

From stdpp Require Import gmap.
From S2P Require Import Prelude GoLib.

(** ** State *)

(** Stream entry ids are opaque to the service; the server hands them out in
    increasing order. *)
Abbreviation EntryID := N.

Record Entry := mkEntry { e_id : EntryID; e_values : list (string * string) }.

(** A consumer group: the last id delivered to it, and the entries delivered
    and not yet acknowledged, with their consumer and delivery time. *)
Record Group := mkGroup {
  g_last : EntryID;
  g_pending : gmap EntryID (string * Z);
}.

Record Stream := mkStream {
  s_entries : list Entry;
  s_top : EntryID;
  s_groups : gmap string Group;
}.

Definition empty_stream : Stream := mkStream [] 0%N ∅.

(** A sorted set: member to score. *)
Abbreviation ZSet := (gmap string Z).

(** [r_expires]: when a key with a time to live expires, by the server's clock in
    milliseconds. Only the limiter's script sets one, and only it uses such a key:
    that a key has expired shows when the script looks at it. *)
Record Redis := mkRedis {
  r_streams : gmap string Stream;
  r_zsets : gmap string ZSet;
  r_expires : gmap string Z;
}.

Definition stream (k : string) (r : Redis) : Stream := default empty_stream (r_streams r !! k).
Definition zset (k : string) (r : Redis) : ZSet := default ∅ (r_zsets r !! k).

Definition set_stream (k : string) (s : Stream) (r : Redis) : Redis :=
  mkRedis (<[k := s]> (r_streams r)) (r_zsets r) (r_expires r).

(** An empty sorted set is no key at all, and has no time to live. *)
Definition set_zset (k : string) (z : ZSet) (r : Redis) : Redis :=
  mkRedis (r_streams r)
    (if decide (z = ∅) then delete k (r_zsets r) else <[k := z]> (r_zsets r))
    (if decide (z = ∅) then delete k (r_expires r) else r_expires r).

(** ** Stream commands *)

(** [XADD stream * values]: the entry gets an id above all others. *)
Definition xadd (k : string) (id : EntryID) (vs : list (string * string)) (r : Redis) : Redis :=
  let s := stream k r in
  set_stream k (mkStream (s_entries s ++ [mkEntry id vs]) id (s_groups s)) r.

(** [XGROUP CREATE stream group 0 MKSTREAM]; [None]: the group exists. *)
Definition xgroup_create (k g : string) (r : Redis) : option Redis :=
  let s := stream k r in
  match s_groups s !! g with
  | Some _ => None
  | None => Some (set_stream k
      (mkStream (s_entries s) (s_top s) (<[g := mkGroup 0 ∅]> (s_groups s))) r)
  end.

(** The next entries of a stream for a group: at most [count] never delivered
    to it. *)
Definition fresh_entries (g : Group) (count : nat) (s : Stream) : list Entry :=
  take count (filter (λ e, (g_last g < e_id e)%N) (s_entries s)).

Definition deliver (consumer : string) (now : Z) (es : list Entry) (g : Group) : Group :=
  foldl (λ g e, mkGroup (N.max (g_last g) (e_id e))
                        (<[e_id e := (consumer, now)]> (g_pending g))) g es.

(** [XREADGROUP GROUP g consumer COUNT n STREAMS ks > ..]: COUNT applies to
    each stream; the reply lists, in the order of the keys, the streams that
    have entries. *)
Fixpoint xreadgroup (g consumer : string) (count : nat) (now : Z) (ks : list string) (r : Redis)
    : list (string * list Entry) * Redis :=
  match ks with
  | [] => ([], r)
  | k :: ks' =>
      let s := stream k r in
      match s_groups s !! g with
      | None => xreadgroup g consumer count now ks' r
      | Some grp =>
          match fresh_entries grp count s with
          | [] => xreadgroup g consumer count now ks' r
          | es =>
              let s' := mkStream (s_entries s) (s_top s)
                          (<[g := deliver consumer now es grp]> (s_groups s)) in
              let (rest, r') := xreadgroup g consumer count now ks' (set_stream k s' r) in
              ((k, es) :: rest, r')
          end
      end
  end.

(** [XACK stream group id]. *)
Definition xack (k g : string) (id : EntryID) (r : Redis) : Redis :=
  let s := stream k r in
  match s_groups s !! g with
  | None => r
  | Some grp =>
      set_stream k (mkStream (s_entries s) (s_top s)
        (<[g := mkGroup (g_last grp) (delete id (g_pending grp))]> (s_groups s))) r
  end.

(** [XAUTOCLAIM stream group consumer min-idle 0-0 COUNT n]: the pending
    entries idle for long enough go to the consumer. *)
Definition stale (minIdle now : Z) (grp : Group) (e : Entry) : bool :=
  match g_pending grp !! e_id e with
  | Some (_, t) => minIdle <=? now - t
  | None => false
  end.

Definition xautoclaim (k g consumer : string) (minIdle : Z) (count : nat) (now : Z) (r : Redis)
    : list Entry * Redis :=
  let s := stream k r in
  match s_groups s !! g with
  | None => ([], r)
  | Some grp =>
      let es := take count (filter (λ e, stale minIdle now grp e = true) (s_entries s)) in
      let grp' := mkGroup (g_last grp)
        (foldl (λ p e, <[e_id e := (consumer, now)]> p) (g_pending grp) es) in
      (es, set_stream k (mkStream (s_entries s) (s_top s) (<[g := grp']> (s_groups s))) r)
  end.

(** ** Sorted set commands *)

Definition zadd (k : string) (score : Z) (member : string) (r : Redis) : Redis :=
  set_zset k (<[member := score]> (zset k r)) r.

Definition zrem (k : string) (members : list string) (r : Redis) : Redis :=
  set_zset k (foldr delete (zset k r) members) r.

(** The members in the order of the set: by score, then by member. *)
Definition z_le (p q : string * Z) : Prop :=
  p.2 < q.2 ∨ (p.2 = q.2 ∧ String.leb p.1 q.1 = true).

#[export] Instance z_le_dec p q : Decision (z_le p q).
Proof. unfold z_le. apply _. Defined.

Definition z_sorted (z : ZSet) : list (string * Z) := merge_sort z_le (map_to_list z).

(** [ZRANGEBYSCORE k -inf max LIMIT 0 count]. *)
Definition zrangebyscore (k : string) (max : Z) (count : nat) (r : Redis) : list string :=
  (take count (filter (λ p, p.2 ≤ max) (z_sorted (zset k r)))).*1.

(** [ZREMRANGEBYSCORE k -inf max] and [ZCARD k]. *)
Definition zremrangebyscore (k : string) (max : Z) (r : Redis) : Redis :=
  set_zset k (filter (λ p, max < p.2) (zset k r)) r.

Definition zcard (k : string) (r : Redis) : Z := Z.of_nat (size (zset k r)).

(** ** Expiry *)

(** [PEXPIRE k ms] at the instant [at_] of the server: the key is deleted at
    once if the time is not positive, and nothing happens if it does not exist. *)
Definition pexpire (at_ : Z) (k : string) (ms : Z) (r : Redis) : Redis :=
  if decide (zset k r = ∅) then r
  else if ms <=? 0 then set_zset k ∅ r
  else mkRedis (r_streams r) (r_zsets r) (<[k := at_ + ms]> (r_expires r)).

(** The server drops a key whose time has come. *)
Definition expire (at_ : Z) (k : string) (r : Redis) : Redis :=
  match r_expires r !! k with
  | Some t => if t <=? at_ then set_zset k ∅ r else r
  | None => r
  end.

#[global] Arguments xreadgroup : simpl never.
#[global] Arguments xautoclaim : simpl never.
