(* ===== verification/RedisFacts.v ===== *)
(** * Streams as queues

    A stream with its consumer group is a queue with two ends: entries waiting
    to be delivered, in order, and entries in flight. What each command does to
    them, and the invariant of the stream that makes it so. *)

From stdpp Require Import gmap.
From S2P Require Import Prelude GoLib Redis.

(** ** Well-formed streams *)

Definition id_lt (a b : Entry) : Prop := (e_id a < e_id b)%N.

Record stream_ok (s : Stream) : Prop := {
  sk_sorted : StronglySorted id_lt (s_entries s);
  sk_top : Forall (λ e, 0 < e_id e ≤ s_top s)%N (s_entries s);
  sk_groups : map_Forall (λ _ g, (g_last g ≤ s_top s)%N ∧
                                 map_Forall (λ i _, (i ≤ g_last g)%N) (g_pending g)) (s_groups s);
}.

Definition redis_ok (r : Redis) : Prop := map_Forall (λ _ s, stream_ok s) (r_streams r).

Lemma empty_stream_ok : stream_ok empty_stream.
Proof. split; cbn; [constructor|constructor|apply map_Forall_empty]. Qed.

Lemma stream_is_ok k r : redis_ok r → stream_ok (stream k r).
Proof.
  intros H. unfold stream. destruct (r_streams r !! k) eqn:E; cbn; [by apply (H k)|].
  apply empty_stream_ok.
Qed.

Lemma set_stream_ok k s r : redis_ok r → stream_ok s → redis_ok (set_stream k s r).
Proof. intros. by apply map_Forall_insert_2. Qed.

Lemma stream_set_eq k s r : stream k (set_stream k s r) = s.
Proof. unfold stream. cbn. by rewrite lookup_insert_eq. Qed.

Lemma stream_set_ne k k' s r : k ≠ k' → stream k' (set_stream k s r) = stream k' r.
Proof. intros. unfold stream. cbn. by rewrite lookup_insert_ne. Qed.

Lemma stream_set_zset k k' z r : stream k' (set_zset k z r) = stream k' r.
Proof. done. Qed.

Lemma redis_ok_set_zset k z r : redis_ok (set_zset k z r) ↔ redis_ok r.
Proof. done. Qed.

(** ** Lanes *)

(** A stream as its consumer group [g] sees it. *)
Record Lane := mkLane { ln_waiting : list Entry; ln_inflight : gset EntryID }.

Definition group (g k : string) (r : Redis) : option Group := s_groups (stream k r) !! g.

Definition lane (g k : string) (r : Redis) : Lane :=
  match group g k r with
  | Some grp => mkLane (filter (λ e, (g_last grp < e_id e)%N) (s_entries (stream k r)))
                       (dom (g_pending grp))
  | None => mkLane (s_entries (stream k r)) ∅
  end.

Lemma lane_same_stream g k r r' : stream k r' = stream k r → lane g k r' = lane g k r.
Proof. intros H. unfold lane, group. by rewrite H. Qed.

Lemma lane_set_zset g k k' z r : lane g k (set_zset k' z r) = lane g k r.
Proof. done. Qed.

(** ** XADD *)

Lemma xadd_redis_ok k id vs r :
  redis_ok r → (s_top (stream k r) < id)%N → redis_ok (xadd k id vs r).
Proof.
  intros Hok Hid. apply set_stream_ok; [done|]. destruct (stream_is_ok k r Hok) as [Hs Ht Hg].
  split; cbn.
  - apply StronglySorted_app. split_and!; [|done|by repeat constructor].
    intros a b Ha Hb. apply list_elem_of_singleton in Hb as ->. unfold id_lt. cbn.
    rewrite Forall_forall in Ht. specialize (Ht _ Ha). lia.
  - apply Forall_app. split; [|constructor; [cbn; lia|constructor]].
    eapply Forall_impl; [exact Ht|]. cbn. intros ? ?. lia.
  - eapply map_Forall_impl; [exact Hg|]. cbn. intros _ grp [? ?]. split; [lia|done].
Qed.

Lemma lane_xadd g k k' id vs r :
  redis_ok r → (s_top (stream k r) < id)%N →
  lane g k' (xadd k id vs r) =
  if decide (k = k') then mkLane (ln_waiting (lane g k r) ++ [mkEntry id vs]) (ln_inflight (lane g k r))
  else lane g k' r.
Proof.
  intros Hok Hid. case_decide as E; [subst k'|by apply lane_same_stream, stream_set_ne].
  unfold lane, group, xadd. rewrite stream_set_eq. cbn.
  destruct (s_groups (stream k r) !! g) as [grp|] eqn:Hg; [|done]. cbn. f_equal.
  rewrite filter_app. f_equal. rewrite filter_cons_True; [done|]. cbn.
  destruct (sk_groups _ (stream_is_ok k r Hok) _ _ Hg) as [? _]. lia.
Qed.

(** ** XGROUP CREATE *)

Lemma xgroup_create_redis_ok k g r r' : redis_ok r → xgroup_create k g r = Some r' → redis_ok r'.
Proof.
  intros Hok. unfold xgroup_create. destruct (_ !! g); [done|]. intros [= <-].
  apply set_stream_ok; [done|]. destruct (stream_is_ok k r Hok) as [Hs Ht Hg]. split; cbn; try done.
  apply map_Forall_insert_2; [|done]. cbn. split; [lia|apply map_Forall_empty].
Qed.

Lemma lane_xgroup_create k k' g r r' :
  redis_ok r → xgroup_create k g r = Some r' → lane g k' r' = lane g k' r.
Proof.
  intros Hok. unfold xgroup_create. destruct (_ !! g) eqn:E; [done|]. intros [= <-].
  destruct (decide (k = k')) as [<-|Hne]; [|by apply lane_same_stream, stream_set_ne].
  unfold lane, group. rewrite stream_set_eq. cbn. rewrite lookup_insert_eq, E. cbn. f_equal.
  apply filter_id. eapply Forall_impl; [apply (sk_top _ (stream_is_ok k r Hok))|]. cbn. lia.
Qed.

(** ** XACK *)

Lemma xack_redis_ok k g id r : redis_ok r → redis_ok (xack k g id r).
Proof.
  intros Hok. unfold xack. destruct (_ !! g) as [grp|] eqn:E; [|done].
  apply set_stream_ok; [done|]. destruct (stream_is_ok k r Hok) as [Hs Ht Hg].
  split; cbn; try done. apply map_Forall_insert_2; [|done]. cbn.
  destruct (Hg _ _ E) as [? Hp]. split; [done|]. intros i x Hi.
  apply lookup_delete_Some in Hi as [_ Hi]. by apply (Hp i x).
Qed.

Lemma lane_xack g k k' id r :
  lane g k' (xack k g id r) =
  if decide (k = k') then mkLane (ln_waiting (lane g k r)) (ln_inflight (lane g k r) ∖ {[id]})
  else lane g k' r.
Proof.
  unfold xack. destruct (s_groups (stream k r) !! g) as [grp|] eqn:E.
  - case_decide as Ek; [subst k'|by apply lane_same_stream, stream_set_ne].
    unfold lane, group. rewrite stream_set_eq. cbn. rewrite lookup_insert_eq, E. cbn.
    by rewrite dom_delete_L.
  - case_decide as Ek; [subst k'|done]. unfold lane, group. rewrite E. cbn.
    f_equal. set_solver.
Qed.

(** ** XREADGROUP *)

Lemma deliver_last c now es grp :
  g_last (deliver c now es grp) = foldl (λ m e, N.max m (e_id e)) (g_last grp) es.
Proof.
  revert grp. induction es as [|e es IH]; intros grp; [done|].
  unfold deliver in *. cbn [foldl]. by rewrite IH.
Qed.

Lemma deliver_pending c now es grp i :
  g_pending (deliver c now es grp) !! i =
  if decide (i ∈ e_id <$> es) then Some (c, now) else g_pending grp !! i.
Proof.
  revert grp. induction es as [|e es IH]; intros grp.
  - cbn. case_decide as H; [by apply not_elem_of_nil in H|done].
  - unfold deliver in *. cbn [foldl]. rewrite IH, fmap_cons. cbn [g_pending].
    repeat case_decide; rewrite ?lookup_insert; repeat case_decide; subst; try done;
      rewrite elem_of_cons in *; intuition congruence.
Qed.

Lemma fold_max_ge (es : list Entry) m :
  (m ≤ foldl (λ m e, N.max m (e_id e)) m es)%N ∧
  Forall (λ e, e_id e ≤ foldl (λ m e, N.max m (e_id e)) m es)%N es.
Proof.
  revert m. induction es as [|e es IH]; intros m; cbn; [split; [lia|constructor]|].
  destruct (IH (N.max m (e_id e))) as [H1 H2]. split; [lia|]. constructor; [lia|done].
Qed.

Lemma fold_max_le (es : list Entry) m b :
  (m ≤ b)%N → Forall (λ e, e_id e ≤ b)%N es → (foldl (λ m e, N.max m (e_id e)) m es ≤ b)%N.
Proof.
  revert m. induction es as [|e es IH]; intros m Hm Hes; cbn; [done|].
  apply Forall_cons in Hes as [? ?]. apply IH; [lia|done].
Qed.

(** After the first entries of the queue are delivered, the others wait. *)
Lemma deliver_waiting (l : list Entry) c now n grp :
  StronglySorted id_lt l →
  filter (λ e, (g_last (deliver c now (take n (filter (λ e, (g_last grp < e_id e)%N) l)) grp)
                < e_id e)%N) l
  = drop n (filter (λ e, (g_last grp < e_id e)%N) l).
Proof.
  intros Hs. rewrite deliver_last. set (w := filter (λ e, (g_last grp < e_id e)%N) l).
  assert (Hw : StronglySorted id_lt w) by by apply filter_sorted.
  destruct (fold_max_ge (take n w) (g_last grp)) as [Hge Hall].
  set (m := foldl _ _ _) in *.
  rewrite (filter_filter_imp (λ e, (g_last grp < e_id e)%N) (λ e, (m < e_id e)%N)
    (λ e, (m < e_id e)%N) l) by (intros; lia). fold w.
  rewrite <- (take_drop n w) at 1. rewrite filter_app.
  rewrite filter_none, filter_id; [done| |].
  - (* what is left is above everything delivered *)
    apply Forall_forall. intros e He.
    assert (Hm : m = g_last grp ∨ ∃ e', e' ∈ take n w ∧ m = e_id e').
    { subst m. clear. generalize (g_last grp) as b. induction (take n w) as [|x es IH]; intros b; cbn.
      - by left.
      - destruct (IH (N.max b (e_id x))) as [->|(e' & ? & ->)].
        + destruct (N.max_spec b (e_id x)) as [[_ ->]|[_ ->]]; [|by left].
          right. exists x. split; [by left|done].
        + right. exists e'. split; [by right|done]. }
    destruct Hm as [->|(e' & He' & ->)].
    + assert (e ∈ w) by (rewrite <- (take_drop n w); apply elem_of_app; by right).
      subst w. by apply list_elem_of_filter in H as [? _].
    + rewrite <- (take_drop n w) in Hw. apply StronglySorted_app in Hw as (H12 & _).
      by apply (H12 e' e).
  - eapply Forall_impl; [exact Hall|]. cbn. intros. lia.
Qed.

Lemma deliver_ok c now es grp s :
  stream_ok s → (∃ g, s_groups s !! g = Some grp) → Forall (λ e, e ∈ s_entries s) es →
  (g_last (deliver c now es grp) ≤ s_top s)%N ∧
  map_Forall (λ i _, (i ≤ g_last (deliver c now es grp))%N) (g_pending (deliver c now es grp)).
Proof.
  intros [_ Ht Hg] [g E] Hes. destruct (Hg _ _ E) as [Hl Hp]. rewrite deliver_last.
  destruct (fold_max_ge es (g_last grp)) as [Hge Hall]. split.
  - apply fold_max_le; [done|]. rewrite Forall_forall in Hes, Ht |- *. intros e He.
    apply Hes, Ht in He. lia.
  - intros i x Hi. rewrite deliver_pending in Hi. case_decide as Hin.
    + apply list_elem_of_fmap in Hin as (e & -> & He). rewrite Forall_forall in Hall. by apply Hall.
    + specialize (Hp i x Hi). cbn in Hp. lia.
Qed.

Lemma dom_deliver c now es grp :
  dom (g_pending (deliver c now es grp)) = dom (g_pending grp) ∪ list_to_set (e_id <$> es).
Proof.
  apply set_eq. intros i. rewrite elem_of_union, elem_of_list_to_set, !elem_of_dom, deliver_pending.
  case_decide; [split; [by right|by eexists]|]. split; [by left|]. by intros [?|?].
Qed.

(** One stream's turn in XREADGROUP, when something waits in it. *)
Lemma read_one g c n now k r grp :
  redis_ok r → group g k r = Some grp →
  let es := fresh_entries grp n (stream k r) in
  let s := stream k r in
  let r' := set_stream k (mkStream (s_entries s) (s_top s)
              (<[g := deliver c now es grp]> (s_groups s))) r in
  redis_ok r' ∧ es = take n (ln_waiting (lane g k r)) ∧
  (∀ k', is_Some (group g k' r) → is_Some (group g k' r')) ∧
  ∀ k', lane g k' r' =
    if decide (k = k') then mkLane (drop n (ln_waiting (lane g k r)))
                              (ln_inflight (lane g k r) ∪ list_to_set (e_id <$> es))
    else lane g k' r.
Proof.
  intros Hok Hg es s r'. pose proof (stream_is_ok k r Hok) as Hs. fold s in Hs.
  assert (Hes : es = take n (ln_waiting (lane g k r))) by by unfold lane; rewrite Hg.
  split; [|split; [done|split]].
  - apply set_stream_ok; [done|]. destruct Hs as [Hsort Ht Hgr]. split; cbn; try done.
    apply map_Forall_insert_2; [|done]. apply deliver_ok; [by split|by exists g|].
    apply Forall_forall. intros e He. apply elem_of_take in He as (i & Hi & _).
    apply list_elem_of_lookup_2 in Hi. by apply list_elem_of_filter in Hi as [_ ?].
  - intros k' Hk'. unfold group, r'. destruct (decide (k = k')) as [<-|].
    + rewrite stream_set_eq. cbn. by rewrite lookup_insert_eq.
    + by rewrite stream_set_ne.
  - intros k'. case_decide as E; [subst k'|by apply lane_same_stream, stream_set_ne].
    unfold lane, group, r'. rewrite stream_set_eq. cbn. rewrite lookup_insert_eq.
    unfold group in Hg. fold s in Hg |- *. rewrite Hg. cbn. f_equal; [|apply dom_deliver].
    apply deliver_waiting, Hs.
Qed.

(** The lane after [n] entries of it are delivered. *)
Definition advance (n : nat) (l : Lane) : Lane :=
  mkLane (drop n (ln_waiting l)) (ln_inflight l ∪ list_to_set (e_id <$> take n (ln_waiting l))).

Lemma advance_none n l : take n (ln_waiting l) = [] → advance n l = l.
Proof.
  intros H. unfold advance. rewrite H. cbn. rewrite union_empty_r_L.
  pose proof (take_drop n (ln_waiting l)) as E. rewrite H in E. cbn in E. rewrite E. by destruct l.
Qed.

Lemma xreadgroup_spec g c n now ks r l r' :
  redis_ok r → NoDup ks → Forall (λ k, is_Some (group g k r)) ks →
  xreadgroup g c n now ks r = (l, r') →
  redis_ok r' ∧ r_zsets r' = r_zsets r ∧
  l = filter (λ p, p.2 ≠ []) ((λ k, (k, take n (ln_waiting (lane g k r)))) <$> ks) ∧
  ∀ k, lane g k r' = if decide (k ∈ ks) then advance n (lane g k r) else lane g k r.
Proof.
  revert r l r'. induction ks as [|k ks IH]; intros r l r' Hok Hnd Hg Hx; unfold xreadgroup in Hx; fold xreadgroup in Hx.
  - injection Hx as <- <-. split_and!; done.
  - apply NoDup_cons in Hnd as [Hk Hnd]. apply Forall_cons in Hg as [[grp Hgk] Hg].
    unfold group in Hgk. rewrite Hgk in Hx.
    destruct (read_one g c n now k r grp Hok Hgk) as (Hok1 & Hes & Hgr & Hl).
    rewrite fmap_cons. destruct (fresh_entries grp n (stream k r)) as [|e es] eqn:Ef.
    + destruct (IH _ _ _ Hok Hnd Hg Hx) as (? & ? & -> & Hlane). split_and!; try done.
      * rewrite filter_cons_False; [done|]. cbn. rewrite <- Hes. tauto.
      * intros k'. rewrite Hlane. repeat case_decide; rewrite elem_of_cons in *; try tauto.
        assert (k' = k) as -> by tauto. by rewrite advance_none.
    + destruct (xreadgroup g c n now ks _) as [rest r1] eqn:Er. injection Hx as <- <-.
      assert (Hg1 := Forall_impl _ _ _ Hg Hgr).
      apply (IH _ _ _ Hok1 Hnd Hg1) in Er as (? & Hz & -> & Hlane).
      split_and!; [done|done| |].
      * rewrite filter_cons_True by by cbn; rewrite <- Hes. rewrite <- Hes. f_equal. f_equal.
        apply list_fmap_ext. intros i k' Hk'. rewrite Hl, decide_False; [done|].
        intros ->. apply Hk. by eapply list_elem_of_lookup_2.
      * intros k'. rewrite Hlane, !Hl. unfold advance. rewrite <- ?Hes.
        destruct (decide (k = k')) as [<-|Hne].
        -- rewrite (decide_False (P := k ∈ ks)) by done.
           rewrite (decide_True (P := k ∈ k :: ks)) by by left. by rewrite Hes.
        -- assert (Hiff : k' ∈ k :: ks ↔ k' ∈ ks) by (rewrite elem_of_cons; intuition congruence).
           repeat case_decide; tauto || done.
Qed.

(** ** XAUTOCLAIM *)

Lemma claim_pending c now (es : list Entry) (p : gmap EntryID (string * Z)) i :
  foldl (λ p e, <[e_id e := (c, now)]> p) p es !! i =
  if decide (i ∈ e_id <$> es) then Some (c, now) else p !! i.
Proof.
  revert p. induction es as [|e es IH]; intros p.
  - cbn. case_decide as H; [by apply not_elem_of_nil in H|done].
  - cbn [foldl]. rewrite IH, fmap_cons.
    repeat case_decide; rewrite ?lookup_insert; repeat case_decide; subst; try done;
      rewrite elem_of_cons in *; intuition congruence.
Qed.

(** Claiming moves entries in flight to another consumer; the queue is the same. *)
Lemma xautoclaim_spec k g c minIdle n now r l r' :
  redis_ok r → xautoclaim k g c minIdle n now r = (l, r') →
  redis_ok r' ∧ r_zsets r' = r_zsets r ∧ (∀ k', lane g k' r' = lane g k' r) ∧
  ∀ e, e ∈ l → e ∈ s_entries (stream k r) ∧ e_id e ∈ ln_inflight (lane g k r).
Proof.
  intros Hok Hx. unfold xautoclaim in Hx.
  destruct (s_groups (stream k r) !! g) as [grp|] eqn:Hg.
  2: { injection Hx as <- <-. split_and!; try done. by intros e ?%not_elem_of_nil. }
  set (es := take n _) in Hx. injection Hx as <- <-.
  assert (Hes : ∀ e, e ∈ es → e ∈ s_entries (stream k r) ∧ is_Some (g_pending grp !! e_id e)).
  { intros e He. apply elem_of_take in He as (i & Hi & _). apply list_elem_of_lookup_2 in Hi.
    apply list_elem_of_filter in Hi as [Hst ?]. split; [done|]. unfold stale in Hst.
    destruct (g_pending grp !! e_id e); [by eexists|done]. }
  assert (Hdom : ∀ i, i ∈ e_id <$> es → is_Some (g_pending grp !! i)).
  { intros i (e & -> & He)%list_elem_of_fmap. by apply Hes. }
  split_and!.
  - apply set_stream_ok; [done|]. destruct (stream_is_ok k r Hok) as [Hs Ht Hgr].
    split; cbn; try done. apply map_Forall_insert_2; [|done]. cbn.
    destruct (Hgr _ _ Hg) as [? Hp]. split; [done|]. intros i x Hi. rewrite claim_pending in Hi.
    case_decide as Hin; [|by apply (Hp i x)]. destruct (Hdom _ Hin) as [y Hy]. by apply (Hp i y).
  - done.
  - intros k'. destruct (decide (k = k')) as [<-|]; [|by apply lane_same_stream, stream_set_ne].
    unfold lane, group. rewrite stream_set_eq. cbn. rewrite lookup_insert_eq, Hg. cbn. f_equal.
    apply set_eq. intros i. rewrite !elem_of_dom, claim_pending. case_decide as Hin; [|done].
    split; [intros _; by apply Hdom|by eexists].
  - intros e He. destruct (Hes e He) as [? ?]. split; [done|]. unfold lane, group.
    rewrite Hg. cbn. by apply elem_of_dom.
Qed.
