(* ===== verification/Effects.v ===== *)
(** * Effects, programs and their executions

    The code's calls to its surroundings are effects: Postgres, Redis, HTTP,
    WebSocket connections, the clock, the UUID generator, the context, and the
    critical sections on shared memory. A handler is a program: a tree of
    effects. The surroundings are a parameter (the class [Services]); what the
    code relies on are the laws of [ServicesOk], which state their documented
    behaviour. *)

From stdpp Require Import gmap.
From S2P Require Import Prelude GoLib Domain Sql Redis.

(** ** Effects *)

Inductive PgE : Type → Type :=
  (* pool.Exec: the number of affected rows *)
  | PgExec (s : Stmt) (args : list Val) : PgE (result DbErr Z)
  (* pool.QueryRow: the first row, [None] for pgx.ErrNoRows *)
  | PgQueryRow (s : Stmt) (args : list Val) : PgE (result DbErr (option (list Val)))
  (* pool.Query: the rows read before the stream ended, and rows.Err() *)
  | PgQuery (s : Stmt) (args : list Val) : PgE (result DbErr (list (list Val) * option DbErr))
  (* pool.Begin, tx.Exec, tx.Commit, tx.Rollback *)
  | PgBegin : PgE (result DbErr N)
  | PgTxExec (h : N) (s : Stmt) (args : list Val) : PgE (result DbErr Z)
  | PgCommit (h : N) : PgE (option DbErr)
  | PgRollback (h : N) : PgE unit.

Inductive RedisE : Type → Type :=
  | XAdd (k : string) (values : list (string * string)) : RedisE (option string)
  | XGroupCreateMkStream (k g : string) : RedisE (option string)
  (* [Ok None] is redis.Nil: nothing arrived before the timeout *)
  | XReadGroup (g consumer : string) (ks : list string) (count : Z)
      : RedisE (result string (option (list (string * list Entry))))
  | XAck (k g : string) (id : EntryID) : RedisE (option string)
  | XAutoClaim (k g consumer : string) (minIdle count : Z) : RedisE (result string (list Entry))
  | XRange (k : string) : RedisE (result string (list Entry))
  | ZAdd (k : string) (score : Z) (member : string) : RedisE (option string)
  | ZRangeByScore (k : string) (max count : Z) : RedisE (result string (list string))
  | ZRem (k : string) (members : list string) : RedisE (option string)
  (* a Lua script, run atomically at an instant of the server, with a random draw *)
  | EvalScript (script : Z → Z → Redis → Z * Redis) : RedisE (result string Z).

(** The outcomes of building and sending an HTTP request. *)
Inductive HttpRes :=
  | HttpBadRequest (msg : string)
  | HttpFailed (msg : string)
  | HttpResp (code : Z) (body : string).

(** The subscribers of the WebSocket hub: for each notification a reference to
    a set of connections, and the sets. *)
Abbreviation ConnID := N.

Record Hub := mkHub {
  h_subscribers : gmap UUID N;
  h_sets : gmap N (gset ConnID);
  h_next : N;
}.

(** What a handler answers through: the server's own writer, which implements
    [http.Hijacker], or the [responseWriter] of middleware/logging.go around a
    writer, with the status written. It embeds the interface
    [http.ResponseWriter], and so has that interface's methods and its own. *)
Inductive ResponseWriter :=
  | serverWriter
  | responseWriter (ResponseWriter : ResponseWriter) (statusCode : Z).

(** [rw.(http.Hijacker)]; no writer has the method [Unwrap]. *)
Definition Hijacker (rw : ResponseWriter) : bool :=
  match rw with serverWriter => true | responseWriter _ _ => false end.

Inductive Eff : Type → Type :=
  | Pg {X} (e : PgE X) : Eff X
  | Rd {X} (e : RedisE X) : Eff X
  | HttpPost (url : string) (payload : list (string * string)) : Eff HttpRes
  | Now : Eff Z
  | NewV7 : Eff UUID
  | CtxErr : Eff bool                       (* ctx.Err() != nil, ctx.Done() ready *)
  | SleepOrDone (d : Z) : Eff bool          (* true: the context ended first *)
  | Sleep (d : Z) : Eff unit                (* time.Sleep *)
  | Ping (backend : string) : Eff (option string)
  | WsAccept (rw : ResponseWriter) : Eff (result string ConnID)
  | WsRead (c : ConnID) : Eff (option string)   (* [Some]: the connection broke *)
  | Mem {X} (f : Hub → X * Hub) : Eff X     (* a critical section on the hub *)
  | WsWrite (c : ConnID) (msg : string) : Eff (option string)
  | WsClose (c : ConnID) : Eff unit
  | Inc (counter : string) (labels : list string) : Eff unit
  | Observe (histogram : string) (labels : list string) (d : Z) : Eff unit
  | Panic : Eff Empty_set.

(** ** Programs *)

Inductive prog (A : Type) : Type :=
  | Ret (a : A)
  | Vis {X : Type} (e : Eff X) (k : X → prog A).
Arguments Ret {A} a.
Arguments Vis {A X} e k.

Fixpoint bind {A B} (p : prog A) (f : A → prog B) : prog B :=
  match p with
  | Ret a => f a
  | Vis e k => Vis e (λ x, bind (k x) f)
  end.

Notation "'let!' x ':=' p 'in' q" := (bind p (λ x, q))
  (at level 10, x name, p at level 100, q at level 200) : notifier_scope.
Notation "'let!' ' pat ':=' p 'in' q" := (bind p (λ x, match x with pat => q end))
  (at level 10, pat pattern, p at level 100, q at level 200) : notifier_scope.
Notation "'run!' p 'in' q" := (bind p (λ _, q))
  (at level 10, p at level 100, q at level 200) : notifier_scope.

Definition do {X} (e : Eff X) : prog X := Vis e Ret.
Definition panic {A} : prog A := Vis Panic (λ x, match x with end).

(** [for _, x := range l { body }]. *)
Fixpoint for_range {A} (l : list A) (body : A → prog unit) : prog unit :=
  match l with
  | [] => Ret tt
  | x :: l' => run! body x in for_range l' body
  end.

(** ** The surroundings *)

(** An open transaction: its inserts, and whether a statement of it failed. *)
Record Tx := mkTx { tx_writes : list (TableName * UUID * Row); tx_failed : bool }.

Record World := mkWorld {
  w_db : DB;
  w_txs : gmap N Tx;
  w_begun : N;                    (* no transaction has begun under a handle from here on *)
  w_redis : Redis;
  w_clock : Z;
  w_hub : Hub;
}.

Definition set_db (d : DB) (w : World) : World :=
  mkWorld d (w_txs w) (w_begun w) (w_redis w) (w_clock w) (w_hub w).
Definition set_txs (m : gmap N Tx) (w : World) : World :=
  mkWorld (w_db w) m (w_begun w) (w_redis w) (w_clock w) (w_hub w).
Definition set_redis (r : Redis) (w : World) : World :=
  mkWorld (w_db w) (w_txs w) (w_begun w) r (w_clock w) (w_hub w).
Definition set_clock (t : Z) (w : World) : World :=
  mkWorld (w_db w) (w_txs w) (w_begun w) (w_redis w) t (w_hub w).
Definition set_hub (h : Hub) (w : World) : World :=
  mkWorld (w_db w) (w_txs w) (w_begun w) (w_redis w) (w_clock w) h.
Definition set_begun (n : N) (w : World) : World :=
  mkWorld (w_db w) (w_txs w) n (w_redis w) (w_clock w) (w_hub w).

(** The tables as a transaction sees them: the committed rows and its own. *)
Definition overlay (ws : list (TableName * UUID * Row)) (d : DB) : DB :=
  foldl (λ d x, let '(t, id, r) := x in set_table t (<[id := r]> (table t d)) d) d ws.

(** ** Documented behaviour *)

(** Any error but the report of a unique violation: [db_fault]. *)
Definition db_fault (e : DbErr) : bool :=
  match e with DbPg code _ _ => negb (code =? "23505")%string | DbOther _ => true end.

Definition exec_reply (r : PgRes) : result DbErr Z :=
  match r with PgDone n _ => Ok n | PgFail e => Er e end.

Definition row_reply (r : PgRes) : result DbErr (option (list Val)) :=
  match r with PgDone _ rows => Ok (head rows) | PgFail e => Er e end.

(** The stream of a query ends after all its rows, or earlier with an error. *)
Definition query_reply (r : PgRes) (x : result DbErr (list (list Val) * option DbErr)) : Prop :=
  match r with
  | PgDone _ rows =>
      x = Ok (rows, None) ∨ ∃ rows' rest e, rows = rows' ++ rest ∧ x = Ok (rows', Some e)
  | PgFail e => x = Er e
  end.

(** A stream that breaks off does not tell whether its statement was committed:
    rows are sent before that. *)
Definition broken_off (x : result DbErr (list (list Val) * option DbErr)) : bool :=
  match x with Ok (_, Some _) => true | _ => false end.

(** A statement outside a transaction runs at one instant [t] of the clock. *)
Definition statement (s : Stmt) (args : list Val) (w : World) (res : PgRes) (w' : World) : Prop :=
  ∃ t db', w_clock w ≤ t ∧ sql_step args t (w_db w) s res db' ∧
           w' = set_db db' (set_clock t w).

(** Every transaction gets a handle of its own. *)
Definition tx_begin (w : World) (x : result DbErr N) (w' : World) : Prop :=
  (∃ h, x = Ok h ∧ (w_begun w ≤ h)%N ∧ w_txs w !! h = None ∧
        w' = set_begun (h + 1) (set_txs (<[h := mkTx [] false]> (w_txs w)) w)) ∨
  (∃ e, x = Er e ∧ db_fault e = true ∧ w' = w).

(** The transactions of the service only insert. *)
Definition tx_exec (h : N) (s : Stmt) (args : list Val) (w : World) (x : result DbErr Z)
    (w' : World) : Prop :=
  ∃ tx, w_txs w !! h = Some tx ∧
  ((∃ t cols vals id r now db', s = SInsert t cols vals ∧ tx_failed tx = false ∧
      insert_row t cols vals args now = Some (id, r) ∧
      sql_step args now (overlay (tx_writes tx) (w_db w)) s (PgDone 1 []) db' ∧
      x = Ok 1 ∧
      w' = set_txs (<[h := mkTx (tx_writes tx ++ [(t, id, r)]) false]> (w_txs w)) w) ∨
   (∃ e now, sql_step args now (overlay (tx_writes tx) (w_db w)) s (PgFail e)
               (overlay (tx_writes tx) (w_db w)) ∧
      x = Er e ∧
      w' = set_txs (<[h := mkTx (tx_writes tx) true]> (w_txs w)) w)).

(** A commit succeeds only if the primary keys it inserts are still new. *)
Definition fresh_writes (ws : list (TableName * UUID * Row)) (d : DB) : Prop :=
  Forall (λ x, table x.1.1 d !! x.1.2 = None) ws.

#[export] Instance fresh_writes_dec ws d : Decision (fresh_writes ws d).
Proof. unfold fresh_writes. apply _. Defined.

Definition tx_commit (h : N) (w : World) (x : option DbErr) (w' : World) : Prop :=
  ∃ tx, w_txs w !! h = Some tx ∧
  let applied := overlay (tx_writes tx) (w_db w) in
  let closed := set_txs (delete h (w_txs w)) w in
  ((x = None ∧ tx_failed tx = false ∧ fresh_writes (tx_writes tx) (w_db w) ∧ db_ok applied ∧
    w' = set_db applied closed) ∨
   (∃ e, x = Some e ∧ w' = closed) ∨
   (∃ msg, x = Some (DbOther msg) ∧ tx_failed tx = false ∧ fresh_writes (tx_writes tx) (w_db w) ∧
           db_ok applied ∧ w' = set_db applied closed)).

Definition tx_rollback (h : N) (w w' : World) : Prop :=
  w' = set_txs (delete h (w_txs w)) w.

Definition pg_doc {X} (e : PgE X) (w : World) (x : X) (w' : World) : Prop :=
  match e in PgE Y return Y → Prop with
  | PgExec s args => λ x, ∃ res, statement s args w res w' ∧ x = exec_reply res
  | PgQueryRow s args => λ x, ∃ res, statement s args w res w' ∧ x = row_reply res
  | PgQuery s args => λ x, ∃ res w1, statement s args w res w1 ∧ query_reply res x ∧
      (w' = w1 ∨ (broken_off x = true ∧ w' = set_db (w_db w) w1))
  | PgBegin => λ x, tx_begin w x w'
  | PgTxExec h s args => λ x, tx_exec h s args w x w'
  | PgCommit h => λ x, tx_commit h w x w'
  | PgRollback h => λ _, tx_rollback h w w'
  end x.

(** A Redis command replies and takes effect, or its caller gets an error; then
    the command may or may not have run. *)
Definition redis_cmd {X} (ok : X → Redis → Prop) (is_err : X → Prop) (w : World) (x : X)
    (w' : World) : Prop :=
  ∃ r', w' = set_redis r' w ∧
  (ok x r' ∨ (is_err x ∧ (r' = w_redis w ∨ ∃ y, ok y r'))).

Definition busygroup : string := "BUSYGROUP Consumer Group name already exists".

(** One sending of a command. *)
Definition redis_doc {X} (e : RedisE X) (w : World) (x : X) (w' : World) : Prop :=
  let r := w_redis w in
  match e in RedisE Y return Y → Prop with
  | XAdd k vs => λ x,
      redis_cmd (λ x r', x = None ∧ ∃ id, (s_top (stream k r) < id)%N ∧ r' = xadd k id vs r)
        (λ x, x ≠ None) w x w'
  | XGroupCreateMkStream k g => λ x,
      redis_cmd (λ x r', match xgroup_create k g r with
                         | Some r1 => x = None ∧ r' = r1
                         | None => x = Some busygroup ∧ r' = r
                         end)
        (λ x, x ≠ None ∧ x ≠ Some busygroup) w x w'
  | XReadGroup g c ks n => λ x,
      redis_cmd (λ x r', Forall (λ k, is_Some (s_groups (stream k r) !! g)) ks ∧
                         ∃ now, let '(l, r1) := xreadgroup g c (Z.to_nat n) now ks r in
                         x = Ok (match l with [] => None | _ => Some l end) ∧ r' = r1)
        (λ x, is_ok x = false) w x w'
  | XAck k g id => λ x,
      redis_cmd (λ x r', x = None ∧ r' = xack k g id r) (λ x, x ≠ None) w x w'
  | XAutoClaim k g c idle n => λ x,
      redis_cmd (λ x r', is_Some (s_groups (stream k r) !! g) ∧
                         ∃ now, let '(l, r1) := xautoclaim k g c idle (Z.to_nat n) now r in
                         x = Ok l ∧ r' = r1) (λ x, is_ok x = false) w x w'
  | XRange k => λ x,
      redis_cmd (λ x r', x = Ok (s_entries (stream k r)) ∧ r' = r) (λ x, is_ok x = false) w x w'
  | ZAdd k sc m => λ x,
      redis_cmd (λ x r', x = None ∧ r' = zadd k sc m r) (λ x, x ≠ None) w x w'
  | ZRangeByScore k mx n => λ x,
      redis_cmd (λ x r', x = Ok (zrangebyscore k mx (Z.to_nat n) r) ∧ r' = r)
        (λ x, is_ok x = false) w x w'
  | ZRem k ms => λ x,
      redis_cmd (λ x r', x = None ∧ r' = zrem k ms r) (λ x, x ≠ None) w x w'
  | EvalScript f => λ x,
      redis_cmd (λ x r', ∃ at_ draw, let '(z, r1) := f at_ draw r in x = Ok z ∧ r' = r1)
        (λ x, is_ok x = false) w x w'
  end x.

(** The client sends a command again when it does not get an answer in time; it
    says nothing about that. Each sending may have taken effect. The program
    leaves the number of times at its default ([redis.Options.MaxRetries]). *)
Definition MaxRetries : nat := 3.

Definition unheard {X} (e : RedisE X) (w w' : World) : Prop := ∃ x, redis_doc e w x w'.

Definition resent_doc (n : nat) {X} (e : RedisE X) (w : World) (x : X) (w' : World) : Prop :=
  ∃ k w1, (k ≤ n)%nat ∧ nsteps (unheard e) k w w1 ∧ redis_doc e w1 x w'.

(** An effect that reads or writes none of the modelled state: time may pass. *)
Definition quiet (w w' : World) : Prop := ∃ t, w_clock w ≤ t ∧ w' = set_clock t w.

Class Services := svc : ∀ X, Eff X → World → X → World → Prop.
Arguments svc {_ X} e w x w'.

(** The laws the service relies on, one for each of its surroundings. *)
Class ServicesOk (S : Services) : Prop := {
  postgres_doc X (e : PgE X) w x w' : svc (Pg e) w x w' → pg_doc e w x w';
  redis_server_doc X (e : RedisE X) w x w' : svc (Rd e) w x w' → resent_doc MaxRetries e w x w';
  http_doc url pl w x w' : svc (HttpPost url pl) w x w' → quiet w w';
  clock_doc w x w' : svc Now w x w' → w_clock w ≤ x ∧ w' = set_clock x w;
  uuid_doc w x w' : svc NewV7 w x w' → w' = w;
  ctx_doc w x w' : svc CtxErr w x w' → w' = w;
  sleep_or_done_doc d w x w' :
    svc (SleepOrDone d) w x w' → quiet w w' ∧ (x = false → w_clock w + d ≤ w_clock w');
  sleep_doc d w x w' : svc (Sleep d) w x w' → quiet w w' ∧ w_clock w + d ≤ w_clock w';
  ping_doc b w x w' : svc (Ping b) w x w' → quiet w w';
  (* the connection is taken over from the server: [http.Hijacker.Hijack] *)
  ws_accept_doc rw w x w' :
    svc (WsAccept rw) w x w' → quiet w w' ∧ (is_ok x = true → Hijacker rw = true);
  ws_read_doc c w x w' : svc (WsRead c) w x w' → quiet w w';
  memory_doc X (f : Hub → X * Hub) w x w' :
    svc (Mem f) w x w' → (x, w_hub w') = f (w_hub w) ∧ w' = set_hub (w_hub w') w;
  ws_write_doc c m w x w' : svc (WsWrite c m) w x w' → quiet w w';
  ws_close_doc c w x w' : svc (WsClose c) w x w' → w' = w;
  counter_doc c l w x w' : svc (Inc c l) w x w' → w' = w;
  histogram_doc c l d w x w' : svc (Observe c l d) w x w' → w' = w;
}.

(** No command is sent more than [n] times again. *)
Definition resends (S : Services) (n : nat) : Prop :=
  ∀ X (e : RedisE X) w x w', svc (Rd e) w x w' → resent_doc n e w x w'.

(** No command is sent again: what a run is like in which Redis always answers in
    time. *)
Class SentOnce (S : Services) : Prop := sent_once : resends S 0.

Lemma sent_once_doc {S : Services} {HO : SentOnce S} X (e : RedisE X) w x w' : svc (Rd e) w x w' → redis_doc e w x w'.
Proof.
  intros (k & w1 & Hk & Hs & H)%sent_once. replace k with O in Hs by lia. by inversion Hs; subst.
Qed.

Lemma may_resend {S : Services} {HS : ServicesOk S} : resends S MaxRetries.
Proof. intros X e w x w'. apply redis_server_doc. Qed.

(** What every sending keeps holds when the last one is made. *)
Lemma resent_keeps (P : World → Prop) n {X} (e : RedisE X) w x w' :
  P w → (∀ w1 y w2, P w1 → redis_doc e w1 y w2 → P w2) → resent_doc n e w x w' →
  ∃ w1, P w1 ∧ redis_doc e w1 x w'.
Proof.
  intros Hp Hstep (k & w1 & _ & Hs & H). exists w1. split; [|done]. clear H.
  induction Hs as [|k w w2 w3 (y & Hy) _ IH]; [done|]. by eapply IH, Hstep.
Qed.

(** A command changes nothing but Redis, however often it is sent. *)
Lemma redis_doc_only X (e : RedisE X) w x w' : redis_doc e w x w' → w' = set_redis (w_redis w') w.
Proof. destruct e; by intros (r' & -> & _). Qed.

Lemma redis_only {S : Services} {HS : ServicesOk S} X (e : RedisE X) w x w' :
  svc (Rd e) w x w' → w' = set_redis (w_redis w') w.
Proof.
  intros H. apply redis_server_doc, (resent_keeps (λ w1, w1 = set_redis (w_redis w1) w)) in H.
  - by destruct H as (w1 & -> & ->%redis_doc_only).
  - by destruct w.
  - by intros w1 y w2 -> ->%redis_doc_only.
Qed.

(** ** Executions *)

(** An effect with the answer it got. *)
Inductive Event : Type := | Ev {X : Type} (e : Eff X) (x : X).

Section Exec.
Context {S : Services}.

(** [exec p w tr a w']: the program [p], started alone in [w], can run to its
    end with the events [tr], the value [a] and the final state [w']. *)
Fixpoint exec {A} (p : prog A) (w : World) (tr : list Event) (a : A) (w' : World) : Prop :=
  match p with
  | Ret b => tr = [] ∧ a = b ∧ w' = w
  | Vis e k => ∃ x w1 tr1, tr = Ev e x :: tr1 ∧ svc e w x w1 ∧ exec (k x) w1 tr1 a w'
  end.

Lemma exec_bind {A B} (p : prog A) (f : A → prog B) w tr b w' :
  exec (bind p f) w tr b w' ↔
  ∃ a w1 tr1 tr2, tr = tr1 ++ tr2 ∧ exec p w tr1 a w1 ∧ exec (f a) w1 tr2 b w'.
Proof.
  revert w tr. induction p as [a|X e k IH]; intros w tr; cbn.
  - split; [intros H; by exists a, w, [], tr|].
    by intros (a' & w1 & tr1 & tr2 & -> & (-> & -> & ->) & H).
  - split.
    + intros (x & w1 & tr1 & -> & Hs & H). apply IH in H as (a & w2 & tr2 & tr3 & -> & ? & ?).
      exists a, w2, (Ev e x :: tr2), tr3. naive_solver.
    + intros (a & w1 & tr1 & tr2 & -> & (x & w2 & tr3 & -> & Hs & H) & H2).
      exists x, w2, (tr3 ++ tr2). split; [done|]. split; [done|].
      apply IH. by exists a, w1, tr3, tr2.
Qed.

Lemma exec_do {X} (e : Eff X) w tr x w' :
  exec (do e) w tr x w' ↔ tr = [Ev e x] ∧ svc e w x w'.
Proof.
  cbn. split.
  - intros (y & w1 & tr1 & -> & Hs & -> & -> & ->). done.
  - intros [-> H]. by exists x, w', [].
Qed.

Lemma exec_ret {A} (a : A) w tr b w' : exec (Ret a) w tr b w' ↔ tr = [] ∧ b = a ∧ w' = w.
Proof. done. Qed.

Lemma exec_panic {A} w tr (a : A) w' : ¬ exec panic w tr a w'.
Proof. by intros ([] & _). Qed.

Lemma exec_for_range_nil {A} (body : A → prog unit) w tr u w' :
  exec (for_range [] body) w tr u w' ↔ tr = [] ∧ w' = w.
Proof. cbn. destruct u. naive_solver. Qed.

(** An invariant of every iteration is an invariant of the loop. *)
Lemma exec_for_range_inv {A} (I : World → Prop) (l : list A) (body : A → prog unit)
    w tr u w' :
  (∀ x w1 tr1 w2, x ∈ l → I w1 → exec (body x) w1 tr1 tt w2 → I w2) →
  I w → exec (for_range l body) w tr u w' → I w'.
Proof.
  revert w tr. induction l as [|x l IH]; intros w tr Hb Hi H.
  - by apply exec_for_range_nil in H as [_ ->].
  - cbn in H. apply exec_bind in H as ([] & w1 & tr1 & tr2 & -> & H1 & H2).
    eapply IH; [|eapply Hb; [by left|done|done]|exact H2].
    intros y ???? ; eapply Hb. by right.
Qed.
End Exec.

#[global] Arguments exec : simpl never.
#[global] Arguments bind : simpl never.

(** Take an execution of a composed program apart: one hypothesis for each
    part, in order. *)
Ltac exec_step H :=
  lazymatch type of H with
  | exec (bind _ _) _ _ _ _ =>
      let a := fresh "x" in let w1 := fresh "w" in
      let t1 := fresh "tr" in let t2 := fresh "tr" in
      let H1 := fresh "Hx" in let E := fresh "Etr" in
      apply exec_bind in H as (a & w1 & t1 & t2 & E & H1 & H); try subst
  | exec (do _) _ _ _ _ =>
      let E := fresh "Etr" in apply exec_do in H as [E H]; try subst
  | exec (Ret _) _ _ _ _ =>
      let E := fresh "Etr" in let E1 := fresh "Ea" in let E2 := fresh "Ew" in
      apply exec_ret in H as (E & E1 & E2); try subst
  | exec panic _ _ _ _ => by apply exec_panic in H
  end.

(** ** Faults

    An answer is a fault when it reports that one of the surroundings failed:
    an error of Postgres that is not a unique violation, a query stream cut
    short, an error of Redis. *)
Definition pg_fault {X} (e : PgE X) (x : X) : bool :=
  match e in PgE Y return Y → bool with
  | PgExec _ _ | PgTxExec _ _ _ | PgBegin => λ x, match x with Er e => db_fault e | _ => false end
  | PgQueryRow _ _ => λ x, match x with Er e => db_fault e | _ => false end
  | PgQuery _ _ => λ x, match x with
                        | Er e => db_fault e
                        | Ok (_, Some _) => true
                        | Ok (_, None) => false
                        end
  | PgCommit _ => λ x, match x with Some _ => true | None => false end
  | PgRollback _ => λ _, false
  end x.

Definition redis_fault {X} (e : RedisE X) (x : X) : bool :=
  match e in RedisE Y return Y → bool with
  | XAdd _ _ | XAck _ _ _ | ZAdd _ _ _ | ZRem _ _ =>
      λ x, match x with Some _ => true | None => false end
  | XGroupCreateMkStream _ _ =>
      λ x, match x with Some m => negb (m =? busygroup)%string | None => false end
  | XReadGroup _ _ _ _ => λ x, negb (is_ok x)
  | XAutoClaim _ _ _ _ _ | XRange _ => λ x, negb (is_ok x)
  | ZRangeByScore _ _ _ => λ x, negb (is_ok x)
  | EvalScript _ => λ x, negb (is_ok x)
  end x.

Definition fault (ev : Event) : bool :=
  match ev with
  | @Ev X e x => match e in Eff Y return Y → bool with
                 | Pg e => λ x, pg_fault e x
                 | Rd e => λ x, redis_fault e x
                 | _ => λ _, false
                 end x
  end.

Definition fault_free (tr : list Event) : Prop := Forall (λ ev, fault ev = false) tr.

Lemma fault_free_app tr1 tr2 : fault_free (tr1 ++ tr2) ↔ fault_free tr1 ∧ fault_free tr2.
Proof. apply Forall_app. Qed.
