(* ===== verification/Discipline.v ===== *)
(** * Which effects a program may have

    [only P p]: every effect of [p], whatever the answers, satisfies [P]. It is
    a property of the program's text, so it is proved by going through it; its
    executions then have only such events. *)

From stdpp Require Import gmap.
From S2P Require Import Prelude GoLib Domain Sql Effects.

Definition EffPred : Type := ∀ X, Eff X → Prop.

(** A predicate given by a test. *)
Definition test (b : ∀ X, Eff X → bool) : EffPred := λ X e, b X e = true.

Fixpoint only (P : EffPred) {A} (p : prog A) : Prop :=
  match p with
  | Ret _ => True
  | Vis e k => P _ e ∧ ∀ x, only P (k x)
  end.

Lemma only_ret P {A} (a : A) : only P (Ret a).
Proof. done. Qed.

Lemma only_bind P {A B} (p : prog A) (f : A → prog B) :
  only P p → (∀ a, only P (f a)) → only P (bind p f).
Proof.
  intros Hp Hf. induction p as [a|X e k IH]; [apply Hf|]. destruct Hp as [He Hk]. cbn.
  split; [done|]. intros x. apply IH, Hk.
Qed.

Lemma only_do P {X} (e : Eff X) : P _ e → only P (do e).
Proof. by split. Qed.

Lemma only_for_range P {A} (l : list A) body : (∀ x, only P (body x)) → only P (for_range l body).
Proof. intros H. induction l as [|x l IH]; [done|]. cbn. apply only_bind; [apply H|]. by intros _. Qed.

Lemma only_weaken (P Q : EffPred) {A} (p : prog A) :
  (∀ X (e : Eff X), P _ e → Q _ e) → only P p → only Q p.
Proof.
  intros HPQ. induction p as [a|X e k IH]; [done|]. intros [He Hk]. split; [by apply HPQ|].
  intros x. by apply IH.
Qed.

Definition event_ok (P : EffPred) (ev : Event) : Prop := match ev with Ev e _ => P _ e end.

Lemma exec_only {S : Services} P {A} (p : prog A) w tr a w' :
  only P p → exec p w tr a w' → Forall (event_ok P) tr.
Proof.
  revert w tr. induction p as [b|X e k IH]; intros w tr Hp H.
  - by destruct H as (-> & _).
  - destruct Hp as [He Hk]. destruct H as (x & w1 & tr1 & -> & _ & H).
    constructor; [done|]. by eapply IH.
Qed.

(** Go through a program: binds, effects, and the branches on answers. *)
Create HintDb discipline.
#[export] Hint Resolve only_ret : discipline.

Ltac only_step :=
  first
    [ solve [eauto with discipline]
    | apply only_bind; [|intros ?]
    | apply only_do; reflexivity
    | apply only_for_range; intros ?
    | match goal with
      | |- only _ (match ?x with _ => _ end) => destruct x
      end ].

Ltac only_go := repeat only_step.

(** ** Disciplines *)

(** Only the database, the clock and the UUID generator. *)
Definition db_effect : EffPred := test (λ _ e,
  match e with Pg _ | Now | NewV7 => true | _ => false end).

(** Nothing that changes state: queries, and time passing. *)
Definition is_select (s : Stmt) : bool := match s with SSelect _ _ _ _ _ => true | _ => false end.

Definition pg_reads {X} (e : PgE X) : bool :=
  match e with
  | PgExec s _ | PgQueryRow s _ | PgQuery s _ => is_select s
  | _ => false
  end.

Definition read_effect : EffPred := test (λ _ e,
  match e with
  | Pg e => pg_reads e
  | Now | NewV7 | Ping _ => true
  | _ => false
  end).

(** Only Redis. *)
Definition redis_effect : EffPred := test (λ _ e, match e with Rd _ | Now => true | _ => false end).

(** No call of the webhook. *)
Definition no_post : EffPred := test (λ _ e, match e with HttpPost _ _ => false | _ => true end).

(** No panic. *)
Definition no_panic : EffPred := test (λ _ e, match e with Panic => false | _ => true end).

(** The calls of the webhook in a run: URL, payload and answer. *)
Definition posts (tr : list Event) : list (string * list (string * string) * HttpRes) :=
  omap (λ ev, match ev with
              | @Ev X e x => match e in Eff Y return Y → option _ with
                             | HttpPost url pl => λ x, Some (url, pl, x)
                             | _ => λ _, None
                             end x
              end) tr.

Lemma posts_app tr1 tr2 : posts (tr1 ++ tr2) = posts tr1 ++ posts tr2.
Proof. apply omap_app. Qed.

Lemma posts_none tr : Forall (event_ok no_post) tr → posts tr = [].
Proof.
  unfold posts. induction 1 as [|[X e x] tr He _ IH]; [done|]. cbn. rewrite IH.
  by destruct e.
Qed.

Lemma exec_no_posts {S : Services} {A} (p : prog A) w tr a w' :
  only no_post p → exec p w tr a w' → posts tr = [].
Proof. intros Hp H. eapply posts_none, exec_only; done. Qed.

(** ** What a disciplined run changes *)

Section Frames.
Context {S : Services} {HS : ServicesOk S} {HO : SentOnce S}.

(** A run that only uses the database keeps everything else. *)
Lemma select_keeps X (e : PgE X) w x w' :
  pg_reads e = true → pg_doc e w x w' → db_ok (w_db w) →
  w_db w' = w_db w ∧ w_redis w' = w_redis w ∧ w_hub w' = w_hub w ∧ w_txs w' = w_txs w.
Proof.
  assert (Hst : ∀ s args res, is_select s = true → statement s args w res w' → db_ok (w_db w) →
    w_db w' = w_db w ∧ w_redis w' = w_redis w ∧ w_hub w' = w_hub w ∧ w_txs w' = w_txs w).
  { intros s args res Hs (t & db' & _ & Hstep & ->) Hok. cbn. split; [|done].
    destruct s; try discriminate Hs.
    inversion Hstep as [n rows db2 ins tn He| | | |n rows db2 ins tn msg He]; subst; try done;
      by inversion He. }
  destruct e; try discriminate; [intros Hr (res & Hs & _) Hok; by eapply Hst..|].
  intros Hr (res & w1 & Hs & _ & Hw) Hok. destruct Hw as [->|[_ ->]]; [by eapply Hst|].
  by destruct Hs as (t & db' & _ & _ & ->).
Qed.

Lemma read_keeps {A} (p : prog A) w tr a w' :
  only read_effect p → exec p w tr a w' → db_ok (w_db w) →
  w_db w' = w_db w ∧ w_redis w' = w_redis w ∧ w_hub w' = w_hub w ∧ w_txs w' = w_txs w.
Proof.
  revert w tr. induction p as [b|X e k IH]; intros w tr Hp H Hok.
  - by destruct H as (_ & _ & ->).
  - destruct Hp as [He Hk]. destruct H as (x & w1 & tr1 & _ & Hs & H).
    assert (Hw : w_db w1 = w_db w ∧ w_redis w1 = w_redis w ∧ w_hub w1 = w_hub w ∧
                 w_txs w1 = w_txs w).
    { unfold read_effect, test in He. destruct e; try discriminate He.
      - apply postgres_doc in Hs. by eapply select_keeps.
      - apply clock_doc in Hs as [_ ->]. done.
      - apply uuid_doc in Hs as ->. done.
      - apply ping_doc in Hs as (t & _ & ->). done. }
    destruct Hw as (E1 & E2 & E3 & E4). rewrite <- E1 in Hok.
    destruct (IH x w1 tr1 (Hk x) H Hok) as (-> & -> & -> & ->). done.
Qed.

Lemma redis_keeps {A} (p : prog A) w tr a w' :
  only redis_effect p → exec p w tr a w' →
  w_db w' = w_db w ∧ w_hub w' = w_hub w ∧ w_txs w' = w_txs w ∧ w_clock w ≤ w_clock w'.
Proof.
  revert w tr. induction p as [b|X e k IH]; intros w tr Hp H.
  - by destruct H as (_ & _ & ->).
  - destruct Hp as [He Hk]. destruct H as (x & w1 & tr1 & _ & Hs & H).
    assert (Hw : w_db w1 = w_db w ∧ w_hub w1 = w_hub w ∧ w_txs w1 = w_txs w ∧
                 w_clock w ≤ w_clock w1).
    { unfold redis_effect, test in He. destruct e; try discriminate He.
      - apply redis_only in Hs as ->. done.
      - apply clock_doc in Hs as [? ->]. done. }
    destruct (IH x w1 tr1 (Hk x) H) as (-> & -> & -> & ?). intuition lia.
Qed.
End Frames.
