(* ===== verification/Frames.v ===== *)
(** * What an effect may change

    Frame conditions of executions, and the consequences of the laws of the
    surroundings for the statements the repositories send. *)

From stdpp Require Import gmap.
From S2P Require Import Prelude GoLib Domain Sql SqlFacts Redis Effects.

(** ** Frames *)

(** Only the tables may have changed, and time may have passed. *)
Definition frame_db (w w' : World) : Prop :=
  w_clock w ≤ w_clock w' ∧ w_txs w' = w_txs w ∧ w_redis w' = w_redis w ∧ w_hub w' = w_hub w.

(** Only Redis may have changed, and time may have passed. *)
Definition frame_redis (w w' : World) : Prop :=
  w_clock w ≤ w_clock w' ∧ w_txs w' = w_txs w ∧ w_db w' = w_db w ∧ w_hub w' = w_hub w.

#[export] Instance frame_db_preorder : PreOrder frame_db.
Proof. split; [intros ?|intros ???]; unfold frame_db; intuition (try lia; congruence). Qed.

#[export] Instance frame_redis_preorder : PreOrder frame_redis.
Proof. split; [intros ?|intros ???]; unfold frame_redis; intuition (try lia; congruence). Qed.

Lemma quiet_frame_db w w' : quiet w w' → frame_db w w' ∧ w_db w' = w_db w.
Proof. intros (t & ? & ->). unfold frame_db. cbn. auto. Qed.

Lemma quiet_frame_redis w w' : quiet w w' → frame_redis w w' ∧ w_redis w' = w_redis w.
Proof. intros (t & ? & ->). unfold frame_redis. cbn. auto. Qed.

Lemma statement_frame s args w res w' : statement s args w res w' → frame_db w w'.
Proof. intros (t & db' & ? & ? & ->). unfold frame_db. cbn. auto. Qed.

Lemma statement_ok s args w res w' : statement s args w res w' → db_ok (w_db w) → db_ok (w_db w').
Proof. intros (t & db' & ? & Hs & ->) Hok. cbn. by eapply sql_step_ok. Qed.

(** ** Updates keep the columns they do not assign *)

Lemma set_all_ne kvs r c : c ∉ kvs.*1 → set_all kvs r !! c = r !! c.
Proof.
  unfold set_all. revert r. induction kvs as [|[k v] kvs IH]; intros r Hc; [done|].
  cbn in *. apply not_elem_of_cons in Hc as [? ?].
  rewrite IH by done. by rewrite lookup_insert_ne.
Qed.

Lemma store_names t args now r sets kvs :
  mapM (store t args now r) sets = Some kvs → kvs.*1 = sets.*1.
Proof.
  revert kvs. induction sets as [|p sets IH]; intros kvs H; cbn in H; [by injection H as <-|].
  apply bind_Some in H as (kv & Hk & H). apply bind_Some in H as (kvs' & Hs & [= <-]).
  cbn. f_equal; [|by apply IH].
  unfold store in Hk. apply bind_Some in Hk as (? & _ & Hk).
  apply bind_Some in Hk as (? & _ & Hk). by apply bind_Some in Hk as (? & _ & [= <-]).
Qed.

Lemma update_row_ne t sets args now r r' c :
  update_row t sets args now r = Some r' → c ∉ sets.*1 → r' !! c = r !! c.
Proof.
  intros H Hc. unfold update_row in H. apply bind_Some in H as (kvs & Hk & [= <-]).
  apply set_all_ne. by rewrite (store_names _ _ _ _ _ _ Hk).
Qed.

Lemma unique_on_update c (m : Table) id r r' :
  unique_on c m → m !! id = Some r → r' !! c = r !! c → unique_on c (<[id := r']> m).
Proof.
  intros Hu Hr Hc. unfold unique_on in *.
  intros i x Hi j y Hj. rewrite lookup_insert in Hi, Hj.
  destruct (decide (id = i)), (decide (id = j)); simplify_eq.
  - by left.
  - rewrite Hc. by apply (Hu i r Hr j y).
  - rewrite Hc. by apply (Hu i x Hi j r).
  - by apply (Hu i x Hi j y).
Qed.

(** An update of one row that assigns no unique column violates nothing. *)
Lemma update_no_violation db t id r r' sets args now name :
  db_ok db → table t db !! id = Some r → update_row t sets args now r = Some r' →
  Forall (λ p, p.2 ∉ sets.*1) (unique_constraints t) →
  ¬ violates db (set_table t (<[id := r']> (table t db)) db) t None name.
Proof.
  intros Hok Hr Hu Hf [(_ & ? & [=] & _)|(c & Hc & Hn)]. apply Hn.
  rewrite Forall_forall in Hf. specialize (Hf _ Hc).
  pose proof (tok_unique _ _ (Hok t)) as Huq. rewrite Forall_forall in Huq.
  specialize (Huq _ Hc). cbn in *.
  replace (table t (set_table t _ db)) with (<[id := r']> (table t db)) by by destruct t.
  eapply unique_on_update; [done|done|by eapply update_row_ne].
Qed.

Lemma no_violation_same db t name : db_ok db → ¬ violates db db t None name.
Proof.
  intros Hok [(_ & ? & [=] & _)|(c & Hc & Hn)]. apply Hn.
  pose proof (tok_unique _ _ (Hok t)) as Huq. rewrite Forall_forall in Huq.
  by apply (Huq _ Hc).
Qed.

(** ** Inserting against a unique column *)

Lemma unique_on_insert_fresh c (m : Table) id r v :
  m !! id = None → unique_on c (<[id := r]> m) → r !! c = Some v → v ≠ VNull →
  ∀ j r', m !! j = Some r' → r' !! c ≠ Some v.
Proof.
  intros Hid Hu Hr Hv j r' Hj He.
  destruct (decide (id = j)) as [->|Hne]; [congruence|].
  destruct (Hu id r (lookup_insert_eq _ _ _) j r') as [?|[?|Hd]].
  - by rewrite lookup_insert_ne.
  - done.
  - congruence.
  - by rewrite Hr in Hd.
Qed.

Lemma not_unique_on_insert c (m : Table) id r v :
  unique_on c m → r !! c = Some v → ¬ unique_on c (<[id := r]> m) →
  v ≠ VNull ∧ ∃ j r', j ≠ id ∧ m !! j = Some r' ∧ r' !! c = Some v.
Proof.
  intros Hu Hr Hn. destruct (decide (v = VNull)) as [->|Hv].
  { exfalso. apply Hn. intros i x Hi j y Hj. rewrite lookup_insert in Hi, Hj.
    destruct (decide (id = i)), (decide (id = j)); simplify_eq.
    - by left.
    - right. rewrite Hr. by right.
    - rewrite Hr. right. destruct (decide (x !! c = Some VNull)) as [E|E]; [|by left].
      right. by rewrite E.
    - by apply (Hu i x Hi j y). }
  split; [done|].
  destruct (decide (map_Exists (λ j r', j ≠ id ∧ r' !! c = Some v) m)) as [(j & r' & ? & ? & ?)|Hno];
    [by exists j, r'|].
  exfalso. apply Hn. assert (Hne : ∀ j y, j ≠ id → m !! j = Some y → y !! c ≠ Some v).
  { intros j y Hji Hj E. apply Hno. by exists j, y. }
  intros i x Hi j y Hj. rewrite lookup_insert in Hi, Hj.
  destruct (decide (id = i)), (decide (id = j)); simplify_eq.
  - by left.
  - right. left. rewrite Hr. intros E. by eapply Hne.
  - right. left. rewrite Hr. by eapply Hne.
  - by apply (Hu i x Hi j y).
Qed.

(** ** Updating one row by its id *)

Section UpdateById.
Context (t : TableName) (sets : list (string * Expr)) (wh : list Cond) (ret : list string)
        (args : list Val) (id : UUID) (cs : list RCond).
Hypothesis resolved :
  ∀ now, mapM (resolve t args now) wh = Some (REq "id" (VUuid id) :: cs).
(** The row is there, satisfies the further conditions and is updated. *)
Definition row_updated (now : Z) (db db' : DB) (r' : Row) : Prop :=
  ∃ r, table t db !! id = Some r ∧ sat cs id r = true ∧
       update_row t sets args now r = Some r' ∧
       db' = set_table t (<[id := r']> (table t db)) db.

Definition no_such_row (db : DB) : Prop :=
  ∀ r, table t db !! id = Some r → sat cs id r = false.

Lemma statement_update_any w res w' :
  db_ok (w_db w) →
  statement (SUpdate t sets wh ret) args w res w' →
  ∃ now, w_clock w ≤ now ≤ w_clock w' ∧
  ((∃ r', res = PgDone 1 [project ret (id, r')] ∧ row_updated now (w_db w) (w_db w') r') ∨
   (res = PgDone 0 [] ∧ no_such_row (w_db w) ∧ w_db w' = w_db w) ∨
   (∃ e, res = PgFail e ∧ db_fault e = true ∧
         (w_db w' = w_db w ∨ ∃ r', row_updated now (w_db w) (w_db w') r')) ∨
   (∃ name msg r' db1, res = PgFail (DbPg "23505" name msg) ∧ w_db w' = w_db w ∧
      row_updated now (w_db w) db1 r' ∧ violates (w_db w) db1 t None name)).
Proof.
  intros Hok (now & db' & Hle & Hs & ->). exists now. cbn. split; [lia|].
  assert (Heff : ∀ n rows db1 ins t1,
    sql_effect args now (w_db w) (SUpdate t sets wh ret) n rows db1 ins t1 →
    t1 = t ∧ ins = None ∧
    ((∃ r', n = 1 ∧ rows = [project ret (id, r')] ∧ row_updated now (w_db w) db1 r') ∨
     (n = 0 ∧ rows = [] ∧ no_such_row (w_db w) ∧ db1 = w_db w))).
  { intros n rows db1 ins t1 He.
    pose proof He as (?&?&?&_&_&_&_&_&_&->&->)%sql_update_inv.
    split; [done|]. split; [done|].
    destruct (sql_update_by_id _ _ _ _ _ _ _ _ _ _ _ _ id cs (resolved now) He)
      as [(r & r' & ? & ? & ? & -> & -> & ->)|(? & -> & -> & ->)].
    - left. exists r'. split; [done|]. split; [done|]. by exists r.
    - right. done. }
  apply sql_step_inv in Hs as
    [(n & rows & ins & t1 & -> & He & _)
    |[(name & msg & n & rows & db1 & ins & t1 & -> & -> & He & Hv)
    |[(code & name & msg & Hc & -> & ->)|(msg & -> & [->|(n & rows & ins & t1 & He & _)])]]].
  - apply Heff in He as (_ & _ & [(r' & -> & -> & ?)|(-> & -> & ? & ->)]); eauto 10.
  - apply Heff in He as (-> & -> & [(r' & -> & -> & ?)|(-> & -> & ? & ->)]).
    + right. right. right. by exists name, msg, r', db1.
    + by apply no_violation_same in Hv.
  - right. right. left. exists (DbPg code name msg). split; [done|]. split; [|by left].
    cbn. apply negb_true_iff, String.eqb_neq. done.
  - right. right. left. exists (DbOther msg). auto.
  - right. right. left. exists (DbOther msg). split; [done|]. split; [done|].
    apply Heff in He as (_ & _ & [(r' & -> & -> & ?)|(-> & -> & ? & ->)]); eauto.
Qed.

(** Statements that assign no unique column are not rejected. *)
Lemma statement_update_by_id w res w' :
  Forall (λ p, p.2 ∉ sets.*1) (unique_constraints t) →
  db_ok (w_db w) →
  statement (SUpdate t sets wh ret) args w res w' →
  ∃ now, w_clock w ≤ now ≤ w_clock w' ∧
  ((∃ r', res = PgDone 1 [project ret (id, r')] ∧ row_updated now (w_db w) (w_db w') r') ∨
   (res = PgDone 0 [] ∧ no_such_row (w_db w) ∧ w_db w' = w_db w) ∨
   (∃ e, res = PgFail e ∧ db_fault e = true ∧
         (w_db w' = w_db w ∨ ∃ r', row_updated now (w_db w) (w_db w') r'))).
Proof.
  intros Hnu Hok Hst. destruct (statement_update_any _ _ _ Hok Hst)
    as (now & Hnow & [?|[?|[?|(name & msg & r' & db1 & _ & _ & (r & ? & ? & ? & ->) & Hv)]]]);
    [by exists now; auto..|].
  by eapply update_no_violation in Hv.
Qed.
End UpdateById.

(** ** Queries *)

Lemma select_step args now db t cols wh ord lim res db' :
  sql_step args now db (SSelect t cols wh ord lim) res db' → db_ok db →
  db' = db ∧
  ((∃ n cs l l', res = PgDone n (project cols <$> l') ∧ mapM (resolve t args now) wh = Some cs ∧
     ordered ord l (matching cs (table t db)) ∧ limited args now lim l l') ∨
   (∃ e, res = PgFail e ∧ db_fault e = true)).
Proof.
  intros Hs Hok.
  apply sql_step_inv in Hs as
    [(n & rows & ins & t1 & -> & He & _)
    |[(name & msg & n & rows & db1 & ins & t1 & -> & -> & He & Hv)
    |[(code & name & msg & Hc & -> & ->)|(msg & -> & Hdb)]]].
  - apply sql_select_inv in He as (cs & l & l' & ? & ? & ? & -> & -> & ->).
    split; [done|]. left. by exists (Z.of_nat (length l')), cs, l, l'.
  - assert (db1 = db ∧ ins = None) as [-> ->] by by inversion He.
    by apply no_violation_same in Hv.
  - split; [done|]. right. eexists. split; [done|]. by apply negb_true_iff, String.eqb_neq.
  - split; [|by right; eexists].
    destruct Hdb as [->|(n & rows & ins & t1 & He & _)]; [done|].
    by apply sql_select_inv in He as (? & ? & ? & ? & ? & ? & ? & ? & ->).
Qed.

(** The answer of a query: all its rows, a part of them and an error at the
    end of the stream, or an error. *)
Lemma select_query t cols wh ord lim args w x w' :
  pg_doc (PgQuery (SSelect t cols wh ord lim) args) w x w' → db_ok (w_db w) →
  frame_db w w' ∧ w_db w' = w_db w ∧
  ((∃ now cs l l' rest err rows, x = Ok (rows, err) ∧ project cols <$> l' = rows ++ rest ∧
      (err = None → rest = []) ∧
      mapM (resolve t args now) wh = Some cs ∧
      ordered ord l (matching cs (table t (w_db w))) ∧ limited args now lim l l') ∨
   (∃ e, x = Er e ∧ db_fault e = true)).
Proof.
  intros (res & w1 & Hst & Hq & Hw) Hok. pose proof (statement_frame _ _ _ _ _ Hst) as Hf.
  split; [by destruct Hw as [->|[_ ->]]|]. destruct Hst as (now & db' & Hle & Hs & ->).
  assert (Hdb' : w_db w' = db' ∨ w_db w' = w_db w) by (destruct Hw as [->|[? ->]]; [by left|by right]).
  clear Hf Hw. apply select_step in Hs as [-> [(n & cs & l & l' & -> & ? & ? & ?)|(e & -> & ?)]]; [| |done];
    (split; [by destruct Hdb'|]).
  - left. destruct Hq as [->|(rows & rest & e & Hr & ->)].
    + exists now, cs, l, l', [], None, (project cols <$> l'). by rewrite app_nil_r.
    + exists now, cs, l, l', rest, (Some e), rows. done.
  - right. exists e. done.
Qed.

(** ** Updates of several rows *)

Lemma unique_on_put c l (m : Table) :
  unique_on c m → (∀ p, p ∈ l → ∃ r, m !! p.1 = Some r ∧ p.2 !! c = r !! c) →
  unique_on c (put_rows l m).
Proof.
  revert m. induction l as [|[id r'] l IH]; intros m Hu Hl; [done|].
  unfold put_rows. cbn [foldl fst snd]. fold (put_rows l (<[id := r']> m)).
  destruct (Hl (id, r') ltac:(by left)) as (r & Hr & Hc). cbn in Hr, Hc.
  apply IH; [by eapply unique_on_update|].
  intros [i x] Hp. destruct (Hl (i, x) ltac:(by right)) as (y & Hy & Hyc). cbn in *.
  destruct (decide (id = i)) as [<-|].
  - exists r'. rewrite lookup_insert_eq. split; [done|]. congruence.
  - exists y. by rewrite lookup_insert_ne.
Qed.

Lemma update_rows_inv t sets args now l l' p :
  update_rows t sets args now l = Some l' → p ∈ l' →
  ∃ r, (p.1, r) ∈ l ∧ update_row t sets args now r = Some p.2.
Proof.
  intros Hu Hp. revert l' Hu Hp. induction l as [|[id r] l IH]; intros l' Hu Hp.
  - cbn in Hu. injection Hu as <-. by apply not_elem_of_nil in Hp.
  - unfold update_rows in Hu. cbn [mapM] in Hu.
    apply bind_Some in Hu as (q & Hq & Hu). apply bind_Some in Hu as (l2 & Hl & [= <-]).
    apply bind_Some in Hq as (r' & Hr & [= <-]).
    apply elem_of_cons in Hp as [->|Hp]; [exists r; split; [by left|done]|].
    destruct (IH _ Hl Hp) as (r0 & ? & ?). exists r0. split; [by right|done].
Qed.

Lemma updates_no_violation db t sets args now l l' name :
  db_ok db → (∀ p, p ∈ l → table t db !! p.1 = Some p.2) →
  update_rows t sets args now l = Some l' →
  Forall (λ p, p.2 ∉ sets.*1) (unique_constraints t) →
  ¬ violates db (set_table t (put_rows l' (table t db)) db) t None name.
Proof.
  intros Hok Hl Hu Hnu [(_ & id & ? & _)|(c & Hc & Hn)]; [done|]. apply Hn.
  pose proof (tok_unique _ _ (Hok t)) as Ho. rewrite Forall_forall in Ho, Hnu.
  specialize (Ho _ Hc). specialize (Hnu _ Hc). cbn in *.
  assert (Ht : table t (set_table t (put_rows l' (table t db)) db) = put_rows l' (table t db))
    by by destruct t. rewrite Ht. apply unique_on_put; [done|].
  intros p Hp. destruct (update_rows_inv _ _ _ _ _ _ _ Hu Hp) as (r & Hr & Hup).
  exists r. split; [by apply (Hl (_, r))|]. by eapply update_row_ne.
Qed.

(** What an UPDATE of a selected set of rows does: all of it, and then all of
    its rows are answered, or a part of them and an error; or an error, after
    all of it or nothing. When only a part is answered it may be undone. *)
Lemma update_in_query t sets wh ord lim ret args w x w' :
  Forall (λ p, p.2 ∉ sets.*1) (unique_constraints t) →
  pg_doc (PgQuery (SUpdateIn t sets wh ord lim ret) args) w x w' → db_ok (w_db w) →
  frame_db w w' ∧ db_ok (w_db w') ∧
  ∃ now, w_clock w ≤ now ≤ w_clock w' ∧
  ((∃ cs s sel l l', mapM (resolve t args now) wh = Some cs ∧
     ordered ord s (filter (λ p, p.1 ∉ db_locked (w_db w) now) (matching cs (table t (w_db w)))) ∧
     limited args now (Some lim) s sel ∧ l ≡ₚ sel ∧ update_rows t sets args now l = Some l' ∧
     let updated := w_db w' = set_table t (put_rows l' (table t (w_db w))) (w_db w) in
     ((updated ∧ x = Ok (project ret <$> l', None)) ∨
      ((updated ∨ w_db w' = w_db w) ∧
         ∃ rows rest e, project ret <$> l' = rows ++ rest ∧ x = Ok (rows, Some e)) ∨
      (updated ∧ ∃ e, x = Er e ∧ db_fault e = true))) ∨
   (w_db w' = w_db w ∧ ∃ e, x = Er e ∧ db_fault e = true)).
Proof.
  intros Hnu (res & w1 & Hst & Hq & Hw) Hok.
  assert (Hf : frame_db w w' ∧ db_ok (w_db w')).
  { pose proof (statement_frame _ _ _ _ _ Hst) as Hf. pose proof (statement_ok _ _ _ _ _ Hst Hok) as Hok1.
    by destruct Hw as [->|[_ ->]]. }
  destruct Hf as [Hf Hok']. split; [done|]. split; [done|].
  destruct Hst as (now & db' & Hle & Hs & ->). exists now.
  assert (Hc : w_clock w' = now) by by destruct Hw as [->|[_ ->]]. split; [by rewrite Hc|].
  assert (Hdb' : w_db w' = db' ∨ broken_off x = true ∧ w_db w' = w_db w)
    by (destruct Hw as [->|[? ->]]; [by left|by right]). clear Hw Hc.
  apply sql_step_inv in Hs as
    [(n & rows & ins & t1 & -> & He & _)
    |[(name & msg & n & rows & db1 & ins & t1 & -> & -> & He & Hv)
    |[(code & name & msg & Hc & -> & ->)|(msg & -> & Hdb)]]].
  - left. apply sql_update_in_inv in He
      as (cs & s & sel & l & l' & ? & ? & ? & ? & ? & -> & -> & -> & -> & ->).
    exists cs, s, sel, l, l'. split_and!; try done. cbn zeta.
    destruct Hq as [->|(rows & rest & e & Hr & ->)].
    + left. by destruct Hdb' as [?|[? _]].
    + right. left. split; [|by eauto]. destruct Hdb' as [?|[_ ?]]; [by left|by right].
  - exfalso. apply sql_update_in_inv in He
      as (cs & s & sel & l & l' & ? & [Hso _] & (? & _ & _ & ->) & Hl & ? & -> & -> & -> & -> & ->).
    eapply updates_no_violation in Hv; [done|done| |done|done].
    intros [i r] Hp. rewrite Hl in Hp. apply elem_of_take in Hp as (k & Hk & _).
    apply list_elem_of_lookup_2 in Hk. rewrite Hso in Hk.
    apply list_elem_of_filter in Hk as [_ Hk]. by apply elem_of_matching in Hk as [? _].
  - right. cbn in Hq. subst x. destruct Hdb' as [->|[? _]]; [|done]. split; [done|].
    eexists. split; [done|]. by apply negb_true_iff, String.eqb_neq.
  - cbn in Hq. subst x. destruct Hdb' as [->|[? _]]; [|done].
    destruct Hdb as [->|(n & rows & ins & t1 & He & _)]; [by right; split; [|eexists]|].
    left. apply sql_update_in_inv in He
      as (cs & s & sel & l & l' & ? & ? & ? & ? & ? & -> & -> & -> & -> & ->).
    exists cs, s, sel, l, l'. split_and!; try done. right. right. split; [done|by eexists].
Qed.

(** ** Inserts *)

(** The row is in the tables afterwards, its id being new. *)
Definition inserted (t : TableName) cols vals args now (db db' : DB) : Prop :=
  ∃ id r, insert_row t cols vals args now = Some (id, r) ∧ table t db !! id = None ∧
          db' = set_table t (<[id := r]> (table t db)) db.

Lemma insert_exec t cols vals args w x w' :
  pg_doc (PgExec (SInsert t cols vals) args) w x w' → db_ok (w_db w) →
  frame_db w w' ∧ db_ok (w_db w') ∧
  ∃ now, w_clock w ≤ now ≤ w_clock w' ∧
  ((x = Ok 1 ∧ inserted t cols vals args now (w_db w) (w_db w')) ∨
   (∃ name msg id r, x = Er (DbPg "23505" name msg) ∧ w_db w' = w_db w ∧
      insert_row t cols vals args now = Some (id, r) ∧
      violates (w_db w) (set_table t (<[id := r]> (table t (w_db w))) (w_db w)) t (Some id) name) ∨
   (∃ e, x = Er e ∧ db_fault e = true ∧
      (w_db w' = w_db w ∨ inserted t cols vals args now (w_db w) (w_db w')))).
Proof.
  intros (res & Hst & Hx) Hok.
  split; [by eapply statement_frame|]. split; [by eapply statement_ok|].
  destruct Hst as (now & db' & Hle & Hs & ->). exists now. cbn. split; [done|].
  apply sql_step_inv in Hs as
    [(n & rows & ins & t1 & -> & He & Hfr & _)
    |[(name & msg & n & rows & db1 & ins & t1 & -> & -> & He & Hv)
    |[(code & name & msg & Hc & -> & ->)|(msg & -> & Hdb)]]]; cbn in Hx; subst x.
  - left. apply sql_insert_inv in He as (id & r & Hi & -> & -> & -> & -> & ->).
    split; [done|]. exists id, r. split_and!; try done. by apply Hfr.
  - right. left. apply sql_insert_inv in He as (id & r & Hi & -> & -> & -> & -> & ->).
    by exists name, msg, id, r.
  - right. right. eexists. split; [done|]. split; [|by left]. by apply negb_true_iff, String.eqb_neq.
  - right. right. eexists. split; [done|]. split; [done|].
    destruct Hdb as [->|(n & rows & ins & t1 & He & Hfr & _)]; [by left|right].
    apply sql_insert_inv in He as (id & r & Hi & -> & -> & -> & -> & ->).
    exists id, r. split_and!; try done. by apply Hfr.
Qed.

(** ** Reading one row by its id *)

Lemma select_row t cols wh args id w x w' :
  (∀ now, mapM (resolve t args now) wh = Some [REq "id" (VUuid id)]) →
  pg_doc (PgQueryRow (SSelect t cols wh [] None) args) w x w' → db_ok (w_db w) →
  frame_db w w' ∧ w_db w' = w_db w ∧
  (x = Ok ((λ r, project cols (id, r)) <$> table t (w_db w) !! id) ∨
   ∃ e, x = Er e ∧ db_fault e = true).
Proof.
  intros Hres (res & Hst & Hx) Hok. split; [by eapply statement_frame|].
  destruct Hst as (now & db' & Hle & Hs & ->). cbn.
  apply select_step in Hs as [-> [(n & cs & l & l' & -> & Hcs & [Hp _] & ->)|(e & -> & ?)]];
    [| |done]; (split; [done|]).
  - left. rewrite Hx. cbn. rewrite Hres in Hcs. injection Hcs as <-. apply matching_id in Hp as ->.
    unfold row_at. by destruct (table t (w_db w) !! id).
  - right. by exists e.
Qed.

(** ** Deleting one row by its id *)

Lemma unique_on_delete c (m : Table) id : unique_on c m → unique_on c (delete id m).
Proof.
  intros Hu i x [_ Hi]%lookup_delete_Some j y [_ Hj]%lookup_delete_Some. by apply (Hu i x Hi j y).
Qed.

Lemma sql_delete_by_id args now db t wh n rows db' ins t' id :
  mapM (resolve t args now) wh = Some [REq "id" (VUuid id)] →
  sql_effect args now db (SDelete t wh) n rows db' ins t' →
  t' = t ∧ ins = None ∧ rows = [] ∧
  ((is_Some (table t db !! id) ∧ n = 1 ∧ db' = set_table t (delete id (table t db)) db) ∨
   (table t db !! id = None ∧ n = 0 ∧ db' = db)).
Proof.
  intros Hr H. inversion H as [| | | |t1 wh1 cs l Hcs Hl]; subst. rewrite Hr in Hcs.
  injection Hcs as <-. apply matching_id in Hl as ->. do 3 (split; [done|]). unfold row_at.
  destruct (table t' db !! id) as [r|] eqn:E; cbn; [left; by split|right].
  split; [done|]. split; [done|]. by destruct t', db.
Qed.

Lemma statement_delete_by_id t wh args id w res w' :
  (∀ now, mapM (resolve t args now) wh = Some [REq "id" (VUuid id)]) →
  db_ok (w_db w) → statement (SDelete t wh) args w res w' →
  let deleted := is_Some (table t (w_db w) !! id) ∧
                 w_db w' = set_table t (delete id (table t (w_db w))) (w_db w) in
  (res = PgDone 1 [] ∧ deleted) ∨
  (res = PgDone 0 [] ∧ table t (w_db w) !! id = None ∧ w_db w' = w_db w) ∨
  (∃ e, res = PgFail e ∧ db_fault e = true ∧ (w_db w' = w_db w ∨ deleted)).
Proof.
  intros Hres Hok (now & db' & Hle & Hs & ->). cbn.
  apply sql_step_inv in Hs as
    [(n & rows & ins & t1 & -> & He & _)
    |[(name & msg & n & rows & db1 & ins & t1 & -> & -> & He & Hv)
    |[(code & name & msg & Hc & -> & ->)|(msg & -> & Hdb)]]].
  - apply (sql_delete_by_id _ _ _ _ _ _ _ _ _ _ id) in He
      as (-> & -> & -> & [(? & -> & ->)|(? & -> & ->)]); [by left|by right; left|done].
  - exfalso. apply (sql_delete_by_id _ _ _ _ _ _ _ _ _ _ id) in He
      as (-> & -> & -> & [(? & -> & ->)|(? & -> & ->)]); [| |done].
    + destruct Hv as [(_ & ? & [=] & _)|(c & Hc & Hn)]. apply Hn.
      pose proof (tok_unique _ _ (Hok t)) as Hu. rewrite Forall_forall in Hu.
      specialize (Hu _ Hc). cbn in Hu.
      destruct t; cbn [table set_table db_notifications db_templates db_attempts] in *;
        by apply unique_on_delete.
    + by apply no_violation_same in Hv.
  - right. right. eexists. split; [done|]. split; [|by left]. by apply negb_true_iff, String.eqb_neq.
  - right. right. eexists. split; [done|]. split; [done|].
    destruct Hdb as [->|(n & rows & ins & t1 & He & _)]; [by left|].
    apply (sql_delete_by_id _ _ _ _ _ _ _ _ _ _ id) in He
      as (-> & -> & -> & [(? & -> & ->)|(? & -> & ->)]); [by right|by left|done].
Qed.

(** A call of the database leaves Redis and the hub alone. *)
Lemma pg_frame X (e : PgE X) w x w' :
  pg_doc e w x w' → w_redis w' = w_redis w ∧ w_hub w' = w_hub w ∧ w_clock w ≤ w_clock w'.
Proof.
  destruct e; cbn; intros H.
  1-2: by destruct H as (? & (? & ? & ? & _ & ->) & _).
  - by destruct H as (? & ? & (? & ? & ? & _ & ->) & _ & [->|[_ ->]]).
  - by destruct H as [(?&_&_&_&->)|(?&_&_&->)].
  - by destruct H as (? & _ & [(?&?&?&?&?&?&?&_&_&_&_&_&->)|(?&?&_&_&->)]).
  - by destruct H as (? & _ & [(_&_&_&_&->)|[(?&_&->)|(?&_&_&_&_&->)]]).
  - by rewrite H.
Qed.
