(* ===== verification/NotificationRepo.v ===== *)
(** * The notification repository (internal/repository/notification.go)

    One definition per method, building the same statements and arguments as
    the code and branching on the same answers. *)

From stdpp Require Import gmap.
From S2P Require Import Prelude GoLib Domain Sql Effects.

(** ** Values to and from the driver *)

(** [nilIfEmpty], as a parameter of a statement. *)
Definition nilIfEmpty (s : string) : Val := if (s =? "")%string then VNull else VText s.

Definition val_opt_uuid (u : option UUID) : Val := match u with Some u => VUuid u | None => VNull end.
Definition val_opt_time (t : option Z) : Val := match t with Some t => VTime t | None => VNull end.

(** [json.Marshal] and [json.Unmarshal] of a map from strings to strings;
    marshalling one cannot fail, and unmarshalling [null] leaves the map nil. *)
Definition json_Marshal (v : Vars) : Json := match v with Some m => JObj m | None => JNull end.
Definition json_Unmarshal (j : Json) : Vars := match j with JObj m => Some m | JNull => None end.

(** Scanning a column into a Go variable of the given type. *)
Definition scan_uuid (v : Val) : option UUID := match v with VUuid u => Some u | _ => None end.
Definition scan_opt_uuid (v : Val) : option (option UUID) :=
  match v with VUuid u => Some (Some u) | VNull => Some None | _ => None end.
Definition scan_string (v : Val) : option string := match v with VText s => Some s | _ => None end.
Definition scan_opt_string (v : Val) : option (option string) :=
  match v with VText s => Some (Some s) | VNull => Some None | _ => None end.
Definition scan_int (v : Val) : option Z := match v with VInt z => Some z | _ => None end.
Definition scan_time (v : Val) : option Z := match v with VTime t => Some t | _ => None end.
Definition scan_opt_time (v : Val) : option (option Z) :=
  match v with VTime t => Some (Some t) | VNull => Some None | _ => None end.
Definition scan_opt_json (v : Val) : option (option Json) :=
  match v with VJson j => Some (Some j) | VNull => Some None | _ => None end.

Definition db_error (e : DbErr) : error :=
  match e with DbPg _ _ m => EText m | DbOther m => EText m end.

(** The columns every SELECT and RETURNING of a notification lists. *)
Definition notification_cols : list string :=
  ["id"; "idempotency_key"; "batch_id"; "channel"; "priority"; "recipient"; "subject"; "body";
   "template_id"; "template_vars"; "status"; "scheduled_at"; "attempt_count"; "max_retries";
   "last_error"; "delivered_at"; "created_at"; "updated_at"].

(** The [Scan] of a notification's columns, and the assignments after it. *)
Definition scan_fields (row : list Val) : option Notification :=
  match row with
  | [v_id; v_key; v_batch; v_chan; v_prio; v_rcpt; v_subj; v_body; v_tid; v_vars;
     v_stat; v_sched; v_att; v_max; v_err; v_del; v_cre; v_upd] =>
      id ← scan_uuid v_id; idempotencyKey ← scan_opt_string v_key;
      batch ← scan_opt_uuid v_batch; channel ← scan_string v_chan;
      priority ← scan_string v_prio; recipient ← scan_string v_rcpt;
      subject ← scan_opt_string v_subj; body ← scan_string v_body;
      tid ← scan_opt_uuid v_tid; templateVarsJSON ← scan_opt_json v_vars;
      status ← scan_string v_stat; sched ← scan_opt_time v_sched;
      attempts ← scan_int v_att; maxr ← scan_int v_max;
      lastError ← scan_opt_string v_err; delivered ← scan_opt_time v_del;
      created ← scan_time v_cre; updated ← scan_time v_upd;
      Some (mkNotification id (default "" idempotencyKey) batch channel priority recipient
              (default "" subject) body tid
              (match templateVarsJSON with Some j => json_Unmarshal j | None => None end)
              status sched attempts maxr (default "" lastError) delivered created updated)
  | _ => None
  end.

Definition scan_error : error := EText "cannot scan into destination".

(** [scanNotification(row)]. *)
Definition scanNotification (r : result DbErr (option (list Val))) : result error Notification :=
  match r with
  | Ok None => Er (ESentinel ErrNotFound)
  | Ok (Some row) =>
      match scan_fields row with
      | Some n => Ok n
      | None => Er (EWrap "scanning notification: " scan_error "")
      end
  | Er e => Er (EWrap "scanning notification: " (db_error e) "")
  end.

(** [scanNotificationFromRows(rows)]. *)
Definition scanNotificationFromRows (row : list Val) : result error Notification :=
  match scan_fields row with
  | Some n => Ok n
  | None => Er (EWrap "scanning notification row: " scan_error "")
  end.

(** [for rows.Next() { n, err := scanNotificationFromRows(rows) .. }]. *)
Fixpoint scan_all (rows : list (list Val)) : result error (list Notification) :=
  match rows with
  | [] => Ok []
  | row :: rows' =>
      match scanNotificationFromRows row with
      | Er e => Er e
      | Ok n => match scan_all rows' with Er e => Er e | Ok ns => Ok (n :: ns) end
      end
  end.

(** ** Create *)

Definition insert_cols : list string :=
  ["idempotency_key"; "batch_id"; "channel"; "priority"; "recipient"; "subject"; "body";
   "template_id"; "template_vars"; "status"; "scheduled_at"; "attempt_count"; "max_retries";
   "created_at"; "updated_at"].

Definition insert_notification : Stmt :=
  SInsert Notifications ("id" :: insert_cols) (EArg <$> seq 1 16).

Definition insert_args (n : Notification) (templateVars : Json) : list Val :=
  [VUuid (n_ID n); nilIfEmpty (n_IdempotencyKey n); val_opt_uuid (n_BatchID n);
   VText (n_Channel n); VText (n_Priority n); VText (n_Recipient n); nilIfEmpty (n_Subject n);
   VText (n_Body n); val_opt_uuid (n_TemplateID n); VJson templateVars; VText (n_Status n);
   val_opt_time (n_ScheduledAt n); VInt (n_AttemptCount n); VInt (n_MaxRetries n);
   VTime (n_CreatedAt n); VTime (n_UpdatedAt n)].

(** The error of a failed INSERT in [Create]. *)
Definition create_error (e : DbErr) : error :=
  match e with
  | DbPg code constraint _ =>
      if (code =? "23505")%string then
        if strings_Contains constraint "idempotency" then ESentinel ErrIdempotencyConflict
        else ESentinel ErrDuplicate
      else EWrap "inserting notification: " (db_error e) ""
  | DbOther _ => EWrap "inserting notification: " (db_error e) ""
  end.

(** [Create] assigns [n]'s id and times; the caller sees them. *)
Definition Create (n : Notification) : prog (Notification * option error) :=
  let templateVars := json_Marshal (n_TemplateVars n) in
  let! now := do Now in
  let! id := do NewV7 in
  let n := set_ident id now now n in
  let! r := do (Pg (PgExec insert_notification (insert_args n templateVars))) in
  match r with
  | Ok _ => Ret (n, None)
  | Er e => Ret (n, Some (create_error e))
  end.

(** ** CreateBatch *)

Definition batch_error (e : DbErr) : error :=
  match e with
  | DbPg code _ _ =>
      if (code =? "23505")%string then ESentinel ErrIdempotencyConflict
      else EWrap "inserting notification in batch: " (db_error e) ""
  | DbOther _ => EWrap "inserting notification in batch: " (db_error e) ""
  end.

(** The loop of the transaction: it stops at the first error. *)
Fixpoint batch_inserts (h : N) (now : Z) (ns : list Notification)
    : prog (list Notification * option error) :=
  match ns with
  | [] => Ret ([], None)
  | n :: ns' =>
      let! id := do NewV7 in
      let n := set_ident id now now n in
      let templateVars := json_Marshal (n_TemplateVars n) in
      let! r := do (Pg (PgTxExec h insert_notification (insert_args n templateVars))) in
      match r with
      | Er e => Ret (n :: ns', Some (batch_error e))
      | Ok _ =>
          let! '(ns'', err) := batch_inserts h now ns' in
          Ret (n :: ns'', err)
      end
  end.

(** The deferred [Rollback] runs on every way out. *)
Definition CreateBatch (ns : list Notification) : prog (list Notification * option error) :=
  let! b := do (Pg PgBegin) in
  match b with
  | Er e => Ret (ns, Some (EWrap "beginning transaction: " (db_error e) ""))
  | Ok h =>
      let! now := do Now in
      let! '(ns', err) := batch_inserts h now ns in
      let! err :=
        match err with
        | Some e => Ret (Some e)
        | None =>
            let! c := do (Pg (PgCommit h)) in
            match c with
            | Some e => Ret (Some (EWrap "committing batch: " (db_error e) ""))
            | None => Ret None
            end
        end in
      run! do (Pg (PgRollback h)) in
      Ret (ns', err)
  end.

(** ** GetByID and List *)

Definition select_by_id : Stmt :=
  SSelect Notifications notification_cols [CEq "id" (EArg 1)] [] None.

Definition GetByID (id : UUID) : prog (result error Notification) :=
  let! r := do (Pg (PgQueryRow select_by_id [VUuid id])) in
  Ret (scanNotification r).

(** The limit [List] uses for the one it is given. *)
Definition effective_limit (limit : Z) : Z :=
  if (limit <=? 0) || (100 <? limit) then 50 else limit.

(** The conditions, their arguments and the next placeholder's number, as the
    code builds them. *)
Definition build_conditions (filter : NotificationFilter) : list Cond * list Val * nat :=
  let conditions := [] in
  let args := [] in
  let argIdx := 1%nat in
  let '(conditions, args, argIdx) :=
    match f_Status filter with
    | Some s => (conditions ++ [CEq "status" (EArg argIdx)], args ++ [VText s], S argIdx)
    | None => (conditions, args, argIdx)
    end in
  let '(conditions, args, argIdx) :=
    match f_Channel filter with
    | Some c => (conditions ++ [CEq "channel" (EArg argIdx)], args ++ [VText c], S argIdx)
    | None => (conditions, args, argIdx)
    end in
  let '(conditions, args, argIdx) :=
    match f_BatchID filter with
    | Some b => (conditions ++ [CEq "batch_id" (EArg argIdx)], args ++ [VUuid b], S argIdx)
    | None => (conditions, args, argIdx)
    end in
  match f_Cursor filter with
  | Some c => (conditions ++ [CRowLt "created_at" "id" (EArg argIdx) (EArg (S argIdx))],
               args ++ [VTime (c_CreatedAt c); VUuid (c_ID c)], S (S argIdx))
  | None => (conditions, args, argIdx)
  end.

Definition select_list (conditions : list Cond) (argIdx : nat) : Stmt :=
  SSelect Notifications notification_cols conditions
    [("created_at", Desc); ("id", Desc)] (Some (EArg argIdx)).

(** Cutting the rows to the limit and setting the cursor of the next page. *)
Definition page (limit : Z) (notifications : list Notification) : NotificationList :=
  if limit <? Z.of_nat (length notifications) then
    let notifications := take (Z.to_nat limit) notifications in
    mkList notifications
      (match last notifications with
       | Some l => Some (mkCursor (n_CreatedAt l) (n_ID l))
       | None => None
       end)
  else mkList notifications None.

Definition List (filter : NotificationFilter) : prog (result error NotificationList) :=
  let limit := effective_limit (f_Limit filter) in
  let '(conditions, args, argIdx) := build_conditions filter in
  let args := args ++ [VInt (wrap64 (limit + 1))] in
  let! r := do (Pg (PgQuery (select_list conditions argIdx) args)) in
  match r with
  | Er e => Ret (Er (EWrap "querying notifications: " (db_error e) ""))
  | Ok (rows, _) =>                    (* rows.Err() is not looked at *)
      match scan_all rows with
      | Er e => Ret (Er e)
      | Ok notifications => Ret (Ok (page limit notifications))
      end
  end.

(** ** UpdateStatus, IncrementAttempt, Cancel *)

Definition update_delivered : Stmt :=
  SUpdate Notifications
    [("status", EArg 1); ("delivered_at", EArg 2); ("updated_at", EArg 3)]
    [CEq "id" (EArg 4)] [].
Definition update_failed : Stmt :=
  SUpdate Notifications
    [("status", EArg 1); ("last_error", EArg 2); ("updated_at", EArg 3)]
    [CEq "id" (EArg 4)] [].
Definition update_plain : Stmt :=
  SUpdate Notifications [("status", EArg 1); ("updated_at", EArg 2)] [CEq "id" (EArg 3)] [].

Definition UpdateStatus (id : UUID) (status : Status) (lastError : string)
    : prog (option error) :=
  let! now := do Now in
  let '(query, args) :=
    if (status =? StatusDelivered)%string then
      (update_delivered, [VText status; VTime now; VTime now; VUuid id])
    else if negb (lastError =? "")%string then
      (update_failed, [VText status; VText lastError; VTime now; VUuid id])
    else (update_plain, [VText status; VTime now; VUuid id]) in
  let! r := do (Pg (PgExec query args)) in
  match r with
  | Er e => Ret (Some (EWrap "updating notification status: " (db_error e) ""))
  | Ok affected => if affected =? 0 then Ret (Some (ESentinel ErrNotFound)) else Ret None
  end.

Definition increment_sets : list (string * Expr) :=
  [("attempt_count", EColPlus "attempt_count" 1); ("updated_at", ENow)].

Definition increment_attempt : Stmt :=
  SUpdate Notifications increment_sets [CEq "id" (EArg 1)] [].

Definition IncrementAttempt (id : UUID) : prog (option error) :=
  let! r := do (Pg (PgExec increment_attempt [VUuid id])) in
  match r with
  | Er e => Ret (Some (db_error e))
  | Ok _ => Ret None
  end.

Definition cancel_sets : list (string * Expr) :=
  [("status", ELit (VText "cancelled")); ("updated_at", ENow)].

Definition cancel_stmt : Stmt :=
  SUpdate Notifications cancel_sets
    [CEq "id" (EArg 1); CIn "status" ["pending"; "scheduled"; "queued"]] ["id"].

Definition Cancel (id : UUID) : prog (option error) :=
  let! r := do (Pg (PgQueryRow cancel_stmt [VUuid id])) in
  match r with
  | Ok None =>
      let! existing := GetByID id in
      match existing with
      | Er _ => Ret (Some (ESentinel ErrNotFound))
      | Ok _ => Ret (Some (ESentinel ErrCannotCancel))
      end
  | Ok (Some _) => Ret None
  | Er e => Ret (Some (db_error e))
  end.

(** ** FetchScheduledDue *)

Definition release_sets : list (string * Expr) :=
  [("status", ELit (VText "pending")); ("updated_at", ENow)].

Definition fetch_due : Stmt :=
  SUpdateIn Notifications release_sets
    [CEq "status" (ELit (VText "scheduled")); CLe "scheduled_at" ENow]
    [("scheduled_at", Asc)] (EArg 1) notification_cols.

Definition FetchScheduledDue (limit : Z) : prog (result error (list Notification)) :=
  let! r := do (Pg (PgQuery fetch_due [VInt limit])) in
  match r with
  | Er e => Ret (Er (EWrap "fetching scheduled notifications: " (db_error e) ""))
  | Ok (rows, _) => Ret (scan_all rows)
  end.

(** ** Delivery attempts *)

Definition insert_attempt : Stmt :=
  SInsert DeliveryAttempts
    ["id"; "notification_id"; "attempt_number"; "status_code"; "response_body"; "error";
     "duration_ms"; "created_at"] (EArg <$> seq 1 8).

Definition set_attempt_ident (i : UUID) (c : Z) (a : DeliveryAttempt) : DeliveryAttempt :=
  mkAttempt i (a_NotificationID a) (a_AttemptNumber a) (a_StatusCode a) (a_ResponseBody a)
    (a_Error a) (a_DurationMs a) c.

Definition attempt_args (a : DeliveryAttempt) : list Val :=
  [VUuid (a_ID a); VUuid (a_NotificationID a); VInt (a_AttemptNumber a); VInt (a_StatusCode a);
   nilIfEmpty (a_ResponseBody a); nilIfEmpty (a_Error a); VInt (a_DurationMs a);
   VTime (a_CreatedAt a)].

Definition CreateDeliveryAttempt (attempt : DeliveryAttempt) : prog (option error) :=
  let! id := do NewV7 in
  let! now := do Now in
  let attempt := set_attempt_ident id now attempt in
  let! r := do (Pg (PgExec insert_attempt (attempt_args attempt))) in
  match r with
  | Er e => Ret (Some (db_error e))
  | Ok _ => Ret None
  end.

Definition attempt_cols : list string :=
  ["id"; "notification_id"; "attempt_number"; "status_code"; "response_body"; "error";
   "duration_ms"; "created_at"].

Definition select_attempts : Stmt :=
  SSelect DeliveryAttempts attempt_cols [CEq "notification_id" (EArg 1)]
    [("attempt_number", Asc)] None.

Definition scan_attempt (row : list Val) : option DeliveryAttempt :=
  match row with
  | [v_id; v_nid; v_num; v_code; v_body; v_err; v_dur; v_cre] =>
      id ← scan_uuid v_id; nid ← scan_uuid v_nid; num ← scan_int v_num;
      code ← scan_int v_code; responseBody ← scan_opt_string v_body;
      errStr ← scan_opt_string v_err; dur ← scan_int v_dur; cre ← scan_time v_cre;
      Some (mkAttempt id nid num code (default "" responseBody) (default "" errStr) dur cre)
  | _ => None
  end.

Fixpoint scan_attempts (rows : list (list Val)) : result error (list DeliveryAttempt) :=
  match rows with
  | [] => Ok []
  | row :: rows' =>
      match scan_attempt row with
      | None => Er (EWrap "scanning delivery attempt: " scan_error "")
      | Some a => match scan_attempts rows' with Er e => Er e | Ok l => Ok (a :: l) end
      end
  end.

Definition GetDeliveryAttempts (notificationID : UUID)
    : prog (result error (list DeliveryAttempt)) :=
  let! r := do (Pg (PgQuery select_attempts [VUuid notificationID])) in
  match r with
  | Er e => Ret (Er (EWrap "querying delivery attempts: " (db_error e) ""))
  | Ok (rows, _) => Ret (scan_attempts rows)
  end.
