(* ===== verification/NotificationStore.v ===== *)
(** * The abstract store of notifications

    What the notification repository promises: a finite map from ids to
    notifications with create, get, status update, attempt count, cancel and
    release operations ([Module Spec]). [abs] reads that map off the tables. *)

From stdpp Require Import gmap.
From S2P Require Import Prelude GoLib Domain Sql SqlFacts Effects NotificationRepo.

Abbreviation Store := (gmap UUID Notification).

(** Times are stored with microsecond resolution. *)
Definition micro (t : Z) : Z := t / 1000 * 1000.

Lemma micro_idemp t : micro (micro t) = micro t.
Proof. unfold micro. rewrite Z.div_mul by lia. done. Qed.

(** ** Operations of the store *)

Module Spec.
(** The new status of a notification; delivery also records its time, and an
    error message is kept when there is one. *)
Definition mark (now : Z) (st : Status) (lastError : string) (n : Notification) : Notification :=
  set_UpdatedAt (micro now)
    (if (st =? StatusDelivered)%string then set_DeliveredAt (Some (micro now)) (set_Status st n)
     else if negb (lastError =? "")%string then set_LastError lastError (set_Status st n)
     else set_Status st n).

Definition update_status (now : Z) (id : UUID) (st : Status) (lastError : string) (S : Store)
    : Store * option Sentinel :=
  match S !! id with
  | None => (S, Some ErrNotFound)
  | Some n => (<[id := mark now st lastError n]> S, None)
  end.

Definition count_attempt (now : Z) (n : Notification) : Notification :=
  set_UpdatedAt (micro now) (set_AttemptCount (n_AttemptCount n + 1) n).

Definition increment_attempt (now : Z) (id : UUID) (S : Store) : Store :=
  match S !! id with
  | None => S
  | Some n => <[id := count_attempt now n]> S
  end.

Definition cancellable (st : Status) : bool :=
  (st =? StatusPending)%string || (st =? StatusScheduled)%string || (st =? StatusQueued)%string.

Definition cancel_mark (now : Z) (n : Notification) : Notification :=
  set_UpdatedAt (micro now) (set_Status StatusCancelled n).

Definition cancel (now : Z) (id : UUID) (S : Store) : Store * option Sentinel :=
  match S !! id with
  | None => (S, Some ErrNotFound)
  | Some n =>
      if cancellable (n_Status n) then (<[id := cancel_mark now n]> S, None)
      else (S, Some ErrCannotCancel)
  end.

Definition get (id : UUID) (S : Store) : Notification + Sentinel :=
  match S !! id with Some n => inl n | None => inr ErrNotFound end.

(** What is stored of a created notification: times in microseconds, no
    error and no delivery time yet. *)
Definition stored (n : Notification) : Notification :=
  mkNotification (n_ID n) (n_IdempotencyKey n) (n_BatchID n) (n_Channel n) (n_Priority n)
    (n_Recipient n) (n_Subject n) (n_Body n) (n_TemplateID n) (n_TemplateVars n) (n_Status n)
    (micro <$> n_ScheduledAt n) (n_AttemptCount n) (n_MaxRetries n) "" None
    (micro (n_CreatedAt n)) (micro (n_UpdatedAt n)).

(** Some notification has the (non-empty) idempotency key. *)
Definition key_taken (k : string) (S : Store) : Prop :=
  k ≠ "" ∧ ∃ i m, S !! i = Some m ∧ n_IdempotencyKey m = k.

(** Creation: a fresh id and a fresh key, or a conflict on one of them. *)
Inductive create (n : Notification) (S : Store) : Store → option Sentinel → Prop :=
  | create_ok :
      S !! n_ID n = None → ¬ key_taken (n_IdempotencyKey n) S →
      create n S (<[n_ID n := stored n]> S) None
  | create_same_id :
      is_Some (S !! n_ID n) → create n S S (Some ErrDuplicate)
  | create_same_key :
      key_taken (n_IdempotencyKey n) S → create n S S (Some ErrIdempotencyConflict).

(** Due for release: scheduled, at an instant that has come. *)
Definition due (now : Z) (n : Notification) : bool :=
  (n_Status n =? StatusScheduled)%string &&
  match n_ScheduledAt n with Some t => t <=? now | None => false end.

Definition release (now : Z) (n : Notification) : Notification :=
  set_UpdatedAt (micro now) (set_Status StatusPending n).
Lemma mark_status t st le n : n_Status (mark t st le n) = st.
Proof. unfold mark. by destruct (_ =? _)%string; [|destruct (negb _)]; destruct n. Qed.
End Spec.

(** ** From tables to the store *)

Definition cv (r : Row) (c : string) : Val := default VNull (r !! c).

(** The notification of a row, as the repository scans it. *)
Definition decode (id : UUID) (r : Row) : option Notification :=
  scan_fields (project notification_cols (id, r)).

Definition abs (db : DB) : Store := map_imap decode (db_notifications db).

Lemma decode_cols id r :
  decode id r = scan_fields
    [VUuid id; cv r "idempotency_key"; cv r "batch_id"; cv r "channel"; cv r "priority";
     cv r "recipient"; cv r "subject"; cv r "body"; cv r "template_id"; cv r "template_vars";
     cv r "status"; cv r "scheduled_at"; cv r "attempt_count"; cv r "max_retries";
     cv r "last_error"; cv r "delivered_at"; cv r "created_at"; cv r "updated_at"].
Proof. reflexivity. Qed.

Lemma cv_insert_eq r c v : cv (<[c := v]> r) c = v.
Proof. unfold cv. by rewrite lookup_insert_eq. Qed.

Lemma cv_insert_ne r c c' v : c ≠ c' → cv (<[c := v]> r) c' = cv r c'.
Proof. intros H. unfold cv. by rewrite lookup_insert_ne. Qed.

Lemma lookup_abs db id : abs db !! id = db_notifications db !! id ≫= decode id.
Proof. unfold abs. by rewrite map_lookup_imap. Qed.

(** Normalise the columns of a row with assigned columns. *)
Ltac cv_simpl :=
  repeat first [rewrite cv_insert_eq | rewrite cv_insert_ne by discriminate].

(** Read the fields off a scan that succeeded. *)
Ltac scan_inv H :=
  rewrite decode_cols in H; cbn [scan_fields] in H;
  repeat match type of H with
         | _ ≫= _ = Some _ =>
             let E := fresh "Ec" in apply bind_Some in H as (? & E & H)
         end;
  repeat match goal with
         | E : scan_uuid (VUuid _) = Some _ |- _ => injection E as <-
         end.

(** The scan of a row whose columns are known. *)
Ltac scan_go :=
  rewrite decode_cols; cv_simpl; cbn [scan_fields scan_uuid mbind option_bind];
  repeat (first [match goal with
          | H : scan_uuid _ = Some _ |- _ => rewrite H
          | H : scan_opt_uuid _ = Some _ |- _ => rewrite H
          | H : scan_string _ = Some _ |- _ => rewrite H
          | H : scan_opt_string _ = Some _ |- _ => rewrite H
          | H : scan_int _ = Some _ |- _ => rewrite H
          | H : scan_time _ = Some _ |- _ => rewrite H
          | H : scan_opt_time _ = Some _ |- _ => rewrite H
          | H : scan_opt_json _ = Some _ |- _ => rewrite H
          end | progress cbn [scan_string scan_int scan_time scan_opt_string scan_opt_time]];
          cbn [mbind option_bind]).

Lemma decode_set_status id r n st :
  decode id r = Some n → decode id (<["status" := VText st]> r) = Some (set_Status st n).
Proof. intros H. scan_inv H. scan_go. by simplify_eq. Qed.

Lemma decode_set_updated id r n t :
  decode id r = Some n → decode id (<["updated_at" := VTime t]> r) = Some (set_UpdatedAt t n).
Proof. intros H. scan_inv H. scan_go. by simplify_eq. Qed.

Lemma decode_set_delivered id r n t :
  decode id r = Some n →
  decode id (<["delivered_at" := VTime t]> r) = Some (set_DeliveredAt (Some t) n).
Proof. intros H. scan_inv H. scan_go. by simplify_eq. Qed.

Lemma decode_set_error id r n s :
  decode id r = Some n →
  decode id (<["last_error" := VText s]> r) = Some (set_LastError s n).
Proof. intros H. scan_inv H. scan_go. by simplify_eq. Qed.

Lemma decode_set_attempts id r n z :
  decode id r = Some n →
  decode id (<["attempt_count" := VInt z]> r) = Some (set_AttemptCount z n).
Proof. intros H. scan_inv H. scan_go. by simplify_eq. Qed.

(** ** A typed row always scans *)

Lemma typed_row_col t r c :
  typed_row t r → find_col t c ≠ None → ∃ k, find_col t c = Some k ∧
  coerce_col k (cv r c) = Some (cv r c).
Proof.
  intros Ht Hc. destruct (find_col t c) as [k|] eqn:E; [|done].
  exists k. split; [done|].
  unfold find_col in E. apply List.find_some in E as [Hin Hn].
  apply String.eqb_eq in Hn. unfold typed_row in Ht. rewrite Forall_forall in Ht.
  rewrite <- Hn. apply Ht. by apply list_elem_of_In.
Qed.

(** The scan of one typed column succeeds, as its type says. *)
Definition scans (c : Column) (v : Val) : bool :=
  match col_type c, col_not_null c with
  | (TVarchar _ | TText | TEnum _), true => match scan_string v with Some _ => true | _ => false end
  | (TVarchar _ | TText | TEnum _), false =>
      match scan_opt_string v with Some _ => true | _ => false end
  | TUuid, true => match scan_uuid v with Some _ => true | _ => false end
  | TUuid, false => match scan_opt_uuid v with Some _ => true | _ => false end
  | (TInteger | TBigint), true => match scan_int v with Some _ => true | _ => false end
  | TTimestamptz, true => match scan_time v with Some _ => true | _ => false end
  | TTimestamptz, false => match scan_opt_time v with Some _ => true | _ => false end
  | TJsonb, _ => match scan_opt_json v with Some _ => true | _ => false end
  | _, _ => true
  end.

Lemma coerce_scans c v : coerce_col c v = Some v → scans c v = true.
Proof.
  unfold coerce_col, scans.
  destruct v, (col_type c), (col_not_null c); cbn; try done.
Qed.

Ltac scan_col Ht name :=
  let k := fresh "k" in let E := fresh "E" in let H := fresh "Hs" in
  destruct (typed_row_col _ _ name Ht) as (k & E & H); [done|];
  vm_compute in E; injection E as <-; apply coerce_scans in H;
  cbn [scans col_type col_not_null channel_type priority_type status_type] in H.

Lemma decode_typed id r : typed_row Notifications r → is_Some (decode id r).
Proof.
  intros Ht.
  scan_col Ht "idempotency_key". scan_col Ht "batch_id". scan_col Ht "channel".
  scan_col Ht "priority". scan_col Ht "recipient". scan_col Ht "subject".
  scan_col Ht "body". scan_col Ht "template_id". scan_col Ht "template_vars".
  scan_col Ht "status". scan_col Ht "scheduled_at". scan_col Ht "attempt_count".
  scan_col Ht "max_retries". scan_col Ht "last_error". scan_col Ht "delivered_at".
  scan_col Ht "created_at". scan_col Ht "updated_at".
  rewrite decode_cols. cbn [scan_fields scan_uuid mbind option_bind].
  repeat match goal with
  | H : (match ?x with _ => _ end) = true |- _ => destruct x eqn:?; [clear H|done]
  end.
  by repeat (match goal with H : _ = Some _ |- context [?f ≫= _] => idtac end;
             cbn [mbind option_bind]).
Qed.

(** In a well-formed database the rows and the store have the same ids. *)
Lemma abs_lookup_row db id r :
  db_ok db → db_notifications db !! id = Some r → ∃ n, decode id r = Some n ∧ abs db !! id = Some n.
Proof.
  intros Hok Hr. destruct (decode_typed id r) as [n Hn].
  - by apply (tok_typed _ _ (Hok Notifications)) in Hr.
  - exists n. by rewrite lookup_abs, Hr.
Qed.

Lemma abs_lookup_none db id : db_notifications db !! id = None → abs db !! id = None.
Proof. intros H. by rewrite lookup_abs, H. Qed.

Lemma abs_lookup_some db id n :
  abs db !! id = Some n → ∃ r, db_notifications db !! id = Some r ∧ decode id r = Some n.
Proof. rewrite lookup_abs. intros (r & ? & ?)%bind_Some. eauto. Qed.

Lemma abs_insert db id r n :
  decode id r = Some n →
  abs (set_table Notifications (<[id := r]> (db_notifications db)) db) = <[id := n]> (abs db).
Proof.
  intros Hd. apply map_eq. intros j. rewrite lookup_abs. cbn [set_table db_notifications].
  destruct (decide (id = j)) as [->|Hne].
  - by rewrite !lookup_insert_eq.
  - by rewrite !lookup_insert_ne, lookup_abs by done.
Qed.

(** ** The assignments of the statements, on the notification *)

Lemma update_status_row now now' id st le r r' n q args :
  (q, args) =
    (if (st =? StatusDelivered)%string then
      (update_delivered, [VText st; VTime now; VTime now; VUuid id])
    else if negb (le =? "")%string then
      (update_failed, [VText st; VText le; VTime now; VUuid id])
    else (update_plain, [VText st; VTime now; VUuid id])) →
  ∀ sets wh, q = SUpdate Notifications sets wh [] →
  update_row Notifications sets args now' r = Some r' →
  decode id r = Some n →
  decode id r' = Some (Spec.mark now st le n).
Proof.
  intros Hq sets wh Hs Hu Hd. unfold Spec.mark.
  destruct (st =? StatusDelivered)%string; [|destruct (negb (le =? "")%string)];
    injection Hq as -> ->; injection Hs as <- <-;
    unfold update_row in Hu; cbn in Hu; case_bool_decide; try done;
    cbn in Hu; injection Hu as <-;
    eauto using decode_set_status, decode_set_updated, decode_set_delivered, decode_set_error.
Qed.

Lemma increment_row now id r r' n :
  update_row Notifications increment_sets [VUuid id] now r = Some r' →
  decode id r = Some n →
  decode id r' = Some (Spec.count_attempt now n) ∧ n_AttemptCount n < int4_max.
Proof.
  intros Hu Hd. pose proof Hd as Hn. unfold update_row in Hu. cbn in Hu.
  assert (Ha : r !! "attempt_count" = Some (VInt (n_AttemptCount n))).
  { scan_inv Hn. injection Hn as <-. unfold cv in *. cbn.
    destruct (r !! "attempt_count") as [[]|]; cbn in *; by simplify_eq. }
  rewrite Ha in Hu. cbn in Hu.
  destruct (_ && _) eqn:Hb in Hu; [|done]. cbn in Hu. injection Hu as <-.
  split; [|unfold int4_max in *; lia].
  eauto using decode_set_updated, decode_set_attempts.
Qed.

Lemma cancel_row now id r r' n args :
  update_row Notifications cancel_sets args now r = Some r' →
  decode id r = Some n → decode id r' = Some (Spec.cancel_mark now n).
Proof.
  intros Hu Hd. unfold update_row in Hu. cbn in Hu. injection Hu as <-.
  eauto using decode_set_status, decode_set_updated.
Qed.

Lemma release_row now id r r' n args :
  update_row Notifications release_sets args now r = Some r' →
  decode id r = Some n → decode id r' = Some (Spec.release now n).
Proof.
  intros Hu Hd. unfold update_row in Hu. cbn in Hu. injection Hu as <-.
  eauto using decode_set_status, decode_set_updated.
Qed.

Lemma decode_status id r n : decode id r = Some n → r !! "status" = Some (VText (n_Status n)).
Proof.
  intros Hn. scan_inv Hn. injection Hn as <-. unfold cv in *. cbn.
  destruct (r !! "status") as [[]|]; cbn in *; by simplify_eq.
Qed.

Lemma decode_scheduled id r n :
  decode id r = Some n → cv r "scheduled_at" = val_opt_time (n_ScheduledAt n).
Proof.
  intros Hn. scan_inv Hn. injection Hn as <-. cbn.
  destruct (cv r "scheduled_at"); cbn in *; by simplify_eq.
Qed.

Lemma decode_ID id r n : decode id r = Some n → n_ID n = id.
Proof. intros Hn. scan_inv Hn. by injection Hn as <-. Qed.

(** ** Inserting a notification *)

Lemma decode_key id r n :
  decode id r = Some n → cv r "idempotency_key" = nilIfEmpty (n_IdempotencyKey n) ∨
  (cv r "idempotency_key" = VText "" ∧ n_IdempotencyKey n = "").
Proof.
  intros Hn. scan_inv Hn. injection Hn as <-. cbn. unfold nilIfEmpty.
  destruct (cv r "idempotency_key") as [| |s| | |]; cbn in *; simplify_eq; cbn; auto.
  destruct (String.eqb_spec s ""); subst; auto.
Qed.

(** The value a column stores is the parameter, times rounded. *)
Definition norm (v : Val) : Val := match v with VTime t => VTime (micro t) | _ => v end.

Lemma coerce_norm c v v' : coerce_col c v = Some v' → v' = norm v.
Proof.
  unfold coerce_col, coerce, norm, micro.
  destruct v, (col_not_null c), (col_type c); intros H; try done;
    repeat case_match; by simplify_eq.
Qed.

Lemma mapM_store_args t args now old pre vs cols kvs :
  args = pre ++ vs → length cols = length vs →
  mapM (store t args now old) (zip cols (EArg <$> seq (S (length pre)) (length cols))) = Some kvs →
  kvs = zip cols (norm <$> vs).
Proof.
  revert pre vs kvs. induction cols as [|c cols IH]; intros pre [|v vs] kvs Ha Hl H; try done.
  - cbn in H. by injection H as <-.
  - cbn [length seq fmap list_fmap zip zip_with mapM] in H.
    apply bind_Some in H as (kv & Hk & H). apply bind_Some in H as (kvs' & Hs & [= <-]).
    unfold store in Hk. apply bind_Some in Hk as (k & _ & Hk).
    apply bind_Some in Hk as (v' & Hv & Hk). apply bind_Some in Hk as (w & Hw & [= <-]).
    cbn [eval snd] in Hv. rewrite Ha, lookup_app_r, Nat.sub_diag in Hv by lia.
    injection Hv as <-. apply coerce_norm in Hw as ->. cbn. f_equal.
    apply (IH (pre ++ [v])); [by rewrite <- app_assoc|by injection Hl|].
    by rewrite length_app, Nat.add_1_r.
Qed.

Lemma insert_row_args t cols id vs now id' r :
  length cols = length vs →
  insert_row t ("id" :: cols) (EArg <$> seq 1 (S (length cols))) (VUuid id :: vs) now
    = Some (id', r) →
  id' = id ∧ r = set_all (zip cols (norm <$> vs)) ∅.
Proof.
  intros Hl H. unfold insert_row in H.
  cbn [seq fmap list_fmap eval lookup list_lookup] in H.
  apply bind_Some in H as (kvs & Hk & [= <- <-]). split; [done|].
  f_equal. by apply (mapM_store_args _ _ _ _ [VUuid id] vs) in Hk.
Qed.

Lemma norm_nilIfEmpty s : norm (nilIfEmpty s) = nilIfEmpty s.
Proof. unfold nilIfEmpty. by destruct (s =? "")%string. Qed.

Lemma norm_opt_uuid u : norm (val_opt_uuid u) = val_opt_uuid u.
Proof. by destruct u. Qed.

Lemma norm_opt_time t : norm (val_opt_time t) = val_opt_time (micro <$> t).
Proof. by destruct t. Qed.

Lemma scan_nilIfEmpty s : ∃ o, scan_opt_string (nilIfEmpty s) = Some o ∧ default "" o = s.
Proof. unfold nilIfEmpty. destruct (String.eqb_spec s ""); subst; eauto. Qed.

Lemma scan_val_opt_uuid u : scan_opt_uuid (val_opt_uuid u) = Some u.
Proof. by destruct u. Qed.

Lemma scan_val_opt_time t : scan_opt_time (val_opt_time t) = Some t.
Proof. by destruct t. Qed.

Lemma json_roundtrip v : json_Unmarshal (json_Marshal v) = v.
Proof. by destruct v. Qed.

Lemma insert_args_row n now id r :
  insert_row Notifications ("id" :: insert_cols) (EArg <$> seq 1 16)
    (insert_args n (json_Marshal (n_TemplateVars n))) now = Some (id, r) →
  id = n_ID n ∧ decode id r = Some (Spec.stored n) ∧
  r !! "idempotency_key" = Some (nilIfEmpty (n_IdempotencyKey n)).
Proof.
  intros H. apply (insert_row_args Notifications insert_cols (n_ID n)
    (tail (insert_args n (json_Marshal (n_TemplateVars n))))) in H as [-> ->]; [|done].
  split; [done|]. cbn [insert_cols insert_args tail zip zip_with fmap list_fmap set_all foldl
    fst snd].
  rewrite !norm_nilIfEmpty, !norm_opt_uuid, norm_opt_time. split.
  - destruct (scan_nilIfEmpty (n_IdempotencyKey n)) as (o & Ho & Hk).
    destruct (scan_nilIfEmpty (n_Subject n)) as (o' & Ho' & Hs).
    rewrite decode_cols. cv_simpl.
    cbn [scan_fields scan_uuid mbind option_bind]. rewrite Ho. cbn [mbind option_bind].
    rewrite !scan_val_opt_uuid. cbn [mbind option_bind scan_string norm].
    rewrite Ho'. cbn [mbind option_bind scan_opt_json scan_int]. rewrite !scan_val_opt_time.
    cbn [mbind option_bind scan_time cv lookup]. unfold Spec.stored.
    by rewrite Hk, Hs, json_roundtrip.
  - repeat first [rewrite lookup_insert_eq | rewrite lookup_insert_ne by discriminate].
    done.
Qed.
