(* ===== verification/Typed.v ===== *)
(** * What the stored notifications look like

    The schema's types, seen from the program: every row of a well-formed table
    can be scanned, and gives a notification whose fields are what the Go types
    mean to hold. *)

From stdpp Require Import gmap.
From S2P Require Import Prelude GoLib Domain Sql Effects NotificationRepo NotificationStore.

Definition statuses : list Status :=
  [StatusPending; StatusScheduled; StatusQueued; StatusProcessing; StatusDelivered; StatusFailed;
   StatusCancelled].

(** A string column of limited length; NULL is the empty string. *)
Definition fits (n : Z) (s : string) : Prop := rune_count s ≤ n.

Definition int4_range (z : Z) : Prop := - 2 ^ 31 ≤ z ≤ int4_max.

Record well_typed (n : Notification) : Prop := {
  wt_channel : Channel_Valid (n_Channel n) = true;
  wt_priority : Priority_Valid (n_Priority n) = true;
  wt_status : n_Status n ∈ statuses;
  wt_attempts : int4_range (n_AttemptCount n);
  wt_retries : int4_range (n_MaxRetries n);
  wt_key : fits 255 (n_IdempotencyKey n);
  wt_recipient : fits 500 (n_Recipient n);
  wt_subject : fits 500 (n_Subject n);
  wt_created : micro (n_CreatedAt n) = n_CreatedAt n;
}.

(** ** One column at a time *)

(** What a value of the type is. *)
Definition of_type (k : ColType) (v : Val) : Prop :=
  match k, v with
  | _, VNull => True
  | TEnum ls, VText s => s ∈ ls
  | TInteger, VInt z => int4_range z
  | TVarchar n, VText s => fits n s
  | TTimestamptz, VTime t => micro t = t
  | _, _ => True
  end.

Lemma coerce_of_type c v : coerce_col c v = Some v → of_type (col_type c) v.
Proof.
  unfold coerce_col, of_type, int4_range, fits. destruct v; cbn; try (by destruct (col_type c));
    destruct (col_type c) eqn:E; cbn; try done.
  all: intros H; repeat case_match; simplify_eq; try case_bool_decide; bool_hyps; try done; try lia.
Qed.

Lemma typed_of_type r c k :
  typed_row Notifications r → find_col Notifications c = Some k → of_type (col_type k) (cv r c).
Proof.
  intros Ht Hc. destruct (typed_row_col _ _ c Ht) as (k' & E & H); [by rewrite Hc|].
  apply coerce_of_type. congruence.
Qed.

(** What is scanned of it. *)
Lemma scan_enum ls v s : of_type (TEnum ls) v → scan_string v = Some s → s ∈ ls.
Proof. destruct v; cbn; try done. by intros ? [= <-]. Qed.

Lemma scan_integer v z : of_type TInteger v → scan_int v = Some z → int4_range z.
Proof. destruct v; cbn; try done. by intros ? [= <-]. Qed.

Lemma scan_varchar k v s : of_type (TVarchar k) v → scan_string v = Some s → fits k s.
Proof. destruct v; cbn; try done. by intros ? [= <-]. Qed.

Lemma scan_opt_varchar k v o :
  0 ≤ k → of_type (TVarchar k) v → scan_opt_string v = Some o → fits k (default "" o).
Proof. intros Hk. destruct v; cbn; try done; by intros ? [= <-]. Qed.

Lemma scan_timestamptz v t : of_type TTimestamptz v → scan_time v = Some t → micro t = t.
Proof. destruct v; cbn; try done. by intros ? [= <-]. Qed.

Lemma decode_well_typed id r n :
  typed_row Notifications r → decode id r = Some n → well_typed n.
Proof.
  intros Ht Hd. scan_inv Hd. injection Hd as <-.
  assert (Hc : ∀ c k, find_col Notifications c = Some k → of_type (col_type k) (cv r c))
    by (intros c k; by apply typed_of_type).
  split; cbn [n_Channel n_Priority n_Status n_AttemptCount n_MaxRetries n_IdempotencyKey n_Recipient
              n_Subject n_CreatedAt].
  - eapply Channel_Valid_spec, scan_enum; [exact (Hc "channel" _ eq_refl)|done].
  - eapply Priority_Valid_spec, scan_enum; [exact (Hc "priority" _ eq_refl)|done].
  - eapply scan_enum; [exact (Hc "status" _ eq_refl)|done].
  - eapply scan_integer; [exact (Hc "attempt_count" _ eq_refl)|done].
  - eapply scan_integer; [exact (Hc "max_retries" _ eq_refl)|done].
  - eapply scan_opt_varchar; [|exact (Hc "idempotency_key" _ eq_refl)|done]. done.
  - eapply scan_varchar; [exact (Hc "recipient" _ eq_refl)|done].
  - eapply scan_opt_varchar; [|exact (Hc "subject" _ eq_refl)|done]. done.
  - eapply scan_timestamptz; [exact (Hc "created_at" _ eq_refl)|done].
Qed.

Lemma abs_well_typed db id n : db_ok db → abs db !! id = Some n → well_typed n.
Proof.
  intros Hok (r & Hr & Hd)%abs_lookup_some. eapply decode_well_typed; [|done].
  by apply (tok_typed _ _ (Hok Notifications)) in Hr.
Qed.

(** Two notifications share no idempotency key, but the empty one. *)
Definition keys_unique (S : Store) : Prop :=
  ∀ i j m n, S !! i = Some m → S !! j = Some n → n_IdempotencyKey m = n_IdempotencyKey n →
             n_IdempotencyKey m ≠ "" → i = j.

(** Every row is a notification under its id, well-typed, with its own key. *)
Record rows_typed (db : DB) : Prop := {
  rt_rows : dom (abs db) = dom (db_notifications db);
  rt_ids id n : abs db !! id = Some n → n_ID n = id;
  rt_types : map_Forall (λ _, well_typed) (abs db);
  rt_keys : keys_unique (abs db);
}.

Lemma stored_key id r n k :
  decode id r = Some n → n_IdempotencyKey n = k → k ≠ "" → r !! "idempotency_key" = Some (VText k).
Proof.
  intros Hd <- Hk. apply decode_key in Hd as [Hd|[_ ?]]; [|done]. unfold nilIfEmpty in Hd.
  destruct (String.eqb_spec (n_IdempotencyKey n) ""); [done|]. unfold cv in Hd.
  by destruct (r !! "idempotency_key"); cbn in Hd; [subst|].
Qed.

Lemma db_ok_keys_unique db : db_ok db → keys_unique (abs db).
Proof.
  intros Hok i j m n (r & Hr & Hd)%abs_lookup_some (r' & Hr' & Hd')%abs_lookup_some Hk Hne.
  pose proof (tok_unique _ _ (Hok Notifications)) as Hu. apply Forall_inv in Hu. cbn in Hu.
  apply (stored_key _ _ _ _ Hd eq_refl) in Hne as E. symmetry in Hk.
  apply (stored_key _ _ _ _ Hd' Hk) in Hne as E'.
  destruct (Hu _ _ Hr _ _ Hr') as [?|[H|H]]; [done|congruence|]. by rewrite E in H.
Qed.

Lemma db_ok_typed db : db_ok db → rows_typed db.
Proof.
  intros Hok. split.
  - apply set_eq. intros id. rewrite !elem_of_dom. split.
    + intros [n (r & Hr & _)%abs_lookup_some]. by exists r.
    + intros [r Hr]. destruct (abs_lookup_row _ _ _ Hok Hr) as (n & _ & Hn). by exists n.
  - intros id n (r & _ & Hd)%abs_lookup_some. by apply decode_ID in Hd.
  - intros id n. by apply abs_well_typed.
  - by apply db_ok_keys_unique.
Qed.
