(* ===== verification/NotificationSpec.v ===== *)
(** * The notification repository implements the store

    Every method, run against a database that behaves as documented, moves the
    tables from one well-formed state to another, and on the abstract store
    does what [NotificationStore.Spec] says. When a fault of the database
    occurs it either did that or nothing, and an error is returned. *)

From stdpp Require Import gmap.
From S2P Require Import Prelude GoLib Domain Sql SqlFacts Effects Frames NotificationRepo.
From S2P Require Import NotificationStore.

(** The result of an operation whose specification gives the store and the
    error of [out]: as specified, or, when a fault occurred, an error and
    either no change or the specified one. *)
Definition outcome (tr : list Event) (out : Store * option Sentinel) (S S' : Store)
    (r : option error) : Prop :=
  (S' = out.1 ∧ r = ESentinel <$> out.2) ∨
  (¬ fault_free tr ∧ r ≠ None ∧ (S' = S ∨ S' = out.1)).

(** An error of the database, wrapped or not, is none of the sentinels. *)
Lemma root_db_error e : root_sentinel (db_error e) = None.
Proof. by destruct e. Qed.

#[export] Hint Resolve root_db_error : notifier.

(** The other tables are as they were, and the locks of others. *)
Definition others_same (db db' : DB) : Prop :=
  db_templates db' = db_templates db ∧ db_attempts db' = db_attempts db ∧ db_locked db' = db_locked db.

#[export] Instance others_same_preorder : PreOrder others_same.
Proof. split; [intros ?|intros ???]; unfold others_same; intuition congruence. Qed.

(** What every method of the repository keeps. *)
Definition repo_frame (w w' : World) : Prop :=
  frame_db w w' ∧ db_ok (w_db w') ∧ others_same (w_db w) (w_db w').

Lemma not_fault_free_in tr ev : ev ∈ tr → fault ev = true → ¬ fault_free tr.
Proof.
  unfold fault_free. rewrite Forall_forall. intros Hin Hf Ha.
  specialize (Ha _ Hin). congruence.
Qed.

Section Specs.
Context {S : Services} {HS : ServicesOk S} {HO : SentOnce S}.

Lemma exec_now w tr x w' :
  exec (do Now) w tr x w' → tr = [Ev Now x] ∧ w_clock w ≤ x ∧ w' = set_clock x w.
Proof. intros [-> H]%exec_do. by apply clock_doc in H. Qed.

Lemma exec_newv7 w tr x w' : exec (do NewV7) w tr x w' → tr = [Ev NewV7 x] ∧ w' = w.
Proof. intros [-> H]%exec_do. by apply uuid_doc in H. Qed.

Lemma exec_pg {X} (e : PgE X) w tr x w' :
  exec (do (Pg e)) w tr x w' → tr = [Ev (Pg e) x] ∧ pg_doc e w x w'.
Proof. intros [-> H]%exec_do. by apply postgres_doc in H. Qed.

(** ** Updates of one notification *)

(** A row updated by its id, seen on the store. *)
Lemma row_updated_abs sets args id cs now db db' r' f :
  db_ok db →
  row_updated Notifications sets args id cs now db db' r' →
  (∀ r n, decode id r = Some n → sat cs id r = true →
     update_row Notifications sets args now r = Some r' → decode id r' = Some (f n)) →
  ∃ n, abs db !! id = Some n ∧ abs db' = <[id := f n]> (abs db) ∧ others_same db db' ∧
       ∃ r, decode id r = Some n ∧ sat cs id r = true ∧
            update_row Notifications sets args now r = Some r'.
Proof.
  intros Hok (r & Hr & Hsat & Hu & ->) Hf. cbn in Hr.
  destruct (abs_lookup_row _ _ _ Hok Hr) as (n & Hd & Ha).
  exists n. split; [done|]. split; [|split; [done|by exists r]].
  by apply abs_insert, (Hf r).
Qed.

(** What [UpdateStatus] executes. *)
Definition status_update (now : Z) (id : UUID) (status : Status) (lastError : string) : Stmt * list Val :=
  if (status =? StatusDelivered)%string then
    (update_delivered, [VText status; VTime now; VTime now; VUuid id])
  else if negb (lastError =? "")%string then
    (update_failed, [VText status; VText lastError; VTime now; VUuid id])
  else (update_plain, [VText status; VTime now; VUuid id]).

(** The notification's row, if it is there, is replaced by [f] of it. *)
Definition rewritten (id : UUID) (f : Notification → Notification) (db db' : DB) : Prop :=
  ∃ n, abs db !! id = Some n ∧ abs db' = <[id := f n]> (abs db) ∧ others_same db db'.

Lemma status_statement t id st le w x w' :
  db_ok (w_db w) → let '(q, args) := status_update t id st le in
  pg_doc (PgExec q args) w x w' →
  (x = Ok 1 ∧ rewritten id (Spec.mark t st le) (w_db w) (w_db w')) ∨
  (x = Ok 0 ∧ abs (w_db w) !! id = None ∧ w_db w' = w_db w) ∨
  (∃ e, x = Er e ∧ db_fault e = true ∧
        (w_db w' = w_db w ∨ rewritten id (Spec.mark t st le) (w_db w) (w_db w'))).
Proof.
  intros Hok. destruct (status_update t id st le) as [q args] eqn:Hq.
  symmetry in Hq. intros (res & Hst & ->).
  assert (Hqs : ∃ sets, q = SUpdate Notifications sets [CEq "id" (EArg (length args))] [] ∧
    (∀ now, mapM (resolve Notifications args now) [CEq "id" (EArg (length args))]
            = Some [REq "id" (VUuid id)]) ∧
    Forall (λ p, p.2 ∉ sets.*1) (unique_constraints Notifications)).
  { unfold status_update in Hq.
    destruct (st =? StatusDelivered)%string; [|destruct (negb (le =? "")%string)];
      injection Hq as -> ->; eexists; split_and!; try done;
      repeat constructor; cbn; rewrite ?elem_of_cons, elem_of_nil; intuition discriminate. }
  destruct Hqs as (sets & Hqs & Hres & Hnu). rewrite Hqs in Hst.
  apply (statement_update_by_id Notifications sets _ [] args id [] Hres) in Hst; [|done..].
  destruct Hst as (now & Hnow & Hcase).
  assert (Hrow : ∀ r', row_updated Notifications sets args id [] now (w_db w) (w_db w') r' →
    rewritten id (Spec.mark t st le) (w_db w) (w_db w')).
  { intros r' Hr'.
    destruct (row_updated_abs _ _ _ _ _ _ _ _ (Spec.mark t st le) Hok Hr')
      as (n & ? & ? & ? & _); [|by exists n].
    intros r0 n Hd _ Hu. by eapply update_status_row. }
  destruct Hcase as [(r' & -> & Hu)|[(-> & Hno & Hdb)|(e & -> & He & Hdb)]].
  - left. split; [done|]. by eapply Hrow.
  - right. left. split; [done|]. split; [|done]. apply abs_lookup_none.
    destruct (db_notifications (w_db w) !! id) eqn:E; [|done]. by apply Hno in E.
  - right. right. exists e. split; [done|]. split; [done|]. destruct Hdb as [?|[r' Hu]]; eauto.
Qed.

Lemma UpdateStatus_refines id st le w tr r w' :
  db_ok (w_db w) → exec (UpdateStatus id st le) w tr r w' →
  repo_frame w w' ∧ ∃ now, w_clock w ≤ now ≤ w_clock w' ∧
  outcome tr (Spec.update_status now id st le (abs (w_db w))) (abs (w_db w)) (abs (w_db w')) r.
Proof.
  intros Hok H. unfold UpdateStatus in H.
  apply exec_bind in H as (x & w1 & tr1 & tr2 & -> & H1 & H).
  apply exec_now in H1 as (-> & Hc & ->). fold (status_update x id st le) in H.
  pose proof (status_statement x id st le (set_clock x w)) as Hss.
  destruct (status_update x id st le) as [q args].
  apply exec_bind in H as (y & w1 & tr1 & tr3 & -> & H1 & H).
  apply exec_pg in H1 as (-> & Hd). pose proof Hd as (res & Hst & _).
  pose proof (statement_frame _ _ _ _ _ Hst) as Hfr.
  pose proof (statement_ok _ _ _ _ _ Hst Hok) as Hok'.
  assert (Hf : frame_db w w1).
  { destruct Hfr as (? & ? & ? & ?). cbn in *. split_and!; [lia|done..]. }
  assert (Hclk : w_clock w ≤ x ≤ w_clock w1) by (destruct Hfr; cbn in *; lia).
  unfold repo_frame, outcome, Spec.update_status.
  destruct (Hss y w1 Hok Hd) as [(-> & n & Hn & Ha & Ho)|[(-> & Hn & Hdb)|(e & -> & He & Hdb)]];
    cbn in *; destruct H as (-> & -> & ->); (split; [try done|exists x; split; [done|]]).
  - rewrite Hn, Ha. by left.
  - by rewrite Hdb.
  - rewrite Hdb, Hn. by left.
  - destruct Hdb as [->|(n & _ & _ & Ho)]; by split_and!.
  - right. split; [by eapply not_fault_free_in; [right; left|]|]. split; [done|].
    destruct Hdb as [->|(n & Hn & Ha & _)]; [by left|right]. by rewrite Hn, Ha.
Qed.

Lemma IncrementAttempt_refines id w tr r w' :
  db_ok (w_db w) → exec (IncrementAttempt id) w tr r w' →
  repo_frame w w' ∧ ∃ now, w_clock w ≤ now ≤ w_clock w' ∧
  outcome tr (Spec.increment_attempt now id (abs (w_db w)), None)
    (abs (w_db w)) (abs (w_db w')) r.
Proof.
  intros Hok H. unfold IncrementAttempt in H.
  apply exec_bind in H as (y & w1 & tr1 & tr2 & -> & H1 & H).
  apply exec_pg in H1 as (-> & res & Hst & ->).
  pose proof (statement_frame _ _ _ _ _ Hst) as Hfr.
  pose proof (statement_ok _ _ _ _ _ Hst Hok) as Hok'.
  eapply (statement_update_by_id Notifications increment_sets _ [] _ id []) in Hst; [|done| |done].
  2: { repeat constructor; cbn; rewrite ?elem_of_cons, elem_of_nil; intuition discriminate. }
  destruct Hst as (now & Hnow & Hcase).
  unfold repo_frame, outcome, Spec.increment_attempt.
  assert (Hrow : ∀ r', row_updated Notifications increment_sets [VUuid id] id [] now (w_db w) (w_db w1) r' →
    ∃ n, abs (w_db w) !! id = Some n ∧
         abs (w_db w1) = <[id := Spec.count_attempt now n]> (abs (w_db w)) ∧
         others_same (w_db w) (w_db w1)).
  { intros r' Hr'.
    destruct (row_updated_abs _ _ _ _ _ _ _ _ (Spec.count_attempt now) Hok Hr')
      as (n & ? & ? & ? & _); [|by exists n].
    intros r0 n Hd _ Hu. by eapply increment_row. }
  destruct Hcase as [(r' & -> & Hu)|[(-> & Hno & Hdb)|(e & -> & He & Hdb)]]; cbn in H;
    destruct H as (-> & -> & ->).
  - apply Hrow in Hu as (n & Hn & Ha & Ho).
    split; [done|]. exists now. split; [lia|]. rewrite Hn, Ha. by left.
  - rewrite Hdb in *. split; [done|]. exists now. split; [lia|].
    rewrite abs_lookup_none; [by left|].
    destruct (db_notifications (w_db w) !! id) eqn:E; [|done]. by apply Hno in E.
  - assert (Hnf : ¬ fault_free ([Ev (Pg (PgExec increment_attempt [VUuid id])) (Er e)] ++ [])).
    { eapply not_fault_free_in; [left|done]. }
    destruct Hdb as [Hdb|[r' Hu]].
    + rewrite Hdb in *. split; [done|]. exists now. split; [lia|]. right. eauto.
    + apply Hrow in Hu as (n & Hn & Ha & Ho). split; [done|]. exists now. split; [lia|].
      right. rewrite Hn, Ha. eauto.
Qed.

(** ** Reading one notification *)

Lemma GetByID_reads id w tr r w' :
  db_ok (w_db w) → exec (GetByID id) w tr r w' →
  frame_db w w' ∧ w_db w' = w_db w ∧
  ((∃ n, r = Ok n ∧ abs (w_db w) !! id = Some n) ∨
   (r = Er (ESentinel ErrNotFound) ∧ abs (w_db w) !! id = None) ∨
   (∃ e, r = Er e ∧ root_sentinel e = None ∧ ¬ fault_free tr)).
Proof.
  intros Hok H. unfold GetByID in H.
  apply exec_bind in H as (y & w1 & tr1 & tr2 & -> & H1 & H).
  apply exec_pg in H1 as (-> & Hd). destruct H as (-> & -> & ->).
  apply (select_row _ _ _ _ id) in Hd as (Hf & -> & Hx); [|done..].
  split; [done|]. split; [done|]. destruct Hx as [->|(e & -> & He)].
  - cbn. destruct (db_notifications (w_db w) !! id) as [r|] eqn:E; cbn.
    + destruct (abs_lookup_row _ _ _ Hok E) as (m & Hd & Ha). left. exists m.
      unfold decode in Hd. cbn in Hd |- *. by rewrite Hd.
    + right. left. split; [done|]. by apply abs_lookup_none.
  - right. right. eexists. split; [done|]. split; [apply root_db_error|].
    eapply not_fault_free_in; [left|done].
Qed.

(** ** Cancel *)

Lemma cancellable_sat r id n :
  decode id r = Some n →
  sat [RIn "status" ["pending"; "scheduled"; "queued"]] id r = Spec.cancellable (n_Status n).
Proof.
  intros Hd. apply decode_status in Hd. unfold sat. cbn [forallb sat1].
  unfold col_val. cbn. rewrite Hd. cbn. rewrite andb_true_r.
  unfold Spec.cancellable. apply Bool.eq_iff_eq_true.
  rewrite bool_decide_eq_true, !orb_true_iff, !String.eqb_eq, !elem_of_cons, elem_of_nil.
  unfold StatusPending, StatusScheduled, StatusQueued. tauto.
Qed.

Lemma cancel_statement id w x w' :
  db_ok (w_db w) → pg_doc (PgQueryRow cancel_stmt [VUuid id]) w x w' →
  ∃ now, w_clock w ≤ now ≤ w_clock w' ∧
  let cancelled := ∃ n, abs (w_db w) !! id = Some n ∧ Spec.cancellable (n_Status n) = true ∧
    abs (w_db w') = <[id := Spec.cancel_mark now n]> (abs (w_db w)) ∧ others_same (w_db w) (w_db w') in
  ((∃ row, x = Ok (Some row)) ∧ cancelled) ∨
  (x = Ok None ∧ w_db w' = w_db w ∧
   ∀ n, abs (w_db w) !! id = Some n → Spec.cancellable (n_Status n) = false) ∨
  (∃ e, x = Er e ∧ db_fault e = true ∧ (w_db w' = w_db w ∨ cancelled)).
Proof.
  intros Hok (res & Hst & ->).
  eapply (statement_update_by_id Notifications cancel_sets _ ["id"] _ id
            [RIn "status" ["pending"; "scheduled"; "queued"]]) in Hst; [|done| |done].
  2: { repeat constructor; cbn; rewrite ?elem_of_cons, elem_of_nil; intuition discriminate. }
  destruct Hst as (now & Hnow & Hcase). exists now. split; [done|]. cbv zeta.
  assert (Hrow : ∀ r', row_updated Notifications cancel_sets [VUuid id] id
      [RIn "status" ["pending"; "scheduled"; "queued"]] now (w_db w) (w_db w') r' →
    ∃ n, abs (w_db w) !! id = Some n ∧ Spec.cancellable (n_Status n) = true ∧
         abs (w_db w') = <[id := Spec.cancel_mark now n]> (abs (w_db w)) ∧
         others_same (w_db w) (w_db w')).
  { intros r' Hr'.
    destruct (row_updated_abs _ _ _ _ _ _ _ _ (Spec.cancel_mark now) Hok Hr')
      as (n & ? & ? & ? & r0 & Hd & Hs & _).
    - intros r0 n Hd _ Hu. by eapply cancel_row.
    - exists n. split_and!; try done. by rewrite (cancellable_sat _ _ _ Hd) in Hs. }
  destruct Hcase as [(r' & -> & Hu)|[(-> & Hno & Hdb)|(e & -> & He & Hdb)]].
  - left. split; [by eexists|]. by eapply Hrow.
  - right. left. split_and!; [done..|]. intros n (r0 & Hr0 & Hd)%abs_lookup_some.
    apply Hno in Hr0. by rewrite (cancellable_sat _ _ _ Hd) in Hr0.
  - right. right. exists e. split; [done|]. split; [done|]. destruct Hdb as [?|[r' Hu]]; eauto.
Qed.

Lemma Cancel_refines id w tr r w' :
  db_ok (w_db w) → exec (Cancel id) w tr r w' →
  repo_frame w w' ∧ ∃ now, w_clock w ≤ now ≤ w_clock w' ∧
  outcome tr (Spec.cancel now id (abs (w_db w))) (abs (w_db w)) (abs (w_db w')) r.
Proof.
  intros Hok H. unfold Cancel in H.
  apply exec_bind in H as (y & w1 & tr1 & tr2 & -> & H1 & H).
  apply exec_pg in H1 as (-> & Hd). pose proof Hd as (res & Hst & _).
  pose proof (statement_frame _ _ _ _ _ Hst) as Hfr.
  pose proof (statement_ok _ _ _ _ _ Hst Hok) as Hok'.
  apply cancel_statement in Hd as (now & Hnow & Hcase); [|done].
  unfold repo_frame, outcome, Spec.cancel.
  destruct Hcase as [([row ->] & n & Hn & Hc & Ha & Ho)|[(-> & Hdb & Hno)|(e & -> & He & Hdb)]]; cbn in H.
  - destruct H as (-> & -> & ->).
    split; [done|]. exists now. split; [lia|]. rewrite Hn, Ha, Hc. by left.
  - apply exec_bind in H as (x & w2 & tr3 & tr4 & -> & H2 & H).
    apply GetByID_reads in H2 as (Hf2 & Hdb2 & Hcase); [|done].
    assert (Hf : frame_db w w2) by (by transitivity w1).
    assert (Hnow' : w_clock w ≤ now ≤ w_clock w2) by (destruct Hf2; lia).
    rewrite Hdb in Hcase, Hdb2.
    destruct Hcase as [(n & -> & Hn)|[(-> & Hn)|(e & -> & Hr & Hnf)]];
      destruct H as (-> & -> & ->); rewrite Hdb2;
      (split; [done|]); exists now; (split; [done|]); [left| |right].
    + rewrite Hn, (Hno _ Hn). done.
    + rewrite Hn. by left.
    + split; [|eauto]. rewrite app_nil_r. intros [_ ?]%fault_free_app. done.
  - destruct H as (-> & -> & ->).
    assert (Hnf : ¬ fault_free ([Ev (Pg (PgQueryRow cancel_stmt [VUuid id])) (Er e)] ++ [])).
    { eapply not_fault_free_in; [left|done]. }
    destruct Hdb as [Hdb|(n & Hn & Hc & Ha & Ho)].
    + rewrite Hdb in *. split; [done|]. exists now. split; [lia|]. right. eauto.
    + split; [done|]. exists now. split; [lia|]. right. rewrite Hn, Ha, Hc. eauto.
Qed.

(** ** Create *)

Lemma key_taken_row db k :
  db_ok db →
  Spec.key_taken k (abs db) ↔
  k ≠ "" ∧ ∃ j r, db_notifications db !! j = Some r ∧
                  r !! "idempotency_key" = Some (VText k).
Proof.
  intros Hok. unfold Spec.key_taken. split; intros (Hk & j & x & Hj & He); split; try done.
  - apply abs_lookup_some in Hj as (r & Hr & Hd). exists j, r. split; [done|].
    apply decode_key in Hd as [Hd|[_ ?]]; [|congruence].
    rewrite He in Hd. unfold nilIfEmpty in Hd.
    destruct (String.eqb_spec k ""); [done|]. unfold cv in Hd.
    destruct (r !! "idempotency_key"); cbn in Hd; by simplify_eq.
  - destruct (abs_lookup_row _ _ _ Hok Hj) as (m & Hd & Ha). exists j, m. split; [done|].
    apply decode_key in Hd as [Hd|[Hd ?]]; unfold cv in Hd; rewrite He in Hd; cbn in Hd;
      [|congruence].
    unfold nilIfEmpty in Hd. destruct (_ =? "")%string; by simplify_eq.
Qed.

(** The effect of the INSERT of a notification, on the store. *)
Lemma insert_effect n now db aff rows db' ins t :
  db_ok db →
  sql_effect (insert_args n (json_Marshal (n_TemplateVars n))) now db insert_notification
    aff rows db' ins t →
  t = Notifications ∧ ins = Some (n_ID n) ∧ aff = 1 ∧ others_same db db' ∧
  abs db' = <[n_ID n := Spec.stored n]> (abs db) ∧
  (db_notifications db !! n_ID n = None → db_ok db' → Spec.create n (abs db) (abs db') None) ∧
  ∀ name, violates db db' t ins name →
    (name = "notifications_pkey" ∧ Spec.create n (abs db) (abs db) (Some ErrDuplicate)) ∨
    (name = "idx_notifications_idempotency_key" ∧
     Spec.create n (abs db) (abs db) (Some ErrIdempotencyConflict)).
Proof.
  intros Hok (id & r & Hi & -> & -> & -> & -> & ->)%sql_insert_inv.
  apply insert_args_row in Hi as (-> & Hd & Hk).
  assert (Ha := abs_insert db _ _ _ Hd).
  split_and!; try done.
  - intros Hfresh Hok'. cbn [table]. rewrite Ha. constructor; [by apply abs_lookup_none|].
    rewrite key_taken_row by done. intros (Hne & j & r' & Hj & He).
    pose proof (tok_unique _ _ (Hok' Notifications)) as Hu. apply Forall_inv in Hu.
    cbn in Hu. unfold nilIfEmpty in Hk. destruct (String.eqb_spec (n_IdempotencyKey n) ""); [done|].
    by apply (unique_on_insert_fresh _ _ _ _ _ Hfresh Hu Hk ltac:(done) _ _ Hj).
  - intros name [(-> & id & [= <-] & [r' Hr'])|(c & Hc & Hn)].
    + left. split; [done|]. constructor. cbn in Hr'.
      destruct (abs_lookup_row _ _ _ Hok Hr') as (m & _ & ->). eauto.
    + right. cbn in Hc. apply list_elem_of_singleton in Hc as [= -> ->]. split; [done|].
      constructor. rewrite key_taken_row by done.
      pose proof (tok_unique _ _ (Hok Notifications)) as Hu. apply Forall_inv in Hu.
      eapply not_unique_on_insert in Hn as (Hv & j & r' & Hj & He); [|done..].
      unfold nilIfEmpty in *. destruct (String.eqb_spec (n_IdempotencyKey n) ""); [done|].
      split; [done|]. by exists j, r'.
Qed.

Lemma Create_refines n w tr n' r w' :
  db_ok (w_db w) → exec (Create n) w tr (n', r) w' →
  repo_frame w w' ∧ ∃ now id, w_clock w ≤ now ≤ w_clock w' ∧ n' = set_ident id now now n ∧
  ((∃ out, Spec.create n' (abs (w_db w)) (abs (w_db w')) out ∧ r = ESentinel <$> out) ∨
   (¬ fault_free tr ∧ (∃ e, r = Some e ∧ root_sentinel e = None) ∧
    (abs (w_db w') = abs (w_db w) ∨
     Spec.create n' (abs (w_db w)) (abs (w_db w')) None))).
Proof.
  intros Hok H. unfold Create in H.
  apply exec_bind in H as (now & w1 & tr1 & tr2 & -> & H1 & H).
  apply exec_now in H1 as (-> & Hc & ->).
  apply exec_bind in H as (id & w1 & tr1 & tr3 & -> & H1 & H).
  apply exec_newv7 in H1 as (-> & ->).
  apply exec_bind in H as (y & w1 & tr1 & tr2 & -> & H1 & H).
  replace (n_TemplateVars n) with (n_TemplateVars (set_ident id now now n)) in H1
    by by destruct n.
  set (n1 := set_ident id now now n) in *.
  apply exec_pg in H1 as (-> & res & Hst & ->).
  pose proof (statement_frame _ _ _ _ _ Hst) as Hfr.
  pose proof (statement_ok _ _ _ _ _ Hst Hok) as Hok'.
  assert (Hf : frame_db w w1).
  { destruct Hfr as (? & ? & ? & ?). cbn in *. split_and!; [lia|done..]. }
  assert (Hcl : w_clock w ≤ now ≤ w_clock w1) by (destruct Hfr; cbn in *; lia).
  destruct Hst as (t & db' & _ & Hs & ->). cbn [w_db set_clock set_db] in *.
  unfold repo_frame. cbn [w_db set_clock set_db].
  apply sql_step_inv in Hs as
    [(k & rows & ins & t1 & -> & He & Hins & _)
    |[(name & msg & k & rows & db1 & ins & t1 & -> & -> & He & Hv)
    |[(code & name & msg & Hcode & -> & ->)|(msg & -> & Hdb)]]]; cbn [exec_reply] in H;
    apply exec_ret in H as (-> & [= -> ->] & ->); cbn [w_db set_clock set_db].
  - apply insert_effect in He as (-> & -> & -> & Ho & _ & Hcr & _); [|done].
    split; [done|]. exists now, id. split; [done|]. split; [done|].
    left. exists None. split; [|done]. by apply Hcr; [apply Hins|].
  - apply insert_effect in He as (-> & -> & -> & _ & _ & _ & Hviol); [|done].
    split; [done|]. exists now, id. split; [done|]. split; [done|]. left.
    apply Hviol in Hv as [(-> & ?)|(-> & ?)]; [exists (Some ErrDuplicate)
      |exists (Some ErrIdempotencyConflict)]; done.
  - split; [done|]. exists now, id. split; [done|]. split; [done|]. right.
    assert (Hb : (code =? "23505")%string = false) by by apply String.eqb_neq.
    split_and!; [|unfold create_error; rewrite Hb; eauto|by left].
    eapply not_fault_free_in; [right; right; left|]. by apply negb_true_iff.
  - assert (Hx : others_same (w_db w) db' ∧ (abs db' = abs (w_db w) ∨
      Spec.create n1 (abs (w_db w)) (abs db') None)).
    { destruct Hdb as [->|(k & rows & ins & t1 & He & Hins & _)]; [by split; [|left]|].
      apply insert_effect in He as (-> & -> & _ & Ho & _ & Hcr & _); [|done].
      split; [done|]. right. apply Hcr; [by apply Hins|done]. }
    destruct Hx as [Ho Hx].
    split; [done|]. exists now, id. split; [done|]. split; [done|]. right.
    split_and!; [|by eauto|done]. eapply not_fault_free_in; [right; right; left|done].
Qed.
End Specs.
