(* ===== verification/Listing.v ===== *)
(** * Listing and cursor pagination (NotificationRepository.List)

    [listing] is what a filter selects from the store, newest first. [List]
    returns its first page; following the cursors returns all of it. *)

From stdpp Require Import gmap.
From S2P Require Import Prelude GoLib Domain Sql SqlFacts Effects Frames NotificationRepo.
From S2P Require Import NotificationStore Typed NotificationSpec.

(** ** The order of the listing *)

Definition newer_or_same (n m : Notification) : Prop :=
  n_CreatedAt m < n_CreatedAt n ∨
  (n_CreatedAt m = n_CreatedAt n ∧ (uuid_n (n_ID m) ≤ uuid_n (n_ID n))%N).

#[export] Instance newer_dec n m : Decision (newer_or_same n m).
Proof. unfold newer_or_same. apply _. Defined.

#[export] Instance newer_trans : Transitive newer_or_same.
Proof. intros ???. unfold newer_or_same. lia. Qed.

#[export] Instance newer_total : Total newer_or_same.
Proof. intros ??. unfold newer_or_same. lia. Qed.

(** Strictly after a position of the listing. *)
Definition after (c : Cursor) (n : Notification) : bool :=
  (n_CreatedAt n <? micro (c_CreatedAt c)) ||
  ((n_CreatedAt n =? micro (c_CreatedAt c)) && (uuid_n (n_ID n) <? uuid_n (c_ID c))%N).

Lemma after_spec c n :
  after c n = true ↔ n_CreatedAt n < micro (c_CreatedAt c) ∨
    (n_CreatedAt n = micro (c_CreatedAt c) ∧ (uuid_n (n_ID n) < uuid_n (c_ID c))%N).
Proof. unfold after. by rewrite orb_true_iff, andb_true_iff, Z.ltb_lt, Z.eqb_eq, N.ltb_lt. Qed.

Definition matches (f : NotificationFilter) (n : Notification) : bool :=
  match f_Status f with Some s => (n_Status n =? s)%string | None => true end &&
  (match f_Channel f with Some c => (n_Channel n =? c)%string | None => true end &&
  (match f_BatchID f with
   | Some b => match n_BatchID n with Some b' => bool_decide (b' = b) | None => false end
   | None => true
   end &&
  match f_Cursor f with Some c => after c n | None => true end)).

(** What the filter selects, newest first. *)
Definition listing (f : NotificationFilter) (S : Store) : list Notification :=
  merge_sort newer_or_same (filter (λ n, matches f n = true) (map_to_list S).*2).

(** Keys of a store agree with the ids of its notifications. *)
Definition keyed (S : Store) : Prop := map_Forall (λ i n, n_ID n = i) S.

Lemma abs_keyed db : keyed (abs db).
Proof.
  intros i n H. apply abs_lookup_some in H as (r & _ & Hd). by apply decode_ID in Hd.
Qed.

Lemma elem_of_listing f S n :
  keyed S → n ∈ listing f S ↔ S !! n_ID n = Some n ∧ matches f n = true.
Proof.
  intros Hk. unfold listing. rewrite merge_sort_Permutation, list_elem_of_filter.
  rewrite list_elem_of_fmap. split.
  - intros [Hm ([i m] & -> & Hi)]. apply elem_of_map_to_list in Hi. cbn in *.
    by rewrite (Hk i m Hi).
  - intros [Hn Hm]. split; [done|]. exists (n_ID n, n). split; [done|]. by apply elem_of_map_to_list.
Qed.

Lemma NoDup_values S : keyed S → NoDup (map_to_list S).*2.
Proof. apply (NoDup_keyed n_ID). Qed.

Lemma NoDup_listing f S : keyed S → NoDup (listing f S).
Proof. intros Hk. unfold listing. rewrite merge_sort_Permutation. by apply NoDup_filter, NoDup_values. Qed.

Lemma listing_sorted f S : StronglySorted newer_or_same (listing f S).
Proof. apply StronglySorted_merge_sort; apply _. Qed.

(** A sorted sequence of the selected notifications is the listing. *)
Lemma listing_unique f S l :
  keyed S → StronglySorted newer_or_same l → l ≡ₚ filter (λ n, matches f n = true) (map_to_list S).*2 →
  l = listing f S.
Proof.
  intros Hk Hs Hp. assert (Hl : l ≡ₚ listing f S) by by rewrite Hp; unfold listing; rewrite merge_sort_Permutation.
  apply (StronglySorted_unique_strong newer_or_same); [|done|apply listing_sorted|done].
  intros n m Hn Hm Hnm Hmn. rewrite Hl, elem_of_listing in Hn by done.
  rewrite elem_of_listing in Hm by done.
  assert (He : n_ID n = n_ID m) by (apply uuid_eq; unfold newer_or_same in *; lia).
  destruct Hn as [Hn _], Hm as [Hm _]. rewrite He in Hn. congruence.
Qed.

(** ** The page after a cursor *)

Definition with_cursor (c : Cursor) (f : NotificationFilter) : NotificationFilter :=
  mkFilter (f_Status f) (f_Channel f) (f_BatchID f) (Some c) (f_Limit f).

(** Times of the store have microsecond resolution. *)
Definition micro_times (S : Store) : Prop := map_Forall (λ _ n, micro (n_CreatedAt n) = n_CreatedAt n) S.

Lemma abs_micro db : db_ok db → micro_times (abs db).
Proof. intros Hok i n H. by apply wt_created, (abs_well_typed db i). Qed.

Definition cursor_of (n : Notification) : Cursor := mkCursor (n_CreatedAt n) (n_ID n).

(** In a sorted sequence with distinct ids, what is strictly after an element
    is what follows it. *)
Lemma filter_after_sorted (l1 l2 : list Notification) x :
  StronglySorted newer_or_same (l1 ++ x :: l2) → NoDup (n_ID <$> l1 ++ x :: l2) →
  micro (n_CreatedAt x) = n_CreatedAt x →
  filter (λ n, after (cursor_of x) n = true) (l1 ++ x :: l2) = l2.
Proof.
  intros Hs Hnd Hx.
  rewrite fmap_app, fmap_cons in Hnd. apply NoDup_app in Hnd as (_ & Hd & Hnd).
  apply NoDup_cons in Hnd as [Hxn _].
  apply StronglySorted_app in Hs as (H12 & _ & Hs).
  apply StronglySorted_inv in Hs as [_ Hx2].
  assert (Hax : ∀ y, after (cursor_of x) y = true ↔ n_CreatedAt y < n_CreatedAt x ∨
    (n_CreatedAt y = n_CreatedAt x ∧ (uuid_n (n_ID y) < uuid_n (n_ID x))%N)).
  { intros y. rewrite after_spec. cbn. by rewrite Hx. }
  rewrite filter_app, filter_cons_False by (rewrite Hax; lia).
  rewrite filter_none, filter_id; [done| |].
  - rewrite Forall_forall in Hx2 |- *. intros y Hy. specialize (Hx2 _ Hy). apply Hax.
    assert (uuid_n (n_ID x) ≠ uuid_n (n_ID y)).
    { intros E. apply Hxn. apply uuid_eq in E. rewrite E. by apply list_elem_of_fmap_2. }
    unfold newer_or_same in Hx2. lia.
  - rewrite Forall_forall. intros y Hy. specialize (H12 y x Hy ltac:(by left)).
    rewrite Hax. unfold newer_or_same in H12. lia.
Qed.

(** A cursor further on selects a part of what an earlier one does. *)
Lemma matches_with_cursor f x n :
  micro (n_CreatedAt x) = n_CreatedAt x → matches f x = true →
  matches (with_cursor (cursor_of x) f) n = true ↔
  after (cursor_of x) n = true ∧ matches f n = true.
Proof.
  intros Hx Hm. unfold matches in *. cbn [with_cursor f_Status f_Channel f_BatchID f_Cursor].
  rewrite !andb_true_iff in *. destruct (f_Cursor f) as [c|]; [|tauto].
  destruct Hm as (_ & _ & _ & Hm). rewrite !after_spec in *. cbn [cursor_of c_CreatedAt c_ID].
  rewrite Hx. split; [|tauto]. intros (? & ? & ? & Ha). split_and!; try done. lia.
Qed.

(** The listing after the cursor of its [k]th element is the rest of it. *)
Lemma listing_after f S k x :
  keyed S → micro_times S → listing f S !! k = Some x →
  listing (with_cursor (cursor_of x) f) S = drop (Datatypes.S k) (listing f S).
Proof.
  intros Hk Hmt Hx.
  assert (Hin : x ∈ listing f S) by by apply list_elem_of_lookup_2 in Hx.
  apply elem_of_listing in Hin as [Hs Hm]; [|done].
  assert (Hmx : micro (n_CreatedAt x) = n_CreatedAt x) by apply (Hmt _ _ Hs).
  assert (Hf : filter (λ n, after (cursor_of x) n = true) (listing f S)
               = drop (Datatypes.S k) (listing f S)).
  { rewrite <- (take_drop_middle _ _ _ Hx) at 1.
    apply filter_after_sorted; rewrite ?(take_drop_middle _ _ _ Hx); [apply listing_sorted| |done].
    apply NoDup_fmap_2_strong; [|by apply NoDup_listing].
    intros n m Hn Hm' E. apply elem_of_listing in Hn as [Hn _], Hm' as [Hm' _]; try done.
    rewrite E in Hn. congruence. }
  rewrite <- Hf. symmetry. apply listing_unique; [done|apply filter_sorted, listing_sorted|].
  unfold listing at 1. rewrite merge_sort_Permutation.
  rewrite (filter_filter_imp (λ n, matches f n = true) (λ n, after (cursor_of x) n = true)
    (λ n, matches (with_cursor (cursor_of x) f) n = true)); [done|].
  intros n. by apply matches_with_cursor.
Qed.

(** ** The statement [List] builds *)

Lemma decode_col_channel id r n : decode id r = Some n → cv r "channel" = VText (n_Channel n).
Proof. intros Hn. scan_inv Hn. injection Hn as <-. cbn. destruct (cv r "channel"); cbn in *; by simplify_eq. Qed.

Lemma decode_col_batch id r n :
  decode id r = Some n → cv r "batch_id" = val_opt_uuid (n_BatchID n).
Proof. intros Hn. scan_inv Hn. injection Hn as <-. cbn. destruct (cv r "batch_id"); cbn in *; by simplify_eq. Qed.

Lemma decode_col_created id r n :
  decode id r = Some n → cv r "created_at" = VTime (n_CreatedAt n).
Proof. intros Hn. scan_inv Hn. injection Hn as <-. cbn. destruct (cv r "created_at"); cbn in *; by simplify_eq. Qed.

Lemma decode_col_status id r n : decode id r = Some n → cv r "status" = VText (n_Status n).
Proof. intros Hn. apply decode_status in Hn. unfold cv. by rewrite Hn. Qed.

Lemma sat_app cs cs' id r : sat (cs ++ cs') id r = sat cs id r && sat cs' id r.
Proof. apply forallb_app. Qed.

(** The test of one optional condition of the filter. *)
Definition opt_test {A} (o : option A) (f : A → bool) : bool :=
  match o with Some x => f x | None => true end.

Lemma sat_status id r n s :
  decode id r = Some n → sat1 id r (REq "status" (VText s)) = (n_Status n =? s)%string.
Proof.
  intros Hd%decode_col_status. cbn [sat1]. unfold col_val. cbn [String.eqb Ascii.eqb].
  cbn. fold (cv r "status"). rewrite Hd. cbn. apply Bool.eq_iff_eq_true.
  rewrite bool_decide_eq_true, String.eqb_eq. split; [by intros [=]|by intros ->].
Qed.

Lemma sat_channel id r n s :
  decode id r = Some n → sat1 id r (REq "channel" (VText s)) = (n_Channel n =? s)%string.
Proof.
  intros Hd%decode_col_channel. cbn. fold (cv r "channel"). rewrite Hd. cbn.
  apply Bool.eq_iff_eq_true. rewrite bool_decide_eq_true, String.eqb_eq. split; [by intros [=]|by intros ->].
Qed.

Lemma sat_batch id r n b :
  decode id r = Some n → sat1 id r (REq "batch_id" (VUuid b)) =
  match n_BatchID n with Some b' => bool_decide (b' = b) | None => false end.
Proof.
  intros Hd%decode_col_batch. cbn. fold (cv r "batch_id"). rewrite Hd.
  destruct (n_BatchID n); cbn; [|done].
  apply bool_decide_ext. split; [by intros [=]|by intros ->].
Qed.

Lemma sat_after id r n c :
  decode id r = Some n →
  sat1 id r (RRowLt "created_at" "id" (VTime (micro (c_CreatedAt c))) (VUuid (c_ID c)))
  = after c n.
Proof.
  intros Hd. pose proof (decode_col_created _ _ _ Hd) as Hc. apply decode_ID in Hd.
  cbn. fold (cv r "created_at"). rewrite Hc. cbn. unfold after. rewrite Hd. f_equal. f_equal.
  apply Bool.eq_iff_eq_true. rewrite bool_decide_eq_true, Z.eqb_eq. split; [by intros [=]|by intros ->].
Qed.

(** Whatever the filter sets, the placeholders of the statement get the values
    meant for them: its WHERE clause is the test of the filter, and the next
    placeholder is free for the limit. *)
Lemma build_conditions_ok f conds args argIdx v now cs :
  build_conditions f = (conds, args, argIdx) →
  argIdx = Datatypes.S (length args) ∧
  (mapM (resolve Notifications (args ++ [v]) now) conds = Some cs →
   ∀ id r n, decode id r = Some n → sat cs id r = matches f n).
Proof.
  destruct f as [st ch b c lim]. unfold build_conditions, matches.
  cbn [f_Status f_Channel f_BatchID f_Cursor].
  destruct st as [st|], ch as [ch|], b as [b|], c as [[ct ci]|]; cbn [app]; intros [= <- <- <-];
    (split; [done|]); intros H; cbn in H;
    repeat (case_bool_decide; cbn in H; try done);
    injection H as <-; intros id r n Hd; unfold sat; cbn [forallb];
    rewrite ?(sat_status _ _ _ _ Hd), ?(sat_channel _ _ _ _ Hd), ?(sat_batch _ _ _ _ Hd);
    try (pose proof (sat_after id r n (mkCursor ct ci) Hd) as Ha; cbn [c_CreatedAt c_ID] in Ha;
         fold (micro ct); rewrite Ha); rewrite ?andb_true_r; done.
Qed.

(** ** What [List] returns *)

Lemma scan_all_rows (l : list (UUID * Row)) ns :
  Forall2 (λ p n, decode p.1 p.2 = Some n) l ns →
  scan_all (project notification_cols <$> l) = Ok ns.
Proof.
  induction 1 as [|[id r] n l ns Hd _ IH]; [done|]. rewrite fmap_cons. cbn [scan_all].
  unfold scanNotificationFromRows. unfold decode in Hd. cbn [fst snd] in Hd. by rewrite Hd, IH.
Qed.

(** Selected rows, as notifications of the store: [Pr] is the selection on
    rows and [Q] the same selection on notifications. *)
Lemma rows_values db (Pr : UUID → Row → Prop) (Q : Notification → Prop)
    `{!∀ n, Decision (Q n)} l :
  db_ok db → NoDup l.*1 →
  (∀ id r, (id, r) ∈ l ↔ db_notifications db !! id = Some r ∧ Pr id r) →
  (∀ id r n, decode id r = Some n → Pr id r ↔ Q n) →
  ∃ ns, Forall2 (λ p n, decode p.1 p.2 = Some n) l ns ∧
        ns ≡ₚ filter Q (map_to_list (abs db)).*2.
Proof.
  intros Hok Hnd Hl HQ. eapply (rows_read decode n_ID); [apply decode_ID| |done..].
  intros i r Hr. destruct (abs_lookup_row _ _ _ Hok Hr) as (n & ? & _). by exists n.
Qed.

(** The order of the statement is the order of the listing. *)
Lemma list_order p q n m :
  decode p.1 p.2 = Some n → decode q.1 q.2 = Some m →
  ord_le [("created_at", Desc); ("id", Desc)] p q = true ↔ newer_or_same n m.
Proof.
  intros Hp Hq. pose proof (decode_col_created _ _ _ Hp) as Cp.
  pose proof (decode_col_created _ _ _ Hq) as Cq. apply decode_ID in Hp, Hq.
  cbn [ord_le]. unfold col_val. cbn [String.eqb Ascii.eqb Bool.eqb].
  fold (cv p.2 "created_at") (cv q.2 "created_at"). rewrite Cp, Cq, <- Hp, <- Hq.
  unfold newer_or_same, key_lt. cbn. lia.
Qed.

Lemma sorted_rows l ns :
  Forall2 (λ p n, decode p.1 p.2 = Some n) l ns →
  StronglySorted (λ p q, ord_le [("created_at", Desc); ("id", Desc)] p q = true) l →
  StronglySorted newer_or_same ns.
Proof.
  induction 1 as [|p n l ns Hd HF IH]; intros Hs; [constructor|].
  apply StronglySorted_inv in Hs as [Hs Hp]. constructor; [by apply IH|].
  apply Forall_forall. intros m (i & Hm)%list_elem_of_lookup_1.
  destruct (Forall2_lookup_r _ _ _ _ _ HF Hm) as (q & Hq & Hdq).
  rewrite Forall_lookup in Hp. apply (list_order p q); [done..|]. by eapply Hp.
Qed.

(** The rows the statement selects are the listing. *)
Lemma rows_listing db cs f l :
  db_ok db → (∀ id r n, decode id r = Some n → sat cs id r = matches f n) →
  ordered [("created_at", Desc); ("id", Desc)] l (matching cs (db_notifications db)) →
  Forall2 (λ p n, decode p.1 p.2 = Some n) l (listing f (abs db)).
Proof.
  intros Hok Hcs [Hp Hs].
  destruct (rows_values db (λ id r, sat cs id r = true) (λ n, matches f n = true) l)
    as (ns & HF & Hns); [done|by rewrite Hp; apply NoDup_matching_fst| | |].
  - intros id r. by rewrite Hp, elem_of_matching.
  - intros id r n Hd. by rewrite (Hcs _ _ _ Hd).
  - replace (listing f (abs db)) with ns; [done|].
    apply listing_unique; [apply abs_keyed|by eapply sorted_rows|done].
Qed.

Lemma effective_limit_bounds z : 1 ≤ effective_limit z ≤ 100.
Proof. unfold effective_limit. destruct (_ || _) eqn:E; bool_hyps; lia. Qed.

Section Listings.
Context {S : Services} {HS : ServicesOk S} {HO : SentOnce S}.

(** The page, or (the stream of rows broke off) a page made of the first
    rows, or an error. *)
Lemma List_reads f w tr r w' :
  db_ok (w_db w) → exec (List f) w tr r w' →
  let limit := effective_limit (f_Limit f) in
  let found := take (Z.to_nat (limit + 1)) (listing f (abs (w_db w))) in
  frame_db w w' ∧ w_db w' = w_db w ∧
  (r = Ok (page limit found) ∨
   (¬ fault_free tr ∧ ((∃ k, r = Ok (page limit (take k found))) ∨ ∃ e, r = Er e))).
Proof.
  intros Hok H limit found. unfold List in H.
  destruct (build_conditions f) as [[conds args] argIdx] eqn:Hb.
  apply exec_bind in H as (x & w1 & tr1 & tr2 & -> & H1 & H).
  apply exec_pg in H1 as (-> & Hq).
  apply select_query in Hq as (Hf & Hdb & Hx); [|done].
  destruct Hx as [(now & cs & l & l' & rest & err & rows & -> & Hrows & Herr & Hcs & Ho & Hl)
                 |(e & -> & He)].
  2: { destruct H as (-> & -> & ->). do 2 (split; [done|]). right. split; [|eauto].
       eapply not_fault_free_in; [left|done]. }
  eapply build_conditions_ok in Hb as [-> Hsat]. specialize (Hsat Hcs).
  assert (HF := rows_listing _ _ _ _ Hok Hsat Ho).
  assert (Hb := effective_limit_bounds (f_Limit f)). fold limit in Hb.
  destruct Hl as (n & Hev & Hn & ->).
  cbn [eval] in Hev. rewrite lookup_app_r in Hev by lia.
  rewrite Nat.sub_diag in Hev. cbn in Hev. injection Hev as <-.
  rewrite wrap64_id in Hn, Hrows by (unfold int64_range, int_min, int_max; lia).
  fold limit in Hn, Hrows.
  apply (Forall2_take _ _ _ (Z.to_nat (limit + 1))) in HF.
  assert (Hscan : scan_all rows = Ok (take (length rows) found)).
  { assert (Hr : rows = project notification_cols <$> take (length rows)
      (take (Z.to_nat (limit + 1)) l)).
    { by rewrite fmap_take, Hrows, take_app_length. }
    rewrite Hr at 1. apply scan_all_rows. by apply Forall2_take. }
  rewrite Hscan in H. destruct H as (-> & -> & ->).
  do 2 (split; [done|]). destruct err as [e|].
  - right. split; [|by left; eexists]. eapply not_fault_free_in; [left|done].
  - left. specialize (Herr eq_refl) as ->. rewrite app_nil_r in Hrows.
    rewrite <- Hrows, length_fmap, (Forall2_length _ _ _ HF).
    by rewrite firstn_all.
Qed.
End Listings.

(** ** Following the cursors *)

(** The pages a client gets that follows [NextCursor] from the filter [f],
    the store being [S] all along; [k] bounds the number of requests. *)
Fixpoint follow (k : nat) (f : NotificationFilter) (S : Store) : list (list Notification) :=
  match k with
  | O => []
  | Datatypes.S k =>
      let limit := effective_limit (f_Limit f) in
      let p := page limit (take (Z.to_nat (limit + 1)) (listing f S)) in
      l_Notifications p ::
      match l_NextCursor p with
      | Some c => follow k (with_cursor c f) S
      | None => []
      end
  end.

Lemma page_last limit (l : list Notification) :
  1 ≤ limit → (length l ≤ Z.to_nat limit)%nat → page limit l = mkList l None.
Proof. intros ? ?. unfold page. destruct (_ <? _) eqn:E; [lia|done]. Qed.

Lemma page_more limit (l : list Notification) :
  1 ≤ limit → (Z.to_nat limit < length l)%nat →
  ∃ x, l !! (Z.to_nat limit - 1)%nat = Some x ∧
    page limit (take (Z.to_nat (limit + 1)) l)
    = mkList (take (Z.to_nat limit) l) (Some (cursor_of x)).
Proof.
  intros ? ?. destruct (lookup_lt_is_Some_2 l (Z.to_nat limit - 1)) as [x Hx]; [lia|].
  exists x. split; [done|]. unfold page. rewrite length_take.
  destruct (_ <? _) eqn:E; [|apply Z.ltb_ge in E; lia]. rewrite take_take, Nat.min_l by lia.
  pose proof (last_take_S _ _ _ Hx) as Hl.
  replace (Datatypes.S (Z.to_nat limit - 1)) with (Z.to_nat limit) in Hl by lia.
  by rewrite Hl.
Qed.

(** With enough requests, the pages are the listing, each notification once
    and in order, and no page is longer than the limit. *)
Lemma follow_complete k f S :
  keyed S → micro_times S → (length (listing f S) < k)%nat →
  concat (follow k f S) = listing f S ∧
  Forall (λ p, Z.of_nat (length p) ≤ effective_limit (f_Limit f)) (follow k f S).
Proof.
  intros Hk Hm. revert f. induction k as [|k IH]; intros f Hlen; [lia|].
  cbn [follow]. set (limit := effective_limit (f_Limit f)).
  assert (Hb := effective_limit_bounds (f_Limit f)). fold limit in Hb.
  destruct (decide (length (listing f S) ≤ Z.to_nat limit)%nat) as [Hle|Hgt].
  - rewrite page_last by (rewrite ?length_take; lia). cbn [l_Notifications l_NextCursor].
    rewrite firstn_all2 by lia. cbn. rewrite app_nil_r. split; [done|].
    constructor; [lia|constructor].
  - destruct (page_more limit (listing f S)) as (x & Hx & ->); [lia..|].
    cbn [l_Notifications l_NextCursor concat].
    assert (Hl := listing_after f S _ x Hk Hm Hx).
    replace (Datatypes.S (Z.to_nat limit - 1)) with (Z.to_nat limit) in Hl by lia.
    destruct (IH (with_cursor (cursor_of x) f)) as [IH1 IH2].
    { rewrite Hl, length_drop. lia. }
    rewrite IH1, Hl. split; [by rewrite take_drop|].
    constructor; [rewrite length_take; lia|done].
Qed.
