(* ===== verification/Releasing.v ===== *)
(** * Releasing scheduled notifications (NotificationRepository.FetchScheduledDue)

    The due notifications nobody else holds, earliest first and at most the
    limit, go from [scheduled] to [pending] and are returned. *)

From stdpp Require Import gmap.
From S2P Require Import Prelude GoLib Domain Sql SqlFacts Effects Frames NotificationRepo.
From S2P Require Import NotificationStore NotificationSpec Listing.

(** ** Specification *)

Definition earlier (n m : Notification) : Prop :=
  default 0 (n_ScheduledAt n) ≤ default 0 (n_ScheduledAt m).

(** Write a list of notifications into the store, each at its id. *)
Definition put (ns : list Notification) (S : Store) : Store :=
  foldl (λ S n, <[n_ID n := n]> S) S ns.

(** The notifications one call may choose: [locked] are the ids whose rows
    other transactions hold, which it skips. *)
Definition chosen (now limit : Z) (locked : gset UUID) (S : Store) (ns : list Notification) : Prop :=
  ∃ l, l ≡ₚ filter (λ n, Spec.due now n = true ∧ n_ID n ∉ locked) (map_to_list S).*2 ∧
    StronglySorted earlier l ∧ ns ≡ₚ take (Z.to_nat limit) l.

Lemma chosen_due now limit locked S ns n :
  keyed S → chosen now limit locked S ns → n ∈ ns →
  S !! n_ID n = Some n ∧ Spec.due now n = true ∧ n_ID n ∉ locked.
Proof.
  intros Hk (l & Hl & _ & Hns) Hn. rewrite Hns in Hn.
  apply elem_of_take in Hn as (i & Hi & _). apply list_elem_of_lookup_2 in Hi.
  rewrite Hl, list_elem_of_filter, list_elem_of_fmap in Hi.
  destruct Hi as [[? ?] ([j m] & -> & Hj)]. apply elem_of_map_to_list in Hj. cbn in *.
  split_and!; try done. by rewrite (Hk j m Hj).
Qed.

Lemma chosen_length now limit locked S ns :
  chosen now limit locked S ns → (length ns ≤ Z.to_nat limit)%nat.
Proof. intros (l & _ & _ & ->). rewrite length_take. lia. Qed.

Lemma chosen_NoDup now limit locked S ns : keyed S → chosen now limit locked S ns → NoDup ns.
Proof.
  intros Hk (l & Hl & _ & Hns). rewrite Hns.
  assert (Hnd : NoDup l) by (rewrite Hl; by apply NoDup_filter, NoDup_values).
  rewrite <- (take_drop (Z.to_nat limit) l) in Hnd. by apply NoDup_app in Hnd as (? & _).
Qed.

(** A due notification that was not chosen is locked, or the limit was used up
    by notifications that are due no later. *)
Lemma chosen_rest now limit locked S ns n :
  chosen now limit locked S ns → n ∈ (map_to_list S).*2 → Spec.due now n = true → n ∉ ns →
  n_ID n ∈ locked ∨ (length ns = Z.to_nat limit ∧ Forall (λ m, earlier m n) ns).
Proof.
  intros (l & Hl & Hs & Hns) Hin Hd Hn.
  destruct (decide (n_ID n ∈ locked)) as [?|Hnl]; [by left|right].
  assert (Hnl' : n ∈ l) by by rewrite Hl, list_elem_of_filter.
  rewrite <- (take_drop (Z.to_nat limit) l), elem_of_app in Hnl'. rewrite Hns in Hn.
  destruct Hnl' as [?|Hdrop]; [done|]. rewrite Hns. split.
  - rewrite length_take. destruct (decide (Z.to_nat limit ≤ length l)%nat); [lia|].
    rewrite drop_ge in Hdrop by lia. by apply not_elem_of_nil in Hdrop.
  - rewrite <- (take_drop (Z.to_nat limit) l) in Hs.
    apply StronglySorted_app in Hs as (H12 & _). apply Forall_forall. intros m Hm. by apply H12.
Qed.

(** ** Rows *)

Lemma decode_put l ns db :
  Forall2 (λ p n, decode p.1 p.2 = Some n) l ns →
  abs (set_table Notifications (put_rows l (db_notifications db)) db) = put ns (abs db).
Proof.
  intros HF. revert db. induction HF as [|[id r] n l ns Hd _ IH]; intros db; [by destruct db|].
  cbn in Hd. pose proof (abs_insert db id r n Hd) as Ha.
  specialize (IH (set_table Notifications (<[id := r]> (db_notifications db)) db)).
  unfold put_rows, put in *. cbn [foldl fst snd].
  rewrite (decode_ID _ _ _ Hd). rewrite Ha in IH. rewrite <- IH. by destruct db.
Qed.

Lemma release_rows l l' ns now args :
  update_rows Notifications release_sets args now l = Some l' →
  Forall2 (λ p n, decode p.1 p.2 = Some n) l ns →
  Forall2 (λ p n, decode p.1 p.2 = Some n) l' (Spec.release now <$> ns).
Proof.
  intros Hu HF. revert l' Hu. induction HF as [|[id r] n l ns Hd _ IH]; intros l' Hu.
  - cbn in Hu. injection Hu as <-. constructor.
  - unfold update_rows in Hu. cbn [mapM] in Hu.
    apply bind_Some in Hu as (p & Hp & Hu). apply bind_Some in Hu as (l2 & Hl & [= <-]).
    apply bind_Some in Hp as (r' & Hr & [= <-]). constructor; [by eapply release_row|].
    by apply IH.
Qed.

Lemma due_sat id r n now :
  decode id r = Some n →
  sat [REq "status" (VText "scheduled"); RLe "scheduled_at" (VTime now)] id r = Spec.due now n.
Proof.
  intros Hd. pose proof (decode_col_status _ _ _ Hd) as Hst. apply decode_scheduled in Hd.
  unfold sat. cbn [forallb sat1]. unfold col_val. cbn [String.eqb Ascii.eqb Bool.eqb].
  fold (cv r "status") (cv r "scheduled_at"). rewrite Hst, Hd, andb_true_r. unfold Spec.due.
  f_equal.
  - cbn. apply Bool.eq_iff_eq_true. rewrite bool_decide_eq_true, String.eqb_eq.
    split; [by intros [=]|by intros ->].
  - destruct (n_ScheduledAt n) as [t|]; [|done]. cbn.
    apply Bool.eq_iff_eq_true. rewrite orb_true_iff, bool_decide_eq_true, Z.ltb_lt, Z.leb_le.
    split; [intros [?|[=]]; lia|]. intros. destruct (decide (t = now)); [right; congruence|lia].
Qed.

Lemma sched_order p q n m now :
  decode p.1 p.2 = Some n → decode q.1 q.2 = Some m →
  Spec.due now n = true → Spec.due now m = true →
  ord_le [("scheduled_at", Asc)] p q = true ↔ earlier n m.
Proof.
  intros Hp%decode_scheduled Hq%decode_scheduled Hn Hm. unfold Spec.due in *. bool_hyps.
  cbn [ord_le]. unfold col_val. cbn [String.eqb Ascii.eqb Bool.eqb].
  fold (cv p.2 "scheduled_at") (cv q.2 "scheduled_at"). rewrite Hp, Hq. unfold earlier, key_lt.
  destruct (n_ScheduledAt n), (n_ScheduledAt m); cbn; try done. lia.
Qed.

(** The rows the statement selects and updates, as chosen notifications. *)
Lemma release_selected db now lk s sel l l' limit :
  db_ok db →
  ordered [("scheduled_at", Asc)] s (filter (λ p, p.1 ∉ (lk : gset UUID))
    (matching [REq "status" (VText "scheduled"); RLe "scheduled_at" (VTime now)]
       (db_notifications db))) →
  limited [VInt limit] now (Some (EArg 1)) s sel → l ≡ₚ sel →
  update_rows Notifications release_sets [VInt limit] now l = Some l' →
  ∃ ns, 0 ≤ limit ∧ chosen now limit lk (abs db) ns ∧
    Forall2 (λ p n, decode p.1 p.2 = Some n) l' (Spec.release now <$> ns).
Proof.
  intros Hok [Hs Hsort] (z & Hz & Hz0 & ->) Hl Hu. cbn in Hz. injection Hz as ->.
  destruct (rows_values db
    (λ id r, sat [REq "status" (VText "scheduled"); RLe "scheduled_at" (VTime now)] id r = true
             ∧ id ∉ lk) (λ n, Spec.due now n = true ∧ n_ID n ∉ lk) s)
    as (ns & HF & Hns); [done| | | |].
  - rewrite Hs. apply NoDup_fmap_fst; [|by apply NoDup_filter, NoDup_matching].
    intros i r1 r2 [_ H1]%list_elem_of_filter [_ H2]%list_elem_of_filter.
    apply elem_of_matching in H1 as [? _], H2 as [? _]. congruence.
  - intros id r. rewrite Hs, list_elem_of_filter, elem_of_matching. cbn. tauto.
  - intros id r n Hd. rewrite (due_sat _ _ _ _ Hd), (decode_ID _ _ _ Hd). tauto.
  - assert (Hsorted : StronglySorted earlier ns).
    { assert (Hdue : Forall (λ n, Spec.due now n = true) ns).
      { apply Forall_forall. intros n Hn. rewrite Hns in Hn.
        by apply list_elem_of_filter in Hn as [[? _] _]. }
      clear -HF Hsort Hdue. induction HF as [|p n s ns Hd HF IH]; [constructor|].
      apply StronglySorted_inv in Hsort as [Hsort Hp]. apply Forall_cons in Hdue as [Hn Hdue].
      constructor; [by apply IH|]. 
      apply Forall_lookup. change (Forall (λ q, ord_le [("scheduled_at", Asc)] p q = true) s) in Hp.
      rewrite Forall_lookup in Hdue. pose proof (proj1 (Forall_lookup _ _) Hp) as Hp'.
      intros i m Hm. destruct (Forall2_lookup_r _ _ _ _ _ HF Hm) as (q & Hq & Hdq).
      eapply (sched_order p q); eauto. }
    apply (Forall2_take _ _ _ (Z.to_nat z)) in HF.
    destruct (Forall2_perm_l _ _ _ _ (Permutation_sym Hl) HF) as (ns' & Hp' & HF').
    exists ns'. split; [done|]. split; [|by eapply release_rows].
    exists ns. by rewrite Hp'.
Qed.

Section Releasing.
Context {S : Services} {HS : ServicesOk S} {HO : SentOnce S}.

(** Without a fault: chosen, released, returned. With one: an error and no
    change; or the release happened and an error is returned; or a part of what
    was chosen is returned, whether or not the release stays. *)
Lemma FetchScheduledDue_refines limit w tr r w' :
  db_ok (w_db w) → exec (FetchScheduledDue limit) w tr r w' →
  repo_frame w w' ∧
  ((∃ now ns, w_clock w ≤ now ≤ w_clock w' ∧ 0 ≤ limit ∧
     chosen now limit (db_locked (w_db w) now) (abs (w_db w)) ns ∧
     let released := abs (w_db w') = put (Spec.release now <$> ns) (abs (w_db w)) in
     ((released ∧ r = Ok (Spec.release now <$> ns)) ∨
      (¬ fault_free tr ∧
       (((released ∨ abs (w_db w') = abs (w_db w)) ∧ ∃ k, r = Ok (take k (Spec.release now <$> ns))) ∨
        (released ∧ ∃ e, r = Er e))))) ∨
   (¬ fault_free tr ∧ abs (w_db w') = abs (w_db w) ∧ ∃ e, r = Er e)).
Proof.
  intros Hok H. unfold FetchScheduledDue in H.
  apply exec_bind in H as (x & w1 & tr1 & tr2 & -> & H1 & H).
  apply exec_pg in H1 as (-> & Hq).
  apply update_in_query in Hq as (Hf & Hok' & now & Hnow & Hx);
    [|repeat constructor; cbn; rewrite ?elem_of_cons, elem_of_nil; intuition discriminate|done].
  assert (Hnf : ∀ e, db_fault e = true → x = Er e →
    ¬ fault_free ([Ev (Pg (PgQuery fetch_due [VInt limit])) x] ++ tr2)).
  { intros e He ->. eapply not_fault_free_in; [left|done]. }
  destruct Hx as [(cs & s & sel & l & l' & Hcs & Ho & Hl & Hp & Hu & Hx)|(Hdb & e & -> & He)].
  2: { destruct H as (-> & -> & ->). unfold repo_frame. rewrite Hdb. split; [done|].
       right. split; [by eapply Hnf|]. split; [done|by eexists]. }
  cbn in Hcs. injection Hcs as <-.
  destruct (release_selected _ _ _ _ _ _ _ _ Hok Ho Hl Hp Hu) as (ns & H0 & Hch & HF).
  assert (Habs : w_db w1 = set_table Notifications (put_rows l' (table Notifications (w_db w))) (w_db w) →
    abs (w_db w1) = put (Spec.release now <$> ns) (abs (w_db w)))
    by (intros ->; by apply decode_put).
  assert (Hw : w' = w1) by (destruct x as [[]|]; by destruct H as (_ & _ & ->)). subst w'.
  split.
  { split; [done|]. split; [done|].
    destruct Hx as [[-> _]|[[[->| ->] _]|[-> _]]]; done. }
  left. exists now, ns. split_and!; [lia..|done|done|]. cbn zeta.
  destruct Hx as [[Hdb ->]|[[Hdb (rows & rest & e & Hr & ->)]|[Hdb (e & -> & He)]]].
  - left. split; [by apply Habs|]. destruct H as (-> & -> & _). by rewrite (scan_all_rows _ _ HF).
  - right. split.
    { destruct H as (-> & _). eapply not_fault_free_in; [left|done]. }
    left. split; [destruct Hdb as [Hdb|Hdb]; [left; by apply Habs|right; by rewrite Hdb]|].
    exists (length rows). destruct H as (_ & -> & _).
    assert (Hrows : rows = project notification_cols <$> take (length rows) l')
      by by rewrite fmap_take, Hr, take_app_length.
    rewrite Hrows at 1. apply scan_all_rows. by apply Forall2_take.
  - right. split; [by eapply Hnf|]. right. split; [by apply Habs|]. destruct H as (_ & -> & _). by eexists.
Qed.
End Releasing.
