(* ===== verification/Batches.v ===== *)
(** * Creating a batch (NotificationRepository.CreateBatch)

    The whole batch is stored, or none of it. *)

From stdpp Require Import gmap.
From S2P Require Import Prelude GoLib Domain Sql SqlFacts Effects Frames NotificationRepo.
From S2P Require Import NotificationStore NotificationSpec.

(** ** Specification *)

(** Creating notifications one after the other, each without a conflict. *)
Inductive creates : list Notification → Store → Store → Prop :=
  | creates_nil S : creates [] S S
  | creates_cons n ns S S1 S2 :
      Spec.create n S S1 None → creates ns S1 S2 → creates (n :: ns) S S2.

(** The members of a batch, each with its id and the batch's time. *)
Definition identified (now : Z) (n n' : Notification) : Prop := ∃ id, n' = set_ident id now now n.

(** Some notification of the list, given an id, conflicts with the store or
    with an earlier one of the list. *)
Definition conflicts (now : Z) (ns : list Notification) (S : Store) : Prop :=
  ∃ pre pre' n rest id S1 c, ns = pre ++ n :: rest ∧ Forall2 (identified now) pre pre' ∧
    creates pre' S S1 ∧ Spec.create (set_ident id now now n) S1 S1 (Some c).

Lemma conflicts_cons now n id ns S S1 :
  Spec.create (set_ident id now now n) S S1 None → conflicts now ns S1 → conflicts now (n :: ns) S.
Proof.
  intros Hc (pre & pre' & m & rest & i & S2 & c & -> & HF & Hp & Hm).
  exists (n :: pre), (set_ident id now now n :: pre'), m, rest, i, S2, c. split; [done|].
  split; [constructor; [by exists id|done]|]. split; [by econstructor|done].
Qed.

Lemma creates_keep ns S S' i x : creates ns S S' → S !! i = Some x → S' !! i = Some x.
Proof.
  induction 1 as [|n ns T S1 S2 Hn Hc IH]; [done|]. intros Hi. inversion Hn; subst.
  apply IH. rewrite lookup_insert_ne; [done|congruence].
Qed.

(** All ids of a created batch are new and distinct, and all of it is there. *)
Lemma creates_lookup ns S S' n :
  creates ns S S' → n ∈ ns → S !! n_ID n = None ∧ S' !! n_ID n = Some (Spec.stored n).
Proof.
  intros Hc. induction Hc as [T|m ns T S1 S2 Hm Hc IH].
  - by intros ?%not_elem_of_nil.
  - inversion Hm as [Hfresh Hk| |]; subst.
    assert (Hkeep : ∀ i x, <[n_ID m := Spec.stored m]> T !! i = Some x → S2 !! i = Some x).
    { intros i x. by eapply creates_keep. }
    intros [->|Hn]%elem_of_cons.
    + split; [done|]. apply Hkeep. by rewrite lookup_insert_eq.
    + destruct (IH Hn) as [H1 H2]. split; [|done].
      rewrite lookup_insert in H1. by case_decide.
Qed.

Section Batches.
Context {S : Services} {HS : ServicesOk S} {HO : SentOnce S}.

Lemma insert_effect_ok n now db aff rows db' ins t :
  db_ok db → db_ok db' →
  sql_effect (insert_args n (json_Marshal (n_TemplateVars n))) now db insert_notification
    aff rows db' ins t →
  (∀ id, ins = Some id → table t db !! id = None) →
  Spec.create n (abs db) (abs db') None ∧ others_same db db'.
Proof.
  intros Hok Hok' He Hins.
  apply insert_effect in He as (-> & -> & _ & Ho & _ & Hcr & _); [|done].
  split; [|done]. by apply Hcr; [apply Hins|].
Qed.

Lemma overlay_snoc ws t id r db :
  overlay (ws ++ [(t, id, r)]) db
  = set_table t (<[id := r]> (table t (overlay ws db))) (overlay ws db).
Proof. unfold overlay. by rewrite foldl_app. Qed.

(** One insert of the transaction. *)
Lemma tx_insert h n ws w x w' :
  let args := insert_args n (json_Marshal (n_TemplateVars n)) in
  let db := overlay ws (w_db w) in
  pg_doc (PgTxExec h insert_notification args) w x w' →
  w_txs w !! h = Some (mkTx ws false) → db_ok db →
  (∃ ws', x = Ok 1 ∧ w' = set_txs (<[h := mkTx ws' false]> (w_txs w)) w ∧
     let db' := overlay ws' (w_db w) in
     db_ok db' ∧ Spec.create n (abs db) (abs db') None ∧ others_same db db') ∨
  (∃ e, x = Er e ∧ w' = set_txs (<[h := mkTx ws true]> (w_txs w)) w ∧
     ((batch_error e = ESentinel ErrIdempotencyConflict ∧
       ∃ c, Spec.create n (abs db) (abs db) (Some c)) ∨
      (root_sentinel (batch_error e) = None ∧ db_fault e = true))).
Proof.
  intros args db (tx & Htx & Hcase) Hw Hok. rewrite Hw in Htx. injection Htx as <-.
  destruct Hcase as [(t & cols & vals & id & r & now & db' & Hs & _ & Hi & Hst & -> & ->)
                    |(e & now & Hst & -> & ->)]; cbn [tx_writes] in *.
  - left. exists (ws ++ [(t, id, r)]). split; [done|]. split; [done|].
    injection Hs as <- <- <-. inversion Hst as [k rows dbx ins t1 He Hfresh Hok'| | | |]; subst.
    pose proof He as He'. apply sql_insert_inv in He' as (id1 & r1 & Hi1 & _ & _ & -> & _ & _).
    assert (E : Some (id, r) = Some (id1, r1)) by (rewrite <- Hi1; symmetry; exact Hi).
    injection E as <- <-.
    rewrite overlay_snoc. cbn zeta. fold db. split; [done|].
    by eapply insert_effect_ok.
  - right. exists e. split; [done|]. split; [done|]. fold db in Hst.
    apply sql_step_inv in Hst as
      [(k & rows & ins & t1 & [=] & _)
      |[(name & msg & k & rows & db1 & ins & t1 & [= ->] & _ & He & Hv)
      |[(code & name & msg & Hcode & [= ->] & _)|(msg & [= ->] & _)]]].
    + left. split; [done|].
      apply insert_effect in He as (-> & -> & _ & _ & _ & _ & Hviol); [|done].
      apply Hviol in Hv as [(_ & ?)|(_ & ?)]; by eexists.
    + right. apply String.eqb_neq in Hcode. cbn [batch_error db_fault]. by rewrite Hcode.
    + by right.
Qed.

(** The loop over the batch, the transaction being open. *)
Lemma batch_inserts_runs h now ns ws w tr ns' err w' :
  exec (batch_inserts h now ns) w tr (ns', err) w' →
  w_txs w !! h = Some (mkTx ws false) → db_ok (overlay ws (w_db w)) →
  ∃ ws' failed, w' = set_txs (<[h := mkTx ws' failed]> (w_txs w)) w ∧
  ((err = None ∧ failed = false ∧ Forall2 (identified now) ns ns' ∧
    let db := overlay ws (w_db w) in let db' := overlay ws' (w_db w) in
    db_ok db' ∧ creates ns' (abs db) (abs db') ∧ others_same db db') ∨
   (err = Some (ESentinel ErrIdempotencyConflict) ∧
    conflicts now ns (abs (overlay ws (w_db w)))) ∨
   (∃ e, err = Some e ∧ root_sentinel e = None ∧ ¬ fault_free tr)).
Proof.
  revert ws w tr ns' err. induction ns as [|n ns IH]; intros ws w tr ns' err H Hw Hok.
  - apply exec_ret in H as (-> & [= -> ->] & ->). exists ws, false.
    rewrite insert_id by done. split; [by destruct w|]. left.
    do 2 (split; [done|]). split; [apply Forall2_nil; done|]. split; [done|]. split; [|done]. apply creates_nil.
  - cbn [batch_inserts] in H.
    apply exec_bind in H as (id & w1 & tr1 & tr2 & -> & H1 & H).
    apply exec_newv7 in H1 as (-> & ->).
    apply exec_bind in H as (x & w1 & tr1 & tr3 & -> & H1 & H).
    set (n1 := set_ident id now now n) in *. apply exec_pg in H1 as (-> & Hx).
    apply (tx_insert _ _ ws) in Hx as [(ws1 & -> & -> & Hok1 & Hc & Ho)
      |(e & -> & -> & Hcase)]; [| |done|done].
    + apply exec_bind in H as ([ns'' err'] & w2 & tr4 & tr5 & -> & H2 & H).
      apply exec_ret in H as (-> & [= -> ->] & ->).
      apply (IH ws1) in H2 as (ws' & failed & -> & Hcase);
        [|cbn; by rewrite lookup_insert_eq|done].
      cbn [set_txs w_txs w_db w_redis w_clock w_hub] in *.
      rewrite insert_insert_eq. exists ws', failed. split; [done|].
      destruct Hcase as [(-> & -> & HF & Hok' & Hcs & Ho')|[(-> & Hcf)|(e & -> & He & Hnf)]].
      * left. split_and!; try done.
        -- constructor; [by exists id|done].
        -- by econstructor.
        -- etrans; [exact Ho|exact Ho'].
      * right. left. split; [done|]. by eapply conflicts_cons.
      * right. right. exists e. split_and!; try done. rewrite app_nil_r.
        rewrite !fault_free_app. tauto.
    + apply exec_ret in H as (-> & [= -> ->] & ->). exists ws, true. split; [done|]. right.
      destruct Hcase as [(-> & c & Hc)|(He & Hfl)].
      * left. split; [done|]. exists [], [], n, ns, id, (abs (overlay ws (w_db w))), c.
        split; [done|]. split; [constructor|]. split; [constructor|done].
      * right. eexists. split_and!; [done..|].
        eapply not_fault_free_in; [right; left|done].
Qed.

(** All or nothing: the batch is created; or a member conflicts and nothing
    changes; or a fault occurred, and then it is one of the two as well. *)
Lemma CreateBatch_refines ns w tr ns' r w' :
  db_ok (w_db w) → exec (CreateBatch ns) w tr (ns', r) w' →
  repo_frame w w' ∧
  ((r = None ∧ ∃ now, w_clock w ≤ now ≤ w_clock w' ∧ Forall2 (identified now) ns ns' ∧
    creates ns' (abs (w_db w)) (abs (w_db w'))) ∨
   (r = Some (ESentinel ErrIdempotencyConflict) ∧ w_db w' = w_db w ∧
    ∃ now, w_clock w ≤ now ≤ w_clock w' ∧ conflicts now ns (abs (w_db w))) ∨
   (¬ fault_free tr ∧ (∃ e, r = Some e ∧ root_sentinel e = None) ∧
    (w_db w' = w_db w ∨
     ∃ now, w_clock w ≤ now ≤ w_clock w' ∧ Forall2 (identified now) ns ns' ∧
       creates ns' (abs (w_db w)) (abs (w_db w'))))).
Proof.
  intros Hok H. unfold CreateBatch in H.
  apply exec_bind in H as (b & w1 & tr1 & tr2 & -> & H1 & H).
  apply exec_pg in H1 as (-> & Hb).
  destruct Hb as [(h & -> & _ & Hh & ->)|(e & -> & He & ->)].
  2: { apply exec_ret in H as (-> & [= -> ->] & ->). split; [done|]. right. right.
       split; [|split; [eexists; split; [done|apply root_db_error]|by left]].
       eapply not_fault_free_in; [left|done]. }
  apply exec_bind in H as (now & w1 & tr1 & tr3 & -> & H1 & H).
  apply exec_now in H1 as (-> & Hc & ->).
  apply exec_bind in H as ([ns1 err] & w1 & tr1 & tr4 & -> & H1 & H).
  apply (batch_inserts_runs _ _ _ []) in H1 as (ws & failed & -> & Hcase);
    [|cbn; by rewrite lookup_insert_eq|done].
  apply exec_bind in H as (err1 & w1 & tr5 & tr6 & -> & H1 & H).
  apply exec_bind in H as (u & w2 & tr7 & tr8 & -> & H2 & H).
  apply exec_pg in H2 as (-> & Hr). cbn in Hr. unfold tx_rollback in Hr. subst w2.
  apply exec_ret in H as (-> & [= -> ->] & ->).
  cbn [set_begun set_txs set_clock w_txs w_db w_redis w_clock w_hub overlay foldl] in *.
  rewrite insert_insert_eq in H1.
  (* An error of the loop: nothing is committed. *)
  assert (Herr : ∀ e, err = Some e → err1 = Some e ∧
    repo_frame w (set_txs (delete h (w_txs w1)) w1) ∧ w_db w1 = w_db w).
  { intros e ->. apply exec_ret in H1 as (-> & [= ->] & ->). split; [done|].
    split; [|done]. split; [|split; [done|reflexivity]]. unfold frame_db. cbn.
    split_and!; try done. by rewrite delete_insert_id. }
  destruct Hcase as [(-> & -> & HF & Hok' & Hcs & Ho)|[(-> & Hcf)|(e & -> & He & Hnf)]].
  2: { destruct (Herr _ eq_refl) as (-> & Hf & Hdb). split; [done|]. right; left.
       split; [done|]. split; [done|]. exists now. split; [|done].
       apply exec_ret in H1 as (_ & _ & ->). cbn. lia. }
  2: { destruct (Herr _ eq_refl) as (-> & Hf & Hdb). split; [done|]. right. right.
       split; [|split; [by exists e|by left]]. rewrite !fault_free_app. tauto. }
  clear Herr. apply exec_bind in H1 as (c & w2 & tr2 & tr3 & -> & H2 & H1).
  apply exec_pg in H2 as (-> & tx & Htx & Hcommit).
  cbn [set_begun set_txs set_clock w_txs w_db w_redis w_clock w_hub] in *.
  rewrite lookup_insert_eq in Htx. injection Htx as <-. cbn [tx_writes tx_failed] in *.
  assert (Hdel : delete h (delete h (<[h:=mkTx ws false]> (w_txs w))) = w_txs w)
    by by rewrite delete_delete_eq, delete_insert_id.
  destruct Hcommit as [(-> & _ & _ & _ & ->)|[(e & -> & ->)|(msg & -> & _ & _ & _ & ->)]];
    apply exec_ret in H1 as (-> & -> & ->); unfold repo_frame, frame_db;
    cbn [set_db set_begun set_txs set_clock w_txs w_db w_redis w_clock w_hub]; rewrite Hdel.
  - split; [done|]. left. split; [done|]. exists now. split; [lia|done].
  - split; [done|]. right. right. split; [|split; [eexists; split; [done|apply root_db_error]|by left]].
    eapply not_fault_free_in; [|apply (eq_refl : fault (Ev (Pg (PgCommit h)) (Some e)) = true)].
    rewrite !elem_of_app, !elem_of_cons. tauto.
  - split; [done|]. right. right.
    split; [|split; [eexists; split; [done|apply root_db_error]|right; exists now; by split; [lia|]]].
    eapply not_fault_free_in;
      [|apply (eq_refl : fault (Ev (Pg (PgCommit h)) (Some (DbOther msg))) = true)].
    rewrite !elem_of_app, !elem_of_cons. tauto.
Qed.
End Batches.
