(* ===== verification/Attempts.v ===== *)
(** * Delivery attempts (NotificationRepository.CreateDeliveryAttempt and
    GetDeliveryAttempts)

    A log of attempts: recording adds one under a new id, reading gives the
    attempts of a notification in the order of their numbers. *)

From stdpp Require Import gmap.
From S2P Require Import Prelude GoLib Domain Sql SqlFacts Effects Frames NotificationRepo.
From S2P Require Import NotificationStore NotificationSpec.

Abbreviation Log := (gmap UUID DeliveryAttempt).

Definition decode_attempt (id : UUID) (r : Row) : option DeliveryAttempt :=
  scan_attempt (project attempt_cols (id, r)).

Definition log (db : DB) : Log := map_imap decode_attempt (db_attempts db).

(** Every recorded attempt can be read: the service never leaves the status
    code of one NULL. *)
Definition log_ok (db : DB) : Prop :=
  map_Forall (λ i r, is_Some (decode_attempt i r)) (db_attempts db).

(** What is kept of an attempt: times in microseconds. *)
Definition recorded (a : DeliveryAttempt) : DeliveryAttempt :=
  set_attempt_ident (a_ID a) (micro (a_CreatedAt a)) a.

Lemma decode_attempt_ID id r a : decode_attempt id r = Some a → a_ID a = id.
Proof.
  unfold decode_attempt. cbn. intros H.
  repeat (apply bind_Some in H as (? & _ & H)). by injection H as <-.
Qed.

Lemma attempt_row a now id r :
  insert_row DeliveryAttempts
    ["id"; "notification_id"; "attempt_number"; "status_code"; "response_body"; "error";
     "duration_ms"; "created_at"] (EArg <$> seq 1 8) (attempt_args a) now = Some (id, r) →
  id = a_ID a ∧ decode_attempt id r = Some (recorded a).
Proof.
  intros H. apply (insert_row_args DeliveryAttempts
    ["notification_id"; "attempt_number"; "status_code"; "response_body"; "error";
     "duration_ms"; "created_at"] (a_ID a) (tail (attempt_args a))) in H as [-> ->]; [|done].
  split; [done|]. unfold decode_attempt.
  cbn [attempt_args tail zip zip_with fmap list_fmap set_all foldl fst snd].
  rewrite !norm_nilIfEmpty. unfold project, attempt_cols. cbn [fmap list_fmap fst snd].
  unfold col_val. cbn [String.eqb Ascii.eqb Bool.eqb].
  repeat first [rewrite lookup_insert_eq | rewrite lookup_insert_ne by discriminate].
  destruct (scan_nilIfEmpty (a_ResponseBody a)) as (o & Ho & Hb).
  destruct (scan_nilIfEmpty (a_Error a)) as (o' & Ho' & He).
  cbn [default id scan_attempt scan_uuid scan_int mbind option_bind norm]. rewrite Ho.
  cbn [mbind option_bind id]. rewrite Ho'. cbn [id mbind option_bind scan_int scan_time].
  rewrite Hb, He. by destruct a.
Qed.

Section Attempts.
Context {S : Services} {HS : ServicesOk S} {HO : SentOnce S}.

(** The notifications and the templates stay as they are. *)
Definition log_frame (w w' : World) : Prop :=
  frame_db w w' ∧ db_ok (w_db w') ∧
  db_notifications (w_db w') = db_notifications (w_db w) ∧
  db_templates (w_db w') = db_templates (w_db w).

Lemma CreateDeliveryAttempt_records a w tr r w' :
  db_ok (w_db w) → exec (CreateDeliveryAttempt a) w tr r w' →
  log_frame w w' ∧
  (log_ok (w_db w) → log_ok (w_db w')) ∧
  ∃ id now, w_clock w ≤ now ≤ w_clock w' ∧
    let added := <[id := recorded (set_attempt_ident id now a)]> (log (w_db w)) in
    (r = None ∧ db_attempts (w_db w) !! id = None ∧ log (w_db w') = added) ∨
    (r ≠ None ∧ (w_db w' = w_db w ∨ log (w_db w') = added)).
Proof.
  intros Hok H. unfold CreateDeliveryAttempt in H.
  apply exec_bind in H as (id & w1 & tr1 & tr2 & -> & H1 & H).
  apply exec_newv7 in H1 as (-> & ->).
  apply exec_bind in H as (now & w1 & tr1 & tr3 & -> & H1 & H).
  apply exec_now in H1 as (-> & Hc & ->).
  set (a1 := set_attempt_ident id now a) in *.
  apply exec_bind in H as (x & w1 & tr1 & tr4 & -> & H1 & H).
  apply exec_pg in H1 as (-> & Hx).
  apply insert_exec in Hx as (Hf & Hok' & t & Ht & Hcase); [|done].
  cbn [set_clock w_clock w_db] in *.
  assert (Hf' : frame_db w w1).
  { destruct Hf as (? & ? & ? & ?). cbn in *. split_and!; [lia|done..]. }
  assert (Hins : inserted DeliveryAttempts
    ["id"; "notification_id"; "attempt_number"; "status_code"; "response_body"; "error";
     "duration_ms"; "created_at"] (EArg <$> seq 1 8) (attempt_args a1) t (w_db w) (w_db w1) →
    log_frame w w1 ∧ (log_ok (w_db w) → log_ok (w_db w1)) ∧
    db_attempts (w_db w) !! id = None ∧
    log (w_db w1) = <[id := recorded a1]> (log (w_db w))).
  { intros (i & r0 & Hi & Hfresh & Hdb). apply attempt_row in Hi as [-> Hd].
    unfold log_frame, log_ok, log. rewrite Hdb. cbn.
    rewrite Hdb in Hok'. split_and!; try done.
    - intros Hl. by apply map_Forall_insert_2.
    - apply map_eq. intros j. rewrite map_lookup_imap.
      destruct (decide (a_ID a1 = j)) as [<-|Hne].
      + by rewrite !lookup_insert_eq.
      + by rewrite !lookup_insert_ne, map_lookup_imap by done. }
  assert (Hsame : w_db w1 = w_db w →
    log_frame w w1 ∧ (log_ok (w_db w) → log_ok (w_db w1))).
  { intros E. unfold log_frame. by rewrite E. }
  destruct Hcase as [(-> & Hi)|[(name & msg & i & r0 & -> & Hdb & _)|(e & -> & _ & [Hdb|Hi])]];
    destruct H as (-> & -> & ->).
  - apply Hins in Hi as (? & ? & ? & ?). do 2 (split; [done|]).
    exists id, now. split; [lia|]. left. done.
  - destruct (Hsame Hdb) as [? ?]. do 2 (split; [done|]).
    exists id, now. split; [lia|]. right. split; [done|by left].
  - destruct (Hsame Hdb) as [? ?]. do 2 (split; [done|]).
    exists id, now. split; [lia|]. right. split; [done|by left].
  - apply Hins in Hi as (? & ? & ? & ?). do 2 (split; [done|]).
    exists id, now. split; [lia|]. right. split; [done|by right].
Qed.

Lemma scan_attempts_rows (l : list (UUID * Row)) xs :
  Forall2 (λ p a, decode_attempt p.1 p.2 = Some a) l xs →
  scan_attempts (project attempt_cols <$> l) = Ok xs.
Proof.
  induction 1 as [|[id r] a l xs Hd _ IH]; [done|]. rewrite fmap_cons. cbn [scan_attempts].
  unfold decode_attempt in Hd. cbn [fst snd] in Hd. by rewrite Hd, IH.
Qed.

Definition numbered (a b : DeliveryAttempt) : Prop := a_AttemptNumber a ≤ a_AttemptNumber b.

(** All attempts of the notification, by number; or the stream of rows broke
    off and some first ones; or an error. *)
Lemma GetDeliveryAttempts_reads id w tr r w' :
  db_ok (w_db w) → log_ok (w_db w) → exec (GetDeliveryAttempts id) w tr r w' →
  frame_db w w' ∧ w_db w' = w_db w ∧
  ((∃ l, StronglySorted numbered l ∧
      l ≡ₚ filter (λ a, a_NotificationID a = id) (map_to_list (log (w_db w))).*2 ∧
      (r = Ok l ∨ (¬ fault_free tr ∧ ∃ k, r = Ok (take k l)))) ∨
   (¬ fault_free tr ∧ ∃ e, r = Er e)).
Proof.
  intros Hok Hlog H. unfold GetDeliveryAttempts in H.
  apply exec_bind in H as (x & w1 & tr1 & tr2 & -> & H1 & H).
  apply exec_pg in H1 as (-> & Hq). apply select_query in Hq as (Hf & Hdb & Hx); [|done].
  destruct Hx as [(now & cs & l & l' & rest & err & rows & -> & Hrows & Herr & Hcs & Ho & Hl)
                 |(e & -> & He)].
  2: { destruct H as (-> & -> & ->). do 2 (split; [done|]). right. split; [|by eexists].
       eapply not_fault_free_in; [left|done]. }
  cbn in Hl. subst l'. cbn in Hcs. injection Hcs as <-. destruct Ho as [Hp Hsort].
  assert (Hcol : ∀ i r a c, decode_attempt i r = Some a →
    (c = "notification_id" → col_val i r c = VUuid (a_NotificationID a)) ∧
    (c = "attempt_number" → col_val i r c = VInt (a_AttemptNumber a))).
  { intros i r0 a c Hd. unfold decode_attempt in Hd. cbn in Hd.
    apply bind_Some in Hd as (nid & Hn & Hd). apply bind_Some in Hd as (num & Hnum & Hd).
    repeat (apply bind_Some in Hd as (? & _ & Hd)). injection Hd as <-.
    split; intros ->; cbn; unfold col_val in *; cbn in *.
    - destruct (r0 !! "notification_id") as [[]|]; by simplify_eq/=.
    - destruct (r0 !! "attempt_number") as [[]|]; by simplify_eq/=. }
  destruct (rows_read decode_attempt a_ID decode_attempt_ID (db_attempts (w_db w))
    (λ i r, sat [REq "notification_id" (VUuid id)] i r = true)
    (λ a, a_NotificationID a = id) l) as (xs & HF & Hxs).
  - exact Hlog.
  - rewrite Hp. apply NoDup_matching_fst.
  - intros i r0. by rewrite Hp, elem_of_matching.
  - intros i r0 a Hd. destruct (Hcol i r0 a "notification_id" Hd) as [Hn _].
    unfold sat. cbn [forallb sat1]. rewrite Hn by done. cbn.
    rewrite andb_true_r, bool_decide_eq_true. split; [by intros [=]|by intros ->].
  - destruct H as (-> & -> & ->). do 2 (split; [done|]). left. exists xs. split; [|split; [done|]].
    + clear -HF Hsort Hcol. induction HF as [|p a l xs Hd HF IH]; [constructor|].
      apply StronglySorted_inv in Hsort as [Hsort Ha]. constructor; [by apply IH|].
      apply Forall_lookup. intros i b Hb.
      destruct (Forall2_lookup_r _ _ _ _ _ HF Hb) as (q & Hq & Hdq).
      pose proof (proj1 (Forall_lookup _ _) Ha _ _ Hq) as Hle. cbn [ord_le] in Hle.
      destruct (Hcol _ _ _ "attempt_number" Hd) as [_ H1].
      destruct (Hcol _ _ _ "attempt_number" Hdq) as [_ H2].
      rewrite H1, H2 in Hle by done. unfold numbered, key_lt in *. cbn in Hle. lia.
    +
      assert (Hr : rows = project attempt_cols <$> take (length rows) l)
        by by rewrite fmap_take, Hrows, take_app_length.
      assert (Hs : scan_attempts rows = Ok (take (length rows) xs))
        by (rewrite Hr at 1; apply scan_attempts_rows; by apply Forall2_take).
      rewrite Hs. destruct err as [e|].
      * right. split; [|by eexists]. eapply not_fault_free_in; [left|done].
      * left. specialize (Herr eq_refl) as ->. rewrite app_nil_r in Hrows.
        rewrite <- Hrows, length_fmap, (Forall2_length _ _ _ HF). by rewrite firstn_all.
Qed.
(** (C33) What is recorded can be read back: after an attempt was recorded, without
    faults, the attempts of its notification are the ones there were before
    and it, under a new id and with its times in microseconds, in the order of
    their numbers. *)
Theorem attempt_log_roundtrip a w tr r w' :
  db_ok (w_db w) → log_ok (w_db w) → fault_free tr →
  exec (let! e := CreateDeliveryAttempt a in
        let! r := GetDeliveryAttempts (a_NotificationID a) in Ret (e, r)) w tr (None, r) w' →
  ∃ id now l, r = Ok l ∧ log (w_db w) !! id = None ∧ w_clock w ≤ now ≤ w_clock w' ∧
    StronglySorted numbered l ∧
    l ≡ₚ recorded (set_attempt_ident id now a)
         :: filter (λ b, a_NotificationID b = a_NotificationID a) (map_to_list (log (w_db w))).*2.
Proof.
  intros Hok Hlog Hff H.
  apply exec_bind in H as (e & w1 & tr1 & tr2 & -> & H1 & H).
  apply exec_bind in H as (r1 & w2 & tr3 & tr4 & -> & H2 & H). destruct H as (-> & [= <- <-] & ->).
  rewrite !fault_free_app in Hff. destruct Hff as (_ & Hff & _).
  apply CreateDeliveryAttempt_records in H1
    as ((_ & Hok1 & _) & Hlog1 & id & now & Hnow & [(_ & Hfr & Hl)|[? _]]); [|done..].
  apply GetDeliveryAttempts_reads in H2
    as ((Hc & _) & _ & [(l & Hs & Hp & [->|[? _]])|[? _]]); [|done..|by apply Hlog1].
  exists id, now, l. assert (Hn : log (w_db w) !! id = None)
    by (unfold log; by rewrite map_lookup_imap, Hfr).
  split_and!; [done|done|lia|lia|done|]. rewrite Hp, Hl, map_to_list_insert by done.
  by rewrite fmap_cons, filter_cons_True.
Qed.
End Attempts.
