(* ===== verification/Queue.v ===== *)
(** * The queue (internal/queue)

    Producer, consumer and dead-letter queue on Redis streams, and the sorted
    set of delayed retries. *)

From stdpp Require Import gmap.
From S2P Require Import Prelude GoLib Domain Redis Effects.

Definition ConsumerGroup : string := "notifier-workers".
Definition DLQStream : string := "notifications:dlq".
Definition DelayedSet : string := "notifications:delayed".

Record Message := mkMessage {
  m_StreamID : string;
  m_MessageID : EntryID;
  m_NotificationID : string;
  m_Channel : string;
}.

(** [msg.Values[k].(string)]: a panic when the field is not there. *)
Definition field (k : string) (values : list (string * string)) : option string :=
  snd <$> List.find (λ p, (p.1 =? k)%string) values.

Definition message_of (stream : string) (e : Entry) : prog Message :=
  match field "notification_id" (e_values e), field "channel" (e_values e) with
  | Some id, Some ch => Ret (mkMessage stream (e_id e) id ch)
  | _, _ => panic
  end.

Fixpoint messages_of (stream : string) (es : list Entry) : prog (list Message) :=
  match es with
  | [] => Ret []
  | e :: es' =>
      let! m := message_of stream e in
      let! ms := messages_of stream es' in
      Ret (m :: ms)
  end.

(** ** producer.go *)

Section Producer.
Context {T : UuidText}.

Definition entry_values (notificationID : UUID) (channel : Channel) : list (string * string) :=
  [("notification_id", uuid_String notificationID); ("channel", channel)].

Definition Enqueue (notificationID : UUID) (channel : Channel) (priority : Priority)
    : prog (option error) :=
  let streamKey := StreamKey priority in
  let! err := do (Rd (XAdd streamKey (entry_values notificationID channel))) in
  match err with
  | Some e => Ret (Some (EWrap ("XADD to " +:+ streamKey +:+ ": ") (EText e) ""))
  | None => Ret None
  end.

Definition delayed_member (notificationID : UUID) (channel : Channel) (priority : Priority)
    : string :=
  uuid_String notificationID +:+ ":" +:+ channel +:+ ":" +:+ priority.

Definition EnqueueDelayed (notificationID : UUID) (channel : Channel) (priority : Priority)
    (retryAt : Z) : prog (option error) :=
  let member := delayed_member notificationID channel priority in
  let! err := do (Rd (ZAdd DelayedSet retryAt member)) in
  match err with
  | Some e => Ret (Some (EWrap "ZADD delayed: " (EText e) ""))
  | None => Ret None
  end.

(** The answer of the ZREM is not looked at. *)
Definition PopDelayedDue (now count : Z) : prog (result error (list string)) :=
  let! r := do (Rd (ZRangeByScore DelayedSet now count)) in
  match r with
  | Er e => Ret (Er (EWrap "pipeline exec: " (EText e) ""))
  | Ok [] => Ret (Ok [])
  | Ok members =>
      run! do (Rd (ZRem DelayedSet members)) in
      Ret (Ok members)
  end.

(** ** dlq.go *)

Definition Push (notificationID : UUID) (channel lastError : string) : prog (option error) :=
  let! err := do (Rd (XAdd DLQStream
    [("notification_id", uuid_String notificationID); ("channel", channel);
     ("error", lastError)])) in
  match err with
  | Some e => Ret (Some (EWrap "XADD to DLQ: " (EText e) ""))
  | None => Ret None
  end.
End Producer.

(** The [for i, msg := range results { if i >= limit { break } .. }]. *)
Fixpoint dlq_messages (i limit : Z) (results : list Entry) : prog (list Message) :=
  match results with
  | [] => Ret []
  | msg :: rest =>
      if limit <=? i then Ret []
      else
        let! m := message_of DLQStream msg in
        let! ms := dlq_messages (i + 1) limit rest in
        Ret (m :: ms)
  end.

Definition Read (count : Z) : prog (result error (list Message)) :=
  let! r := do (Rd (XRange DLQStream)) in
  match r with
  | Er e => Ret (Er (EWrap "XRANGE DLQ: " (EText e) ""))
  | Ok results => let! ms := dlq_messages 0 count results in Ret (Ok ms)
  end.

(** ** consumer.go *)

(** The consumer: its name in the group. *)
Record Consumer := mkConsumer { cn_consumerName : string }.

Definition NewConsumer (consumerName : string) : Consumer := mkConsumer consumerName.

Definition priority_streams : list string :=
  [StreamKey PriorityHigh; StreamKey PriorityNormal; StreamKey PriorityLow].

(** The loop stops at the first stream whose group cannot be created. *)
Fixpoint ensure_groups (streams : list string) : prog (option error) :=
  match streams with
  | [] => Ret None
  | stream :: streams' =>
      let! err := do (Rd (XGroupCreateMkStream stream ConsumerGroup)) in
      match err with
      | Some e =>
          if negb (e =? busygroup)%string then
            Ret (Some (EWrap ("creating consumer group for " +:+ stream +:+ ": ") (EText e) ""))
          else ensure_groups streams'
      | None => ensure_groups streams'
      end
  end.

Definition EnsureGroups : prog (option error) := ensure_groups priority_streams.

Fixpoint stream_messages (results : list (string * list Entry)) : prog (list Message) :=
  match results with
  | [] => Ret []
  | (stream, es) :: rest =>
      let! ms := messages_of stream es in
      let! ms' := stream_messages rest in
      Ret (ms ++ ms')
  end.

Definition ReadMessages (consumerName : string) (count : Z) : prog (result error (list Message)) :=
  let! r := do (Rd (XReadGroup ConsumerGroup consumerName priority_streams count)) in
  match r with
  | Ok None => Ret (Ok [])
  | Er e => Ret (Er (EWrap "XREADGROUP: " (EText e) ""))
  | Ok (Some results) => let! ms := stream_messages results in Ret (Ok ms)
  end.

Definition Ack (stream : string) (messageID : EntryID) : prog (option error) :=
  let! err := do (Rd (XAck stream ConsumerGroup messageID)) in
  Ret (EText <$> err).

Fixpoint claim_streams (consumerName : string) (minIdle : Z) (streams : list string)
    : prog (list Message) :=
  match streams with
  | [] => Ret []
  | stream :: streams' =>
      let! r := do (Rd (XAutoClaim stream ConsumerGroup consumerName minIdle 10)) in
      match r with
      | Er _ => claim_streams consumerName minIdle streams'
      | Ok result =>
          let! ms := messages_of stream result in
          let! ms' := claim_streams consumerName minIdle streams' in
          Ret (ms ++ ms')
      end
  end.

Definition ClaimStale (consumerName : string) (minIdle : Z) : prog (result error (list Message)) :=
  let! ms := claim_streams consumerName minIdle priority_streams in
  Ret (Ok ms).
