(* ===== verification/QueueSpec.v ===== *)
(** * What the queue promises

    A priority stream is a lane: waiting entries in order, and entries in
    flight until they are acknowledged. The delayed set maps members to the
    instants of their retries. The operations of Queue.v refine the operations
    on lanes and on the delayed set. *)

From stdpp Require Import gmap.
From S2P Require Import Prelude GoLib Domain Redis RedisFacts Effects Frames NotificationSpec.
From S2P Require Import Queue.

(** ** The abstract queue *)

Record AQueue := mkAQueue { q_lanes : string → Lane; q_delayed : ZSet }.

Definition aqueue (r : Redis) : AQueue := mkAQueue (λ k, lane ConsumerGroup k r) (zset DelayedSet r).

(** Only the lane of [k] changed, to [l]. *)
Definition lane_to (k : string) (l : Lane) (Q Q' : AQueue) : Prop :=
  q_lanes Q' k = l ∧ (∀ k', k' ≠ k → q_lanes Q' k' = q_lanes Q k') ∧ q_delayed Q' = q_delayed Q.

(** Only the delayed set changed, to [z]. *)
Definition delayed_to (z : ZSet) (Q Q' : AQueue) : Prop :=
  (∀ k, q_lanes Q' k = q_lanes Q k) ∧ q_delayed Q' = z.

(** An entry with the values is appended to the lane. *)
Definition appended (k : string) (values : list (string * string)) (Q Q' : AQueue) : Prop :=
  ∃ e, e_values e = values ∧
       lane_to k (mkLane (ln_waiting (q_lanes Q k) ++ [e]) (ln_inflight (q_lanes Q k))) Q Q'.

Definition acknowledged (k : string) (id : EntryID) (Q Q' : AQueue) : Prop :=
  lane_to k (mkLane (ln_waiting (q_lanes Q k)) (ln_inflight (q_lanes Q k) ∖ {[id]})) Q Q'.

(** The message of an entry, if it has the two fields. *)
Definition to_message (k : string) (e : Entry) : option Message :=
  id ← field "notification_id" (e_values e);
  ch ← field "channel" (e_values e);
  Some (mkMessage k (e_id e) id ch).

(** Each priority lane advances by [n] entries: they are in flight. *)
Definition read_lanes (n : nat) (Q Q' : AQueue) : Prop :=
  (∀ k, q_lanes Q' k = if decide (k ∈ priority_streams) then advance n (q_lanes Q k)
                       else q_lanes Q k) ∧
  q_delayed Q' = q_delayed Q.

(** Each priority lane gives its first [n] waiting entries, the lanes in the
    order high, normal, low. *)
Definition read_to (n : nat) (Q Q' : AQueue) (ms : list Message) : Prop :=
  mapM (λ p, to_message p.1 p.2)
    (k ← priority_streams; (λ e, (k, e)) <$> take n (ln_waiting (q_lanes Q k))) = Some ms ∧
  read_lanes n Q Q'.

(** The members whose instant has come, earliest first, at most [n]. *)
Definition due_members (now : Z) (n : nat) (z : ZSet) : list string :=
  (take n (filter (λ p, p.2 ≤ now) (z_sorted z))).*1.

(** The reply of a command sent for an error-only method. *)
Definition queued (tr : list Event) (err : option error) (r r' : Redis)
    (applied : AQueue → AQueue → Prop) : Prop :=
  redis_ok r' ∧
  ((applied (aqueue r) (aqueue r') ∧ err = None) ∨
   (¬ fault_free tr ∧ err ≠ None ∧ (r' = r ∨ applied (aqueue r) (aqueue r')))).

(** ** Facts *)

Lemma priority_streams_NoDup : NoDup priority_streams.
Proof. unfold priority_streams. repeat (constructor; [rewrite ?elem_of_cons, elem_of_nil|]);
  [..|constructor]; unfold StreamKey; cbn; intuition discriminate. Qed.

Lemma xadd_appended k id vs r :
  redis_ok r → (s_top (stream k r) < id)%N → appended k vs (aqueue r) (aqueue (xadd k id vs r)).
Proof.
  intros Hok Hid. exists (mkEntry id vs). split; [done|]. unfold lane_to. cbn.
  rewrite !lane_xadd, decide_True by done. split; [done|]. split; [|done].
  intros k' Hk. by rewrite lane_xadd, decide_False by done.
Qed.

Lemma xack_acknowledged k id r :
  acknowledged k id (aqueue r) (aqueue (xack k ConsumerGroup id r)).
Proof.
  unfold acknowledged, lane_to. cbn. rewrite lane_xack, decide_True by done. split; [done|].
  split; [|unfold xack; by destruct (_ !! _)].
  intros k' Hk. by rewrite lane_xack, decide_False by done.
Qed.

Lemma zset_set_eq k z r : zset k (set_zset k z r) = z.
Proof.
  unfold zset, set_zset. cbn. case_decide as H; [subst z; by rewrite lookup_delete_eq|].
  by rewrite lookup_insert_eq.
Qed.

Lemma zset_set_ne k k' z r : k ≠ k' → zset k' (set_zset k z r) = zset k' r.
Proof.
  intros. unfold zset, set_zset. cbn. case_decide; [by rewrite lookup_delete_ne|].
  by rewrite lookup_insert_ne.
Qed.

(** Leaving out the keys without entries leaves out nothing. *)
Lemma tagged_nonempty (f : string → list Entry) (ks : list string) :
  (p ← filter (λ p, p.2 ≠ []) ((λ k, (k, f k)) <$> ks); (λ e, (p.1, e)) <$> p.2)
  = (k ← ks; (λ e, (k, e)) <$> f k).
Proof.
  induction ks as [|k ks IH]; [done|]. rewrite fmap_cons, filter_cons.
  case_decide as H; cbn in H |- *; rewrite <- IH; [done|]. by rewrite H.
Qed.

(** The reply of one sending of a command whose only answer is an error or none. *)
Definition settled (x : option string) (r r' : Redis) (applied : AQueue → AQueue → Prop) : Prop :=
  redis_ok r' ∧
  ((applied (aqueue r) (aqueue r') ∧ x = None) ∨ (x ≠ None ∧ (r' = r ∨ applied (aqueue r) (aqueue r')))).

Lemma command_settled (ok : option string → Redis → Prop) w x w' applied :
  redis_cmd ok (λ x, x ≠ None) w x w' → redis_ok (w_redis w) →
  (∀ x r', ok x r' → x = None ∧ redis_ok r' ∧ applied (aqueue (w_redis w)) (aqueue r')) →
  settled x (w_redis w) (w_redis w') applied.
Proof.
  intros (r' & -> & [Hx|(Hx & Hr)]) Hok Happ; cbn.
  - apply Happ in Hx as (-> & ? & ?). split; [done|by left].
  - destruct Hr as [->|(y & (_ & ? & ?)%Happ)]; (split; [done|]); right; (split; [done|]); [by left|by right].
Qed.

Lemma XAdd_settled k vs w x w' :
  redis_ok (w_redis w) → redis_doc (XAdd k vs) w x w' →
  settled x (w_redis w) (w_redis w') (appended k vs).
Proof.
  intros Hok Hd. eapply command_settled; [exact Hd|done|]. intros y r' (-> & id & Hid & ->).
  split; [done|]. split; [by apply xadd_redis_ok|by apply xadd_appended].
Qed.

Lemma XAck_settled k id w x w' :
  redis_ok (w_redis w) → redis_doc (XAck k ConsumerGroup id) w x w' →
  settled x (w_redis w) (w_redis w') (acknowledged k id).
Proof.
  intros Hok Hd. eapply command_settled; [exact Hd|done|]. intros y r' (-> & ->).
  split; [done|]. split; [by apply xack_redis_ok|apply xack_acknowledged].
Qed.

Lemma ZAdd_settled sc m w x w' :
  redis_ok (w_redis w) → redis_doc (ZAdd DelayedSet sc m) w x w' →
  settled x (w_redis w) (w_redis w') (λ Q, delayed_to (<[m := sc]> (q_delayed Q)) Q).
Proof.
  intros Hok Hd. eapply command_settled; [exact Hd|done|]. intros y r' (-> & ->).
  split; [done|]. split; [done|]. split; [done|]. cbn. unfold zadd. by rewrite zset_set_eq.
Qed.

(** The priority streams are read: what is answered, and what is in flight then. *)
Lemma XReadGroup_reads c n w x w' :
  redis_ok (w_redis w) → redis_doc (XReadGroup ConsumerGroup c priority_streams n) w x w' →
  let Q := aqueue (w_redis w) in let Q' := aqueue (w_redis w') in
  redis_ok (w_redis w') ∧
  ((∃ l, x = Ok (match l with [] => None | _ => Some l end) ∧
      (p ← l; (λ e, (p.1, e)) <$> p.2)
      = (k ← priority_streams; (λ e, (k, e)) <$> take (Z.to_nat n) (ln_waiting (q_lanes Q k))) ∧
      read_lanes (Z.to_nat n) Q Q') ∨
   (is_ok x = false ∧ (Q' = Q ∨ read_lanes (Z.to_nat n) Q Q'))).
Proof.
  intros Hok (r' & -> & Hcase). cbn in *.
  assert (Hread : ∀ (y : result string (option (list (string * list Entry)))) r1,
      (Forall (λ k, is_Some (group ConsumerGroup k (w_redis w))) priority_streams ∧
      ∃ now, let '(l, r2) := xreadgroup ConsumerGroup c (Z.to_nat n) now priority_streams (w_redis w) in
      y = Ok (match l with [] => None | _ => Some l end) ∧ r1 = r2) →
    redis_ok r1 ∧ ∃ l, y = Ok (match l with [] => None | _ => Some l end) ∧
    (p ← l; (λ e, (p.1, e)) <$> p.2) = (k ← priority_streams; (λ e, (k, e)) <$>
          take (Z.to_nat n) (ln_waiting (lane ConsumerGroup k (w_redis w)))) ∧
    read_lanes (Z.to_nat n) (aqueue (w_redis w)) (aqueue r1)).
  { intros y r1 (Hg & now & Hx). destruct (xreadgroup _ _ _ _ _ _) as [l r2] eqn:E.
    destruct Hx as [-> ->].
    apply xreadgroup_spec in E as (? & Hz & Hl & Hlane); [|done|apply priority_streams_NoDup|done].
    split; [done|]. exists l. split; [done|].
    split; [|split; [exact Hlane|unfold aqueue, zset; cbn; by rewrite Hz]]. rewrite Hl.
    apply (tagged_nonempty (λ k, take (Z.to_nat n) (ln_waiting (lane ConsumerGroup k (w_redis w))))). }
  destruct Hcase as [Hx|(He & Hr)].
  - apply Hread in Hx as (? & l & ? & ? & ?). split; [done|]. left. by exists l.
  - split; [destruct Hr as [->|(y & Hy)]; [done|by apply Hread in Hy as [? _]]|].
    right. split; [done|]. destruct Hr as [->|(y & Hy)]; [by left|right].
    by apply Hread in Hy as (_ & l & _ & _ & ?).
Qed.

Lemma redis_cmd_frame {X} (ok : X → Redis → Prop) err w x w' :
  redis_cmd ok err w x w' → frame_redis w w'.
Proof. intros (r' & -> & _). unfold frame_redis. cbn. done. Qed.

Lemma redis_doc_frame X (e : RedisE X) w x w' : redis_doc e w x w' → frame_redis w w'.
Proof. intros ->%redis_doc_only. unfold frame_redis. cbn. done. Qed.

Section QueueSpec.
Context {T : UuidText} {S : Services} {HS : ServicesOk S} {HO : SentOnce S}.

Lemma exec_rd {X} (e : RedisE X) w tr x w' :
  exec (do (Rd e)) w tr x w' → tr = [Ev (Rd e) x] ∧ redis_doc e w x w'.
Proof. intros [-> H]%exec_do. by apply sent_once_doc in H. Qed.

Lemma command_queued (e : RedisE (option string)) (wrap : string → error)
    (k : option string → prog (option error)) w tr r w' (applied : AQueue → AQueue → Prop) :
  exec (let! err := do (Rd e) in k err) w tr r w' →
  (∀ x, k x = Ret (wrap <$> x)) →
  (∀ m, redis_fault e (Some m) = true) →
  (∀ x w1, redis_doc e w x w1 → settled x (w_redis w) (w_redis w1) applied) →
  frame_redis w w' ∧ queued tr r (w_redis w) (w_redis w') applied.
Proof.
  intros H Hk Hfault Hdoc.
  apply exec_bind in H as (x & w1 & tr1 & tr2 & -> & H1 & H).
  apply exec_rd in H1 as (-> & Hd). rewrite Hk in H. destruct H as (-> & -> & ->).
  split; [by eapply redis_doc_frame|]. apply Hdoc in Hd as [? [[? ->]|[Hx Hr]]]; [split; [done|by left]|].
  split; [done|]. right. destruct x as [m|]; [|done]. split; [|by split].
  eapply not_fault_free_in; [by left|]. cbn. apply Hfault.
Qed.

Lemma Enqueue_queued id ch p w tr r w' :
  redis_ok (w_redis w) → exec (Enqueue id ch p) w tr r w' →
  frame_redis w w' ∧
  queued tr r (w_redis w) (w_redis w') (appended (StreamKey p) (entry_values id ch)).
Proof.
  intros Hok H. eapply command_queued in H; [exact H|by intros []|done|]. intros. by apply XAdd_settled.
Qed.

Lemma Push_queued id ch le w tr r w' :
  redis_ok (w_redis w) → exec (Push id ch le) w tr r w' →
  frame_redis w w' ∧
  queued tr r (w_redis w) (w_redis w')
    (appended DLQStream [("notification_id", uuid_String id); ("channel", ch); ("error", le)]).
Proof.
  intros Hok H. eapply command_queued in H; [exact H|by intros []|done|]. intros. by apply XAdd_settled.
Qed.

Lemma Ack_queued k id w tr r w' :
  redis_ok (w_redis w) → exec (Ack k id) w tr r w' →
  frame_redis w w' ∧ queued tr r (w_redis w) (w_redis w') (acknowledged k id).
Proof.
  intros Hok H. eapply (command_queued _ EText) in H; [exact H|done|done|]. intros. by apply XAck_settled.
Qed.

Lemma EnqueueDelayed_queued id ch p at_ w tr r w' :
  redis_ok (w_redis w) → exec (EnqueueDelayed id ch p at_) w tr r w' →
  frame_redis w w' ∧
  queued tr r (w_redis w) (w_redis w')
    (λ Q, delayed_to (<[delayed_member id ch p := at_]> (q_delayed Q)) Q).
Proof.
  intros Hok H. eapply command_queued in H; [exact H|by intros []|done|]. intros. by apply ZAdd_settled.
Qed.

(** Members are removed, by however many removals. *)
Definition removing (ms : list string) (w w' : World) : Prop :=
  frame_redis w w' ∧ redis_ok (w_redis w') ∧
  (aqueue (w_redis w') = aqueue (w_redis w) ∨
   delayed_to (foldr delete (q_delayed (aqueue (w_redis w))) ms) (aqueue (w_redis w)) (aqueue (w_redis w'))).

Lemma removing_zrem ms w w1 x w2 :
  removing ms w w1 → redis_doc (ZRem DelayedSet ms) w1 x w2 →
  removing ms w w2 ∧
  (x = None → delayed_to (foldr delete (q_delayed (aqueue (w_redis w))) ms)
                (aqueue (w_redis w)) (aqueue (w_redis w2))).
Proof.
  intros (Hf & Hok & Hq) Hd. pose proof (redis_doc_frame _ _ _ _ _ Hd) as Hf2.
  assert (Hpop : ∀ r', r' = zrem DelayedSet ms (w_redis w1) →
    delayed_to (foldr delete (q_delayed (aqueue (w_redis w))) ms) (aqueue (w_redis w)) (aqueue r')).
  { intros r' ->. split.
    - intros k. destruct Hq as [Hq|[Hq _]]; [by rewrite <- Hq|by rewrite <- Hq].
    - cbn. unfold zrem. rewrite zset_set_eq. destruct Hq as [Hq|[_ Hq]].
      + apply (f_equal q_delayed) in Hq. cbn in Hq. by rewrite Hq.
      + cbn in Hq. rewrite Hq. apply map_eq. intros i. destruct (decide (i ∈ ms)).
        * by rewrite !lookup_foldr_delete.
        * by rewrite !lookup_foldr_delete_not_elem_of. }
  destruct Hd as (r' & -> & [(-> & Hr)|(Hx & Hr)]); cbn [w_redis set_redis].
  - split; [|by intros _; apply Hpop]. split; [by etrans|]. split; [by rewrite Hr|right; by apply Hpop].
  - split; [|done]. split; [by etrans|].
    destruct Hr as [->|(y & _ & Hr)]; [by split|]. split; [by rewrite Hr|right; by apply Hpop].
Qed.

(** Popping: what is due is answered, and removed unless a fault occurred. *)
Lemma PopDelayedDue_pops now n w tr r w' :
  redis_ok (w_redis w) → exec (PopDelayedDue now n) w tr r w' →
  frame_redis w w' ∧ redis_ok (w_redis w') ∧
  let Q := aqueue (w_redis w) in let Q' := aqueue (w_redis w') in
  let ms := due_members now (Z.to_nat n) (q_delayed Q) in
  let popped := delayed_to (foldr delete (q_delayed Q) ms) Q Q' in
  (r = Ok ms ∧ popped) ∨ (¬ fault_free tr ∧ Q' = Q ∧ (r = Ok ms ∨ ∃ e, r = Er e)).
Proof.
  intros Hok H. unfold PopDelayedDue in H.
  apply exec_bind in H as (x & w1 & tr1 & tr2 & -> & H1 & H).
  apply exec_do in H1 as [-> Hd]. pose proof (redis_only _ _ _ _ _ Hd) as Hf1.
  assert (Hsame : ∀ w2 y w3, redis_doc (ZRangeByScore DelayedSet now n) w2 y w3 → w_redis w3 = w_redis w2).
  { by intros w2 y w3 (r' & -> & [[_ ->]|(_ & [->|(? & _ & ->)])]). }
  apply redis_server_doc, (resent_keeps (λ w2, w_redis w2 = w_redis w)) in Hd as (w0 & E & Hd);
    [|done|intros w2 y w3 <- Hy; by eapply Hsame].
  assert (Hw : w_redis w1 = w_redis w) by by rewrite <- E; eapply Hsame.
  assert (Hx : x = Ok (due_members now (Z.to_nat n) (q_delayed (aqueue (w_redis w)))) ∨ ∃ e, x = Er e).
  { destruct Hd as (r' & _ & [(-> & _)|(He & _)]); [left; cbn; by rewrite E|right].
    destruct x; [done|by eexists]. }
  assert (Hf : frame_redis w w1) by (rewrite Hf1; unfold frame_redis; cbn; done).
  clear Hf1 Hd E Hsame. destruct Hx as [->|[e ->]].
  2: { destruct H as (-> & -> & ->). rewrite Hw. split; [done|]. split; [done|]. right.
       split; [eapply not_fault_free_in; [left|done]|]. split; [done|by right; eexists]. }
  cbn zeta. set (ms := due_members _ _ _) in *.
  assert (Hrun : (ms = [] ∧ exec (Ret (Ok ms)) w1 tr2 r w') ∨
    exec (run! do (Rd (ZRem DelayedSet ms)) in Ret (Ok ms)) w1 tr2 r w').
  { destruct ms; [by left|by right]. }
  clear H. destruct Hrun as [(-> & H)|H].
  { destruct H as (-> & -> & ->). rewrite Hw. split; [done|]. split; [done|]. left. by split. }
  clearbody ms.
  apply exec_bind in H as (y & w2 & tr3 & tr4 & -> & H1 & H).
  apply exec_do in H1 as [-> Hz]. destruct H as (-> & -> & ->).
  apply redis_server_doc, (resent_keeps (removing ms w1)) in Hz as (w3 & Hrem & Hz);
    [|by split; [|split; [by rewrite Hw|left]]|intros ?????; by eapply removing_zrem].
  apply (removing_zrem _ _ _ _ _ Hrem) in Hz as [(Hf3 & Hok3 & Hq) Hdone]. rewrite Hw in Hq, Hdone.
  split; [by etrans|]. split; [done|]. destruct Hq as [Hq|Hq]; [|by left].
  destruct y as [m|]; [|left; split; [done|by apply Hdone]]. right. split_and!; [|done|by left].
  eapply not_fault_free_in; [|apply (eq_refl : fault (Ev (Rd (ZRem DelayedSet ms)) (Some m)) = true)].
  rewrite ?elem_of_app, !elem_of_cons. tauto.
Qed.

(** ** Reading *)

Lemma message_of_spec k e w tr m w' :
  exec (message_of k e) w tr m w' → tr = [] ∧ w' = w ∧ to_message k e = Some m.
Proof.
  unfold message_of, to_message. intros H.
  destruct (field "notification_id" (e_values e)); [|by apply exec_panic in H].
  destruct (field "channel" (e_values e)); [|by apply exec_panic in H].
  by destruct H as (-> & -> & ->).
Qed.

Lemma messages_of_spec k es w tr ms w' :
  exec (messages_of k es) w tr ms w' →
  tr = [] ∧ w' = w ∧ mapM (λ p, to_message p.1 p.2) ((λ e, (k, e)) <$> es) = Some ms.
Proof.
  revert w tr ms w'. induction es as [|e es IH]; intros w tr ms w' H; cbn [messages_of] in H.
  - by destruct H as (-> & -> & ->).
  - exec_step H. apply message_of_spec in Hx as (-> & -> & Hm).
    exec_step H. apply IH in Hx as (-> & -> & Hms). destruct H as (-> & -> & ->).
    cbn. rewrite Hm. cbn. by rewrite Hms.
Qed.

Lemma stream_messages_spec l w tr ms w' :
  exec (stream_messages l) w tr ms w' →
  tr = [] ∧ w' = w ∧
  mapM (λ p, to_message p.1 p.2) (p ← l; (λ e, (p.1, e)) <$> p.2) = Some ms.
Proof.
  revert w tr ms w'. induction l as [|[k es] l IH]; intros w tr ms w' H; cbn [stream_messages] in H.
  - by destruct H as (-> & -> & ->).
  - exec_step H. apply messages_of_spec in Hx as (-> & -> & Hm).
    exec_step H. apply IH in Hx as (-> & -> & Hms). destruct H as (-> & -> & ->).
    split; [done|]. split; [done|]. cbn. rewrite mapM_app_option, Hm. cbn. by rewrite Hms.
Qed.

Lemma read_replies c n w x w1 tr r w' :
  redis_ok (w_redis w) → redis_doc (XReadGroup ConsumerGroup c priority_streams n) w x w1 →
  exec (match x with
        | Ok None => Ret (Ok [])
        | Er e => Ret (Er (EWrap "XREADGROUP: " (EText e) ""))
        | Ok (Some results) => let! ms := stream_messages results in Ret (Ok ms)
        end) w1 tr r w' →
  frame_redis w w' ∧ redis_ok (w_redis w') ∧
  ((∃ ms, r = Ok ms ∧ read_to (Z.to_nat n) (aqueue (w_redis w)) (aqueue (w_redis w')) ms) ∨
   (¬ fault_free ([Ev (Rd (XReadGroup ConsumerGroup c priority_streams n)) x] ++ tr) ∧ (∃ e, r = Er e) ∧
    (aqueue (w_redis w') = aqueue (w_redis w) ∨
     read_lanes (Z.to_nat n) (aqueue (w_redis w)) (aqueue (w_redis w'))))).
Proof.
  intros Hok Hd H. pose proof (redis_doc_frame _ _ _ _ _ Hd) as Hf.
  apply XReadGroup_reads in Hd as [Hok' Hcase]; [|done].
  destruct Hcase as [(l & -> & Hl & Hlanes)|(He & Hr)].
  - assert (Hms : ∃ ms, r = Ok ms ∧ w' = w1 ∧
      mapM (λ p, to_message p.1 p.2) (p ← l; (λ e, (p.1, e)) <$> p.2) = Some ms).
    { destruct l as [|p l]; [exists []; by destruct H as (-> & -> & ->)|].
      exec_step H. apply stream_messages_spec in Hx as (-> & -> & Hm).
      destruct H as (_ & -> & ->). by eexists. }
    destruct Hms as (ms & -> & -> & Hms). split; [done|]. split; [done|].
    left. exists ms. split; [done|]. split; [|done]. by rewrite <- Hms, Hl.
  - destruct x as [|e]; [done|]. destruct H as (-> & -> & ->). split; [done|]. split; [done|].
    right. split; [eapply not_fault_free_in; [left|done]|]. split; [by eexists|done].
Qed.

Lemma ReadMessages_reads c n w tr r w' :
  redis_ok (w_redis w) → exec (ReadMessages c n) w tr r w' →
  frame_redis w w' ∧ redis_ok (w_redis w') ∧
  ((∃ ms, r = Ok ms ∧ read_to (Z.to_nat n) (aqueue (w_redis w)) (aqueue (w_redis w')) ms) ∨
   (¬ fault_free tr ∧ (∃ e, r = Er e) ∧
    (aqueue (w_redis w') = aqueue (w_redis w) ∨
     read_lanes (Z.to_nat n) (aqueue (w_redis w)) (aqueue (w_redis w'))))).
Proof.
  intros Hok H. unfold ReadMessages in H.
  apply exec_bind in H as (x & w1 & tr1 & tr2 & -> & H1 & H).
  apply exec_rd in H1 as (-> & Hd). eapply read_replies; [done|exact Hd|exact H].
Qed.
End QueueSpec.
