(* ===== verification/Groups.v ===== *)
(** * Consumer groups, claims and dead letters

    Consumer groups are created once and for all; claiming stale messages moves
    them between consumers and changes nothing in the queue; reading the dead
    letters gives the oldest ones. All this however often a command is sent. *)

From stdpp Require Import gmap.
From S2P Require Import Prelude GoLib Domain Redis RedisFacts Effects Frames NotificationSpec.
From S2P Require Import Queue QueueSpec.

(** The queue as the workers see it. *)
Definition same_queue (r r' : Redis) : Prop :=
  (∀ k, lane ConsumerGroup k r' = lane ConsumerGroup k r) ∧ zset DelayedSet r' = zset DelayedSet r.

#[export] Instance same_queue_preorder : PreOrder same_queue.
Proof. split; [by split|]. intros r1 r2 r3 [H1 E1] [H2 E2]. split; [|congruence]. intros k. by rewrite H2. Qed.

Definition groups_kept (r r' : Redis) : Prop :=
  ∀ k, is_Some (group ConsumerGroup k r) → is_Some (group ConsumerGroup k r').

(** What a command that changes no lane keeps. *)
Definition harmless (w w' : World) : Prop :=
  frame_redis w w' ∧ redis_ok (w_redis w') ∧ same_queue (w_redis w) (w_redis w') ∧
  groups_kept (w_redis w) (w_redis w').

Lemma harmless_trans w1 w2 w3 : harmless w1 w2 → harmless w2 w3 → harmless w1 w3.
Proof.
  intros (? & _ & ? & G1) (? & ? & ? & G2). split; [by etrans|]. split; [done|].
  split; [by etrans|]. intros k Hk. by apply G2, G1.
Qed.

Lemma harmless_refl w : redis_ok (w_redis w) → harmless w w.
Proof. intros ?. split; [done|]. split; [done|]. split; [done|]. by intros k. Qed.

Lemma harmless_intro w r' :
  redis_ok r' → same_queue (w_redis w) r' → groups_kept (w_redis w) r' → harmless w (set_redis r' w).
Proof. intros. split; [|by split]. unfold frame_redis. cbn. done. Qed.

Lemma group_create k k' g r r' :
  xgroup_create k g r = Some r' → is_Some (group g k r') ∧
  (is_Some (group g k' r) → is_Some (group g k' r')).
Proof.
  unfold xgroup_create, group. destruct (_ !! g) eqn:E; [done|]. intros [= <-].
  rewrite stream_set_eq. cbn. rewrite lookup_insert_eq. split; [by eexists|].
  destruct (decide (k = k')) as [<-|]; [rewrite E; by intros []|by rewrite stream_set_ne].
Qed.

Lemma group_claim k g c idle n now r l r' k' :
  xautoclaim k g c idle n now r = (l, r') → is_Some (group g k' r) → is_Some (group g k' r').
Proof.
  unfold xautoclaim, group. destruct (s_groups (stream k r) !! g) eqn:E; intros [= <- <-]; [|done].
  destruct (decide (k = k')) as [<-|]; [|by rewrite stream_set_ne].
  rewrite stream_set_eq. cbn. rewrite lookup_insert_eq. by eexists.
Qed.

Section Groups.
Context {T : UuidText} {S : Services} {HS : ServicesOk S} {HO : SentOnce S}.

(** A command, each sending of which is harmless. *)
Lemma exec_harmless {X} (e : RedisE X) w tr x w' :
  redis_ok (w_redis w) →
  (∀ w1 y w2, redis_ok (w_redis w1) → redis_doc e w1 y w2 → harmless w1 w2) →
  exec (do (Rd e)) w tr x w' →
  tr = [Ev (Rd e) x] ∧ ∃ w1, harmless w w1 ∧ redis_doc e w1 x w'.
Proof.
  intros Hok He [-> H]%exec_do. split; [done|].
  apply redis_server_doc, (resent_keeps (harmless w)) in H; [done|by apply harmless_refl|].
  intros w1 y w2 Hh Hy. eapply harmless_trans; [exact Hh|]. by eapply He; [apply Hh|].
Qed.

Lemma create_group_doc k w x w' :
  redis_ok (w_redis w) → redis_doc (XGroupCreateMkStream k ConsumerGroup) w x w' →
  harmless w w' ∧
  ((x = None ∨ x = Some busygroup) ∧ is_Some (group ConsumerGroup k (w_redis w')) ∨
   ∃ m, x = Some m ∧ (m =? busygroup)%string = false).
Proof.
  intros Hok Hd. destruct Hd as (r' & -> & Hcase). cbn in *.
  assert (Hok1 : ∀ y r1, match xgroup_create k ConsumerGroup (w_redis w) with
      | Some r2 => y = None ∧ r1 = r2
      | None => y = Some busygroup ∧ r1 = w_redis w
      end → harmless w (set_redis r1 w) ∧ (y = None ∨ y = Some busygroup) ∧
            is_Some (group ConsumerGroup k r1)).
  { intros y r1 Hx.
    destruct (xgroup_create k ConsumerGroup (w_redis w)) as [r2|] eqn:E; destruct Hx as [-> ->].
    - destruct (group_create k k ConsumerGroup _ _ E) as [Hg _].
      split; [apply harmless_intro|split; [by left|done]].
      + by eapply xgroup_create_redis_ok.
      + split; [intros k'; by apply (lane_xgroup_create _ _ _ _ _ Hok E)|].
        revert E. unfold xgroup_create. destruct (_ !! ConsumerGroup); [done|]. by intros [= <-].
      + intros k' Hk'. by eapply group_create.
    - split; [apply harmless_intro; [done|done|by intros k']|split; [by right|]].
      revert E. unfold xgroup_create, group.
      destruct (_ !! ConsumerGroup); [by eexists|done]. }
  destruct Hcase as [Hx|([Hne Hnb] & Hr)].
  - apply Hok1 in Hx as (? & ? & ?). split; [done|by left].
  - split.
    + destruct Hr as [->|(y & Hy)]; [destruct w; by apply harmless_refl|by apply Hok1 in Hy as [? _]].
    + right. destruct x as [m|]; [|done].
      exists m. split; [done|]. apply String.eqb_neq. congruence.
Qed.

Lemma create_group_spec k w tr x w' :
  redis_ok (w_redis w) → exec (do (Rd (XGroupCreateMkStream k ConsumerGroup))) w tr x w' →
  harmless w w' ∧
  ((x = None ∨ x = Some busygroup) ∧ is_Some (group ConsumerGroup k (w_redis w')) ∨
   ¬ fault_free tr ∧ ∃ m, x = Some m ∧ (m =? busygroup)%string = false).
Proof.
  intros Hok H. apply exec_harmless in H as (-> & w1 & Hh & Hd);
    [|done|intros; by eapply create_group_doc].
  apply create_group_doc in Hd as [Hh2 Hcase]; [|apply Hh]. split; [by eapply harmless_trans|].
  destruct Hcase as [?|(m & -> & Hm)]; [by left|right]. split; [|by exists m].
  eapply not_fault_free_in; [left|]. cbn. by rewrite Hm.
Qed.

Lemma ensure_groups_spec l w tr r w' :
  redis_ok (w_redis w) → exec (ensure_groups l) w tr r w' →
  harmless w w' ∧
  (r = None ∧ Forall (λ k, is_Some (group ConsumerGroup k (w_redis w'))) l ∨
   ¬ fault_free tr ∧ r ≠ None).
Proof.
  revert w tr r w'. induction l as [|k l IH]; intros w tr r w' Hok H; cbn [ensure_groups] in H.
  { destruct H as (-> & -> & ->). split; [by apply harmless_refl|]. left. by split; [|constructor]. }
  apply exec_bind in H as (x & w1 & tr1 & tr2 & -> & Hx & H).
  apply create_group_spec in Hx as [Hh Hx]; [|done]. pose proof Hh as (_ & Hok1 & _).
  assert (Hrec : is_Some (group ConsumerGroup k (w_redis w1)) → exec (ensure_groups l) w1 tr2 r w' →
    harmless w w' ∧ (r = None ∧ Forall (λ k, is_Some (group ConsumerGroup k (w_redis w'))) (k :: l) ∨
      ¬ fault_free (tr1 ++ tr2) ∧ r ≠ None)).
  { intros Hg H1. apply IH in H1 as [Hh1 Hcase]; [|done]. pose proof Hh1 as (_ & _ & _ & Hk).
    split; [by eapply harmless_trans|]. rewrite fault_free_app.
    destruct Hcase as [[-> Hl]|[? ?]]; [left|right; tauto].
    split; [done|]. constructor; [by apply Hk|done]. }
  destruct Hx as [([->| ->] & Hg)|(Hnf & m & -> & Hm)].
  - by apply Hrec.
  - rewrite (String.eqb_refl busygroup) in H. by apply Hrec.
  - rewrite Hm in H. destruct H as (-> & -> & ->). split; [done|]. right. by rewrite app_nil_r.
Qed.

(** ** Claiming *)

Lemma claim_doc k c idle w x w' :
  redis_ok (w_redis w) → redis_doc (XAutoClaim k ConsumerGroup c idle 10) w x w' →
  harmless w w' ∧
  match x with
  | Ok es => ∀ e, e ∈ es → e_id e ∈ ln_inflight (lane ConsumerGroup k (w_redis w))
  | Er _ => True
  end.
Proof.
  intros Hok (r' & -> & Hcase). cbn in Hcase.
  assert (Hcl : ∀ (y : result string (list Entry)) r1,
    (is_Some (group ConsumerGroup k (w_redis w)) ∧
     ∃ now, let '(l, r2) := xautoclaim k ConsumerGroup c idle 10 now (w_redis w) in
            y = Ok l ∧ r1 = r2) →
    harmless w (set_redis r1 w) ∧ ∃ es, y = Ok es ∧
    ∀ e, e ∈ es → e_id e ∈ ln_inflight (lane ConsumerGroup k (w_redis w))).
  { intros y r1 (_ & now & Hx). destruct (xautoclaim _ _ _ _ _ _ _) as [es r2] eqn:E.
    destruct Hx as [-> ->]. pose proof E as (Hok1 & Hz & Hl & Hes)%xautoclaim_spec; [|done].
    split; [apply harmless_intro|].
    - done.
    - split; [done|]. unfold zset. by rewrite Hz.
    - intros k' Hk'. by eapply group_claim.
    - exists es. split; [done|]. intros e He. by apply Hes. }
  destruct Hcase as [Hx|(He & Hr)]; [by apply Hcl in Hx as (Hh & es & -> & Hes)|].
  split; [|by destruct x].
  destruct Hr as [->|(y & Hy)]; [destruct w; by apply harmless_refl|by apply Hcl in Hy as [? _]].
Qed.

(** A message made of an entry keeps its stream and id. *)
Lemma messages_of_ids k es ms :
  mapM (λ p, to_message p.1 p.2) ((λ e, (k, e)) <$> es) = Some ms →
  Forall (λ m, m_StreamID m = k ∧ ∃ e, e ∈ es ∧ m_MessageID m = e_id e) ms.
Proof.
  intros Hms%mapM_Some. apply Forall_forall. intros m Hm. apply list_elem_of_lookup_1 in Hm as [i Hi].
  destruct (Forall2_lookup_r _ _ _ _ _ Hms Hi) as ([k0 e] & Hke & Hm).
  apply list_lookup_fmap_Some in Hke as (e' & [= -> ->] & He').
  unfold to_message in Hm. cbn in Hm. apply bind_Some in Hm as (? & _ & Hm).
  apply bind_Some in Hm as (? & _ & [= <-]). cbn. split; [done|]. exists e'.
  split; [by eapply list_elem_of_lookup_2|done].
Qed.

Lemma claim_streams_spec c idle l w tr ms w' :
  redis_ok (w_redis w) → exec (claim_streams c idle l) w tr ms w' →
  harmless w w' ∧
  Forall (λ m, m_StreamID m ∈ l ∧
               m_MessageID m ∈ ln_inflight (lane ConsumerGroup (m_StreamID m) (w_redis w))) ms.
Proof.
  revert w tr ms w'. induction l as [|k l IH]; intros w tr ms w' Hok H; cbn [claim_streams] in H.
  { destruct H as (-> & -> & ->). split; [by apply harmless_refl|constructor]. }
  apply exec_bind in H as (x & w1 & tr1 & tr2 & -> & Hx & H).
  apply exec_harmless in Hx as (-> & w0 & Hh0 & Hd); [|done|intros; by eapply claim_doc].
  apply claim_doc in Hd as [Hh1 Hes]; [|apply Hh0]. pose proof (harmless_trans _ _ _ Hh0 Hh1) as Hh.
  pose proof Hh0 as (_ & _ & [Hl0 _] & _). pose proof Hh as (_ & Hok1 & [Hl _] & _).
  assert (Hnext : ∀ tr3 ms1 w3, exec (claim_streams c idle l) w1 tr3 ms1 w3 →
    harmless w w3 ∧ Forall (λ m, m_StreamID m ∈ k :: l ∧
      m_MessageID m ∈ ln_inflight (lane ConsumerGroup (m_StreamID m) (w_redis w))) ms1).
  { intros tr3 ms1 w3 H2. apply IH in H2 as [Hh2 Hms]; [|done]. split; [by eapply harmless_trans|].
    eapply Forall_impl; [exact Hms|]. intros m [? Hm]. rewrite Hl in Hm. split; [by right|done]. }
  destruct x as [es|e]; [|by apply Hnext in H].
  apply exec_bind in H as (ms1 & w2 & tr3 & tr4 & -> & Hx & H).
  apply messages_of_spec in Hx as (-> & -> & Hms%messages_of_ids).
  apply exec_bind in H as (ms2 & w2 & tr5 & tr6 & -> & Hx & H).
  destruct H as (-> & -> & ->). apply Hnext in Hx as [Hh2 Hms2].
  split; [done|]. apply Forall_app. split; [|done]. eapply Forall_impl; [exact Hms|].
  intros m (-> & e & He & ->). split; [by left|]. rewrite <- Hl0. by apply Hes.
Qed.

(** Claiming stale messages takes them only from those in flight, of the
    priority streams, and leaves the queue as it is: nothing is lost or
    acknowledged, whatever faults occur. (No part of the program calls it,
    so messages of a consumer that died stay in flight.) *)
Lemma ClaimStale_claims c idle w tr r w' :
  redis_ok (w_redis w) → exec (ClaimStale c idle) w tr r w' →
  frame_redis w w' ∧ redis_ok (w_redis w') ∧ same_queue (w_redis w) (w_redis w') ∧
  ∃ ms, r = Ok ms ∧
  Forall (λ m, m_StreamID m ∈ priority_streams ∧
               m_MessageID m ∈ ln_inflight (lane ConsumerGroup (m_StreamID m) (w_redis w))) ms.
Proof.
  intros Hok H. unfold ClaimStale in H.
  apply exec_bind in H as (ms & w1 & tr1 & tr2 & -> & Hx & H).
  apply claim_streams_spec in Hx as [(? & ? & ? & _) Hms]; [|done].
  destruct H as (-> & -> & ->). split_and!; try done. by exists ms.
Qed.

(** ** Dead letters *)

Lemma dlq_messages_spec i n es w tr ms w' :
  exec (dlq_messages i n es) w tr ms w' →
  w' = w ∧ mapM (to_message DLQStream) (take (Z.to_nat (n - i)) es) = Some ms.
Proof.
  revert i w tr ms w'. induction es as [|e es IH]; intros i w tr ms w' H; cbn [dlq_messages] in H.
  { destruct H as (_ & -> & ->). by rewrite take_nil. }
  destruct (Z.leb_spec n i).
  { destruct H as (_ & -> & ->). by replace (Z.to_nat (n - i)) with O by lia. }
  apply exec_bind in H as (m & w1 & tr1 & tr2 & -> & Hx & H).
  apply message_of_spec in Hx as (-> & -> & Hm).
  apply exec_bind in H as (ms1 & w1 & tr3 & tr4 & -> & Hx & H).
  apply IH in Hx as (-> & Hms). destruct H as (_ & -> & ->). split; [done|].
  replace (Z.to_nat (n - i)) with (Datatypes.S (Z.to_nat (n - (i + 1)))) by lia.
  cbn. rewrite Hm. cbn. by rewrite Hms.
Qed.

Lemma Read_reads n w tr r w' :
  exec (Read n) w tr r w' →
  frame_redis w w' ∧ w_redis w' = w_redis w ∧
  ((∃ ms, r = Ok ms ∧
      mapM (to_message DLQStream) (take (Z.to_nat n) (s_entries (stream DLQStream (w_redis w))))
      = Some ms) ∨
   (¬ fault_free tr ∧ ∃ e, r = Er e)).
Proof.
  intros H. unfold Read in H.
  apply exec_bind in H as (x & w1 & tr1 & tr2 & -> & Hx & H). apply exec_do in Hx as [-> Hd].
  assert (Hf : frame_redis w w1) by (rewrite (redis_only _ _ _ _ _ Hd); unfold frame_redis; cbn; done).
  assert (Hsame : ∀ w2 y w3, redis_doc (XRange DLQStream) w2 y w3 → w_redis w3 = w_redis w2).
  { by intros w2 y w3 (r' & -> & [[_ ->]|(_ & [->|(? & _ & ->)])]). }
  apply redis_server_doc, (resent_keeps (λ w2, w_redis w2 = w_redis w)) in Hd as (w0 & E & Hd);
    [|done|intros w2 y w3 <- Hy; by eapply Hsame].
  destruct Hd as (r' & -> & Hcase). cbn in Hcase. rewrite E in Hcase.
  destruct Hcase as [[-> ->]|(He & Hr)].
  - apply exec_bind in H as (ms & w2 & tr3 & tr4 & -> & Hx & H).
    apply dlq_messages_spec in Hx as (-> & Hms). destruct H as (_ & -> & ->). split; [done|]. split; [done|].
    left. exists ms. by rewrite Z.sub_0_r in Hms.
  - destruct x as [|e]; [done|]. destruct H as (-> & -> & ->). split; [done|]. split.
    + destruct Hr as [->|(y & _ & ->)]; done.
    + right. split; [|by eexists]. eapply not_fault_free_in; [left|done].
Qed.
End Groups.
