(* ===== verification/QueueSim.v ===== *)
(** * The queue refines lanes and a delayed set

    The calls of producer, consumer and dead-letter queue as operations on the
    abstract queue; one step of it is all a call can do, whatever Redis does,
    and as often as the client sends its command again. *)

From stdpp Require Import gmap.
From S2P Require Import Prelude GoLib Domain Redis RedisFacts Effects Frames NotificationSpec.
From S2P Require Import Queue QueueSpec Groups.




(** The same lanes and the same delayed set. *)
Definition unchanged (Q Q' : AQueue) : Prop :=
  (∀ k, q_lanes Q' k = q_lanes Q k) ∧ q_delayed Q' = q_delayed Q.

Section QueueSim.
Context {T : UuidText}.






Lemma unchanged_refl Q : unchanged Q Q.
Proof. done. Qed.


Section Sending.
Context {S : Services} {HS : ServicesOk S} {HO : SentOnce S} (n : nat) (Hn : resends S n).




End Sending.

Context {S : Services} {HS : ServicesOk S} {HO : SentOnce S}.



End QueueSim.
