(* ===== verification/RateLimit.v ===== *)
(** * The rate limiter (internal/ratelimit)

    The Lua script as a function on the Redis state, run atomically by the
    server, and [Allow], which calls it. *)

From stdpp Require Import gmap.
From S2P Require Import Prelude GoLib Domain Redis Effects.

Definition windowMs : Z := 1000.

(** The limiter: how many requests it lets through in a window. *)
Record Limiter := mkLimiter { lm_maxPerSec : Z }.

Definition NewLimiter (maxPerSec : Z) : Limiter := mkLimiter maxPerSec.

(** The member [now .. '-' .. math.random(1000000)]; a Lua number below
    [10^14] prints as an integer. *)
Definition limiter_member (now draw : Z) : string := pretty now +:+ "-" +:+ pretty draw.

(** [slidingWindowLua], run at the instant [at_] of the server's clock (in
    milliseconds), by which the key expires; [now] is the caller's instant. *)
Definition slidingWindowLua (key : string) (window max_requests now at_ draw : Z) (r : Redis)
    : Z * Redis :=
  let r := expire at_ key r in
  let r := zremrangebyscore key (now - window) r in
  let count := zcard key r in
  if count <? max_requests then
    let r := zadd key now (limiter_member now draw) r in
    let r := pexpire at_ key window r in
    (1, r)
  else (0, r).

Definition limiter_key (channel : string) : string := "ratelimit:" +:+ channel.

Definition Allow (maxPerSec : Z) (channel : string) : prog (result error bool) :=
  let key := limiter_key channel in
  let! t := do Now in
  let now := UnixMilli t in
  let! r := do (Rd (EvalScript (slidingWindowLua key windowMs maxPerSec now))) in
  match r with
  | Er e => Ret (Er (EWrap "rate limit check: " (EText e) ""))
  | Ok result => Ret (Ok (result =? 1))
  end.
