(* ===== verification/Delivery.v ===== *)
(** * Delivery providers (internal/delivery)

    The [Provider] interface and its three implementations. *)

From stdpp Require Import gmap.
From S2P Require Import Prelude GoLib Domain Effects.

Record Result := mkResult {
  d_StatusCode : Z;
  d_ResponseBody : string;
  d_Error : option error;
  d_DurationMs : Z;
}.

(** The interface [Provider]. *)
Record Provider := mkProvider {
  Send : Notification → prog Result;
  Provider_Channel : Channel;
}.

(** [time.Since(start).Milliseconds()]. *)
Definition since_ms (start : Z) : prog Z :=
  let! now := do Now in Ret (Z.quot (now - start) time_Millisecond).

(** [io.ReadAll(io.LimitReader(resp.Body, 4096))]. *)
Definition limited_body (body : string) : string := String.substring 0 4096 body.

Definition provider_error (statusCode : Z) : option error :=
  if 400 <=? statusCode then
    Some (EWrap "" (ESentinel ErrProviderFailure) (": status " +:+ fmt_d statusCode))
  else None.

Section Providers.
Context (baseURL path : string).

Definition sms_payload (n : Notification) : list (string * string) :=
  [("to", n_Recipient n); ("body", n_Body n); ("channel", n_Channel n)].

Definition SMS_Send (n : Notification) : prog Result :=
  let! start := do Now in
  let! r := do (HttpPost (baseURL +:+ path) (sms_payload n)) in
  match r with
  | HttpBadRequest e =>
      let! ms := since_ms start in
      Ret (mkResult 0 "" (Some (EWrap "creating request: " (EText e) "")) ms)
  | HttpFailed e =>
      let! ms := since_ms start in
      Ret (mkResult 0 "" (Some (EWrap "sending SMS: " (EText e) "")) ms)
  | HttpResp code body =>
      let! ms := since_ms start in
      Ret (mkResult code (limited_body body) (provider_error code) ms)
  end.

Definition email_payload (n : Notification) : list (string * string) :=
  [("to", n_Recipient n); ("subject", n_Subject n); ("body", n_Body n);
   ("channel", n_Channel n)].

Definition Email_Send (n : Notification) : prog Result :=
  let! start := do Now in
  let! r := do (HttpPost (baseURL +:+ path) (email_payload n)) in
  match r with
  | HttpBadRequest e =>
      let! ms := since_ms start in
      Ret (mkResult 0 "" (Some (EWrap "creating request: " (EText e) "")) ms)
  | HttpFailed e =>
      let! ms := since_ms start in
      Ret (mkResult 0 "" (Some (EWrap "sending email: " (EText e) "")) ms)
  | HttpResp code body =>
      let! ms := since_ms start in
      Ret (mkResult code (limited_body body) (provider_error code) ms)
  end.

Definition push_payload (n : Notification) : list (string * string) :=
  [("device_token", n_Recipient n); ("title", n_Subject n); ("body", n_Body n);
   ("channel", n_Channel n)].

Definition Push_Send (n : Notification) : prog Result :=
  let! start := do Now in
  let! r := do (HttpPost (baseURL +:+ path) (push_payload n)) in
  match r with
  | HttpBadRequest e =>
      let! ms := since_ms start in
      Ret (mkResult 0 "" (Some (EWrap "creating request: " (EText e) "")) ms)
  | HttpFailed e =>
      let! ms := since_ms start in
      Ret (mkResult 0 "" (Some (EWrap "sending push: " (EText e) "")) ms)
  | HttpResp code body =>
      let! ms := since_ms start in
      Ret (mkResult code (limited_body body) (provider_error code) ms)
  end.

Definition SMSProvider : Provider := mkProvider SMS_Send ChannelSMS.
Definition EmailProvider : Provider := mkProvider Email_Send ChannelEmail.
Definition PushProvider : Provider := mkProvider Push_Send ChannelPush.
End Providers.
