(* ===== verification/DeliverySpec.v ===== *)
(** * What a provider promises

    The class [ProviderOk] is the contract between the dispatcher and the
    providers; the three providers are its instances. *)

From stdpp Require Import gmap.
From S2P Require Import Prelude GoLib Domain Effects Delivery.

#[export] Instance quiet_preorder : PreOrder quiet.
Proof.
  split.
  - intros w. exists (w_clock w). split; [lia|by destruct w].
  - intros w1 w2 w3 (t & ? & ->) (t' & ? & ->). cbn in *. exists t'. split; [lia|done].
Qed.

(** The report on one answer of the webhook. *)
Definition reports (answer : HttpRes) (r : Result) : Prop :=
  match answer with
  | HttpBadRequest e | HttpFailed e =>
      d_StatusCode r = 0 ∧ d_ResponseBody r = "" ∧
      ∃ pre, d_Error r = Some (EWrap pre (EText e) "")
  | HttpResp code body =>
      d_StatusCode r = code ∧ d_ResponseBody r = limited_body body ∧
      d_Error r = provider_error code
  end.

(** One POST of the notification's payload, an honest report on its answer, a
    duration that is not negative, and no other effect. *)
Class ProviderOk {S : Services} (p : Provider) (channel : Channel) (url : string)
    (payload : Notification → list (string * string)) := {
  provider_channel : Provider_Channel p = channel;
  provider_sends n w tr r w' :
    exec (Send p n) w tr r w' →
    quiet w w' ∧ 0 ≤ d_DurationMs r ∧
    ∃ t1 t2 answer, tr = [Ev Now t1; Ev (HttpPost url (payload n)) answer; Ev Now t2] ∧
                    reports answer r;
}.

(** What a set of providers sends: the URL of each channel and the payload of
    each notification. *)
Class Webhook := {
  wh_url : Channel → string;
  wh_payload : Notification → list (string * string);
}.

Lemma provider_error_spec code :
  match provider_error code with
  | None => code < 400
  | Some e => 400 ≤ code ∧ root_sentinel e = Some ErrProviderFailure
  end.
Proof. unfold provider_error. destruct (Z.leb_spec 400 code); [done|lia]. Qed.

(** Success is reported exactly when the webhook answered below 400. *)
Lemma reports_success answer r :
  reports answer r → d_Error r = None ↔ ∃ code body, answer = HttpResp code body ∧ code < 400.
Proof.
  destruct answer as [e|e|code body]; cbn.
  - intros (_ & _ & pre & ->). split; [done|by intros (? & ? & ? & _)].
  - intros (_ & _ & pre & ->). split; [done|by intros (? & ? & ? & _)].
  - intros (_ & _ & ->). pose proof (provider_error_spec code) as H.
    destruct (provider_error code); split.
    + done.
    + intros (? & ? & [= <- <-] & ?). lia.
    + intros _. by exists code, body.
    + done.
Qed.

Lemma limited_body_length body : (String.length (limited_body body) ≤ 4096)%nat.
Proof.
  unfold limited_body. generalize 4096%nat as m. induction body as [|c s IH]; intros [|m]; cbn; [lia..|].
  specialize (IH m). lia.
Qed.

Section Providers.
Context {S : Services} {HS : ServicesOk S} {HO : SentOnce S}.

Lemma now_quiet w tr x w' :
  exec (do Now) w tr x w' → tr = [Ev Now x] ∧ w_clock w ≤ x ∧ w_clock w' = x ∧ quiet w w'.
Proof.
  intros [-> H]%exec_do. apply clock_doc in H as [? ->]. split_and!; try done. by exists x.
Qed.

Lemma since_ms_spec start w tr ms w' :
  exec (since_ms start) w tr ms w' → start ≤ w_clock w →
  quiet w w' ∧ 0 ≤ ms ∧ ∃ t, tr = [Ev Now t].
Proof.
  intros H Hs. unfold since_ms in H. exec_step H. apply now_quiet in Hx as (-> & Hc & _ & Hq).
  destruct H as (-> & -> & ->). split; [done|]. split; [|by eexists].
  apply Z.quot_pos; [lia|]. unfold time_Millisecond. lia.
Qed.

(** The shape the three providers share. *)
Definition post (url : string) (payload : list (string * string)) (pre : string)
    : prog Result :=
  let! start := do Now in
  let! r := do (HttpPost url payload) in
  match r with
  | HttpBadRequest e =>
      let! ms := since_ms start in
      Ret (mkResult 0 "" (Some (EWrap "creating request: " (EText e) "")) ms)
  | HttpFailed e =>
      let! ms := since_ms start in
      Ret (mkResult 0 "" (Some (EWrap pre (EText e) "")) ms)
  | HttpResp code body =>
      let! ms := since_ms start in
      Ret (mkResult code (limited_body body) (provider_error code) ms)
  end.

Lemma post_spec url payload pre w tr r w' :
  exec (post url payload pre) w tr r w' →
  quiet w w' ∧ 0 ≤ d_DurationMs r ∧
  ∃ t1 t2 answer, tr = [Ev Now t1; Ev (HttpPost url payload) answer; Ev Now t2] ∧
                  reports answer r.
Proof.
  intros H. unfold post in H. exec_step H. apply now_quiet in Hx as (-> & _ & Hc & Hq1).
  exec_step H. apply exec_do in Hx as [-> Hh]. apply http_doc in Hh as Hq2.
  assert (Hle : w_clock w0 ≤ w_clock w1) by (destruct Hq2 as (t & ? & ->); cbn; lia).
  destruct x0; exec_step H; (eapply since_ms_spec in Hx as (Hq3 & Hms & t & ->); [|done]);
    destruct H as (-> & -> & ->); cbn;
    (split; [by etrans; [|etrans]|]); (split; [done|]); do 3 eexists; (split; [done|]); cbn; eauto.
Qed.

#[export] Instance SMSProvider_ok baseURL path :
  ProviderOk (SMSProvider baseURL path) ChannelSMS (baseURL +:+ path) sms_payload.
Proof. split; [done|]. intros n. apply (post_spec _ (sms_payload n) "sending SMS: "). Qed.

#[export] Instance EmailProvider_ok baseURL path :
  ProviderOk (EmailProvider baseURL path) ChannelEmail (baseURL +:+ path) email_payload.
Proof. split; [done|]. intros n. apply (post_spec _ (email_payload n) "sending email: "). Qed.

#[export] Instance PushProvider_ok baseURL path :
  ProviderOk (PushProvider baseURL path) ChannelPush (baseURL +:+ path) push_payload.
Proof. split; [done|]. intros n. apply (post_spec _ (push_payload n) "sending push: "). Qed.
End Providers.
