(* ===== verification/Hub.v ===== *)
(** * The WebSocket hub (internal/api/websocket)

    The subscribers are a map from notification ids to maps of connections; the
    inner maps are shared by reference, and so the state keeps them in a store
    of their own. A critical section under the lock is one [Mem] effect. *)

From stdpp Require Import gmap.
From S2P Require Import Prelude GoLib Domain Effects.

Definition empty_hub : Hub := mkHub ∅ ∅ 0.

(** The connections behind a reference; a nil map has none. *)
Definition deref (h : Hub) (ref : option N) : gset ConnID :=
  match ref with Some i => default ∅ (h_sets h !! i) | None => ∅ end.

(** The critical section of [subscribe]. *)
Definition subscribe_cs (id : UUID) (conn : ConnID) (h : Hub) : unit * Hub :=
  match h_subscribers h !! id with
  | None =>
      (tt, mkHub (<[id := h_next h]> (h_subscribers h)) (<[h_next h := {[conn]}]> (h_sets h))
             (h_next h + 1))
  | Some i =>
      (tt, mkHub (h_subscribers h) (<[i := {[conn]} ∪ default ∅ (h_sets h !! i)]> (h_sets h))
             (h_next h))
  end.

(** The critical section of [unsubscribe], up to the closing of the
    connection. *)
Definition unsubscribe_cs (id : UUID) (conn : ConnID) (h : Hub) : unit * Hub :=
  match h_subscribers h !! id with
  | None => (tt, h)
  | Some i =>
      let conns := default ∅ (h_sets h !! i) ∖ {[conn]} in
      let sets := <[i := conns]> (h_sets h) in
      if decide (conns = ∅) then (tt, mkHub (delete id (h_subscribers h)) sets (h_next h))
      else (tt, mkHub (h_subscribers h) sets (h_next h))
  end.

Definition subscribe (id : UUID) (conn : ConnID) : prog unit := do (Mem (subscribe_cs id conn)).

Definition unsubscribe (id : UUID) (conn : ConnID) : prog unit :=
  run! do (Mem (unsubscribe_cs id conn)) in
  do (WsClose conn).

(** The quote character. *)
Definition dq : string := bytes [34%N].

Section Hub.
Context {T : UuidText}.

Definition broadcast_msg (notificationID : UUID) (status : string) : string :=
  "{" +:+ dq +:+ "notification_id" +:+ dq +:+ ":" +:+ dq +:+ uuid_String notificationID +:+ dq
    +:+ "," +:+ dq +:+ "status" +:+ dq +:+ ":" +:+ dq +:+ status +:+ dq +:+ "}".

(** [conns] is a reference: its length is read after the first lock is
    released, its connections under the second one. *)
Definition Broadcast (notificationID : UUID) (status : string) : prog unit :=
  let! conns := do (Mem (λ h, (h_subscribers h !! notificationID, h))) in
  let! n := do (Mem (λ h, (size (deref h conns), h))) in
  if (n =? 0)%nat then Ret tt
  else
    let msg := broadcast_msg notificationID status in
    let! l := do (Mem (λ h, (elements (deref h conns), h))) in
    for_range l (λ conn, run! do (WsWrite conn msg) in Ret tt).

(** How a WebSocket request ends. *)
Inductive WsEnd :=
  | WsInvalidID              (* answered 400, "invalid notification ID" *)
  | WsNotAccepted
  | WsClosed
  | WsMoreReads.             (* the bound on the reads was reached *)

(** [for { _, _, err := conn.Read(ctx); if err != nil { break } }]. *)
Fixpoint read_loop (fuel : nat) (conn : ConnID) : prog bool :=
  match fuel with
  | O => Ret false
  | S fuel =>
      let! err := do (WsRead conn) in
      match err with Some _ => Ret true | None => read_loop fuel conn end
  end.

Definition HandleWebSocket (fuel : nat) (rw : ResponseWriter) (idStr : string) : prog WsEnd :=
  match uuid_Parse idStr with
  | None => Ret WsInvalidID
  | Some id =>
      let! c := do (WsAccept rw) in
      match c with
      | Er _ => Ret WsNotAccepted
      | Ok conn =>
          run! subscribe id conn in
          let! closed := read_loop fuel conn in
          if closed then run! unsubscribe id conn in Ret WsClosed
          else Ret WsMoreReads
      end
  end.
End Hub.
