(* ===== verification/HubSpec.v ===== *)
(** * The hub's invariant and what a broadcast sends *)

From stdpp Require Import gmap.
From S2P Require Import Prelude GoLib Domain Effects Delivery DeliverySpec Hub.

(** ** The invariant of the subscribers *)

(** Every notification in the map has a set of its own, which is not empty. *)
Record hub_ok (h : Hub) : Prop := {
  hk_sets : map_Forall (λ _ i, ∃ s, h_sets h !! i = Some s ∧ s ≠ ∅) (h_subscribers h);
  hk_inj : ∀ id id' i, h_subscribers h !! id = Some i → h_subscribers h !! id' = Some i → id = id';
  hk_next : ∀ i, is_Some (h_sets h !! i) → (i < h_next h)%N;
}.

(** Who watches a notification. *)
Definition watchers (h : Hub) (id : UUID) : gset ConnID := deref h (h_subscribers h !! id).

Lemma empty_hub_ok : hub_ok empty_hub.
Proof. split; cbn; [apply map_Forall_empty|done|by intros i []]. Qed.

Lemma subscribe_ok id c h : hub_ok h → hub_ok (subscribe_cs id c h).2.
Proof.
  intros [H1 H2 H3]. unfold subscribe_cs. destruct (h_subscribers h !! id) as [i|] eqn:E; split; cbn.
  - intros id' j Hj. destruct (decide (i = j)) as [->|Hne].
    + eexists. rewrite lookup_insert_eq. split; [done|set_solver].
    + rewrite lookup_insert_ne by done. by apply (H1 id').
  - done.
  - intros j. rewrite lookup_insert. case_decide; subst; [intros _|apply H3].
    apply H3. destruct (H1 _ _ E) as (s & -> & _). by eexists.
  - intros id' j. rewrite lookup_insert. case_decide; subst.
    + intros [= <-]. eexists. rewrite lookup_insert_eq. split; [done|set_solver].
    + intros Hj. destruct (H1 _ _ Hj) as (s & Hs & ?). exists s. split; [|done].
      rewrite lookup_insert_ne; [done|]. intros <-. specialize (H3 (h_next h)). rewrite Hs in H3.
      specialize (H3 ltac:(by eexists)). lia.
  - assert (Hfr : ∀ id', h_subscribers h !! id' ≠ Some (h_next h)).
    { intros id' Hj. destruct (H1 _ _ Hj) as (s & Hs & _). specialize (H3 (h_next h)).
      rewrite Hs in H3. specialize (H3 ltac:(by eexists)). lia. }
    intros a b j. rewrite !lookup_insert. repeat case_decide; subst; intros Ha Hb; simplify_eq; try done.
    + by apply Hfr in Hb.
    + by apply Hfr in Ha.
    + by eapply H2.
  - intros j. rewrite lookup_insert. case_decide; [lia|]. intros Hj%H3. lia.
Qed.

Lemma unsubscribe_ok id c h : hub_ok h → hub_ok (unsubscribe_cs id c h).2.
Proof.
  intros [H1 H2 H3]. unfold unsubscribe_cs.
  destruct (h_subscribers h !! id) as [i|] eqn:E; [|done].
  set (conns := _ ∖ _). case_decide as Hc; split; cbn.
  - intros id' j Hj. apply lookup_delete_Some in Hj as [Hne Hj].
    destruct (H1 _ _ Hj) as (s & ? & ?). exists s. split; [|done].
    rewrite lookup_insert_ne; [done|]. intros <-. by apply Hne, (H2 _ _ i).
  - intros a b j [_ ?]%lookup_delete_Some [_ ?]%lookup_delete_Some. by eapply H2.
  - intros j. rewrite lookup_insert. case_decide; subst; [intros _|apply H3].
    apply H3. destruct (H1 _ _ E) as (s & -> & _). by eexists.
  - intros id' j Hj. destruct (decide (i = j)) as [->|Hne].
    + exists conns. by rewrite lookup_insert_eq.
    + rewrite lookup_insert_ne by done. by apply (H1 id').
  - done.
  - intros j. rewrite lookup_insert. case_decide; subst; [intros _|apply H3].
    apply H3. destruct (H1 _ _ E) as (s & -> & _). by eexists.
Qed.

Lemma watchers_subscribe id c h id' :
  hub_ok h →
  watchers (subscribe_cs id c h).2 id' =
  if decide (id = id') then {[c]} ∪ watchers h id' else watchers h id'.
Proof.
  intros [H1 H2 H3]. unfold watchers, subscribe_cs.
  destruct (h_subscribers h !! id) as [i|] eqn:E; cbn; case_decide as Hd.
  - subst id'. rewrite E. cbn. by rewrite lookup_insert_eq.
  - destruct (h_subscribers h !! id') as [j|] eqn:Ej; [|done]. cbn.
    rewrite lookup_insert_ne; [done|]. intros <-. by apply Hd, (H2 _ _ i).
  - subst id'. rewrite lookup_insert_eq, E. cbn. rewrite lookup_insert_eq. cbn. set_solver.
  - rewrite lookup_insert_ne by done. destruct (h_subscribers h !! id') as [j|] eqn:Ej; [|done].
    cbn. rewrite lookup_insert_ne; [done|]. intros <-. destruct (H1 _ _ Ej) as (s & Hs & _).
    specialize (H3 (h_next h)). rewrite Hs in H3. specialize (H3 ltac:(by eexists)). lia.
Qed.

Lemma watchers_unsubscribe id c h id' :
  hub_ok h →
  watchers (unsubscribe_cs id c h).2 id' =
  if decide (id = id') then watchers h id' ∖ {[c]} else watchers h id'.
Proof.
  intros [H1 H2 H3]. unfold watchers, unsubscribe_cs.
  destruct (h_subscribers h !! id) as [i|] eqn:E; destruct (decide (id = id')) as [Hd|Hd].
  - subst id'. set (conns := _ ∖ _). case_decide as Hc; cbn.
    + rewrite lookup_delete_eq, E. cbn. by fold conns.
    + rewrite E. cbn. by rewrite lookup_insert_eq.
  - set (conns := _ ∖ _). case_decide as Hc; cbn.
    + rewrite lookup_delete_ne by done.
      destruct (h_subscribers h !! id') as [j|] eqn:Ej; [|done]. cbn.
      rewrite lookup_insert_ne; [done|]. intros <-. by apply Hd, (H2 _ _ i).
    + destruct (h_subscribers h !! id') as [j|] eqn:Ej; [|done]. cbn.
      rewrite lookup_insert_ne; [done|]. intros <-. by apply Hd, (H2 _ _ i).
  - subst id'. cbn. rewrite E. cbn. set_solver.
  - done.
Qed.

Section HubSpec.
Context {T : UuidText} {S : Services} {HS : ServicesOk S}.

Lemma exec_mem {X} (f : Hub → X * Hub) w tr x w' :
  exec (do (Mem f)) w tr x w' →
  tr = [Ev (Mem f) x] ∧ f (w_hub w) = (x, w_hub w') ∧ w' = set_hub (w_hub w') w.
Proof. intros [-> H]%exec_do. by apply memory_doc in H as [? ?]. Qed.

(** Reading under the lock. *)
Lemma exec_mem_read {X} (f : Hub → X) w tr x w' :
  exec (do (Mem (λ h, (f h, h)))) w tr x w' →
  tr = [Ev (Mem (λ h, (f h, h))) x] ∧ x = f (w_hub w) ∧ w' = w.
Proof.
  intros (-> & E & ->)%exec_mem. injection E as <- E. split_and!; try done.
  rewrite <- E. by destruct w.
Qed.

(** The messages a run wrote, with their connections. *)
Definition writes (tr : list Event) : list (ConnID * string) :=
  omap (λ ev, match ev with Ev e x => match e with WsWrite c m => Some (c, m) | _ => None end end) tr.

Lemma writes_app tr1 tr2 : writes (tr1 ++ tr2) = writes tr1 ++ writes tr2.
Proof. apply omap_app. Qed.

Lemma write_all msg (l : list ConnID) w tr u w' :
  exec (for_range l (λ conn, run! do (WsWrite conn msg) in Ret tt)) w tr u w' →
  quiet w w' ∧ fault_free tr ∧ writes tr = (λ c, (c, msg)) <$> l.
Proof.
  revert w tr u. induction l as [|c l IH]; intros w tr u H; cbn [for_range] in H.
  - apply exec_ret in H as (-> & _ & ->). split_and!; [done|constructor|done].
  - exec_step H. exec_step Hx. apply exec_do in Hx0 as [-> Hw]. apply ws_write_doc in Hw.
    destruct Hx as (-> & _ & ->). apply IH in H as (Hq & Hff & Hwr).
    split; [by etrans|]. split; [by constructor|]. by rewrite writes_app, Hwr.
Qed.

(** A broadcast writes its message once to every watcher and to nobody else. *)
Lemma Broadcast_writes id status w tr u w' :
  exec (Broadcast id status) w tr u w' →
  quiet w w' ∧ fault_free tr ∧
  writes tr = (λ c, (c, broadcast_msg id status)) <$> elements (watchers (w_hub w) id).
Proof.
  intros H. unfold Broadcast in H. exec_step H.
  apply (exec_mem_read (λ h, h_subscribers h !! id)) in Hx as (-> & -> & ->).
  exec_step H. apply (exec_mem_read (λ h, size (deref h _))) in Hx as (-> & -> & ->).
  fold (watchers (w_hub w) id) in H. destruct (Nat.eqb_spec (size (watchers (w_hub w) id)) 0) as [E|E].
  - destruct H as (-> & _ & ->). split_and!; [done|by repeat constructor|].
    apply size_empty_inv in E. apply leibniz_equiv in E. by rewrite E.
  - exec_step H. apply (exec_mem_read (λ h, elements (deref h _))) in Hx as (-> & -> & ->).
    apply write_all in H as (Hq & Hff & Hwr). split_and!; [done|by repeat constructor|exact Hwr].
Qed.
Lemma exec_subscribe id c w tr u w' :
  hub_ok (w_hub w) → exec (subscribe id c) w tr u w' →
  hub_ok (w_hub w') ∧ writes tr = [] ∧
  ∀ i, watchers (w_hub w') i =
       if decide (id = i) then {[c]} ∪ watchers (w_hub w) i else watchers (w_hub w) i.
Proof.
  intros Hok (-> & E & ->)%exec_mem. cbn.
  assert (Eh : w_hub w' = (subscribe_cs id c (w_hub w)).2) by by rewrite E.
  rewrite Eh. split; [by apply subscribe_ok|]. split; [done|]. intros i. by apply watchers_subscribe.
Qed.

Lemma exec_unsubscribe id c w tr u w' :
  hub_ok (w_hub w) → exec (unsubscribe id c) w tr u w' →
  hub_ok (w_hub w') ∧ writes tr = [] ∧
  ∀ i, watchers (w_hub w') i =
       if decide (id = i) then watchers (w_hub w) i ∖ {[c]} else watchers (w_hub w) i.
Proof.
  intros Hok H. unfold unsubscribe in H. exec_step H. apply exec_mem in Hx as (-> & E & Ew).
  apply exec_do in H as [-> H]. apply ws_close_doc in H as ->.
  assert (Eh : w_hub w0 = (unsubscribe_cs id c (w_hub w)).2) by by rewrite E.
  rewrite Eh. split; [by apply unsubscribe_ok|]. split; [done|].
  intros i. by apply watchers_unsubscribe.
Qed.

(** (C31) A client that watches a notification gets each of its status updates once,
    and no update of another one; so does every other client at the same time.
    When it leaves, the watchers of every notification are as before it came,
    and the map holds no empty set. *)
Theorem watcher_gets_updates id c id' status w tr u w' :
  hub_ok (w_hub w) → c ∉ watchers (w_hub w) id →
  exec (run! subscribe id c in run! Broadcast id' status in unsubscribe id c) w tr u w' →
  let audience := if decide (id = id') then {[c]} ∪ watchers (w_hub w) id'
                  else watchers (w_hub w) id' in
  writes tr = (λ c, (c, broadcast_msg id' status)) <$> elements audience ∧
  hub_ok (w_hub w') ∧ ∀ i, watchers (w_hub w') i = watchers (w_hub w) i.
Proof.
  intros Hok Hc H.
  apply exec_bind in H as (u1 & w1 & tr1 & tr2 & -> & H1 & H).
  apply exec_subscribe in H1 as (Hok1 & E1 & W1); [|done].
  apply exec_bind in H as (u2 & w2 & tr3 & tr4 & -> & H2 & H).
  apply Broadcast_writes in H2 as ((t & _ & ->) & _ & E2).
  apply exec_unsubscribe in H as (Hok3 & E3 & W3); [|done].
  rewrite !writes_app, E1, E2, E3, app_nil_r, W1. cbn [app w_hub set_clock] in *.
  split; [done|]. split; [done|]. intros i. rewrite W3, W1. case_decide; [subst i; set_solver|done].
Qed.
End HubSpec.
