(* ===== verification/Worker.v ===== *)
(** * The workers (internal/worker)

    The dispatcher, the processor of delayed retries and the scheduler. Loops
    that end only with the context take a bound on their iterations. *)

From stdpp Require Import gmap.
From Stdlib Require Import Ascii.
From S2P Require Import Prelude GoLib Domain Effects Queue RateLimit Delivery Retry Hub.
From S2P Require Import NotificationRepo.

(** The parts of a dispatcher the code configures. *)
Record Dispatcher := mkDispatcher {
  dp_consumer : string;                  (* the consumer's name *)
  dp_providers : gmap string Provider;
  dp_maxPerSec : Z;
}.

Definition NewDispatcher (consumer : Consumer) (providers : gmap string Provider) (limiter : Limiter)
    : Dispatcher :=
  mkDispatcher (cn_consumerName consumer) providers (lm_maxPerSec limiter).

(** The scheduler: how often it polls, and for how many notifications. *)
Record Scheduler := mkScheduler { sd_interval : Z; sd_batchSize : Z }.

Definition NewScheduler (interval batchSize : Z) : Scheduler := mkScheduler interval batchSize.

(** The pool: its number of workers. *)
Record Pool := mkPool { pl_size : Z }.

Definition NewPool (size : Z) : Pool := mkPool size.

(** ** [parseMember] *)

(** [s[start:i]]. *)
Definition slice (s : string) (start i : nat) : string := String.substring start (i - start) s.

(** The loop over the characters: [i] is the position of the first of [rest];
    the result is the parts found and the start of the last one. *)
Fixpoint member_parts (s : string) (rest : list ascii) (i start count : nat) (parts : list string)
    : list string * nat :=
  match rest with
  | [] => (parts, start)
  | c :: rest =>
      if Ascii.eqb c ":" then
        let parts := parts ++ [slice s start i] in
        let start := S i in
        let count := S count in
        if (count =? 2)%nat then (parts, start)
        else member_parts s rest (S i) start count parts
      else member_parts s rest (S i) start count parts
  end.

(** [parseMember]; [None] is its [nil]. *)
Definition parseMember (s : string) : option (list string) :=
  let '(parts, start) := member_parts s (String.list_ascii_of_string s) 0 0 0 [] in
  let parts :=
    if (start <? String.length s)%nat then parts ++ [slice s start (String.length s)] else parts in
  if (length parts =? 3)%nat then Some parts else None.

(** ** The dispatcher *)

(** How the wait for the rate limiter ends. *)
Inductive Gate := GateOpen | GateDone | GateFuel.

(** [for { allowed, err := d.limiter.Allow(..) .. }]. *)
Fixpoint rate_gate (fuel : nat) (maxPerSec : Z) (channel : Channel) : prog Gate :=
  match fuel with
  | O => Ret GateFuel
  | S fuel =>
      let! r := Allow maxPerSec channel in
      match r with
      | Er _ => Ret GateOpen
      | Ok allowed =>
          if allowed then Ret GateOpen
          else
            let! done := do (SleepOrDone (50 * time_Millisecond)) in
            if done then Ret GateDone else rate_gate fuel maxPerSec channel
      end
  end.

(** How the processing of a message ends: the function returned, or the bound
    on its waits was reached. *)
Inductive Processed := Returned | WaitsExceeded.

Section Dispatcher.
Context {T : UuidText} {TT : TimeText}.

(** After the provider's answer. *)
Definition settle (n : Notification) (msg : Message) (result : Result) : prog unit :=
  match d_Error result with
  | None =>
      run! UpdateStatus (n_ID n) StatusDelivered "" in
      run! Ack (m_StreamID msg) (m_MessageID msg) in
      run! do (Inc "notifications_processed_total" [n_Channel n; "delivered"]) in
      Broadcast (n_ID n) "delivered"
  | Some err =>
      let errMsg := Error err in
      run!
        (if ShouldRetry (wrap64 (n_AttemptCount n + 1)) (n_MaxRetries n) then
           let! now := do Now in
           let retryAt := RetryAt now (wrap64 (n_AttemptCount n + 1)) in
           run! UpdateStatus (n_ID n) StatusQueued errMsg in
           run! EnqueueDelayed (n_ID n) (n_Channel n) (n_Priority n) (UnixMilli retryAt) in
           run! do (Inc "notifications_retried_total" []) in
           Broadcast (n_ID n) ("retry_scheduled:" +:+ Format_RFC3339 retryAt)
         else
           run! UpdateStatus (n_ID n) StatusFailed errMsg in
           run! Push (n_ID n) (n_Channel n) errMsg in
           run! do (Inc "notifications_dlq_total" []) in
           run! do (Inc "notifications_processed_total" [n_Channel n; "failed"]) in
           Broadcast (n_ID n) "failed") in
      run! Ack (m_StreamID msg) (m_MessageID msg) in Ret tt
  end.

(** The delivery itself and its record. *)
Definition deliver_once (n : Notification) (provider : Provider) : prog Result :=
  let! start := do Now in
  let! result := Send provider n in
  let! stop := do Now in
  run! do (Observe "notification_delivery_duration_seconds" [n_Channel n] (stop - start)) in
  run! IncrementAttempt (n_ID n) in
  run! CreateDeliveryAttempt
    (mkAttempt uuid_Nil (n_ID n) (wrap64 (n_AttemptCount n + 1)) (d_StatusCode result)
       (d_ResponseBody result)
       (match d_Error result with Some e => Error e | None => "" end)
       (d_DurationMs result) 0) in
  Ret result.

(** [processMessage] from the rate limiter on. *)
Definition process_notification (d : Dispatcher) (msg : Message) (notificationID : UUID)
    : prog unit :=
  let! r := GetByID notificationID in
  match r with
  | Er _ => run! Ack (m_StreamID msg) (m_MessageID msg) in Ret tt
  | Ok n =>
      if (n_Status n =? StatusDelivered)%string || (n_Status n =? StatusCancelled)%string ||
         (n_Status n =? StatusFailed)%string then
        run! Ack (m_StreamID msg) (m_MessageID msg) in Ret tt
      else
        run! UpdateStatus (n_ID n) StatusProcessing "" in
        match dp_providers d !! n_Channel n with
        | None =>
            run! UpdateStatus (n_ID n) StatusFailed
                   ("no provider for channel: " +:+ n_Channel n) in
            run! Ack (m_StreamID msg) (m_MessageID msg) in Ret tt
        | Some provider =>
            let! result := deliver_once n provider in
            settle n msg result
        end
  end.

Definition processMessage (fuel : nat) (d : Dispatcher) (msg : Message) : prog Processed :=
  match uuid_Parse (m_NotificationID msg) with
  | None => run! Ack (m_StreamID msg) (m_MessageID msg) in Ret Returned
  | Some notificationID =>
      let channel := m_Channel msg in
      let! gate := rate_gate fuel (dp_maxPerSec d) channel in
      match gate with
      | GateFuel => Ret WaitsExceeded
      | GateDone => Ret Returned
      | GateOpen => run! process_notification d msg notificationID in Ret Returned
      end
  end.

(** [for _, msg := range messages { d.processMessage(..) }]. *)
Fixpoint process_all (fuel : nat) (d : Dispatcher) (messages : list Message) : prog Processed :=
  match messages with
  | [] => Ret Returned
  | msg :: messages =>
      let! p := processMessage fuel d msg in
      match p with
      | WaitsExceeded => Ret WaitsExceeded
      | Returned => process_all fuel d messages
      end
  end.

(** [Work]: at most [rounds] rounds of its loop. *)
Fixpoint Work (rounds fuel : nat) (d : Dispatcher) : prog Processed :=
  match rounds with
  | O => Ret WaitsExceeded
  | S rounds =>
      let! done := do CtxErr in
      if done then Ret Returned
      else
        let! r := ReadMessages (dp_consumer d) 1 in
        match r with
        | Er _ =>
            let! done := do CtxErr in
            if done then Ret Returned
            else run! do (Sleep time_Second) in Work rounds fuel d
        | Ok messages =>
            let! p := process_all fuel d messages in
            match p with
            | WaitsExceeded => Ret WaitsExceeded
            | Returned => Work rounds fuel d
            end
        end
  end.

(** ** Delayed retries *)

(** What one due member of the delayed set becomes. [uuid.Parse] returns a
    value along with its error, and the error is dropped. *)
Definition requeue (member : string) : prog unit :=
  match parseMember member with
  | Some [p0; p1; p2] =>
      let notificationID := match uuid_Parse p0 with
                            | Some u => u
                            | None => uuid_Parse_junk p0
                            end in
      run! Enqueue notificationID p1 p2 in Ret tt
  | _ => Ret tt
  end.

Definition processDelayedBatch : prog unit :=
  let! t := do Now in
  let now := UnixMilli t in
  let! r := PopDelayedDue now 50 in
  match r with
  | Er _ => Ret tt
  | Ok results => for_range results requeue
  end.

(** [ProcessDelayed]: at most [ticks] ticks. *)
Fixpoint ProcessDelayed (ticks : nat) : prog unit :=
  match ticks with
  | O => Ret tt
  | S ticks =>
      let! done := do (SleepOrDone time_Second) in
      if done then Ret tt else run! processDelayedBatch in ProcessDelayed ticks
  end.

(** ** The scheduler *)

Definition poll (batchSize : Z) : prog unit :=
  let! r := FetchScheduledDue batchSize in
  match r with
  | Er _ => Ret tt
  | Ok notifications =>
      for_range notifications (λ n,
        run! Enqueue (n_ID n) (n_Channel n) (n_Priority n) in Ret tt)
  end.

(** The loop of [Run]: at most [ticks] ticks. *)
Fixpoint run_loop (ticks : nat) (interval batchSize : Z) : prog unit :=
  match ticks with
  | O => Ret tt
  | S ticks =>
      let! done := do (SleepOrDone interval) in
      if done then Ret tt else run! poll batchSize in run_loop ticks interval batchSize
  end.

(** [Run]. [time.NewTicker] panics if the interval is not positive. *)
Definition Run (ticks : nat) (interval batchSize : Z) : prog unit :=
  if interval <=? 0 then panic else run_loop ticks interval batchSize.
End Dispatcher.
