(* ===== verification/RateLimitSpec.v ===== *)
(** * The sliding window

    What a sequence of runs of the script lets through, and how long a waiting
    worker waits. *)

From stdpp Require Import gmap.
From S2P Require Import Prelude GoLib Domain Redis RedisFacts Effects Frames NotificationSpec.
From S2P Require Import Queue QueueSpec DeliverySpec RateLimit Worker.

(** ** One run of the script *)

(** The members of the window that ends at [now]. *)
Definition live (window now : Z) (z : ZSet) : ZSet := filter (λ p, now - window < p.2) z.

Lemma zset_expire at_ key r m t :
  zset key (expire at_ key r) !! m = Some t → zset key r !! m = Some t.
Proof.
  unfold expire. destruct (r_expires r !! key); [|done]. destruct (_ <=? _); [|done].
  rewrite zset_set_eq. by rewrite lookup_empty.
Qed.

(** Either the key has not expired, or nothing is left of it. *)
Lemma expire_cases at_ key r :
  expire at_ key r = r ∨ (zset key (expire at_ key r) = ∅ ∧ ∃ d, r_expires r !! key = Some d ∧ d ≤ at_).
Proof.
  unfold expire. destruct (r_expires r !! key) as [d|]; [|by left]. destruct (Z.leb_spec d at_); [|by left].
  right. rewrite zset_set_eq. split; [done|by exists d].
Qed.

Lemma slidingWindowLua_spec key window max now at_ draw r :
  let r0 := expire at_ key r in let z := live window now (zset key r0) in
  slidingWindowLua key window max now at_ draw r =
  if Z.of_nat (size z) <? max
  then (1, pexpire at_ key window (zadd key now (limiter_member now draw) (set_zset key z r0)))
  else (0, set_zset key z r0).
Proof.
  unfold slidingWindowLua, zcard, zremrangebyscore. cbn zeta. by rewrite zset_set_eq.
Qed.

(** What a run that lets through leaves: the new member among those of the
    window, and a time to live. *)
Lemma passed_run key window now at_ draw z r :
  0 < window →
  let r' := pexpire at_ key window (zadd key now (limiter_member now draw) (set_zset key z r)) in
  zset key r' = <[limiter_member now draw := now]> z ∧ r_expires r' !! key = Some (at_ + window).
Proof.
  intros Hw r'. subst r'. unfold pexpire, zadd. rewrite !zset_set_eq.
  rewrite decide_False by apply insert_non_empty.
  destruct (Z.leb_spec window 0); [lia|]. split; [|apply lookup_insert_eq].
  exact (zset_set_eq key _ (set_zset key z r)).
Qed.

(** A run that refuses leaves the time to live that there was, or none. *)
Lemma refused_run key z at_ r d :
  r_expires (set_zset key z (expire at_ key r)) !! key = Some d → r_expires r !! key = Some d.
Proof.
  assert (Hset : ∀ z r, r_expires (set_zset key z r) !! key = Some d → r_expires r !! key = Some d).
  { intros z' r1. unfold set_zset. cbn. case_decide; [|done]. by rewrite lookup_delete_eq. }
  intros H%Hset. unfold expire in H. destruct (r_expires r !! key) as [d1|] eqn:E; [|by rewrite E in H].
  destruct (d1 <=? at_); [by apply Hset in H; rewrite E in H|by rewrite E in H].
Qed.

(** The script changes nothing but the sorted set of its key. *)
Lemma script_spares key window max now at_ draw r :
  r_streams (slidingWindowLua key window max now at_ draw r).2 = r_streams r ∧
  ∀ k, key ≠ k → zset k (slidingWindowLua key window max now at_ draw r).2 = zset k r.
Proof.
  assert (He : r_streams (expire at_ key r) = r_streams r ∧ ∀ k, key ≠ k → zset k (expire at_ key r) = zset k r).
  { unfold expire. destruct (r_expires r !! key); [|done]. destruct (_ <=? _); [|done].
    split; [done|]. intros k Hk. by apply zset_set_ne. }
  assert (Hp : ∀ r, r_streams (pexpire at_ key window r) = r_streams r ∧
    ∀ k, key ≠ k → zset k (pexpire at_ key window r) = zset k r).
  { intros r1. unfold pexpire. case_decide; [done|]. destruct (_ <=? _); [|done].
    split; [done|]. intros k Hk. by apply zset_set_ne. }
  rewrite slidingWindowLua_spec. destruct He as [E1 E2]. destruct (_ <? _); cbn [snd].
  - destruct (Hp (zadd key now (limiter_member now draw)
      (set_zset key (live window now (zset key (expire at_ key r))) (expire at_ key r)))) as [H1 H2].
    split; [by rewrite H1|]. intros k Hk. rewrite H2 by done. unfold zadd. rewrite !zset_set_ne by done. by apply E2.
  - split; [done|]. intros k Hk. rewrite zset_set_ne by done. by apply E2.
Qed.

(** ** A sequence of runs *)

(** A run: the caller's instant, the server's, and the draw. *)
Record Request := mkReq { rq_now : Z; rq_at : Z; rq_draw : Z }.

Definition member (p : Request) : string := limiter_member (rq_now p) (rq_draw p).

Definition members (l : list Request) : gset string := list_to_set (member <$> l).

(** The requests let through, in order. *)
Fixpoint let_through (key : string) (window max : Z) (reqs : list Request) (r : Redis)
    : list Request :=
  match reqs with
  | [] => []
  | p :: reqs =>
      let (ok, r') := slidingWindowLua key window max (rq_now p) (rq_at p) (rq_draw p) r in
      if ok =? 1 then p :: let_through key window max reqs r'
      else let_through key window max reqs r'
  end.

(** One run after another: the callers' instants do not decrease, and the server's
    clock gets ahead of them by at most [lag] in between. *)
Definition later (lag : Z) (p q : Request) : Prop :=
  rq_now p ≤ rq_now q ∧ rq_at q - rq_at p ≤ rq_now q - rq_now p + lag.

(** The requests that fall into the window that ends at [t]. *)
Definition in_window (window t : Z) (l : list Request) : list Request :=
  filter (λ p, t - window < rq_now p ≤ t) l.

(** The set holds the members of the requests let through that lie less than
    [width] before [now]. *)
Definition holds (width now : Z) (passed : list Request) (z : ZSet) : Prop :=
  ∀ p, p ∈ passed → now - width < rq_now p → ∃ s, z !! member p = Some s ∧ rq_now p ≤ s.

Lemma elem_of_members m l : m ∈ members l ↔ ∃ p, p ∈ l ∧ m = member p.
Proof. unfold members. rewrite elem_of_list_to_set, list_elem_of_fmap. naive_solver. Qed.

Lemma holds_live width window now passed z :
  width ≤ window → holds width now passed z → holds width now passed (live window now z).
Proof.
  intros Hw Hh p Hp Hlt. destruct (Hh p Hp Hlt) as (s & Hs & Hle). exists s. split; [|done].
  apply map_lookup_filter_Some. split; [done|]. cbn. lia.
Qed.

(** A window in which a run lies has at most one member more than that run
    counts. *)
Lemma holds_count width window now t draw passed z :
  width ≤ window → now ≤ t → holds width now passed (live window now z) →
  (size (members (in_window width t passed) ∪ {[limiter_member now draw]}) ≤ size (live window now z) + 1)%nat.
Proof.
  intros Hw Ht Hh. transitivity (size (dom (live window now z) ∪ {[limiter_member now draw]})).
  - apply subseteq_size. intros m [(p & Hp & ->)%elem_of_members|Hm]%elem_of_union; apply elem_of_union;
      [left|by right]. apply list_elem_of_filter in Hp as [[? ?] Hp].
    destruct (Hh p Hp) as (s & Hs & _); [lia|]. apply elem_of_dom. by exists s.
  - rewrite size_union_alt, size_dom. pose proof (subseteq_size ({[limiter_member now draw]} ∖ dom (live window now z))
      ({[limiter_member now draw]} : gset string) ltac:(set_solver)) as H. rewrite size_singleton in H. lia.
Qed.

(** The set in which the next run counts holds what it should, whether or not the
    key has expired. *)
Lemma holds_expire lag window now0 passed p reqs key r :
  0 ≤ lag →
  holds (window - lag) now0 passed (zset key r) → now0 ≤ rq_now p →
  (∀ d q, r_expires r !! key = Some d → last passed = Some q → d = rq_at q + window) →
  StronglySorted (later lag) (passed ++ p :: reqs) →
  holds (window - lag) (rq_now p) passed (zset key (expire (rq_at p) key r)).
Proof.
  intros Hlag Hh Hn Hd Hs q Hq Hlt.
  destruct (expire_cases (rq_at p) key r) as [->|(_ & d & Ed & Hle)]; [apply Hh; [done|lia]|].
  exfalso. destruct (last passed) as [y|] eqn:Ey; [|by apply last_None in Ey as ->; apply not_elem_of_nil in Hq].
  specialize (Hd d y Ed eq_refl). apply StronglySorted_app in Hs as (Hcross & Hs & _).
  apply last_Some in Ey as (l & ->).
  destruct (Hcross y p) as [_ Hy]; [apply elem_of_app; right; by left|by left|].
  assert (rq_now q ≤ rq_now y); [|lia].
  apply StronglySorted_app in Hs as (Hc & _ & _).
  apply elem_of_app in Hq as [Hq| ->%list_elem_of_singleton]; [|done].
  destruct (Hc q y Hq) as [? _]; [by left|done].
Qed.

Lemma let_through_bound key window max lag reqs r passed now0 :
  0 < window → 0 ≤ lag →
  holds (window - lag) now0 passed (zset key r) → Forall (λ p, now0 ≤ rq_now p) reqs →
  (∀ d q, r_expires r !! key = Some d → last passed = Some q → d = rq_at q + window) →
  StronglySorted (later lag) (passed ++ reqs) →
  (∀ t, Z.of_nat (size (members (in_window (window - lag) t passed))) ≤ max) →
  ∀ t, Z.of_nat (size (members (in_window (window - lag) t (passed ++ let_through key window max reqs r)))) ≤ max.
Proof.
  intros Hw Hlag. revert r passed now0.
  induction reqs as [|p reqs IH]; intros r passed now0 Hh Hle Hd Hs Hb t.
  { cbn. rewrite app_nil_r. apply Hb. }
  cbn [let_through]. rewrite slidingWindowLua_spec. apply Forall_cons in Hle as [Hn0 Hle].
  pose proof (holds_expire _ _ _ _ _ _ _ _ Hlag Hh Hn0 Hd Hs) as Hh1.
  apply (holds_live _ window) in Hh1; [|lia]. set (r0 := expire (rq_at p) key r) in *.
  assert (Hle1 : Forall (λ q, rq_now p ≤ rq_now q) reqs).
  { apply StronglySorted_app in Hs as (_ & _ & [_ Hp]%StronglySorted_inv).
    eapply Forall_impl; [exact Hp|]. by intros q []. }
  destruct (Z.ltb_spec (Z.of_nat (size (live window (rq_now p) (zset key r0)))) max) as [Hlt|Hge].
  - cbn [Z.eqb Pos.eqb].
    destruct (passed_run key window (rq_now p) (rq_at p) (rq_draw p) (live window (rq_now p) (zset key r0)) r0 Hw)
      as [Ez Ee]. set (r1 := pexpire _ _ _ _) in *.
    rewrite (cons_middle p passed), app_assoc. rewrite (cons_middle p passed reqs), app_assoc in Hs.
    apply (IH _ _ (rq_now p)); [|done| |done|].
    + intros q Hq Hlt'. rewrite Ez. destruct (decide (limiter_member (rq_now p) (rq_draw p) = member q)) as [E|Hne].
      * exists (rq_now p). split; [by rewrite E, lookup_insert_eq|].
        apply StronglySorted_app in Hs as (_ & Hs & _). apply StronglySorted_app in Hs as (Hc & _ & _).
        apply elem_of_app in Hq as [Hq| ->%list_elem_of_singleton]; [|done].
        destruct (Hc q p Hq) as [? _]; [by left|done].
      * rewrite lookup_insert_ne by done. apply elem_of_app in Hq as [Hq| ->%list_elem_of_singleton]; [|done].
        by apply Hh1.
    + intros d q E. rewrite Ee in E. injection E as <-. rewrite last_snoc. by intros [= <-].
    + intros t'. unfold in_window. rewrite filter_app, filter_cons, filter_nil.
      case_decide as Hin; [|rewrite app_nil_r; apply Hb].
      pose proof (holds_count (window - lag) window (rq_now p) t' (rq_draw p) passed (zset key r0)
        ltac:(lia) ltac:(lia) Hh1) as Hc.
      unfold members in Hc |- *. rewrite fmap_app, list_to_set_app_L. cbn. rewrite union_empty_r_L.
      unfold member at 2. unfold in_window in Hc. lia.
  - cbn [Z.eqb]. apply (IH _ _ (rq_now p)); [by rewrite zset_set_eq|done| | |done].
    + intros d q E%refused_run. by apply Hd.
    + apply StronglySorted_app in Hs as (Hc & H1 & [H2 _]%StronglySorted_inv).
      apply StronglySorted_app. split_and!; [|done|done]. intros x y Hx Hy. apply Hc; [done|by right].
Qed.

(** (C24) The rate limiter keeps its rate: of any sequence of runs of the script on
    one key, at instants of the callers that do not decrease and by which the
    server's clock gets ahead of them by at most [lag], no window, wherever it
    lies, has more than [max] distinct members (instant and draw) of requests let
    through; so it has no more than [max] requests if none share a member. The
    window is the configured one less the lag: the key expires by the server's
    clock. *)
Theorem limiter_window_bound key window max lag reqs r t :
  0 < window → 0 ≤ max → 0 ≤ lag → zset key r = ∅ → StronglySorted (later lag) reqs →
  let passed := in_window (window - lag) t (let_through key window max reqs r) in
  Z.of_nat (size (members passed)) ≤ max ∧
  (NoDup (member <$> passed) → Z.of_nat (length passed) ≤ max).
Proof.
  intros Hw Hm Hlag Hz Hs passed.
  assert (Hb : Z.of_nat (size (members passed)) ≤ max).
  { destruct reqs as [|p reqs]; [done|].
    apply (let_through_bound key window max lag (p :: reqs) r [] (rq_now p)); try done.
    - intros q Hq. by apply not_elem_of_nil in Hq.
    - constructor; [done|]. apply StronglySorted_inv in Hs as [_ Hs].
      eapply Forall_impl; [exact Hs|]. by intros q [].  }
  split; [done|]. intros Hnd. unfold members in Hb. rewrite size_list_to_set in Hb by done.
  by rewrite length_fmap in Hb.
Qed.

(** But a draw that repeats defeats it: requests in the same millisecond
    with the same draw share one member, and however many there are, all of
    them pass (for a limit of two or more). *)
Theorem limiter_same_draw key window max p n r :
  0 < window → 1 < max → zset key r = ∅ →
  let_through key window max (replicate n p) r = replicate n p.
Proof.
  intros Hw Hm Hz.
  assert (Hdom : ∀ m t, zset key r !! m = Some t → m = member p) by by rewrite Hz.
  clear Hz. revert r Hdom. induction n as [|n IH]; intros r Hdom; [done|].
  cbn [replicate let_through]. rewrite slidingWindowLua_spec.
  set (z := live window (rq_now p) (zset key (expire (rq_at p) key r))).
  assert (Hz : ∀ m t, z !! m = Some t → m = member p).
  { intros m t [Hm' _]%map_lookup_filter_Some. apply zset_expire in Hm'. by eapply Hdom. }
  assert (Hsize : (size z ≤ 1)%nat).
  { rewrite <- size_dom. rewrite <- (size_singleton (C := gset string) (member p)). apply subseteq_size.
    intros m [t Ht]%elem_of_dom. apply elem_of_singleton. by eapply Hz. }
  destruct (Z.ltb_spec (Z.of_nat (size z)) max); [|lia].
  cbn [Z.eqb Pos.eqb]. f_equal. apply IH.
  destruct (passed_run key window (rq_now p) (rq_at p) (rq_draw p) z (expire (rq_at p) key r) Hw) as [-> _].
  intros m t [[<- _]|[_ Ht]]%lookup_insert_Some; [done|by eapply Hz].
Qed.

(** ** [Allow] and the wait of a worker *)

(** The script, run on the key of a channel at some instant of [w] to [w'], with
    the answer [z]. *)
Definition script_ran (max : Z) (ch : Channel) (now z : Z) (r r' : Redis) : Prop :=
  ∃ at_ draw, slidingWindowLua (limiter_key ch) windowMs max (UnixMilli now) at_ draw r = (z, r').

Section Gate.
Context {S : Services} {HS : ServicesOk S} {HO : SentOnce S}.

Lemma Allow_runs max ch w tr r w' :
  exec (Allow max ch) w tr r w' →
  frame_redis w w' ∧
  ∃ now, w_clock w ≤ now ≤ w_clock w' ∧
  ((∃ z, script_ran max ch now z (w_redis w) (w_redis w') ∧ r = Ok (z =? 1)) ∨
   (¬ fault_free tr ∧ (∃ e, r = Er e) ∧
    (w_redis w' = w_redis w ∨ ∃ z, script_ran max ch now z (w_redis w) (w_redis w')))).
Proof.
  intros H. unfold Allow in H.
  apply exec_bind in H as (now & w0 & tr1 & tr2 & -> & Hx & H).
  apply now_quiet in Hx as (-> & Hc & Hc' & Hq).
  apply exec_bind in H as (x & w1 & tr1 & tr3 & -> & Hx & H). apply exec_rd in Hx as (-> & Hd).
  assert (Hf : frame_redis w0 w1) by by eapply redis_doc_frame.
  apply quiet_frame_redis in Hq as [Hq Hr].
  assert (Hw : w' = w1) by (destruct x; by destruct H as (_ & _ & ->)). subst w'.
  split; [by etrans|]. exists now. split; [destruct Hf; lia|].
  destruct Hd as (r' & -> & Hcase). cbn in Hcase |- *. rewrite Hr in Hcase.
  assert (Hrun : ∀ (y : result string Z) r1, (∃ at_ draw, let '(z, r2) :=
      slidingWindowLua (limiter_key ch) windowMs max (UnixMilli now) at_ draw (w_redis w) in
      y = Ok z ∧ r1 = r2) → ∃ z, script_ran max ch now z (w_redis w) r1 ∧ y = Ok z).
  { intros y r1 (at_ & draw & Hz). destruct (slidingWindowLua _ _ _ _ _ _ _) as [z r2] eqn:E.
    destruct Hz as [-> ->]. exists z. split; [by exists at_, draw|done]. }
  destruct Hcase as [(z & Hs & ->)%Hrun|(He & Hr')].
  - destruct H as (_ & -> & _). left. by exists z.
  - destruct x as [|e]; [done|]. destruct H as (-> & -> & _). right.
    split; [eapply not_fault_free_in; [right; left|done]|]. split; [by eexists|].
    destruct Hr' as [->|(y & (z & Hs & _)%Hrun)]; [by left|right; by exists z].
Qed.

(** A refused request leaves the set as it was, less what has expired. *)
Lemma refused max ch now z r r' :
  script_ran max ch now z r r' → z ≠ 1 →
  max ≤ Z.of_nat (size (live windowMs (UnixMilli now) (zset (limiter_key ch) r))) ∧
  ∀ m t, zset (limiter_key ch) r' !! m = Some t → zset (limiter_key ch) r !! m = Some t.
Proof.
  intros (at_ & draw & E) Hz. rewrite slidingWindowLua_spec in E.
  set (z0 := zset (limiter_key ch) (expire at_ (limiter_key ch) r)) in *.
  assert (Hsub : ∀ m t, live windowMs (UnixMilli now) z0 !! m = Some t →
    live windowMs (UnixMilli now) (zset (limiter_key ch) r) !! m = Some t).
  { intros m t [Hm ?]%map_lookup_filter_Some. apply zset_expire in Hm.
    by apply map_lookup_filter_Some. }
  destruct (Z.ltb_spec (Z.of_nat (size (live windowMs (UnixMilli now) z0))) max); injection E as <- <-; [done|].
  split.
  - apply map_subseteq_spec, map_subseteq_size in Hsub. lia.
  - intros m t Hm. rewrite zset_set_eq in Hm. apply Hsub in Hm. by apply map_lookup_filter_Some in Hm as [? _].
Qed.

(** A worker alone with the limiter waits at most a window: when the members
    of the set are not from the future, [k] more turns of 50 ms each get it
    through, [start] being the instant of the first turn. *)
Lemma rate_gate_opens max ch start k w tr g w' :
  0 < max → (∀ m t, zset (limiter_key ch) (w_redis w) !! m = Some t → t ≤ UnixMilli start) →
  start + (20 - Z.of_nat k) * (50 * time_Millisecond) ≤ w_clock w →
  exec (rate_gate (Datatypes.S k) max ch) w tr g w' → g ≠ GateFuel.
Proof.
  intros Hmax. revert w tr. induction k as [|k IH]; intros w tr Hz Hc H.
  all: apply exec_bind in H as (r & w1 & tr1 & tr2 & -> & Hx & H).
  all: apply Allow_runs in Hx as (Hf & now & Hnow & Hcase).
  all: destruct Hcase as [(z & Hs & ->)|(_ & (e & ->) & _)]; [|by destruct H as (_ & -> & _)].
  all: destruct (Z.eqb_spec z 1) as [->|Hne]; [by destruct H as (_ & -> & _)|].
  all: destruct (refused _ _ _ _ _ _ Hs Hne) as [Hfull Hkeep].
  all: apply exec_bind in H as (b & w2 & tr3 & tr4 & -> & Hx & H).
  all: destruct b; [by destruct H as (_ & -> & _)|].
  - (* a whole window after the start nothing is left in the set *)
    exfalso. assert (Hemp : live windowMs (UnixMilli now) (zset (limiter_key ch) (w_redis w)) = ∅).
    { apply map_eq. intros m. rewrite lookup_empty. apply map_lookup_filter_None. right.
      intros t Ht Hlt. cbn in Hlt. specialize (Hz m t Ht).
      unfold UnixMilli, windowMs, time_Millisecond in *.
      assert (start + 1000 * 10 ^ 6 ≤ now) by lia.
      assert (start / 10 ^ 6 + 1000 ≤ now / 10 ^ 6); [|lia].
      rewrite <- Z.div_add by lia. apply Z.div_le_mono; lia. }
    rewrite Hemp, map_size_empty in Hfull. lia.
  - apply exec_do in Hx as [-> Hsl]. apply sleep_or_done_doc in Hsl as [Hq Hsl].
    specialize (Hsl eq_refl). eapply IH; [| |exact H].
    + intros m t Ht. apply (Hz m t), Hkeep. destruct Hq as (t' & _ & ->). done.
    + destruct Hf as [? _]. unfold time_Millisecond in *. lia.
Qed.
End Gate.
