(* ===== verification/MemberSpec.v ===== *)
(** * Members of the delayed set

    A member is the text "uuid:channel:priority"; [parseMember] takes apart
    what [EnqueueDelayed] puts together. *)

From stdpp Require Import gmap.
From Stdlib Require Import Ascii.
From S2P Require Import Prelude GoLib Domain Effects Queue Worker.

Abbreviation chars := String.list_ascii_of_string.

Lemma string_app_cons c s t : String c s +:+ t = String c (s +:+ t).
Proof. done. Qed.

Lemma chars_app s t : chars (s +:+ t) = chars s ++ chars t.
Proof.
  induction s as [|c s IH]; [done|]. rewrite ?string_app_cons. cbn. f_equal. exact IH.
Qed.

Lemma length_chars s : length (chars s) = String.length s.
Proof. induction s as [|c s IH]; [done|]. cbn. by rewrite IH. Qed.

Lemma string_app_assoc (s t u : string) : (s +:+ t) +:+ u = s +:+ (t +:+ u).
Proof.
  induction s as [|c s IH]; [done|]. rewrite ?string_app_cons. cbn. f_equal. exact IH.
Qed.

Lemma string_length_app s t : String.length (s +:+ t) = (String.length s + String.length t)%nat.
Proof. by rewrite <- !length_chars, chars_app, length_app. Qed.

Lemma substring_prefix b c : String.substring 0 (String.length b) (b +:+ c) = b.
Proof. induction b as [|x b IH]; [by destruct c|].
  rewrite string_app_cons. cbn. f_equal. exact IH. Qed.

Lemma slice_middle a b c :
  slice (a +:+ b +:+ c) (String.length a) (String.length a + String.length b) = b.
Proof.
  unfold slice. replace (String.length a + String.length b - String.length a)%nat
    with (String.length b) by lia.
  induction a as [|x a IH]; [exact (substring_prefix b c)|]. exact IH.
Qed.

Definition no_colon (s : string) : Prop := ":"%char ∉ chars s.

(** The loop runs over a part without a colon up to the colon after it. *)
Lemma member_parts_colon s b rest i start count parts :
  no_colon b →
  member_parts s (chars b ++ ":"%char :: rest) i start count parts =
  let j := (i + String.length b)%nat in
  let parts := parts ++ [slice s start j] in
  if (Datatypes.S count =? 2)%nat then (parts, Datatypes.S j)
  else member_parts s rest (Datatypes.S j) (Datatypes.S j) (Datatypes.S count) parts.
Proof.
  revert i. induction b as [|x b IH]; intros i Hb; cbn [chars app member_parts String.length].
  - cbn [Ascii.eqb Bool.eqb]. by rewrite Nat.add_0_r.
  - unfold no_colon in Hb. cbn [chars] in Hb. apply not_elem_of_cons in Hb as [Hx Hb].
    destruct (Ascii.eqb_spec x ":"); [congruence|]. rewrite IH by done.
    by rewrite Nat.add_succ_comm.
Qed.

Lemma parseMember_parts a b c :
  no_colon a → no_colon b → c ≠ "" →
  parseMember (a +:+ ":" +:+ b +:+ ":" +:+ c) = Some [a; b; c].
Proof.
  intros Ha Hb Hc. unfold parseMember. set (s := a +:+ ":" +:+ b +:+ ":" +:+ c).
  assert (Hs : chars s = chars a ++ ":"%char :: chars b ++ ":"%char :: chars c).
  { unfold s. by rewrite !chars_app. }
  rewrite Hs, member_parts_colon by done. cbn [Nat.eqb app].
  rewrite member_parts_colon by done. cbn [Nat.eqb app Nat.add].
  assert (Hlen : String.length s =
    (Datatypes.S (Datatypes.S (String.length a + String.length b)) + String.length c)%nat).
  { unfold s. rewrite !string_length_app. cbn. lia. }
  assert (Hcl : (0 < String.length c)%nat) by (destruct c; [done|cbn; lia]).
  assert (Hlt : (Datatypes.S (Datatypes.S (String.length a + String.length b))
                 <? String.length s)%nat = true) by (apply Nat.ltb_lt; lia).
  assert (H1 : slice s 0 (String.length a) = a).
  { apply (slice_middle "" a (":" +:+ b +:+ ":" +:+ c)). }
  assert (H2 : slice s (Datatypes.S (String.length a))
                 (Datatypes.S (String.length a + String.length b)) = b).
  { pose proof (slice_middle (a +:+ ":") b (":" +:+ c)) as H.
    rewrite string_app_assoc, string_length_app in H. cbn [String.length] in H.
    rewrite Nat.add_1_r in H. exact H. }
  assert (H3 : slice s (Datatypes.S (Datatypes.S (String.length a + String.length b)))
                 (String.length s) = c).
  { pose proof (slice_middle (a +:+ ":" +:+ b +:+ ":") c "") as H.
    rewrite !string_app_assoc, !string_length_app in H. cbn [String.length] in H.
    assert (Hnil : c +:+ "" = c) by (clear; induction c as [|x c IH]; [done|]; rewrite string_app_cons; by f_equal).
    rewrite Hnil in H. rewrite Hlen.
    replace (String.length a + (1 + (String.length b + 1)))%nat
      with (Datatypes.S (Datatypes.S (String.length a + String.length b))) in H by lia.
    exact H. }
  rewrite Hlt, H1, H2, H3. done.
Qed.

Lemma Channel_no_colon ch : Channel_Valid ch = true → no_colon ch.
Proof.
  intros H%Channel_Valid_spec. unfold no_colon.
  rewrite !elem_of_cons, elem_of_nil in H.
  destruct H as [->|[->|[->|[]]]]; by apply (bool_decide_unpack _).
Qed.

Lemma Priority_nonempty p : Priority_Valid p = true → p ≠ "".
Proof. by intros H ->. Qed.

Section Members.
Context {T : UuidText} {HT : UuidTextOk T}.

Lemma parse_delayed_member id ch p :
  Channel_Valid ch = true → Priority_Valid p = true →
  parseMember (delayed_member id ch p) = Some [uuid_String id; ch; p].
Proof.
  intros Hch Hp. apply parseMember_parts; [apply uuid_String_colon|by apply Channel_no_colon|].
  by apply Priority_nonempty.
Qed.

(** (C35) What is put into the delayed set comes back: a member made of an id, a
    valid channel and a valid priority is parsed into these three, and its
    requeueing is the enqueueing of that id on that channel and priority. *)
Theorem delayed_member_roundtrip id ch p :
  Channel_Valid ch = true → Priority_Valid p = true →
  parseMember (delayed_member id ch p) = Some [uuid_String id; ch; p] ∧
  requeue (delayed_member id ch p) = (run! Enqueue id ch p in Ret tt).
Proof.
  intros Hch Hp. pose proof (parse_delayed_member id ch p Hch Hp) as Hparse.
  split; [done|]. unfold requeue. by rewrite Hparse, uuid_Parse_String.
Qed.
End Members.
