(* ===== verification/WorkerSpec.v ===== *)
(** * What processing a message does

    [settled] says how one message ends: the notification's new record, what
    happens in the queue, and the calls of the webhook. The dispatcher's code
    does one of these in every run without faults. *)

From stdpp Require Import gmap.
From S2P Require Import Prelude GoLib Domain Sql Redis RedisFacts Effects Discipline Frames.
From S2P Require Import NotificationRepo NotificationStore Typed NotificationSpec Listing Attempts Queue.
From S2P Require Import QueueSpec RateLimit Delivery DeliverySpec Retry Hub HubSpec RateLimitSpec.
From S2P Require Import Worker.

(** ** Specification *)

(** A status no worker delivers any more. *)
Definition terminal (st : Status) : bool :=
  (st =? StatusDelivered)%string || (st =? StatusCancelled)%string || (st =? StatusFailed)%string.

(** The notification while it is being delivered, and after the attempt. *)
Definition attempted (t1 t2 : Z) (n : Notification) : Notification :=
  Spec.count_attempt t2 (Spec.mark t1 StatusProcessing "" n).

Definition Calls : Type := list (string * list (string * string) * HttpRes).

(** The error a failed attempt leaves: the one the provider reports on the
    answer. *)
Definition failed_with (answer : HttpRes) (err : string) : Prop :=
  ∃ r e, reports answer r ∧ d_Error r = Some e ∧ err = Error e.

(** [settled d msg id lo hi S Q S' Q' calls]: with the store [S] and the queue
    [Q] the message [msg] for [id] ends, between the instants [lo] and [hi], in
    [S'] and [Q'] after the webhook [calls]. *)
Inductive settled {T : UuidText} {WH : Webhook} (d : Dispatcher) (msg : Message) (id : UUID)
    (lo hi : Z) (S : Store) (Q : AQueue) : Store → AQueue → Calls → Prop :=
  | st_unknown Q' :
      S !! id = None → acknowledged (m_StreamID msg) (m_MessageID msg) Q Q' →
      settled d msg id lo hi S Q S Q' []
  | st_over n Q' :
      S !! id = Some n → terminal (n_Status n) = true →
      acknowledged (m_StreamID msg) (m_MessageID msg) Q Q' →
      settled d msg id lo hi S Q S Q' []
  | st_no_provider n t1 t2 Q' :
      S !! id = Some n → terminal (n_Status n) = false → dp_providers d !! n_Channel n = None →
      acknowledged (m_StreamID msg) (m_MessageID msg) Q Q' →
      settled d msg id lo hi S Q
        (<[id := Spec.mark t2 StatusFailed ("no provider for channel: " +:+ n_Channel n)
                   (Spec.mark t1 StatusProcessing "" n)]> S) Q' []
  | st_delivered n p code body t1 t2 t3 Q' :
      S !! id = Some n → terminal (n_Status n) = false → dp_providers d !! n_Channel n = Some p →
      code < 400 →
      acknowledged (m_StreamID msg) (m_MessageID msg) Q Q' →
      settled d msg id lo hi S Q
        (<[id := Spec.mark t3 StatusDelivered "" (attempted t1 t2 n)]> S) Q'
        [(wh_url (n_Channel n), wh_payload n, HttpResp code body)]
  | st_retried n p answer t1 t2 t3 now err Q1 Q' :
      S !! id = Some n → terminal (n_Status n) = false → dp_providers d !! n_Channel n = Some p →
      failed_with answer err →
      n_AttemptCount n + 1 < n_MaxRetries n → lo ≤ now ≤ hi →
      delayed_to (<[delayed_member id (n_Channel n) (n_Priority n)
                     := UnixMilli (now + Backoff (n_AttemptCount n + 1))]> (q_delayed Q)) Q Q1 →
      acknowledged (m_StreamID msg) (m_MessageID msg) Q1 Q' →
      settled d msg id lo hi S Q
        (<[id := Spec.mark t3 StatusQueued err (attempted t1 t2 n)]> S) Q'
        [(wh_url (n_Channel n), wh_payload n, answer)]
  | st_dead n p answer t1 t2 t3 err Q1 Q' :
      S !! id = Some n → terminal (n_Status n) = false → dp_providers d !! n_Channel n = Some p →
      failed_with answer err →
      n_MaxRetries n ≤ n_AttemptCount n + 1 →
      appended DLQStream [("notification_id", uuid_String id); ("channel", n_Channel n);
                          ("error", err)] Q Q1 →
      acknowledged (m_StreamID msg) (m_MessageID msg) Q1 Q' →
      settled d msg id lo hi S Q
        (<[id := Spec.mark t3 StatusFailed err (attempted t1 t2 n)]> S) Q'
        [(wh_url (n_Channel n), wh_payload n, answer)].

Lemma settled_later {T : UuidText} {WH : Webhook} d msg id lo lo' hi hi' S Q S' Q' calls :
  lo' ≤ lo → hi ≤ hi' →
  settled d msg id lo hi S Q S' Q' calls → settled d msg id lo' hi' S Q S' Q' calls.
Proof. intros ?? H. destruct H; econstructor; eauto; lia. Qed.

(** Every provider of the dispatcher keeps the contract of its channel. *)
Definition providers_ok {S : Services} {WH : Webhook} (d : Dispatcher) : Prop :=
  map_Forall (λ ch p, ∃ payload, ProviderOk p ch (wh_url ch) payload ∧
                                 ∀ n, n_Channel n = ch → payload n = wh_payload n) (dp_providers d).

(** The goroutine was waiting when the context ended. *)
Definition gave_up (tr : list Event) : bool :=
  existsb (λ ev, match ev with
                 | @Ev X e x => match e in Eff Y return Y → bool with
                                | SleepOrDone _ => λ done, done
                                | _ => λ _, false
                                end x
                 end) tr.

Lemma gave_up_app tr1 tr2 : gave_up (tr1 ++ tr2) = gave_up tr1 || gave_up tr2.
Proof. apply existsb_app. Qed.

Definition no_wait : EffPred := test (λ _ e, match e with SleepOrDone _ => false | _ => true end).

(** ** The parts never call the webhook *)

Section NoPost.
Context {T : UuidText} {TT : TimeText}.

Lemma no_post_UpdateStatus id st le : only no_post (UpdateStatus id st le).
Proof. unfold UpdateStatus. only_go. Qed.

Lemma no_post_GetByID id : only no_post (GetByID id).
Proof. unfold GetByID. only_go. Qed.

Lemma no_post_IncrementAttempt id : only no_post (IncrementAttempt id).
Proof. unfold IncrementAttempt. only_go. Qed.

Lemma no_post_CreateDeliveryAttempt a : only no_post (CreateDeliveryAttempt a).
Proof. unfold CreateDeliveryAttempt. only_go. Qed.

Lemma no_post_Ack k i : only no_post (Ack k i).
Proof. unfold Ack. only_go. Qed.

Lemma no_post_Push id ch e : only no_post (Push id ch e).
Proof. unfold Push. only_go. Qed.

Lemma no_post_EnqueueDelayed id ch p t : only no_post (EnqueueDelayed id ch p t).
Proof. unfold EnqueueDelayed. only_go. Qed.

Lemma no_post_Broadcast id s : only no_post (Broadcast id s).
Proof. unfold Broadcast. only_go. Qed.

Hint Resolve no_post_UpdateStatus no_post_GetByID no_post_IncrementAttempt no_post_Ack
  no_post_CreateDeliveryAttempt no_post_Push no_post_EnqueueDelayed no_post_Broadcast : discipline.

Lemma no_post_settle n msg r : only no_post (settle n msg r).
Proof. unfold settle. only_go. Qed.
End NoPost.

#[export] Hint Resolve no_post_UpdateStatus no_post_GetByID no_post_IncrementAttempt no_post_Ack
  no_post_CreateDeliveryAttempt no_post_Push no_post_EnqueueDelayed no_post_Broadcast
  no_post_settle : discipline.

(** ** One message, step by step, without faults *)

(** The database and Redis are well formed. *)
Definition world_ok (w : World) : Prop := db_ok (w_db w) ∧ redis_ok (w_redis w).

(** The hub and the transactions are as before, and time has not gone back. *)
Definition worker_frame (w w' : World) : Prop :=
  w_hub w' = w_hub w ∧ w_txs w' = w_txs w ∧ w_clock w ≤ w_clock w'.

#[export] Instance worker_frame_preorder : PreOrder worker_frame.
Proof. split; [intros ?|intros ???]; unfold worker_frame; intuition (try lia; congruence). Qed.

Lemma frame_db_worker w w' : frame_db w w' → worker_frame w w'.
Proof. unfold frame_db, worker_frame. intuition. Qed.

Lemma frame_redis_worker w w' : frame_redis w w' → worker_frame w w'.
Proof. unfold frame_redis, worker_frame. intuition. Qed.

Lemma quiet_worker w w' :
  quiet w w' → worker_frame w w' ∧ w_db w' = w_db w ∧ w_redis w' = w_redis w.
Proof. intros (t & ? & ->). unfold worker_frame. cbn. done. Qed.

Section Steps.
Context {T : UuidText} {TT : TimeText} {S : Services} {HS : ServicesOk S} {HO : SentOnce S}.

Lemma step_update id st le n w tr r w' :
  world_ok w → fault_free tr → abs (w_db w) !! id = Some n →
  exec (UpdateStatus id st le) w tr r w' →
  world_ok w' ∧ worker_frame w w' ∧ w_redis w' = w_redis w ∧
  ∃ t, abs (w_db w') = <[id := Spec.mark t st le n]> (abs (w_db w)).
Proof.
  intros [Hdb Hr] Hff Hn H.
  apply UpdateStatus_refines in H as ((Hf & Hok & _) & t & _ & [(Ha & _)|(? & _)]); [|done..].
  assert (E : w_redis w' = w_redis w) by apply Hf. unfold world_ok. rewrite E.
  split; [done|]. split; [by apply frame_db_worker|]. split; [done|]. exists t.
  rewrite Ha. unfold Spec.update_status. by rewrite Hn.
Qed.

Lemma step_increment id n w tr r w' :
  world_ok w → fault_free tr → abs (w_db w) !! id = Some n →
  exec (IncrementAttempt id) w tr r w' →
  world_ok w' ∧ worker_frame w w' ∧ w_redis w' = w_redis w ∧
  ∃ t, abs (w_db w') = <[id := Spec.count_attempt t n]> (abs (w_db w)).
Proof.
  intros [Hdb Hr] Hff Hn H.
  apply IncrementAttempt_refines in H as ((Hf & Hok & _) & t & _ & [(Ha & _)|(? & _)]); [|done..].
  assert (E : w_redis w' = w_redis w) by apply Hf. unfold world_ok. rewrite E.
  split; [done|]. split; [by apply frame_db_worker|]. split; [done|]. exists t.
  cbn [fst] in Ha. rewrite Ha. unfold Spec.increment_attempt. by rewrite Hn.
Qed.

Lemma step_record a w tr r w' :
  world_ok w → exec (CreateDeliveryAttempt a) w tr r w' →
  world_ok w' ∧ worker_frame w w' ∧ w_redis w' = w_redis w ∧
  abs (w_db w') = abs (w_db w).
Proof.
  intros [Hdb Hr] H.
  apply CreateDeliveryAttempt_records in H as ((Hf & Hok & Hn & _) & _ & _); [|done].
  assert (E : w_redis w' = w_redis w) by apply Hf. unfold world_ok, abs. rewrite E, Hn.
  split; [done|]. split; [by apply frame_db_worker|done].
Qed.

(** A command to the queue. *)
Lemma step_queue (applied : AQueue → AQueue → Prop) w tr err w' :
  world_ok w → fault_free tr →
  frame_redis w w' ∧ queued tr err (w_redis w) (w_redis w') applied →
  world_ok w' ∧ worker_frame w w' ∧ w_db w' = w_db w ∧
  applied (aqueue (w_redis w)) (aqueue (w_redis w')).
Proof.
  intros [Hdb Hr] Hff (Hf & Hok & [(Ha & _)|(? & _)]); [|done].
  assert (E : w_db w' = w_db w) by apply Hf. unfold world_ok. rewrite E.
  split; [done|]. split; [by apply frame_redis_worker|done].
Qed.

Lemma step_ack k i w tr r w' :
  world_ok w → fault_free tr → exec (Ack k i) w tr r w' →
  world_ok w' ∧ worker_frame w w' ∧ w_db w' = w_db w ∧
  acknowledged k i (aqueue (w_redis w)) (aqueue (w_redis w')).
Proof.
  intros Hw Hff H. eapply step_queue; [done|exact Hff|].
  apply Ack_queued in H; [done|by apply Hw].
Qed.

(** A broadcast, or a counter. *)
Lemma step_broadcast id s w tr u w' :
  world_ok w → exec (Broadcast id s) w tr u w' →
  world_ok w' ∧ worker_frame w w' ∧ w_db w' = w_db w ∧ w_redis w' = w_redis w.
Proof.
  intros Hw H. apply Broadcast_writes in H as (Hq & _ & _).
  apply quiet_worker in Hq as (Hf & E1 & E2). unfold world_ok. by rewrite E1, E2.
Qed.

Lemma step_inc c l w tr u w' : exec (do (Inc c l)) w tr u w' → w' = w ∧ fault_free tr.
Proof. intros [-> H]%exec_do. apply counter_doc in H. split; [done|by repeat constructor]. Qed.

Lemma step_observe c l d w tr u w' : exec (do (Observe c l d)) w tr u w' → w' = w.
Proof. intros [-> H]%exec_do. by apply histogram_doc in H. Qed.

Lemma step_now w tr t w' :
  world_ok w → exec (do Now) w tr t w' →
  world_ok w' ∧ worker_frame w w' ∧ w_db w' = w_db w ∧ w_redis w' = w_redis w ∧
  w_clock w ≤ t ∧ w_clock w' = t.
Proof.
  intros Hw H. apply now_quiet in H as (_ & Hle & Hc & Hq).
  apply quiet_worker in Hq as (Hf & E1 & E2). unfold world_ok. by rewrite E1, E2.
Qed.
End Steps.

Lemma insert_twice (S : Store) (id : UUID) n m : <[id := n]> (<[id := m]> S) = <[id := n]> S.
Proof. apply insert_insert_eq. Qed.

(** Run the next part of a program without faults. *)
Ltac part H Hff :=
  let a := fresh "a" in let w1 := fresh "w" in let t1 := fresh "tr" in let t2 := fresh "tr" in
  let Hx := fresh "Hx" in let Hf := fresh "Hff1" in
  apply exec_bind in H as (a & w1 & t1 & t2 & -> & Hx & H);
  apply fault_free_app in Hff as [Hf Hff].

Section Process.
Context {T : UuidText} {TT : TimeText} {S : Services} {HS : ServicesOk S} {HO : SentOnce S} {WH : Webhook}.

Lemma settle_success n msg r m w tr u w' :
  world_ok w → fault_free tr → abs (w_db w) !! n_ID n = Some m → d_Error r = None →
  exec (settle n msg r) w tr u w' →
  world_ok w' ∧ worker_frame w w' ∧
  (∃ t, abs (w_db w') = <[n_ID n := Spec.mark t StatusDelivered "" m]> (abs (w_db w))) ∧
  acknowledged (m_StreamID msg) (m_MessageID msg) (aqueue (w_redis w)) (aqueue (w_redis w')).
Proof.
  intros Hw Hff Hm Hr H. unfold settle in H. rewrite Hr in H.
  part H Hff. apply (step_update _ _ _ m) in Hx as (Hw1 & Hf1 & E1 & t & Ha); [|done..].
  part H Hff. apply step_ack in Hx as (Hw2 & Hf2 & E2 & Hack); [|done..].
  part H Hff. apply step_inc in Hx as [-> _].
  apply step_broadcast in H as (Hw3 & Hf3 & E3 & E4); [|done].
  split; [done|]. split; [by etrans; [|etrans]|]. rewrite E4, <- E1. split; [|done].
  exists t. by rewrite E3, E2.
Qed.

Lemma settle_failure n msg r e m w tr u w' :
  world_ok w → fault_free tr → abs (w_db w) !! n_ID n = Some m → d_Error r = Some e →
  wrap64 (n_AttemptCount n + 1) = n_AttemptCount n + 1 →
  exec (settle n msg r) w tr u w' →
  world_ok w' ∧ worker_frame w w' ∧ ∃ t Q1,
  acknowledged (m_StreamID msg) (m_MessageID msg) Q1 (aqueue (w_redis w')) ∧
  ((n_AttemptCount n + 1 < n_MaxRetries n ∧
    abs (w_db w') = <[n_ID n := Spec.mark t StatusQueued (Error e) m]> (abs (w_db w)) ∧
    ∃ now, w_clock w ≤ now ≤ w_clock w' ∧
      delayed_to (<[delayed_member (n_ID n) (n_Channel n) (n_Priority n)
        := UnixMilli (now + Backoff (n_AttemptCount n + 1))]> (q_delayed (aqueue (w_redis w))))
      (aqueue (w_redis w)) Q1) ∨
   (n_MaxRetries n ≤ n_AttemptCount n + 1 ∧
    abs (w_db w') = <[n_ID n := Spec.mark t StatusFailed (Error e) m]> (abs (w_db w)) ∧
    appended DLQStream [("notification_id", uuid_String (n_ID n)); ("channel", n_Channel n);
                        ("error", Error e)] (aqueue (w_redis w)) Q1)).
Proof.
  intros Hw Hff Hm Hr Hwrap H. unfold settle in H. rewrite Hr, Hwrap in H. unfold ShouldRetry in H.
  part H Hff. destruct (Z.ltb_spec (n_AttemptCount n + 1) (n_MaxRetries n)) as [Hlt|Hge].
  - part Hx Hff1. apply step_now in Hx0 as (Hw1 & Hf1 & D1 & R1 & Hc1 & Hc2); [|done].
    part Hx Hff1. apply (step_update _ _ _ m) in Hx0 as (Hw2 & Hf2 & R2 & t & Ha);
      [|done..|by rewrite D1].
    part Hx Hff1. eapply step_queue
      in Hw2 as (Hw3 & Hf3 & D3 & Hdel); [|exact Hff3|by apply EnqueueDelayed_queued in Hx0; [exact Hx0|apply Hw2]].
    part Hx Hff1. apply step_inc in Hx1 as [-> _].
    apply step_broadcast in Hx as (Hw4 & Hf4 & D4 & R4); [|done].
    part H Hff. apply step_ack in Hx as (Hw5 & Hf5 & D5 & Hack); [|done..].
    destruct H as (_ & _ & ->). split; [done|].
    pose proof (transitivity Hf2 (transitivity Hf3 (transitivity Hf4 Hf5))) as Hf.
    split; [by etrans|].
    exists t. eexists. split; [exact Hack|]. left. split; [done|].
    split; [by rewrite D5, D4, D3, Ha, D1|]. exists a0.
    split; [destruct Hf as (_ & _ & ?); lia|]. rewrite R4. by rewrite R2, R1 in Hdel.
  - part Hx Hff1. apply (step_update _ _ _ m) in Hx0 as (Hw2 & Hf2 & R2 & t & Ha); [|done..].
    part Hx Hff1. eapply step_queue
      in Hw2 as (Hw3 & Hf3 & D3 & Hdlq); [|exact Hff2|by apply Push_queued in Hx0; [exact Hx0|apply Hw2]].
    part Hx Hff1. apply step_inc in Hx1 as [-> _]. part Hx Hff1. apply step_inc in Hx1 as [-> _].
    apply step_broadcast in Hx as (Hw4 & Hf4 & D4 & R4); [|done].
    part H Hff. apply step_ack in Hx as (Hw5 & Hf5 & D5 & Hack); [|done..].
    destruct H as (_ & _ & ->). split; [done|].
    split; [by etrans; [|etrans; [|etrans]]|].
    exists t. eexists. split; [exact Hack|]. right. split; [done|].
    split; [by rewrite D5, D4, D3, Ha|]. rewrite R4. by rewrite R2 in Hdlq.
Qed.

(** The delivery and its record: one call of the webhook. *)
Lemma deliver_once_spec n p m w tr r w' ch url payload :
  ProviderOk p ch url payload → world_ok w → fault_free tr →
  abs (w_db w) !! n_ID n = Some m →
  exec (deliver_once n p) w tr r w' →
  world_ok w' ∧ worker_frame w w' ∧ w_redis w' = w_redis w ∧
  (∃ t, abs (w_db w') = <[n_ID n := Spec.count_attempt t m]> (abs (w_db w))) ∧
  ∃ answer, posts tr = [(url, payload n, answer)] ∧ reports answer r.
Proof.
  intros Hp Hw Hff Hm H. unfold deliver_once in H.
  part H Hff. pose proof (exec_no_posts _ _ _ _ _ (only_do no_post Now eq_refl) Hx) as P1.
  apply step_now in Hx as (Hw1 & Hf1 & D1 & R1 & _); [|done].
  part H Hff. apply (provider_sends (p := p)) in Hx as (Hq & _ & s1 & s2 & answer & -> & Hrep).
  apply quiet_worker in Hq as (Hf2 & D2 & R2).
  part H Hff. pose proof (exec_no_posts _ _ _ _ _ (only_do no_post Now eq_refl) Hx) as P3.
  assert (Hw2 : world_ok w1) by (unfold world_ok; by rewrite D2, R2).
  apply step_now in Hx as (Hw3 & Hf3 & D3 & R3 & _); [|done].
  part H Hff. pose proof (exec_no_posts _ _ _ _ _ (only_do no_post (Observe _ _ _) eq_refl) Hx) as P4.
  apply step_observe in Hx as ->.
  part H Hff. pose proof (exec_no_posts _ _ _ _ _ (no_post_IncrementAttempt _) Hx) as P5.
  apply (step_increment _ m) in Hx as (Hw5 & Hf5 & R5 & t & Ha); [|done..|by rewrite D3, D2, D1].
  part H Hff. pose proof (exec_no_posts _ _ _ _ _ (no_post_CreateDeliveryAttempt _) Hx) as P6.
  apply step_record in Hx as (Hw6 & Hf6 & R6 & Hb); [|done].
  destruct H as (-> & -> & ->). split; [done|].
  split; [by etrans; [|etrans; [|etrans; [|etrans]]]|].
  split; [by rewrite R6, R5, R3, R2, R1|]. split; [exists t; by rewrite Hb, Ha, D3, D2, D1|].
  exists answer. split; [|done]. rewrite !posts_app, P1, P3, P4, P5, P6. done.
Qed.

Lemma process_notification_settles d msg id w tr u w' :
  providers_ok d → world_ok w → fault_free tr →
  exec (process_notification d msg id) w tr u w' →
  world_ok w' ∧ worker_frame w w' ∧
  settled d msg id (w_clock w) (w_clock w') (abs (w_db w)) (aqueue (w_redis w)) (abs (w_db w')) (aqueue (w_redis w'))
    (posts tr).
Proof.
  intros Hd Hw Hff H. unfold process_notification in H.
  part H Hff. pose proof (exec_no_posts _ _ _ _ _ (no_post_GetByID _) Hx) as P1.
  apply GetByID_reads in Hx as (Hf1 & D1 & Hcase); [|apply Hw].
  assert (R1 : w_redis w0 = w_redis w) by apply Hf1.
  assert (Hw0 : world_ok w0) by (unfold world_ok; by rewrite D1, R1).
  apply frame_db_worker in Hf1. rewrite posts_app, P1. cbn [app].
  destruct Hcase as [(n & -> & Hn)|[(-> & Hn)|(e & _ & _ & ?)]]; [| |done].
  2: { part H Hff. pose proof (exec_no_posts _ _ _ _ _ (no_post_Ack _ _) Hx) as P2.
       apply step_ack in Hx as (Hw2 & Hf2 & D2 & Hack); [|done..]. destruct H as (-> & _ & ->).
       split; [done|]. split; [by etrans|]. rewrite app_nil_r, P2, D2, D1.
       rewrite R1 in Hack. by constructor. }
  fold (terminal (n_Status n)) in H. destruct (terminal (n_Status n)) eqn:Hterm.
  { part H Hff. pose proof (exec_no_posts _ _ _ _ _ (no_post_Ack _ _) Hx) as P2.
    apply step_ack in Hx as (Hw2 & Hf2 & D2 & Hack); [|done..]. destruct H as (-> & _ & ->).
    split; [done|]. split; [by etrans|]. rewrite app_nil_r, P2, D2, D1.
    rewrite R1 in Hack. by econstructor. }
  assert (Hid : n_ID n = id) by by eapply (abs_keyed (w_db w)).
  part H Hff. pose proof (exec_no_posts _ _ _ _ _ (no_post_UpdateStatus _ _ _) Hx) as P2.
  apply (step_update _ _ _ n) in Hx as (Hw2 & Hf2 & R2 & t1 & Ha1); [|done|done|by rewrite D1, Hid].
  rewrite posts_app, P2. cbn [app]. rewrite D1, Hid in Ha1.
  destruct (dp_providers d !! n_Channel n) as [p|] eqn:Hp.
  - destruct (Hd _ _ Hp) as (payload & Hpok & Hpay).
    apply exec_bind in H as (res & w2 & tr3 & tr4 & -> & Hx & H).
    apply fault_free_app in Hff as [Hff3 Hff].
    apply (deliver_once_spec n p (Spec.mark t1 StatusProcessing "" n) _ _ _ _ _ _ payload Hpok)
      in Hx as (Hw3 & Hf3 & R3 & (t2 & Ha2) & answer & P3 & Hrep);
      [|done|done|rewrite Ha1, Hid; by rewrite lookup_insert_eq].
    rewrite Ha1, Hid, insert_twice in Ha2. fold (attempted t1 t2 n) in Ha2.
    assert (Hm : abs (w_db w2) !! n_ID n = Some (attempted t1 t2 n))
      by (rewrite Ha2, Hid; by rewrite lookup_insert_eq).
    pose proof (exec_no_posts _ _ _ _ _ (no_post_settle _ _ _) H) as P4.
    rewrite posts_app, P3, P4, Hpay by done. cbn [app].
    assert (R : w_redis w2 = w_redis w) by by rewrite R3, R2, R1.
    assert (Hf : worker_frame w w2) by by etrans; [|etrans].
    pose proof (reports_success _ _ Hrep) as Hsucc.
    destruct (d_Error res) as [e|] eqn:He.
    + apply (settle_failure n msg res e (attempted t1 t2 n)) in H
        as (Hw4 & Hf4 & t3 & Q1 & Hack & Hcase); [|done..|].
      2: { apply wrap64_id. destruct (wt_attempts _ (abs_well_typed _ _ _ (proj1 Hw) Hn)).
           unfold int64_range, int_min, int_max, int4_max in *. lia. }
      split; [done|]. split; [by etrans|].
      assert (Hbad : failed_with answer (Error e)) by by exists res, e.
      assert (w_clock w ≤ w_clock w2) by apply Hf.
      rewrite Hid, R in Hcase.
      destruct Hcase as [(Hlt & -> & now & Hnow & Hdel)|(Hge & -> & Hdlq)];
        rewrite Ha2, insert_twice; econstructor; eauto; lia.
    + apply (settle_success n msg res (attempted t1 t2 n)) in H as (Hw4 & Hf4 & (t3 & ->) & Hack);
        [|done..].
      split; [done|]. split; [by etrans|]. rewrite Hid, Ha2, insert_twice. rewrite R in Hack.
      destruct (proj1 Hsucc eq_refl) as (code & body & -> & ?). by eapply st_delivered.
  - part H Hff. pose proof (exec_no_posts _ _ _ _ _ (no_post_UpdateStatus _ _ _) Hx) as P3.
    apply (step_update _ _ _ (Spec.mark t1 StatusProcessing "" n)) in Hx
      as (Hw3 & Hf3 & R3 & t2 & Ha2); [|done|done|rewrite Ha1, Hid; by rewrite lookup_insert_eq].
    part H Hff. pose proof (exec_no_posts _ _ _ _ _ (no_post_Ack _ _) Hx) as P4.
    apply step_ack in Hx as (Hw4 & Hf4 & D4 & Hack); [|done..]. destruct H as (-> & _ & ->).
    split; [done|]. split; [by etrans; [|etrans; [|etrans]]|].
    rewrite !posts_app, P3, P4, D4, Ha2, Ha1, Hid, insert_twice. rewrite R3, R2, R1 in Hack.
    by econstructor.
Qed.
(** The rate limiter's keys are its own. *)
Lemma limiter_key_ne ch : limiter_key ch ≠ DelayedSet.
Proof. unfold limiter_key, DelayedSet. intros [=]. Qed.

Lemma script_aqueue max ch now z r r' :
  script_ran max ch now z r r' → aqueue r' = aqueue r ∧ (redis_ok r → redis_ok r').
Proof.
  intros (at_ & draw & E). destruct (script_spares (limiter_key ch) windowMs max (UnixMilli now) at_ draw r)
    as [Es Ez]. rewrite E in Es, Ez. cbn in Es, Ez. unfold aqueue, lane, group, stream, redis_ok.
  rewrite Es, Ez by apply limiter_key_ne. done.
Qed.

Lemma no_post_rate_gate fuel max ch : only no_post (rate_gate fuel max ch).
Proof. induction fuel as [|fuel IH]; [done|]. cbn [rate_gate]. unfold Allow. only_go. Qed.

Lemma rate_gate_frame fuel max ch w tr g w' :
  world_ok w → exec (rate_gate fuel max ch) w tr g w' →
  world_ok w' ∧ worker_frame w w' ∧ w_db w' = w_db w ∧
  aqueue (w_redis w') = aqueue (w_redis w).
Proof.
  revert w tr. induction fuel as [|fuel IH]; intros w tr Hw H.
  - destruct H as (_ & _ & ->). done.
  - cbn [rate_gate] in H. apply exec_bind in H as (r & w1 & tr1 & tr2 & -> & Hx & H).
    apply Allow_runs in Hx as (Hf & now & _ & Hcase).
    assert (HR : aqueue (w_redis w1) = aqueue (w_redis w) ∧ redis_ok (w_redis w1)).
    { destruct Hcase as [(z & Hs & _)|(_ & _ & [->|(z & Hs)])];
        [|split; [done|apply Hw]|]; apply script_aqueue in Hs as [? Ho]; (split; [done|apply Ho, Hw]). }
    destruct HR as [HR Hrok].
    assert (D1 : w_db w1 = w_db w) by apply Hf.
    assert (Hw1 : world_ok w1) by (split; [rewrite D1; apply Hw|done]).
    apply frame_redis_worker in Hf.
    assert (Hstop : ∀ w2, w2 = w1 → world_ok w2 ∧ worker_frame w w2 ∧ w_db w2 = w_db w ∧
      aqueue (w_redis w2) = aqueue (w_redis w)) by by intros w2 ->.
    destruct r as [[|]|e]; [by apply Hstop; destruct H as (_ & _ & ->)| |
                            by apply Hstop; destruct H as (_ & _ & ->)].
    apply exec_bind in H as (b & w2 & tr3 & tr4 & -> & Hx & H).
    apply exec_do in Hx as [-> Hsl]. apply sleep_or_done_doc in Hsl as [Hq _].
    apply quiet_worker in Hq as (Hf2 & D2 & R2).
    assert (Hw2 : world_ok w2) by (unfold world_ok; by rewrite D2, R2).
    destruct b.
    + destruct H as (_ & _ & ->). rewrite D2, R2. split; [done|]. split; [by etrans|done].
    + apply IH in H as (? & ? & D3 & R3); [|done]. rewrite D3, R3, D2, R2.
      split; [done|]. split; [by etrans; [|etrans]|done].
Qed.

(** A program that is never broken off while it waits. *)
Definition never_gives_up {A} (p : prog A) : Prop := ∀ w tr a w', exec p w tr a w' → gave_up tr = false.

Lemma waitless_never_gives_up {A} (p : prog A) : only no_wait p → never_gives_up p.
Proof.
  intros Hp w tr a w' H. apply (exec_only _ _ _ _ _ _ Hp) in H. unfold gave_up.
  induction H as [|[X e x] tr He _ IH]; [done|]. cbn. rewrite IH. by destruct e.
Qed.

Lemma never_gives_up_bind {A B} (p : prog A) (f : A → prog B) :
  never_gives_up p → (∀ a, never_gives_up (f a)) → never_gives_up (bind p f).
Proof. intros Hp Hf w tr b w' H. exec_step H. by rewrite gave_up_app, (Hp _ _ _ _ Hx), (Hf _ _ _ _ _ H). Qed.

Lemma processing_never_gives_up d msg id : providers_ok d → never_gives_up (process_notification d msg id).
Proof.
  intros Hd. unfold process_notification.
  apply never_gives_up_bind; [apply waitless_never_gives_up; unfold GetByID; only_go|].
  intros [n|e]; [|apply waitless_never_gives_up; unfold Ack; only_go].
  destruct (_ || _); [apply waitless_never_gives_up; unfold Ack; only_go|].
  apply never_gives_up_bind; [apply waitless_never_gives_up; unfold UpdateStatus; only_go|intros _].
  destruct (dp_providers d !! n_Channel n) as [p|] eqn:Hp;
    [|apply waitless_never_gives_up; unfold UpdateStatus, Ack; only_go].
  apply never_gives_up_bind; [|intros res; apply waitless_never_gives_up; unfold settle, UpdateStatus, EnqueueDelayed, Push, Broadcast, Ack; only_go].
  unfold deliver_once. apply never_gives_up_bind; [by apply waitless_never_gives_up|intros start].
  apply never_gives_up_bind.
  - destruct (Hd _ _ Hp) as (payload & Hpok & _). intros w tr r w' H.
    by apply (provider_sends (p := p)) in H as (_ & _ & t1 & t2 & answer & -> & _).
  - intros res. apply waitless_never_gives_up. unfold IncrementAttempt, CreateDeliveryAttempt. only_go.
Qed.

Lemma rate_gate_gives_up fuel max ch w tr g w' :
  exec (rate_gate fuel max ch) w tr g w' → gave_up tr = match g with GateDone => true | _ => false end.
Proof.
  revert w tr. induction fuel as [|fuel IH]; intros w tr H; [by destruct H as (-> & -> & _)|].
  cbn [rate_gate] in H. exec_step H.
  assert (Ha : gave_up tr0 = false) by (eapply waitless_never_gives_up, Hx; unfold Allow; only_go).
  rewrite gave_up_app, Ha.
  destruct x as [[|]|e]; [by destruct H as (-> & -> & _)| |by destruct H as (-> & -> & _)].
  exec_step H. apply exec_do in Hx0 as [-> _]. cbn.
  destruct x; [by destruct H as (_ & -> & _)|]. by eapply IH.
Qed.

(** Every way a message can end. *)
Lemma processMessage_ends fuel d msg w tr p w' :
  providers_ok d → world_ok w → fault_free tr →
  exec (processMessage fuel d msg) w tr p w' →
  world_ok w' ∧ worker_frame w w' ∧
  match uuid_Parse (m_NotificationID msg) with
  | None =>
      p = Returned ∧ abs (w_db w') = abs (w_db w) ∧ posts tr = [] ∧
      acknowledged (m_StreamID msg) (m_MessageID msg) (aqueue (w_redis w)) (aqueue (w_redis w'))
  | Some id =>
      (p = Returned ∧ gave_up tr = false ∧
       settled d msg id (w_clock w) (w_clock w') (abs (w_db w)) (aqueue (w_redis w)) (abs (w_db w'))
         (aqueue (w_redis w')) (posts tr)) ∨
      (gave_up tr = match p with Returned => true | WaitsExceeded => false end ∧
       abs (w_db w') = abs (w_db w) ∧ aqueue (w_redis w') = aqueue (w_redis w) ∧ posts tr = [])
  end.
Proof.
  intros Hd Hw Hff H. unfold processMessage in H.
  destruct (uuid_Parse (m_NotificationID msg)) as [id|].
  - part H Hff. pose proof (exec_no_posts _ _ _ _ _ (no_post_rate_gate _ _ _) Hx) as P1.
    pose proof (rate_gate_gives_up _ _ _ _ _ _ _ Hx) as G1.
    apply rate_gate_frame in Hx as (Hw1 & Hf1 & D1 & R1); [|done].
    rewrite posts_app, P1. rewrite gave_up_app, G1. cbn [app]. rewrite <- D1, <- R1.
    destruct a; [|destruct H as (-> & -> & ->); split; [done|]; split; [done|]; by right..].
    part H Hff. pose proof (processing_never_gives_up _ _ _ Hd _ _ _ _ Hx) as G2. apply process_notification_settles in Hx as (Hw2 & Hf2 & Hs); [|done..].
    destruct H as (-> & -> & ->). rewrite app_nil_r. split; [done|]. split; [by etrans|].
    left. split; [done|]. split; [exact G2|]. eapply settled_later; [apply Hf1|reflexivity|exact Hs].
  - part H Hff. pose proof (exec_no_posts _ _ _ _ _ (no_post_Ack _ _) Hx) as P1.
    apply step_ack in Hx as (Hw1 & Hf1 & D1 & Hack); [|done..]. destruct H as (-> & -> & ->).
    rewrite app_nil_r, D1. done.
Qed.

(** (C7) The dispatcher, alone and without faults, brings every message to one of
    its ends: the message of an unknown or finished notification is only
    acknowledged; a notification without a provider fails; any other is
    posted to its provider's webhook exactly once and is then delivered
    (answered below 400), or queued again in the delayed set at the instant
    the backoff gives while attempts are left, or failed and put on the
    dead-letter stream; always counting the attempt and acknowledging the
    message. The one exception: the context ended while the worker was waiting
    for the rate limiter, and then nothing happens at all. For that wait 21
    turns are enough. (The Redis client is to send no command again.) *)
Theorem processMessage_settles fuel d msg id w tr p w' :
  providers_ok d → world_ok w → fault_free tr →
  uuid_Parse (m_NotificationID msg) = Some id → 0 < dp_maxPerSec d → (21 ≤ fuel)%nat →
  (∀ m t, zset (limiter_key (m_Channel msg)) (w_redis w) !! m = Some t →
          t ≤ UnixMilli (w_clock w)) →
  exec (processMessage fuel d msg) w tr p w' →
  p = Returned ∧ world_ok w' ∧ worker_frame w w' ∧
  if gave_up tr then
    abs (w_db w') = abs (w_db w) ∧ aqueue (w_redis w') = aqueue (w_redis w) ∧ posts tr = []
  else
    settled d msg id (w_clock w) (w_clock w') (abs (w_db w)) (aqueue (w_redis w)) (abs (w_db w'))
      (aqueue (w_redis w')) (posts tr).
Proof.
  intros Hd Hw Hff Hid Hmax Hfuel Hz H.
  pose proof (processMessage_ends _ _ _ _ _ _ _ Hd Hw Hff H) as (Hw' & Hf & Hend).
  rewrite Hid in Hend. assert (Hp : p = Returned).
  - unfold processMessage in H. rewrite Hid in H.
    apply exec_bind in H as (g & w1 & tr1 & tr2 & -> & Hx & H).
    assert (g ≠ GateFuel) as Hg; [|destruct g; [|by destruct H as (_ & -> & _)|done]].
    + replace fuel with (Datatypes.S (fuel - 1)) in Hx by lia.
      eapply rate_gate_opens; [exact Hmax|exact Hz| |exact Hx]. unfold time_Millisecond. lia.
    + apply exec_bind in H as (? & ? & ? & ? & _ & _ & H). by destruct H as (_ & -> & _).
  - subst p. split; [done|split; [done|split; [done|]]]. by destruct Hend as [(_ & -> & ?)|(-> & ?)].
Qed.
End Process.
