(* ===== verification/Lifecycle.v ===== *)
(** * How often a notification is delivered

    Whatever messages about it reach a worker, a notification is posted to the
    webhook at most as often as attempts are left to it. *)

From stdpp Require Import gmap.
From S2P Require Import Prelude GoLib Domain Sql Redis RedisFacts Effects Discipline Frames.
From S2P Require Import NotificationStore NotificationSpec Queue QueueSpec Delivery DeliverySpec.
From S2P Require Import Worker WorkerSpec.

(** The attempts a notification has left: at least one until its end. *)
Definition attempts_left (n : Notification) : Z :=
  if terminal (n_Status n) then 0 else Z.max 1 (n_MaxRetries n - n_AttemptCount n).

Lemma attempts_left_nonneg n : 0 ≤ attempts_left n.
Proof. unfold attempts_left. destruct (terminal _); lia. Qed.

Lemma attempts_left_mark t st le n :
  attempts_left (Spec.mark t st le n) =
  if terminal st then 0 else Z.max 1 (n_MaxRetries n - n_AttemptCount n).
Proof.
  unfold attempts_left, Spec.mark. destruct n.
  destruct (st =? StatusDelivered)%string; [reflexivity|].
  destruct (negb (le =? "")%string); reflexivity.
Qed.

(** A message uses as many attempts as it makes calls. *)
Lemma settled_attempts {T : UuidText} {WH : Webhook} d msg id lo hi S Q S' Q' calls n :
  settled d msg id lo hi S Q S' Q' calls → S !! id = Some n →
  ∃ n', S' !! id = Some n' ∧ Z.of_nat (length calls) + attempts_left n' ≤ attempts_left n.
Proof.
  intros H Hn. destruct H as [Q' H|m Q' H Ht|m t1 t2 Q' H Ht|m p code body t1 t2 t3 Q' H Ht
    |m p a t1 t2 t3 now err Q1 Q' H Ht Hp Hf Hlt|m p a t1 t2 t3 err Q1 Q' H Ht];
    [congruence|assert (m = n) as -> by congruence..].
  1: { exists n. split; [done|]. cbn. lia. }
  all: eexists; (split; [apply lookup_insert_eq|]); rewrite attempts_left_mark;
    unfold attempts_left; rewrite Ht; destruct n; cbn in *; lia.
Qed.

Section Lifecycle.
Context {T : UuidText} {TT : TimeText} {S : Services} {HS : ServicesOk S} {HO : SentOnce S} {WH : Webhook}.

Lemma process_all_attempts fuel d msgs id n w tr p w' :
  providers_ok d → world_ok w → fault_free tr →
  Forall (λ m, uuid_Parse (m_NotificationID m) = Some id) msgs →
  abs (w_db w) !! id = Some n → exec (process_all fuel d msgs) w tr p w' →
  ∃ n', abs (w_db w') !! id = Some n' ∧
        Z.of_nat (length (posts tr)) + attempts_left n' ≤ attempts_left n.
Proof.
  intros Hd Hw Hff Hm. revert n w tr Hw Hff. induction Hm as [|m msgs Hid _ IH];
    intros n w tr Hw Hff Hn H; cbn [process_all] in H.
  { destruct H as (-> & _ & ->). exists n. split; [done|]. cbn. lia. }
  part H Hff. apply processMessage_ends in Hx as (Hw1 & _ & Hend); [|done..].
  rewrite Hid in Hend.
  assert (H1 : ∃ n1, abs (w_db w0) !! id = Some n1 ∧
    Z.of_nat (length (posts tr0)) + attempts_left n1 ≤ attempts_left n).
  { destruct Hend as [(_ & _ & Hs)|(_ & E & _ & E2)]; [by eapply settled_attempts|].
    exists n. rewrite E, E2. split; [done|]. cbn. lia. }
  destruct H1 as (n1 & Hn1 & Hle1). rewrite posts_app, length_app.
  destruct a.
  - destruct (IH _ _ _ Hw1 Hff Hn1 H) as (n2 & ? & ?). exists n2. split; [done|]. lia.
  - destruct H as (-> & _ & ->). exists n1. split; [done|]. cbn. lia.
Qed.

(** (C38) However many messages about a notification one worker processes, without
    faults, the notification is posted to the webhook at most as often as it
    has attempts left (its retry limit less its attempts, but once if the
    limit is zero), and not at all once it is delivered, cancelled or
    failed. (The Redis client is to send no command again.) *)
Theorem attempts_bounded fuel d msgs id n w tr p w' :
  providers_ok d → world_ok w → fault_free tr →
  Forall (λ m, uuid_Parse (m_NotificationID m) = Some id) msgs →
  abs (w_db w) !! id = Some n → exec (process_all fuel d msgs) w tr p w' →
  Z.of_nat (length (posts tr)) ≤ attempts_left n.
Proof.
  intros Hd Hw Hff Hm Hn H.
  destruct (process_all_attempts _ _ _ _ _ _ _ _ _ Hd Hw Hff Hm Hn H) as (n' & _ & ?).
  pose proof (attempts_left_nonneg n'). lia.
Qed.
End Lifecycle.
