(* ===== verification/Validator.v ===== *)
(** * Validation (internal/validator, and the tags of internal/domain)

    The struct tags are data; the tag library (go-playground/validator) is a
    parameter whose documented behaviour is [StructValidatorOk]. The checks of
    the content are the code's own. *)

From stdpp Require Import gmap.
From Stdlib Require Import Ascii.
From S2P Require Import Prelude GoLib Domain Sql.

(** ** Struct tags *)

Inductive Tag :=
  | TagRequired
  | TagOmitempty
  | TagRequiredWithout (present : bool)   (* whether the other field is set *)
  | TagMin (n : Z)
  | TagMax (n : Z)
  | TagDive.

(** The values of the fields: a string, a slice (its length), or a pointer or
    map that may be nil. *)
Inductive FieldVal :=
  | FString (s : string)
  | FSlice (length : option Z)
  | FIntPtr (p : option Z)
  | FStringPtr (p : option string)
  | FOther (set : bool).

Record Field := mkField { fd_name : string; fd_val : FieldVal; fd_tags : list Tag }.

(** A struct: its fields, and the structs a [dive] goes into. *)
Record StructVal := mkStruct { sv_fields : list Field; sv_dive : list (list Field) }.

(** Not the zero value (a pointer: not nil). *)
Definition has_value (v : FieldVal) : bool :=
  match v with
  | FString s => negb (s =? "")%string
  | FSlice o => bool_decide (is_Some o)
  | FIntPtr o => bool_decide (is_Some o)
  | FStringPtr o => bool_decide (is_Some o)
  | FOther b => b
  end.

(** What [min] and [max] measure: characters, elements, the number. *)
Definition measure (v : FieldVal) : Z :=
  match v with
  | FString s => rune_count s
  | FSlice o => default 0 o
  | FIntPtr o => default 0 o
  | FStringPtr o => default 0 (rune_count <$> o)
  | FOther _ => 0
  end.

(** The tags of a field, in order; [omitempty] ends the checks of a field
    without a value. *)
Fixpoint tags_ok (v : FieldVal) (tags : list Tag) : bool :=
  match tags with
  | [] => true
  | TagRequired :: tags => has_value v && tags_ok v tags
  | TagOmitempty :: tags => if has_value v then tags_ok v tags else true
  | TagRequiredWithout present :: tags => (present || has_value v) && tags_ok v tags
  | TagMin n :: tags => (n <=? measure v) && tags_ok v tags
  | TagMax n :: tags => (measure v <=? n) && tags_ok v tags
  | TagDive :: tags => tags_ok v tags
  end.

Definition fields_ok (l : list Field) : bool := forallb (λ f, tags_ok (fd_val f) (fd_tags f)) l.

Definition struct_ok (s : StructVal) : bool := fields_ok (sv_fields s) && forallb fields_ok (sv_dive s).

(** [validate.Struct]: an error with a text, or nil. *)
Class StructValidator := { validate_Struct : StructVal → option string }.

Class StructValidatorOk (V : StructValidator) := {
  validate_Struct_doc s : validate_Struct s = None ↔ struct_ok s = true;
}.

Definition create_fields (req : CreateNotificationRequest) : list Field :=
  [mkField "IdempotencyKey" (FString (r_IdempotencyKey req)) [TagOmitempty; TagMax 255];
   mkField "Channel" (FString (r_Channel req)) [TagRequired];
   mkField "Priority" (FString (r_Priority req)) [TagRequired];
   mkField "Recipient" (FString (r_Recipient req)) [TagRequired; TagMax 500];
   mkField "Subject" (FString (r_Subject req)) [TagOmitempty; TagMax 500];
   mkField "Body" (FString (r_Body req))
     [TagRequiredWithout (bool_decide (is_Some (r_TemplateID req))); TagMax 10000];
   mkField "TemplateID" (FOther (bool_decide (is_Some (r_TemplateID req)))) [TagOmitempty];
   mkField "TemplateVars" (FOther (bool_decide (is_Some (r_TemplateVars req)))) [TagOmitempty];
   mkField "ScheduledAt" (FOther (bool_decide (is_Some (r_ScheduledAt req)))) [TagOmitempty];
   mkField "MaxRetries" (FIntPtr (r_MaxRetries req)) [TagOmitempty; TagMin 0; TagMax 10]].

Definition create_struct (req : CreateNotificationRequest) : StructVal :=
  mkStruct (create_fields req) [].

Definition batch_struct (req : BatchCreateRequest) : StructVal :=
  mkStruct
    [mkField "Notifications" (FSlice ((λ l, Z.of_nat (length l)) <$> b_Notifications req))
       [TagRequired; TagMin 1; TagMax 1000; TagDive]]
    (create_fields <$> default [] (b_Notifications req)).

Definition create_template_struct (req : CreateTemplateRequest) : StructVal :=
  mkStruct
    [mkField "Name" (FString (ct_Name req)) [TagRequired; TagMin 1; TagMax 255];
     mkField "Channel" (FString (ct_Channel req)) [TagRequired];
     mkField "Subject" (FString (ct_Subject req)) [TagOmitempty; TagMax 500];
     mkField "Body" (FString (ct_Body req)) [TagRequired; TagMax 50000]] [].

Definition update_template_struct (req : UpdateTemplateRequest) : StructVal :=
  mkStruct
    [mkField "Name" (FStringPtr (ut_Name req)) [TagOmitempty; TagMin 1; TagMax 255];
     mkField "Channel" (FStringPtr (ut_Channel req)) [TagOmitempty];
     mkField "Subject" (FStringPtr (ut_Subject req)) [TagOmitempty; TagMax 500];
     mkField "Body" (FStringPtr (ut_Body req)) [TagOmitempty; TagMax 50000]] [].

(** [ValidateStruct], as the services use it: the wrapped error. *)
Definition ValidateStruct `{StructValidator} (s : StructVal) : option error :=
  (λ e, EWrap "" (ESentinel ErrValidation) (": " +:+ e)) <$> validate_Struct s.

(** ** The phone number's regular expression *)

(** One item of the expression: a class of characters and how often. *)
Record ReItem := mkRe { re_class : ascii → bool; re_min : nat; re_max : nat }.

Definition re_one (p : ascii → bool) : ReItem := mkRe p 1 1.

(** [^ .. $] over a sequence of items, by backtracking: [k] characters of the
    first item were read. *)
Fixpoint re_match (items : list ReItem) : list ascii → bool :=
  match items with
  | [] => λ s, match s with [] => true | _ => false end
  | it :: items' =>
      (fix go (k : nat) (s : list ascii) {struct s} : bool :=
         ((re_min it <=? k)%nat && re_match items' s) ||
         match s with
         | c :: s' => (k <? re_max it)%nat && re_class it c && go (S k) s'
         | [] => false
         end) 0%nat
  end.

Definition in_range (lo hi c : ascii) : bool :=
  (N_of_ascii lo <=? N_of_ascii c)%N && (N_of_ascii c <=? N_of_ascii hi)%N.

(** [^\+[1-9]\d{6,14}$]. *)
Definition phoneRegex : list ReItem :=
  [re_one (Ascii.eqb "+"); re_one (in_range "1" "9"); mkRe (in_range "0" "9") 6 14].

Definition MatchString (re : list ReItem) (s : string) : bool :=
  re_match re (String.list_ascii_of_string s).

(** ** Content *)

(** [mail.ParseAddress] succeeds, a parameter (the grammar of RFC 5322). *)
Class MailParser := { mail_ParseAddress : string → bool }.

Definition validation_error (msg : string) : option error :=
  Some (EWrap "" (ESentinel ErrValidation) (": " +:+ msg)).

Definition body_required (body : string) : option error :=
  if (body =? "")%string then validation_error "body is required" else None.

Definition ValidateNotificationContent `{MailParser} (channel : Channel)
    (recipient subject body : string) : option error :=
  if (channel =? ChannelEmail)%string then
    if negb (mail_ParseAddress recipient) then
      validation_error ("invalid email address: " +:+ recipient)
    else if (subject =? "")%string then
      validation_error "email notifications require a subject"
    else body_required body
  else if (channel =? ChannelSMS)%string then
    if negb (MatchString phoneRegex recipient) then
      validation_error ("invalid phone number (must be E.164 format): " +:+ recipient)
    else if 1600 <? len body then validation_error "SMS body exceeds 1600 characters"
    else body_required body
  else if (channel =? ChannelPush)%string then
    if (strings_TrimSpace recipient =? "")%string then
      validation_error "push notifications require a device token"
    else if 4096 <? len body then validation_error "push body exceeds 4096 characters"
    else body_required body
  else Some (EWrap "" (ESentinel ErrInvalidChannel) (": " +:+ channel)).
