(* ===== verification/Contents.v ===== *)
(** * What the content checks accept

    The matcher of the phone number's expression decides the language of the
    expression, and the checks of a notification's content accept exactly what
    the rules of its channel say. *)

From stdpp Require Import gmap.
From Stdlib Require Import Ascii.
From S2P Require Import Prelude GoLib Domain Sql Validator.

(** ** The language of an expression *)

(** The strings an expression [^ .. $] stands for: for each item, between its
    least and its greatest number of characters of its class. *)
Fixpoint re_lang (items : list ReItem) (s : list ascii) : Prop :=
  match items with
  | [] => s = []
  | it :: items' =>
      ∃ s1 s2, s = s1 ++ s2 ∧ Forall (λ c, re_class it c = true) s1 ∧
               (re_min it ≤ length s1 ≤ re_max it)%nat ∧ re_lang items' s2
  end.

(** The loop over one item, [k] characters of it being read. *)
Lemma re_item_lang it items' (k : nat) (s : list ascii) :
  (∀ s, re_match items' s = true ↔ re_lang items' s) →
  (fix go (k : nat) (s : list ascii) {struct s} : bool :=
     ((re_min it <=? k)%nat && re_match items' s) ||
     match s with
     | c :: s' => (k <? re_max it)%nat && re_class it c && go (S k) s'
     | [] => false
     end) k s = true ↔
  ∃ s1 s2, s = s1 ++ s2 ∧ Forall (λ c, re_class it c = true) s1 ∧
           (re_min it ≤ k + length s1)%nat ∧ (s1 = [] ∨ k + length s1 ≤ re_max it)%nat ∧
           re_lang items' s2.
Proof.
  intros Hrest. revert k. induction s as [|c s IH]; intros k.
  - rewrite orb_false_r, andb_true_iff, Nat.leb_le, Hrest. split.
    + intros [Hk Hs]. exists [], []. cbn. rewrite Nat.add_0_r. by split_and!; [| | |left|].
    + intros ([|? ?] & s2 & E & _ & Hk & _ & Hs); [|done]. cbn in *. subst s2.
      split; [lia|done].
  - rewrite orb_true_iff, !andb_true_iff, Nat.leb_le, Nat.ltb_lt, Hrest, IH. split.
    + intros [[Hk Hs]|[[Hk Hc] (s1 & s2 & -> & Hf & Hmin & Hmax & Hs)]].
      * exists [], (c :: s). cbn. rewrite Nat.add_0_r. by split_and!; [| | |left|].
      * exists (c :: s1), s2. cbn. split_and!; [done|by constructor|lia| |done].
        right. destruct Hmax as [->|?]; cbn; lia.
    + intros ([|c' s1] & s2 & E & Hf & Hmin & Hmax & Hs); cbn in *.
      * subst s2. left. split; [lia|done].
      * injection E as <- ->. apply Forall_cons in Hf as [Hc Hf]. right.
        destruct Hmax as [?|Hmax]; [done|]. split; [split; [lia|done]|].
        exists s1, s2. split_and!; [done|done|lia|right; lia|done].
Qed.

Lemma re_match_lang items s : re_match items s = true ↔ re_lang items s.
Proof.
  revert s. induction items as [|it items IH]; intros s; [by destruct s|].
  cbn [re_match re_lang]. rewrite (re_item_lang it items 0 s IH).
  split.
  - intros (s1 & s2 & -> & Hf & Hmin & Hmax & Hs). exists s1, s2. cbn in *.
    split_and!; try done. destruct Hmax as [->|?]; cbn; lia.
  - intros (s1 & s2 & -> & Hf & [Hmin Hmax] & Hs). exists s1, s2. cbn. split_and!; auto.
Qed.

(** ** Specification *)

Definition digit (c : ascii) : Prop := in_range "0" "9" c = true.

(** E.164: a plus sign and 7 to 15 digits, the first of them not zero. *)
Definition phone_number (s : string) : Prop :=
  ∃ d ds, String.list_ascii_of_string s = "+"%char :: d :: ds ∧
          in_range "1" "9" d = true ∧ Forall digit ds ∧ (6 ≤ length ds ≤ 14)%nat.

(** The rules of the channels. *)
Definition acceptable `{MailParser} (channel : Channel) (recipient subject body : string) : Prop :=
  body ≠ "" ∧
  ((channel = ChannelEmail ∧ mail_ParseAddress recipient = true ∧ subject ≠ "") ∨
   (channel = ChannelSMS ∧ phone_number recipient ∧ len body ≤ 1600) ∨
   (channel = ChannelPush ∧ strings_TrimSpace recipient ≠ "" ∧ len body ≤ 4096)).

Lemma re_lang_one p items s :
  re_lang (re_one p :: items) s ↔ ∃ c s', s = c :: s' ∧ p c = true ∧ re_lang items s'.
Proof.
  cbn [re_lang re_one re_class re_min re_max]. split.
  - intros (s1 & s2 & -> & Hf & Hl & Hs). destruct s1 as [|c [|]]; cbn in Hl; [lia| |lia].
    apply Forall_cons in Hf as [? _]. by exists c, s2.
  - intros (c & s' & -> & Hc & Hs). exists [c], s'. split_and!; [done| |cbn; lia..|done].
    by constructor.
Qed.

Lemma phoneRegex_spec s : MatchString phoneRegex s = true ↔ phone_number s.
Proof.
  unfold MatchString, phoneRegex, phone_number. rewrite re_match_lang, re_lang_one. split.
  - intros (c & s1 & -> & Hc & H). apply re_lang_one in H as (d & s2 & -> & Hd & H).
    destruct H as (ds & rest & -> & Hf & Hl & ->). apply Ascii.eqb_eq in Hc as <-.
    exists d, ds. by rewrite app_nil_r.
  - intros (d & ds & -> & Hd & Hf & Hl). exists "+"%char, (d :: ds). split; [done|].
    split; [done|]. apply re_lang_one. exists d, ds. split; [done|]. split; [done|].
    exists ds, []. by rewrite app_nil_r.
Qed.

(** (C29) The content checks accept a notification exactly when its body is not empty
    and the rules of its channel hold: an address that parses and a subject
    (email), an E.164 phone number and at most 1600 bytes (SMS), a device
    token that is not blank and at most 4096 bytes (push). What they reject is
    reported as a validation error, or as an invalid channel when the channel
    is none of the three. *)
Theorem content_checked `{MailParser} channel recipient subject body :
  match ValidateNotificationContent channel recipient subject body with
  | None => acceptable channel recipient subject body
  | Some e => ¬ acceptable channel recipient subject body ∧
              root_sentinel e = Some (if Channel_Valid channel then ErrValidation else ErrInvalidChannel)
  end.
Proof.
  unfold ValidateNotificationContent, acceptable, body_required, Channel_Valid.
  destruct (String.eqb_spec channel ChannelEmail) as [->|He].
  { destruct (mail_ParseAddress recipient) eqn:Hm; cbn [negb]; [|split; [|done]].
    - destruct (String.eqb_spec subject ""); [split; [|done]|].
      + naive_solver.
      + destruct (String.eqb_spec body ""); [split; [|done]|]; naive_solver.
    - naive_solver. }
  destruct (String.eqb_spec channel ChannelSMS) as [->|Hs].
  { pose proof (phoneRegex_spec recipient) as Hp.
    destruct (MatchString phoneRegex recipient); cbn [negb]; [|split; [|done]; naive_solver].
    destruct (Z.ltb_spec 1600 (len body)); [split; [|done]|].
    - intros [_ [?|[(_ & _ & ?)|?]]]; [naive_solver|lia|naive_solver].
    - destruct (String.eqb_spec body ""); [split; [|done]|]; naive_solver. }
  destruct (String.eqb_spec channel ChannelPush) as [->|Hp].
  { destruct (String.eqb_spec (strings_TrimSpace recipient) ""); [split; [|done]; naive_solver|].
    destruct (Z.ltb_spec 4096 (len body)); [split; [|done]|].
    - intros [_ [?|[?|(_ & _ & ?)]]]; [naive_solver|naive_solver|lia].
    - destruct (String.eqb_spec body ""); [split; [|done]|]; naive_solver. }
  split; [naive_solver|]. cbn. done.
Qed.
