(* ===== verification/Templates.v ===== *)
(** * Templates (internal/repository/template.go, internal/service/template.go)

    The repository's methods as programs and the service on top of them. The
    template language (text/template) is a parameter. *)

From stdpp Require Import gmap.
From S2P Require Import Prelude GoLib Domain Sql Effects NotificationRepo Validator.

(** ** The repository *)

Definition template_cols : list string :=
  ["id"; "name"; "channel"; "subject"; "body"; "created_at"; "updated_at"].

(** The [Scan] of a template, and the assignment after it. *)
Definition scan_template (row : list Val) : option Template :=
  match row with
  | [v_id; v_name; v_chan; v_subj; v_body; v_cre; v_upd] =>
      id ← scan_uuid v_id; name ← scan_string v_name; channel ← scan_string v_chan;
      subject ← scan_opt_string v_subj; body ← scan_string v_body;
      created ← scan_time v_cre; updated ← scan_time v_upd;
      Some (mkTemplate id name channel (default "" subject) body created updated)
  | _ => None
  end.

Definition insert_template : Stmt :=
  SInsert Templates template_cols (EArg <$> seq 1 7).

Definition set_template_ident (i : UUID) (c u : Z) (t : Template) : Template :=
  mkTemplate i (t_Name t) (t_Channel t) (t_Subject t) (t_Body t) c u.

Definition template_args (t : Template) : list Val :=
  [VUuid (t_ID t); VText (t_Name t); VText (t_Channel t); nilIfEmpty (t_Subject t);
   VText (t_Body t); VTime (t_CreatedAt t); VTime (t_UpdatedAt t)].

Definition is_unique_violation (e : DbErr) : bool :=
  match e with DbPg code _ _ => (code =? "23505")%string | DbOther _ => false end.

Definition TemplateRepository_Create (t : Template) : prog (Template * option error) :=
  let! now := do Now in
  let! id := do NewV7 in
  let t := set_template_ident id now now t in
  let! r := do (Pg (PgExec insert_template (template_args t))) in
  match r with
  | Er e =>
      if is_unique_violation e then Ret (t, Some (ESentinel ErrDuplicate))
      else Ret (t, Some (EWrap "inserting template: " (db_error e) ""))
  | Ok _ => Ret (t, None)
  end.

Definition select_template : Stmt :=
  SSelect Templates template_cols [CEq "id" (EArg 1)] [] None.

Definition TemplateRepository_GetByID (id : UUID) : prog (result error Template) :=
  let! r := do (Pg (PgQueryRow select_template [VUuid id])) in
  match r with
  | Ok None => Ret (Er (ESentinel ErrNotFound))
  | Er e => Ret (Er (EWrap "querying template: " (db_error e) ""))
  | Ok (Some row) =>
      match scan_template row with
      | None => Ret (Er (EWrap "querying template: " scan_error ""))
      | Some t => Ret (Ok t)
      end
  end.

Definition list_templates : Stmt :=
  SSelect Templates template_cols [] [("name", Asc)] None.

Fixpoint scan_templates (rows : list (list Val)) : result error (list Template) :=
  match rows with
  | [] => Ok []
  | row :: rows' =>
      match scan_template row with
      | None => Er (EWrap "scanning template: " scan_error "")
      | Some t => match scan_templates rows' with Er e => Er e | Ok l => Ok (t :: l) end
      end
  end.

Definition TemplateRepository_List : prog (result error (list Template)) :=
  let! r := do (Pg (PgQuery list_templates [])) in
  match r with
  | Er e => Ret (Er (EWrap "querying templates: " (db_error e) ""))
  | Ok (rows, _) => Ret (scan_templates rows)
  end.

(** The SET clauses the request asks for, their arguments and the number of
    the next placeholder. *)
Definition set_clauses (req : UpdateTemplateRequest) : list (string * Expr) * list Val * nat :=
  let setClauses := [] in
  let args := [] in
  let argIdx := 1%nat in
  let '(setClauses, args, argIdx) :=
    match ut_Name req with
    | Some s => (setClauses ++ [("name", EArg argIdx)], args ++ [VText s], S argIdx)
    | None => (setClauses, args, argIdx)
    end in
  let '(setClauses, args, argIdx) :=
    match ut_Channel req with
    | Some s => (setClauses ++ [("channel", EArg argIdx)], args ++ [VText s], S argIdx)
    | None => (setClauses, args, argIdx)
    end in
  let '(setClauses, args, argIdx) :=
    match ut_Subject req with
    | Some s => (setClauses ++ [("subject", EArg argIdx)], args ++ [VText s], S argIdx)
    | None => (setClauses, args, argIdx)
    end in
  match ut_Body req with
  | Some s => (setClauses ++ [("body", EArg argIdx)], args ++ [VText s], S argIdx)
  | None => (setClauses, args, argIdx)
  end.

Definition update_template (setClauses : list (string * Expr)) (argIdx : nat) : Stmt :=
  SUpdate Templates setClauses [CEq "id" (EArg argIdx)] template_cols.

Definition TemplateRepository_Update (id : UUID) (req : UpdateTemplateRequest)
    : prog (result error Template) :=
  let '(setClauses, args, argIdx) := set_clauses req in
  if (length setClauses =? 0)%nat then TemplateRepository_GetByID id
  else
    let! now := do Now in
    let setClauses := setClauses ++ [("updated_at", EArg argIdx)] in
    let args := args ++ [VTime now] in
    let argIdx := S argIdx in
    let args := args ++ [VUuid id] in
    let! r := do (Pg (PgQueryRow (update_template setClauses argIdx) args)) in
    match r with
    | Ok None => Ret (Er (ESentinel ErrNotFound))
    | Er e =>
        if is_unique_violation e then Ret (Er (ESentinel ErrDuplicate))
        else Ret (Er (EWrap "updating template: " (db_error e) ""))
    | Ok (Some row) =>
        match scan_template row with
        | None => Ret (Er (EWrap "updating template: " scan_error ""))
        | Some t => Ret (Ok t)
        end
    end.

Definition delete_template : Stmt := SDelete Templates [CEq "id" (EArg 1)].

Definition TemplateRepository_Delete (id : UUID) : prog (option error) :=
  let! r := do (Pg (PgExec delete_template [VUuid id])) in
  match r with
  | Er e => Ret (Some (EWrap "deleting template: " (db_error e) ""))
  | Ok affected => if affected =? 0 then Ret (Some (ESentinel ErrNotFound)) else Ret None
  end.

(** ** The service *)

(** [template.New(name).Parse(text)] and [Execute] on a map of variables: an
    error's text, or the parsed template, or the output. *)
Class TextTemplate := {
  Tpl : Type;
  template_Parse : string → string → result string Tpl;
  template_Execute : Tpl → Vars → result string string;
}.

Section TemplateService.
Context {V : StructValidator} {TX : TextTemplate}.

Definition syntax_error (e : string) : error :=
  EWrap "" (ESentinel ErrTemplateRender) (": invalid template syntax: " +:+ e).

Definition TemplateService_Create (req : CreateTemplateRequest) : prog (result error Template) :=
  match ValidateStruct (create_template_struct req) with
  | Some e => Ret (Er e)
  | None =>
      if negb (Channel_Valid (ct_Channel req)) then Ret (Er (ESentinel ErrInvalidChannel))
      else
        let t := mkTemplate uuid_Nil (ct_Name req) (ct_Channel req) (ct_Subject req)
                   (ct_Body req) 0 0 in
        match template_Parse "test" (t_Body t) with
        | Er e => Ret (Er (syntax_error e))
        | Ok _ =>
            let! '(t, err) := TemplateRepository_Create t in
            match err with
            | Some e => Ret (Er e)
            | None => Ret (Ok t)
            end
        end
  end.

Definition TemplateService_GetByID (id : UUID) : prog (result error Template) :=
  TemplateRepository_GetByID id.

Definition TemplateService_List : prog (result error (list Template)) :=
  TemplateRepository_List.

Definition TemplateService_Update (id : UUID) (req : UpdateTemplateRequest)
    : prog (result error Template) :=
  match ValidateStruct (update_template_struct req) with
  | Some e => Ret (Er e)
  | None =>
      match ut_Body req with
      | Some b =>
          match template_Parse "test" b with
          | Er e => Ret (Er (syntax_error e))
          | Ok _ => TemplateRepository_Update id req
          end
      | None => TemplateRepository_Update id req
      end
  end.

Definition TemplateService_Delete (id : UUID) : prog (option error) :=
  TemplateRepository_Delete id.

Definition render_error (e : string) : error :=
  EWrap "" (ESentinel ErrTemplateRender) (": " +:+ e).

(** Parse and execute one text. *)
Definition expand (name text : string) (vars : Vars) : result error string :=
  match template_Parse name text with
  | Er e => Er (render_error e)
  | Ok tpl =>
      match template_Execute tpl vars with
      | Er e => Er (render_error e)
      | Ok out => Ok out
      end
  end.

(** [Render]: the subject and the body. *)
Definition Render (tmpl : Template) (vars : Vars) : result error (string * string) :=
  match expand "body" (t_Body tmpl) vars with
  | Er e => Er e
  | Ok body =>
      if negb (t_Subject tmpl =? "")%string then
        match expand "subject" (t_Subject tmpl) vars with
        | Er e => Er e
        | Ok subject => Ok (subject, body)
        end
      else Ok ("", body)
  end.
End TemplateService.
