(* ===== verification/TemplateSpec.v ===== *)
(** * The template repository refines a store of templates

    Templates are filed under their ids and no two have the same name. *)

From stdpp Require Import gmap.
From S2P Require Import Prelude GoLib Domain Sql SqlFacts Effects Frames NotificationRepo.
From S2P Require Import NotificationStore NotificationSpec Validator Templates.

Abbreviation TStore := (gmap UUID Template).

Definition decode_template (id : UUID) (r : Row) : option Template :=
  scan_template (project template_cols (id, r)).

Definition tabs (db : DB) : TStore := map_imap decode_template (db_templates db).

(** ** Specification *)

Module TSpec.
(** What is kept of a template: times in microseconds. *)
Definition kept (t : Template) : Template :=
  set_template_ident (t_ID t) (micro (t_CreatedAt t)) (micro (t_UpdatedAt t)) t.

Definition name_taken (name : string) (by_others : UUID → Prop) (M : TStore) : Prop :=
  ∃ i t, by_others i ∧ M !! i = Some t ∧ t_Name t = name.

(** The fields the request gives replace the old ones; the others stay. *)
Definition update (now : Z) (req : UpdateTemplateRequest) (t : Template) : Template :=
  mkTemplate (t_ID t) (default (t_Name t) (ut_Name req)) (default (t_Channel t) (ut_Channel req))
    (default (t_Subject t) (ut_Subject req)) (default (t_Body t) (ut_Body req))
    (t_CreatedAt t) (micro now).

(** Whether the request asks for anything. *)
Definition no_change (req : UpdateTemplateRequest) : bool :=
  match ut_Name req, ut_Channel req, ut_Subject req, ut_Body req with
  | None, None, None, None => true
  | _, _, _, _ => false
  end.
End TSpec.

(** ** Rows *)

Lemma decode_template_cols id r :
  decode_template id r = scan_template
    [VUuid id; cv r "name"; cv r "channel"; cv r "subject"; cv r "body"; cv r "created_at";
     cv r "updated_at"].
Proof. reflexivity. Qed.

Ltac tscan_inv H :=
  rewrite decode_template_cols in H; cbn [scan_template] in H;
  repeat match type of H with
         | _ ≫= _ = Some _ =>
             let E := fresh "Ec" in apply bind_Some in H as (? & E & H)
         end;
  repeat match goal with
         | E : scan_uuid (VUuid _) = Some _ |- _ => injection E as <-
         end.

Lemma decode_template_ID id r t : decode_template id r = Some t → t_ID t = id.
Proof. intros H. tscan_inv H. by injection H as <-. Qed.

Lemma decode_template_name id r t : decode_template id r = Some t → r !! "name" = Some (VText (t_Name t)).
Proof.
  intros H. tscan_inv H. injection H as <-. unfold cv in *. cbn.
  destruct (r !! "name") as [[]|]; cbn in *; by simplify_eq.
Qed.

Lemma decode_template_typed id r : typed_row Templates r → is_Some (decode_template id r).
Proof.
  intros Ht. scan_col Ht "name". scan_col Ht "channel". scan_col Ht "subject". scan_col Ht "body".
  scan_col Ht "created_at". scan_col Ht "updated_at".
  rewrite decode_template_cols. cbn [scan_template scan_uuid mbind option_bind].
  repeat match goal with
  | H : (match ?x with _ => _ end) = true |- _ => destruct x eqn:?; [clear H|done]
  end.
  by repeat (match goal with H : _ = Some _ |- context [?f ≫= _] => idtac end;
             cbn [mbind option_bind]).
Qed.

Lemma tabs_lookup_row db id r :
  db_ok db → db_templates db !! id = Some r →
  ∃ t, decode_template id r = Some t ∧ tabs db !! id = Some t.
Proof.
  intros Hok Hr. destruct (decode_template_typed id r) as [t Ht].
  - by apply (tok_typed _ _ (Hok Templates)) in Hr.
  - exists t. unfold tabs. by rewrite map_lookup_imap, Hr.
Qed.

Lemma tabs_lookup_some db id t :
  tabs db !! id = Some t → ∃ r, db_templates db !! id = Some r ∧ decode_template id r = Some t.
Proof. unfold tabs. rewrite map_lookup_imap. intros (r & ? & ?)%bind_Some. eauto. Qed.

Lemma tabs_lookup_none db id : db_templates db !! id = None → tabs db !! id = None.
Proof. unfold tabs. intros H. by rewrite map_lookup_imap, H. Qed.

Lemma tabs_insert db id r t :
  decode_template id r = Some t →
  tabs (set_table Templates (<[id := r]> (db_templates db)) db) = <[id := t]> (tabs db).
Proof.
  intros Hd. unfold tabs. cbn. apply map_eq. intros j. rewrite map_lookup_imap.
  destruct (decide (id = j)) as [<-|Hne]; [by rewrite !lookup_insert_eq|].
  by rewrite !lookup_insert_ne, map_lookup_imap by done.
Qed.

(** The row of an INSERT. *)
Lemma template_row t now id r :
  insert_row Templates template_cols (EArg <$> seq 1 7) (template_args t) now = Some (id, r) →
  id = t_ID t ∧ decode_template id r = Some (TSpec.kept t).
Proof.
  intros H. apply (insert_row_args Templates
    ["name"; "channel"; "subject"; "body"; "created_at"; "updated_at"] (t_ID t)
    (tail (template_args t))) in H as [-> ->]; [|done].
  split; [done|]. cbn [template_args tail zip zip_with fmap list_fmap set_all foldl fst snd].
  rewrite norm_nilIfEmpty, decode_template_cols. cv_simpl.
  destruct (scan_nilIfEmpty (t_Subject t)) as (o & Ho & Hs).
  cbn [scan_template scan_uuid scan_string mbind option_bind norm]. rewrite Ho.
  cbn [mbind option_bind scan_string scan_time]. by rewrite Hs.
Qed.

(** The row of an UPDATE: whatever fields the request gives, every placeholder
    gets the value meant for it. *)
Lemma update_template_row req clauses args k now now' id r r' t :
  set_clauses req = (clauses, args, k) → TSpec.no_change req = false →
  update_row Templates (clauses ++ [("updated_at", EArg k)]) ((args ++ [VTime now]) ++ [VUuid id])
    now' r = Some r' →
  decode_template id r = Some t →
  decode_template id r' = Some (TSpec.update now req t).
Proof.
  intros Hc _ Hu Hd. destruct req as [nm ch sb bd]. unfold set_clauses in Hc. cbn in Hc.
  tscan_inv Hd. injection Hd as <-. unfold update_row in Hu.
  destruct nm as [nm|], ch as [ch|], sb as [sb|], bd as [bd|]; cbn [app] in Hc;
    injection Hc as <- <- <-; cbn in Hu;
    repeat (match type of Hu with context [if ?b then _ else _] => destruct b end; cbn in Hu;
            try discriminate Hu);
    injection Hu as <-; rewrite decode_template_cols; cv_simpl; cbn [scan_template];
    repeat (match goal with
            | E : ?f ?v = Some _ |- context [?f ?v] => rewrite E
            end; cbn [mbind option_bind scan_uuid scan_string scan_opt_string scan_time]);
    cbn [mbind option_bind scan_uuid scan_string scan_opt_string scan_time];
    repeat (match goal with
            | E : ?f ?v = Some _ |- context [?f ?v] => rewrite E
            end; cbn [mbind option_bind scan_uuid scan_string scan_opt_string scan_time]);
    reflexivity.
Qed.

(** ** The methods *)

Definition template_frame (w w' : World) : Prop :=
  frame_db w w' ∧ db_ok (w_db w') ∧ db_notifications (w_db w') = db_notifications (w_db w) ∧
  db_attempts (w_db w') = db_attempts (w_db w).

(** [err] is the report of a fault. *)
Definition fault_error (tr : list Event) (e : error) : Prop :=
  ¬ fault_free tr ∧ root_sentinel e = None.

(** The stream of a query's rows broke off. *)
Definition breaks_off (ev : Event) : bool :=
  match ev with
  | Ev e x =>
      match e in Eff Y return Y → bool with
      | Pg e => λ x,
          match e in PgE Y return Y → bool with
          | PgQuery _ _ => broken_off
          | _ => λ _, false
          end x
      | _ => λ _, false
      end x
  end.

Definition stream_broke (tr : list Event) : Prop := Exists (λ ev, breaks_off ev = true) tr.

Lemma stream_broke_fault tr : stream_broke tr → ¬ fault_free tr.
Proof.
  intros ([X e x] & Hin & Hb)%Exists_exists. eapply not_fault_free_in; [exact Hin|].
  destruct e as [Y e| | | | | | | | | | | | | | | |]; try done. destruct e; try done.
  by destruct x as [[? []]|].
Qed.

(** A unique violation is on the primary key or on the name. *)
Lemma templates_violation db db' ins name :
  violates db db' Templates ins name →
  (∃ id, ins = Some id ∧ is_Some (db_templates db !! id)) ∨
  ¬ unique_on "name" (db_templates db').
Proof.
  intros [(_ & id & -> & ?)|(c & Hc & Hn)]; [left; by exists id|right].
  cbn in Hc. by apply list_elem_of_singleton in Hc as [= _ ->].
Qed.

Section TemplateOps.
Context {S : Services} {HS : ServicesOk S} {HO : SentOnce S}.

Lemma TemplateRepository_GetByID_reads id w tr r w' :
  db_ok (w_db w) → exec (TemplateRepository_GetByID id) w tr r w' →
  frame_db w w' ∧ w_db w' = w_db w ∧
  ((∃ t, r = Ok t ∧ tabs (w_db w) !! id = Some t) ∨
   (r = Er (ESentinel ErrNotFound) ∧ tabs (w_db w) !! id = None) ∨
   (∃ e, r = Er e ∧ fault_error tr e)).
Proof.
  intros Hok H. unfold TemplateRepository_GetByID in H.
  apply exec_bind in H as (x & w1 & tr1 & tr2 & -> & H1 & H).
  apply exec_pg in H1 as (-> & Hd).
  apply (select_row _ _ _ _ id) in Hd as (Hf & Hdb & Hx); [|done..].
  destruct Hx as [->|(e & -> & He)].
  - cbn [table] in H. destruct (db_templates (w_db w) !! id) as [r0|] eqn:E; cbn [fmap option_fmap option_map] in H.
    + destruct (tabs_lookup_row _ _ _ Hok E) as (t & Hd & Ha). unfold decode_template in Hd.
      rewrite Hd in H. destruct H as (-> & -> & ->). split; [done|]. split; [done|]. left. eauto.
    + destruct H as (-> & -> & ->). split; [done|]. split; [done|]. right. left.
      split; [done|]. by apply tabs_lookup_none.
  - destruct H as (-> & -> & ->). split; [done|]. split; [done|]. right. right.
    eexists. split; [done|]. split; [eapply not_fault_free_in; [left|done]|apply root_db_error].
Qed.

Lemma TemplateRepository_Create_refines t w tr t' r w' :
  db_ok (w_db w) → exec (TemplateRepository_Create t) w tr (t', r) w' →
  template_frame w w' ∧ ∃ now id, w_clock w ≤ now ≤ w_clock w' ∧
  t' = set_template_ident id now now t ∧
  let M := tabs (w_db w) in let M' := tabs (w_db w') in
  let created := M !! id = None ∧ ¬ TSpec.name_taken (t_Name t) (λ _, True) M ∧
                 M' = <[id := TSpec.kept t']> M in
  ((r = None ∧ created) ∨
   (r = Some (ESentinel ErrDuplicate) ∧ M' = M ∧
    (is_Some (M !! id) ∨ TSpec.name_taken (t_Name t) (λ _, True) M)) ∨
   (∃ e, r = Some e ∧ fault_error tr e ∧ (M' = M ∨ created))).
Proof.
  intros Hok H. unfold TemplateRepository_Create in H.
  apply exec_bind in H as (now & w1 & tr1 & tr2 & -> & H1 & H).
  apply exec_now in H1 as (-> & Hc & ->).
  apply exec_bind in H as (id & w1 & tr1 & tr3 & -> & H1 & H).
  apply exec_newv7 in H1 as (-> & ->). set (t1 := set_template_ident id now now t) in *.
  apply exec_bind in H as (x & w1 & tr1 & tr4 & -> & H1 & H).
  apply exec_pg in H1 as (-> & Hx).
  apply insert_exec in Hx as (Hf & Hok' & tn & Ht & Hcase); [|done].
  cbn [set_clock w_clock w_db] in *.
  assert (Hf' : frame_db w w1).
  { destruct Hf as (? & ? & ? & ?). cbn in *. split_and!; [lia|done..]. }
  assert (Hname : ∀ i r0, insert_row Templates template_cols (EArg <$> seq 1 7) (template_args t1) tn
    = Some (i, r0) → i = id ∧ decode_template id r0 = Some (TSpec.kept t1) ∧
      r0 !! "name" = Some (VText (t_Name t))).
  { intros i r0 Hi. apply template_row in Hi as [-> Hd]. split; [done|]. split; [done|].
    by apply decode_template_name in Hd. }
  assert (Hins : inserted Templates template_cols (EArg <$> seq 1 7) (template_args t1) tn
      (w_db w) (w_db w1) → template_frame w w1 ∧ tabs (w_db w) !! id = None ∧
    ¬ TSpec.name_taken (t_Name t) (λ _, True) (tabs (w_db w)) ∧
    tabs (w_db w1) = <[id := TSpec.kept t1]> (tabs (w_db w))).
  { intros (i & r0 & Hi & Hfresh & Hdb). destruct (Hname _ _ Hi) as (-> & Hd & Hnm).
    split; [|split; [by apply tabs_lookup_none|split]].
    - split; [done|]. split; [done|]. by rewrite Hdb.
    - intros (j & tj & _ & Hj & Hn). apply tabs_lookup_some in Hj as (rj & Hrj & Hdj).
      apply decode_template_name in Hdj. rewrite Hn in Hdj.
      rewrite Hdb in Hok'. pose proof (tok_unique _ _ (Hok' Templates)) as Hu.
      apply Forall_inv in Hu. cbn in Hu.
      by eapply unique_on_insert_fresh; [exact Hfresh|exact Hu|exact Hnm|done|exact Hrj|].
    - rewrite Hdb. by apply tabs_insert. }
  assert (Hsame : w_db w1 = w_db w → template_frame w w1).
  { intros E. split; [done|]. by rewrite E. }
  destruct Hcase as [(-> & Hi)|[(name & msg & i & r0 & -> & Hdb & Hi & Hv)|(e & -> & He & Hdb)]].
  - apply exec_ret in H as (-> & [= -> ->] & ->). apply Hins in Hi as (Hf2 & ? & ? & ?).
    split; [done|]. exists now, id. split; [lia|]. split; [done|]. by left.
  - apply exec_ret in H as (-> & [= -> ->] & ->). split; [by apply Hsame|].
    exists now, id. split; [lia|]. split; [done|]. right. left. rewrite Hdb.
    split; [done|]. split; [done|]. destruct (Hname _ _ Hi) as (-> & Hd & Hnm).
    apply templates_violation in Hv as [(i & [= <-] & [r1 Hr1])|Hn].
    + left. destruct (tabs_lookup_row _ _ _ Hok Hr1) as (? & _ & ->). by eexists.
    + right. cbn in Hn. pose proof (tok_unique _ _ (Hok Templates)) as Hu.
      apply Forall_inv in Hu. cbn in Hu.
      destruct (not_unique_on_insert _ _ _ _ _ Hu Hnm Hn) as (_ & j & rj & _ & Hj & Hnj).
      destruct (tabs_lookup_row _ _ _ Hok Hj) as (tj & Hdj & Hj').
      exists j, tj. split; [done|]. split; [done|].
      apply decode_template_name in Hdj. by simplify_eq.
  - assert (Huv : is_unique_violation e = false)
      by (destruct e; cbn in *; [by apply negb_true_iff in He|done]).
    rewrite Huv in H. apply exec_ret in H as (-> & [= -> ->] & ->).
    assert (Hfe : fault_error ([Ev Now now] ++ [Ev NewV7 id] ++
      [Ev (Pg (PgExec insert_template (template_args t1))) (Er e)] ++ [])
      (EWrap "inserting template: " (db_error e) "")).
    { split; [|apply root_db_error]. eapply not_fault_free_in; [right; right; left|done]. }
    destruct Hdb as [Hdb|Hi].
    + split; [by apply Hsame|]. exists now, id. split; [lia|]. split; [done|]. right. right.
      eexists. split; [done|]. split; [done|]. left. by rewrite Hdb.
    + apply Hins in Hi as (Hf2 & ? & ? & ?). split; [done|]. exists now, id. split; [lia|].
      split; [done|]. right. right. eexists. split; [done|]. split; [done|]. by right.
Qed.

(** ** Update *)

(** The row of an UPDATE that took effect, as a template. *)
Lemma template_updated req clauses args k tn now id cs db db' r' :
  db_ok db → set_clauses req = (clauses, args, k) → TSpec.no_change req = false →
  row_updated Templates (clauses ++ [("updated_at", EArg k)])
    ((args ++ [VTime now]) ++ [VUuid id]) id cs tn db db' r' →
  ∃ t, tabs db !! id = Some t ∧ decode_template id r' = Some (TSpec.update now req t) ∧
       tabs db' = <[id := TSpec.update now req t]> (tabs db) ∧
       db_notifications db' = db_notifications db ∧ db_attempts db' = db_attempts db ∧
       db' = set_table Templates (<[id := r']> (db_templates db)) db.
Proof.
  intros Hok Hc Hnc (r0 & Hr0 & _ & Hu & ->).
  destruct (tabs_lookup_row _ _ _ Hok Hr0) as (t & Hd & Ht).
  pose proof (update_template_row _ _ _ _ _ _ _ _ _ _ Hc Hnc Hu Hd) as Hd'.
  exists t. split; [done|]. split; [done|]. split; [by apply tabs_insert|done].
Qed.

Lemma update_resolved req clauses args k now id t :
  set_clauses req = (clauses, args, k) →
  mapM (resolve Templates ((args ++ [VTime now]) ++ [VUuid id]) t) [CEq "id" (EArg (Datatypes.S k))]
  = Some [REq "id" (VUuid id)].
Proof.
  destruct req as [nm ch sb bd]. unfold set_clauses. cbn.
  destruct nm, ch, sb, bd; cbn; by intros [= <- <- <-].
Qed.

Lemma set_clauses_none req clauses args k :
  set_clauses req = (clauses, args, k) → (length clauses =? 0)%nat = TSpec.no_change req.
Proof.
  destruct req as [nm ch sb bd]. unfold set_clauses. cbn.
  destruct nm, ch, sb, bd; cbn; by intros [= <- <- <-].
Qed.

(** Whose name the new one is. *)
Lemma template_name_conflict db id r' t (name : string) :
  db_ok db → decode_template id r' = Some t →
  violates db (set_table Templates (<[id := r']> (db_templates db)) db) Templates None name →
  TSpec.name_taken (t_Name t) (λ i, i ≠ id) (tabs db).
Proof.
  intros Hok Hd Hv. apply templates_violation in Hv as [(? & [=] & _)|Hn]. cbn in Hn.
  pose proof (tok_unique _ _ (Hok Templates)) as Hu. apply Forall_inv in Hu. cbn in Hu.
  apply decode_template_name in Hd.
  destruct (not_unique_on_insert _ _ _ _ _ Hu Hd Hn) as (_ & j & rj & Hne & Hj & Hnj).
  destruct (tabs_lookup_row _ _ _ Hok Hj) as (tj & Hdj & Hj').
  exists j, tj. split; [done|]. split; [done|]. apply decode_template_name in Hdj. by simplify_eq.
Qed.

Lemma template_name_free db id r' t :
  db_ok db → db_ok (set_table Templates (<[id := r']> (db_templates db)) db) →
  decode_template id r' = Some t →
  ¬ TSpec.name_taken (t_Name t) (λ i, i ≠ id) (tabs db).
Proof.
  intros Hok Hok' Hd (j & tj & Hne & Hj & Hn). apply tabs_lookup_some in Hj as (rj & Hrj & Hdj).
  apply decode_template_name in Hd, Hdj. rewrite Hn in Hdj.
  pose proof (tok_unique _ _ (Hok' Templates)) as Hu. apply Forall_inv in Hu. cbn in Hu.
  destruct (Hu id r' (lookup_insert_eq _ _ _) j rj) as [?|[?|Hnull]].
  - by rewrite lookup_insert_ne.
  - congruence.
  - congruence.
  - by rewrite Hd in Hnull.
Qed.

(** What an update that gives at least one field does. *)
Definition template_updates (now : Z) (id : UUID) (req : UpdateTemplateRequest) (tr : list Event)
    (M M' : TStore) (r : result error Template) : Prop :=
  (∃ t, let t' := TSpec.update now req t in
        r = Ok t' ∧ M !! id = Some t ∧ ¬ TSpec.name_taken (t_Name t') (λ i, i ≠ id) M ∧
        M' = <[id := t']> M) ∨
  (r = Er (ESentinel ErrNotFound) ∧ M !! id = None ∧ M' = M) ∨
  (r = Er (ESentinel ErrDuplicate) ∧ M' = M ∧
   ∃ t, M !! id = Some t ∧ TSpec.name_taken (t_Name (TSpec.update now req t)) (λ i, i ≠ id) M) ∨
  (∃ e, r = Er e ∧ fault_error tr e ∧
        (M' = M ∨ ∃ t, let t' := TSpec.update now req t in
           M !! id = Some t ∧ ¬ TSpec.name_taken (t_Name t') (λ i, i ≠ id) M ∧
           M' = <[id := t']> M)).

Lemma TemplateRepository_Update_refines id req w tr r w' :
  db_ok (w_db w) → exec (TemplateRepository_Update id req) w tr r w' →
  template_frame w w' ∧
  let M := tabs (w_db w) in let M' := tabs (w_db w') in
  if TSpec.no_change req then
    M' = M ∧ ((∃ t, r = Ok t ∧ M !! id = Some t) ∨
              (r = Er (ESentinel ErrNotFound) ∧ M !! id = None) ∨
              (∃ e, r = Er e ∧ fault_error tr e))
  else ∃ now, w_clock w ≤ now ≤ w_clock w' ∧ template_updates now id req tr M M' r.
Proof.
  intros Hok H. unfold TemplateRepository_Update in H.
  destruct (set_clauses req) as [[clauses args] k] eqn:Hc.
  rewrite (set_clauses_none _ _ _ _ Hc) in H. destruct (TSpec.no_change req) eqn:Hnc.
  { apply TemplateRepository_GetByID_reads in H as (Hf & Hdb & Hcase); [|done].
    unfold template_frame. by rewrite Hdb. }
  apply exec_bind in H as (now & w1 & tr1 & tr2 & -> & H1 & H).
  apply exec_now in H1 as (-> & Hclk & ->).
  apply exec_bind in H as (x & w1 & tr1 & tr3 & -> & H1 & H).
  apply exec_pg in H1 as (-> & res & Hst & ->).
  pose proof (statement_frame _ _ _ _ _ Hst) as Hfr.
  pose proof (statement_ok _ _ _ _ _ Hst Hok) as Hok'.
  eapply statement_update_any in Hst as (tn & Htn & Hcase);
    [|intros tn; by eapply update_resolved|done].
  cbn [set_clock w_clock w_db] in *.
  assert (Hf : frame_db w w1) by (destruct Hfr as (? & ? & ? & ?); cbn in *; split_and!; [lia|done..]).
  assert (Hw : w' = w1) by (clear -H; repeat case_match; by destruct H as (_ & _ & ?)). subst w'.
  assert (Hclk' : w_clock w ≤ now ≤ w_clock w1) by lia.
  assert (Hsame : w_db w1 = w_db w → template_frame w w1) by (intros E; split; [done|]; by rewrite E).
  assert (Hupd : ∀ r', row_updated Templates (clauses ++ [("updated_at", EArg k)])
      ((args ++ [VTime now]) ++ [VUuid id]) id [] tn (w_db w) (w_db w1) r' →
    template_frame w w1 ∧ ∃ t, tabs (w_db w) !! id = Some t ∧
      decode_template id r' = Some (TSpec.update now req t) ∧
      ¬ TSpec.name_taken (t_Name (TSpec.update now req t)) (λ i, i ≠ id) (tabs (w_db w)) ∧
      tabs (w_db w1) = <[id := TSpec.update now req t]> (tabs (w_db w))).
  { intros r' Hu. destruct (template_updated _ _ _ _ _ _ _ _ _ _ _ Hok Hc Hnc Hu)
      as (t & Ht & Hd & Htabs & ? & ? & E).
    split; [done|]. exists t. split; [done|]. split; [done|]. split; [|done].
    rewrite E in Hok'. by eapply template_name_free. }
  destruct Hcase as [(r' & -> & Hu)|[(-> & Hno & Hdb)|[(e & -> & He & Hdb)
    |(name & msg & r' & db1 & -> & Hdb & Hu & Hv)]]]; cbn [row_reply head] in H.
  - apply Hupd in Hu as (Hf2 & t & Ht & Hd & Hfree & Htabs). unfold decode_template in Hd.
    rewrite Hd in H. destruct H as (-> & -> & _). split; [done|]. exists now. split; [done|].
    left. by exists t.
  - destruct H as (-> & -> & _). split; [by apply Hsame|]. exists now. split; [done|].
    right. left. split; [done|]. split; [|by rewrite Hdb].
    destruct (tabs (w_db w) !! id) as [t|] eqn:E; [|done].
    apply tabs_lookup_some in E as (r0 & Hr0 & _). by apply Hno in Hr0.
  - assert (is_unique_violation e = false) as Hv
      by (destruct e; cbn in *; [by apply negb_true_iff in He|done]).
    rewrite Hv in H. destruct H as (-> & -> & _).
    assert (Hfe : ∀ tr0 tr1 ev e0, fault ev = true → fault_error (tr0 ++ [ev] ++ tr1)
      (EWrap "updating template: " (db_error e0) "")).
    { intros ??? e0 ?. split; [|apply root_db_error]. eapply not_fault_free_in; [|done].
      apply elem_of_app. right. by left. }
    destruct Hdb as [Hdb|[r' Hu]].
    + split; [by apply Hsame|]. exists now. split; [done|]. do 3 right. eexists.
      split; [done|]. split; [by apply Hfe|]. left. by rewrite Hdb.
    + apply Hupd in Hu as (Hf2 & t & Ht & _ & ? & Htabs). split; [done|]. exists now.
      split; [done|]. do 3 right. eexists. split; [done|]. split; [by apply Hfe|]. right. by exists t.
  - destruct H as (-> & -> & _). split; [by apply Hsame|]. exists now. split; [done|].
    do 2 right. left. split; [done|]. split; [by rewrite Hdb|].
    destruct (template_updated _ _ _ _ _ _ _ _ _ _ _ Hok Hc Hnc Hu) as (t & Ht & Hd & _ & _ & _ & ->).
    exists t. split; [done|]. by eapply template_name_conflict.
Qed.

(** ** Delete and List *)

(** No notification was made from the template. *)
Definition unused (id : UUID) (S0 : Store) : Prop :=
  map_Forall (λ _ n, n_TemplateID n ≠ Some id) S0.

Lemma tabs_delete db id :
  tabs (set_table Templates (delete id (db_templates db)) db) = delete id (tabs db).
Proof. unfold tabs. cbn. apply map_imap_delete. Qed.

(** The foreign key of the notifications. *)
Lemma template_unused db id :
  db_ok db → db_templates db !! id = None → unused id (abs db).
Proof.
  intros Hok Hid i n Hn E. apply abs_lookup_some in Hn as (r & Hr & Hd).
  pose proof (tok_fk _ _ (Hok Notifications)) as Hf. apply Forall_inv in Hf. cbn in Hf.
  specialize (Hf _ _ Hr). cbn in Hf. scan_inv Hd. injection Hd as <-. cbn in E. subst.
  unfold cv in *. destruct (r !! "template_id") as [[]|]; cbn in *; simplify_eq.
  rewrite Hid in Hf. by destruct Hf.
Qed.

Lemma TemplateRepository_Delete_refines id w tr r w' :
  db_ok (w_db w) → exec (TemplateRepository_Delete id) w tr r w' →
  template_frame w w' ∧
  let M := tabs (w_db w) in let M' := tabs (w_db w') in
  let deleted := is_Some (M !! id) ∧ unused id (abs (w_db w)) ∧ M' = delete id M in
  ((r = None ∧ deleted) ∨
   (r = Some (ESentinel ErrNotFound) ∧ M !! id = None ∧ M' = M) ∨
   (∃ e, r = Some e ∧ fault_error tr e ∧ (M' = M ∨ deleted))).
Proof.
  intros Hok H. unfold TemplateRepository_Delete in H.
  apply exec_bind in H as (x & w1 & tr1 & tr2 & -> & H1 & H).
  apply exec_pg in H1 as (-> & res & Hst & ->).
  pose proof (statement_frame _ _ _ _ _ Hst) as Hfr.
  pose proof (statement_ok _ _ _ _ _ Hst Hok) as Hok'.
  apply (statement_delete_by_id _ _ _ id) in Hst; [|done..]. cbn [table] in Hst.
  assert (Hdel : is_Some (db_templates (w_db w) !! id) ∧
      w_db w1 = set_table Templates (delete id (db_templates (w_db w))) (w_db w) →
    template_frame w w1 ∧ is_Some (tabs (w_db w) !! id) ∧ unused id (abs (w_db w)) ∧
    tabs (w_db w1) = delete id (tabs (w_db w))).
  { intros [[r0 Hr0] Hdb]. unfold template_frame. rewrite Hdb in Hok' |- *. split; [done|].
    destruct (tabs_lookup_row _ _ _ Hok Hr0) as (t & _ & ->).
    split; [by eexists|]. split; [|apply tabs_delete].
    apply (template_unused _ id) in Hok'; [done|]. cbn. apply lookup_delete_eq. }
  assert (Hsame : w_db w1 = w_db w → template_frame w w1) by (intros E; split; [done|]; by rewrite E).
  destruct Hst as [(-> & Hd)|[(-> & Hnone & Hdb)|(e & -> & He & Hd)]]; cbn in H.
  - destruct H as (-> & -> & ->). apply Hdel in Hd as (? & ?). split; [done|]. by left.
  - destruct H as (-> & -> & ->). split; [by apply Hsame|]. right. left. split; [done|].
    split; [by apply tabs_lookup_none|by rewrite Hdb].
  - destruct H as (-> & -> & ->).
    assert (Hfe : fault_error ([Ev (Pg (PgExec delete_template [VUuid id])) (Er e)] ++ [])
      (EWrap "deleting template: " (db_error e) "")).
    { split; [|apply root_db_error]. eapply not_fault_free_in; [left|done]. }
    destruct Hd as [Hdb|Hd].
    + split; [by apply Hsame|]. right. right. eexists. split; [done|]. split; [done|].
      left. by rewrite Hdb.
    + apply Hdel in Hd as (? & ?). split; [done|]. right. right. eexists. split; [done|].
      split; [done|]. by right.
Qed.

Lemma scan_templates_rows (l : list (UUID * Row)) xs :
  Forall2 (λ p t, decode_template p.1 p.2 = Some t) l xs →
  scan_templates (project template_cols <$> l) = Ok xs.
Proof.
  induction 1 as [|[id r] a l xs Hd _ IH]; [done|]. rewrite fmap_cons. cbn [scan_templates].
  unfold decode_template in Hd. cbn [fst snd] in Hd. by rewrite Hd, IH.
Qed.

(** All templates, in some order (by name, as the database collates); or the
    stream of rows broke off and some of them; or an error. *)
Lemma TemplateRepository_List_reads w tr r w' :
  db_ok (w_db w) → exec TemplateRepository_List w tr r w' →
  frame_db w w' ∧ w_db w' = w_db w ∧
  ((∃ l, l ≡ₚ (map_to_list (tabs (w_db w))).*2 ∧
      (r = Ok l ∨ (stream_broke tr ∧ ∃ k, (k < length l)%nat ∧ r = Ok (take k l)))) ∨
   (∃ e, r = Er e ∧ fault_error tr e)).
Proof.
  intros Hok H. unfold TemplateRepository_List in H.
  apply exec_bind in H as (x & w1 & tr1 & tr2 & -> & H1 & H).
  apply exec_pg in H1 as (-> & Hq). apply select_query in Hq as (Hf & Hdb & Hx); [|done].
  destruct Hx as [(now & cs & l & l' & rest & err & rows & -> & Hrows & Herr & Hcs & Ho & Hl)
                 |(e & -> & He)].
  2: { destruct H as (-> & -> & ->). do 2 (split; [done|]). right. eexists. split; [done|].
       split; [|apply root_db_error]. eapply not_fault_free_in; [left|done]. }
  cbn in Hl. subst l'. cbn in Hcs. injection Hcs as <-. destruct Ho as [Hp _].
  destruct (rows_read decode_template t_ID decode_template_ID (db_templates (w_db w))
    (λ _ _, True) (λ _, True) l) as (xs & HF & Hxs).
  - intros i r0 Hr0. apply (tok_typed _ _ (Hok Templates)) in Hr0. by apply decode_template_typed.
  - rewrite Hp. apply NoDup_matching_fst.
  - intros i r0. rewrite Hp, elem_of_matching. unfold sat. cbn. tauto.
  - done.
  - destruct H as (-> & -> & ->). do 2 (split; [done|]). left. exists xs. split.
    { rewrite filter_id in Hxs; [done|]. by apply Forall_true. }
    assert (Hr : rows = project template_cols <$> take (length rows) l)
      by by rewrite fmap_take, Hrows, take_app_length.
    assert (Hs : scan_templates rows = Ok (take (length rows) xs))
      by (rewrite Hr at 1; apply scan_templates_rows; by apply Forall2_take).
    rewrite Hs. destruct err as [e|].
    + destruct (decide (length rows < length xs)%nat) as [Hlt|Hge].
      * right. split; [by left|by eexists].
      * left. by rewrite take_ge by lia.
    + left. specialize (Herr eq_refl) as ->. rewrite app_nil_r in Hrows.
      rewrite <- Hrows, length_fmap, (Forall2_length _ _ _ HF). by rewrite firstn_all.
Qed.
End TemplateOps.
