(* ===== verification/TemplateSim.v ===== *)
(** * The template repository refines the store of templates

    The calls of the repository as operations on the abstract store, one step
    of which is all that a call can do, whatever faults the database has. *)

From stdpp Require Import gmap.
From S2P Require Import Prelude GoLib Domain Sql Effects Frames NotificationStore NotificationSpec.
From S2P Require Import Templates TemplateSpec.

Inductive TOp :=
  | TCreate (t : Template)
  | TGetByID (id : UUID)
  | TList
  | TUpdate (id : UUID) (req : UpdateTemplateRequest)
  | TDelete (id : UUID).

Inductive TReply :=
  | TrCreate (t : Template) (err : option error)
  | TrOne (r : result error Template)
  | TrAll (r : result error (list Template))
  | TrErr (err : option error).

Definition perform_template (op : TOp) : prog TReply :=
  match op with
  | TCreate t => let! '(t, err) := TemplateRepository_Create t in Ret (TrCreate t err)
  | TGetByID id => let! r := TemplateRepository_GetByID id in Ret (TrOne r)
  | TList => let! r := TemplateRepository_List in Ret (TrAll r)
  | TUpdate id req => let! r := TemplateRepository_Update id req in Ret (TrOne r)
  | TDelete id => let! r := TemplateRepository_Delete id in Ret (TrErr r)
  end.

(** [tstep t0 t1 N op M r M']: with the notifications [N], the operation at an
    instant between [t0] and [t1] takes the templates [M] to [M'] and answers
    [r]. A name belongs to one template; a template some notification was made
    from cannot be deleted. *)
Inductive tstep (t0 t1 : Z) (N : Store) : TOp → TStore → TReply → TStore → Prop :=
  | ts_create t M now id :
      t0 ≤ now ≤ t1 → M !! id = None → ¬ TSpec.name_taken (t_Name t) (λ _, True) M →
      let t' := set_template_ident id now now t in
      tstep t0 t1 N (TCreate t) M (TrCreate t' None) (<[id := TSpec.kept t']> M)
  | ts_create_duplicate t M now id :
      t0 ≤ now ≤ t1 → is_Some (M !! id) ∨ TSpec.name_taken (t_Name t) (λ _, True) M →
      tstep t0 t1 N (TCreate t) M
        (TrCreate (set_template_ident id now now t) (Some (ESentinel ErrDuplicate))) M
  | ts_get id M t : M !! id = Some t → tstep t0 t1 N (TGetByID id) M (TrOne (Ok t)) M
  | ts_get_none id M :
      M !! id = None → tstep t0 t1 N (TGetByID id) M (TrOne (Er (ESentinel ErrNotFound))) M
  | ts_list M l : l ≡ₚ (map_to_list M).*2 → tstep t0 t1 N TList M (TrAll (Ok l)) M
  | ts_update_nothing id req M t :
      TSpec.no_change req = true → M !! id = Some t →
      tstep t0 t1 N (TUpdate id req) M (TrOne (Ok t)) M
  | ts_update id req M t now :
      t0 ≤ now ≤ t1 → TSpec.no_change req = false → M !! id = Some t →
      let t' := TSpec.update now req t in
      ¬ TSpec.name_taken (t_Name t') (λ i, i ≠ id) M →
      tstep t0 t1 N (TUpdate id req) M (TrOne (Ok t')) (<[id := t']> M)
  | ts_update_none id req M :
      M !! id = None →
      tstep t0 t1 N (TUpdate id req) M (TrOne (Er (ESentinel ErrNotFound))) M
  | ts_update_duplicate id req M t now :
      TSpec.no_change req = false → M !! id = Some t →
      TSpec.name_taken (t_Name (TSpec.update now req t)) (λ i, i ≠ id) M →
      tstep t0 t1 N (TUpdate id req) M (TrOne (Er (ESentinel ErrDuplicate))) M
  | ts_delete id M :
      is_Some (M !! id) → unused id N →
      tstep t0 t1 N (TDelete id) M (TrErr None) (delete id M)
  | ts_delete_none id M :
      M !! id = None → tstep t0 t1 N (TDelete id) M (TrErr (Some (ESentinel ErrNotFound))) M.

(** The answer of a call that says it met a fault: an error that is none of
    the domain's. *)
Definition reports_fault (r : TReply) : Prop :=
  match r with
  | TrCreate _ (Some e) | TrOne (Er e) | TrAll (Er e) | TrErr (Some e) => root_sentinel e = None
  | _ => False
  end.

(** The one fault no answer tells of: [List] does not look at [rows.Err()], and
    passes off as all the templates [M] those that came before the stream
    broke. *)
Definition cut_short (op : TOp) (M : TStore) (tr : list Event) (r : TReply) : Prop :=
  op = TList ∧ stream_broke tr ∧
  ∃ l k, l ≡ₚ (map_to_list M).*2 ∧ (k < length l)%nat ∧ r = TrAll (Ok (take k l)).

Section TemplateSim.
Context {S : Services} {HS : ServicesOk S} {HO : SentOnce S}.

(** (C23) Every call of the template repository, whatever faults the database
    has, keeps every constraint of the schema, leaves notifications, attempts,
    Redis and the hub alone, and is a step of the abstract store of templates
    with unique names and no deletion of a template in use; or it reports a
    fault, by an error that is none of the domain's, and then the templates are
    as before or as after such a step; or it is a [List] whose rows broke off,
    which answers without an error a proper part of the templates. *)
Theorem template_repository_refines op w tr r w' :
  db_ok (w_db w) → exec (perform_template op) w tr r w' →
  let step r := tstep (w_clock w) (w_clock w') (abs (w_db w)) op
                  (tabs (w_db w)) r (tabs (w_db w')) in
  template_frame w w' ∧
  (step r ∨ (¬ fault_free tr ∧ reports_fault r ∧
             (tabs (w_db w') = tabs (w_db w) ∨ ∃ r', step r')) ∨
   (cut_short op (tabs (w_db w)) tr r ∧ tabs (w_db w') = tabs (w_db w))).
Proof.
  intros Hok H step. subst step.
  assert (Hkeep : ∀ w1, frame_db w w1 → w_db w1 = w_db w → template_frame w w1)
    by (intros w1 ? E; unfold template_frame; by rewrite E).
  destruct op as [t|id| |id req|id]; cbn [perform_template] in H;
    exec_step H; try (destruct x as [t' err]); exec_step H; rewrite ?app_nil_r.
  - apply TemplateRepository_Create_refines in Hx as (Hf & now & id & Hnow & -> & Hcase); [|done].
    split; [done|].
    destruct Hcase as [(-> & ? & ? & ->)|[(-> & -> & ?)|(e & -> & [? ?] & Hm)]]; [left|left|right; left].
    + by constructor.
    + by constructor.
    + split; [done|]. split; [done|]. destruct Hm as [->|(? & ? & ->)]; [by left|right].
      eexists. by constructor.
  - apply TemplateRepository_GetByID_reads in Hx as (Hf & Hdb & Hcase); [|done].
    split; [by apply Hkeep|]. rewrite Hdb.
    destruct Hcase as [(t & -> & ?)|[(-> & ?)|(e & -> & [? ?])]]; [left; by constructor..|right; left].
    split; [done|]. split; [done|by left].
  - apply TemplateRepository_List_reads in Hx as (Hf & Hdb & Hcase); [|done].
    split; [by apply Hkeep|]. rewrite Hdb.
    destruct Hcase as [(l & Hl & [->|(Hb & k & Hk & ->)])|(e & -> & [? ?])];
      [left; by constructor|right; right|right; left].
    + split; [|done]. split; [done|]. split; [done|]. by exists l, k.
    + split; [done|]. split; [done|by left].
  - apply TemplateRepository_Update_refines in Hx as (Hf & Hcase); [|done]. split; [done|].
    destruct (TSpec.no_change req) eqn:Hnc.
    + destruct Hcase as (-> & [(t & -> & ?)|[(-> & ?)|(e & -> & [? ?])]]); [left|left|right; left].
      * by constructor.
      * by constructor.
      * split; [done|]. split; [done|by left].
    + destruct Hcase as (now & Hnow & [(t & -> & ? & ? & ->)|[(-> & ? & ->)
        |[(-> & -> & t & ? & ?)|(e & -> & [? ?] & Hm)]]]).
      * left. by apply ts_update.
      * left. by apply ts_update_none.
      * left. by eapply ts_update_duplicate.
      * right. left. split; [done|]. split; [done|]. destruct Hm as [->|(t & ? & ? & ->)]; [by left|right].
        eexists. by apply ts_update.
  - apply TemplateRepository_Delete_refines in Hx as (Hf & Hcase); [|done]. split; [done|].
    destruct Hcase as [(-> & ? & ? & ->)|[(-> & ? & ->)|(e & -> & [? ?] & Hm)]]; [left|left|right; left].
    + by constructor.
    + by constructor.
    + split; [done|]. split; [done|]. destruct Hm as [->|(? & ? & ->)]; [by left|right].
      eexists. by constructor.
Qed.
End TemplateSim.
