(* ===== verification/Service.v ===== *)
(** * The notification service (internal/service/notification.go) *)

From stdpp Require Import gmap.
From S2P Require Import Prelude GoLib Domain Effects NotificationRepo Validator Templates Queue.

(** The service: whether it has a producer, and its configuration. *)
Record NotificationService := mkService {
  ns_producer : bool;
  ns_DefaultMaxRetries : Z;
}.

Definition NewNotificationService (producer : bool) (DefaultMaxRetries : Z)
    : NotificationService :=
  mkService producer (if DefaultMaxRetries =? 0 then 5 else DefaultMaxRetries).

Section Service.
Context {T : UuidText} {V : StructValidator} {TX : TextTemplate} {MP : MailParser}.

(** The notification of a request, before rendering. *)
Definition new_notification (s : NotificationService) (batchID : option UUID)
    (req : CreateNotificationRequest) : Notification :=
  mkNotification uuid_Nil (r_IdempotencyKey req) batchID (r_Channel req) (r_Priority req)
    (r_Recipient req) (r_Subject req) (r_Body req) (r_TemplateID req) (r_TemplateVars req)
    "" None 0
    (match r_MaxRetries req with Some m => m | None => ns_DefaultMaxRetries s end)
    "" None 0 0.

(** The content from the template, when one is named. [fetch] and [render]
    wrap the errors. *)
Definition from_template (fetch render : error → error) (req : CreateNotificationRequest)
    (n : Notification) : prog (result error Notification) :=
  match r_TemplateID req with
  | None => Ret (Ok n)
  | Some tid =>
      let! r := TemplateService_GetByID tid in
      match r with
      | Er e => Ret (Er (fetch e))
      | Ok tmpl =>
          match Render tmpl (r_TemplateVars req) with
          | Er e => Ret (Er (render e))
          | Ok (subject, body) =>
              Ret (Ok (set_content
                (if negb (subject =? "")%string then subject else n_Subject n) body n))
          end
      end
  end.

(** The status and the instant of a new notification. *)
Definition set_schedule (req : CreateNotificationRequest) (n : Notification) : Notification :=
  match r_ScheduledAt req with
  | Some t => set_ScheduledAt (Some t) (set_Status StatusScheduled n)
  | None => set_Status StatusPending n
  end.

(** Enqueue a pending notification and mark it queued; failures are logged. *)
Definition enqueue_pending (s : NotificationService) (n : Notification) : prog Notification :=
  if (n_Status n =? StatusPending)%string && ns_producer s then
    let! err := Enqueue (n_ID n) (n_Channel n) (n_Priority n) in
    match err with
    | Some _ => Ret n
    | None =>
        run! UpdateStatus (n_ID n) StatusQueued "" in
        Ret (set_Status StatusQueued n)
    end
  else Ret n.

Definition NotificationService_Create (s : NotificationService)
    (req : CreateNotificationRequest) : prog (result error Notification) :=
  match ValidateStruct (create_struct req) with
  | Some e => Ret (Er e)
  | None =>
      if negb (Channel_Valid (r_Channel req)) then Ret (Er (ESentinel ErrInvalidChannel))
      else if negb (Priority_Valid (r_Priority req)) then Ret (Er (ESentinel ErrInvalidPriority))
      else
        let! r := from_template (λ e, EWrap "fetching template: " e "") (λ e, e) req
                    (new_notification s None req) in
        match r with
        | Er e => Ret (Er e)
        | Ok n =>
            match ValidateNotificationContent (n_Channel n) (n_Recipient n) (n_Subject n)
                    (n_Body n) with
            | Some e => Ret (Er e)
            | None =>
                let! '(n, err) := Create (set_schedule req n) in
                match err with
                | Some e => Ret (Er e)
                | None => let! n := enqueue_pending s n in Ret (Ok n)
                end
            end
        end
  end.

(** The text [" at index %d"] of the batch's errors. *)
Definition at_index (i : Z) : string := " at index " +:+ fmt_d i.

(** The notification of the request at index [i], or the error. *)
Definition batch_member (s : NotificationService) (batchID : UUID) (i : Z)
    (r : CreateNotificationRequest) : prog (result error Notification) :=
  if negb (Channel_Valid (r_Channel r)) then
    Ret (Er (EWrap "" (ESentinel ErrInvalidChannel) (at_index i)))
  else if negb (Priority_Valid (r_Priority r)) then
    Ret (Er (EWrap "" (ESentinel ErrInvalidPriority) (at_index i)))
  else
    let! res := from_template (λ e, EWrap ("template" +:+ at_index i +:+ ": ") e "")
                  (λ e, EWrap ("template render" +:+ at_index i +:+ ": ") e "") r
                  (new_notification s (Some batchID) r) in
    match res with
    | Er e => Ret (Er e)
    | Ok n =>
        match ValidateNotificationContent (n_Channel n) (n_Recipient n) (n_Subject n)
                (n_Body n) with
        | Some e => Ret (Er (EWrap ("validation" +:+ at_index i +:+ ": ") e ""))
        | None => Ret (Ok (set_schedule r n))
        end
    end.

(** The loop over the requests; it stops at the first error. *)
Fixpoint batch_members (s : NotificationService) (batchID : UUID) (i : Z)
    (rs : list CreateNotificationRequest) : prog (result error (list Notification)) :=
  match rs with
  | [] => Ret (Ok [])
  | r :: rs =>
      let! m := batch_member s batchID i r in
      match m with
      | Er e => Ret (Er e)
      | Ok n =>
          let! ms := batch_members s batchID (i + 1) rs in
          match ms with
          | Er e => Ret (Er e)
          | Ok ns => Ret (Ok (n :: ns))
          end
      end
  end.

Fixpoint enqueue_batch (s : NotificationService) (ns : list Notification)
    : prog (list Notification) :=
  match ns with
  | [] => Ret []
  | n :: ns =>
      let! n := enqueue_pending s n in
      let! ns := enqueue_batch s ns in
      Ret (n :: ns)
  end.

Definition NotificationService_CreateBatch (s : NotificationService)
    (req : BatchCreateRequest) : prog (result error (list Notification)) :=
  match ValidateStruct (batch_struct req) with
  | Some e => Ret (Er e)
  | None =>
      let reqs := default [] (b_Notifications req) in
      if 1000 <? Z.of_nat (length reqs) then Ret (Er (ESentinel ErrBatchTooLarge))
      else
        let! batchID := do NewV7 in
        let! r := batch_members s batchID 0 reqs in
        match r with
        | Er e => Ret (Er e)
        | Ok notifications =>
            let! '(notifications, err) := CreateBatch notifications in
            match err with
            | Some e => Ret (Er e)
            | None => let! notifications := enqueue_batch s notifications in
                      Ret (Ok notifications)
            end
        end
  end.

Definition NotificationService_GetByID (id : UUID) : prog (result error Notification) :=
  GetByID id.

Definition NotificationService_List (filter : NotificationFilter)
    : prog (result error NotificationList) := List filter.

Definition NotificationService_Cancel (id : UUID) : prog (option error) := Cancel id.

Definition NotificationService_GetDeliveryAttempts (notificationID : UUID)
    : prog (result error (list DeliveryAttempt)) :=
  let! r := GetByID notificationID in
  match r with
  | Er e => Ret (Er e)
  | Ok _ => GetDeliveryAttempts notificationID
  end.
End Service.
