(* ===== verification/Api.v ===== *)
(** * The HTTP API (internal/api)

    Responses, handlers, the router's table and the middleware. Request bodies
    reach a handler decoded ([None]: not decodable); what the router puts in
    the path and the query is a string. *)

From stdpp Require Import gmap.
From Stdlib Require Import Ascii.
From S2P Require Import Prelude GoLib Domain Effects Validator Templates Queue Service Hub.

(** ** Responses (handler/response.go) *)

Definition StatusOK : Z := 200.
Definition StatusCreated : Z := 201.
Definition StatusNoContent : Z := 204.
Definition StatusBadRequest : Z := 400.
Definition StatusNotFound : Z := 404.
Definition StatusConflict : Z := 409.
Definition StatusUnprocessableEntity : Z := 422.
Definition StatusInternalServerError : Z := 500.
Definition StatusServiceUnavailable : Z := 503.

(** The values the handlers encode. *)
Inductive Body :=
  | BEmpty
  | BText (msg : string)
  | BError (msg : string)
  | BNotification (n : Notification)
  | BBatch (ns : list Notification) (count : Z)
  | BList (l : NotificationList)
  | BAttempts (l : list DeliveryAttempt)
  | BTemplate (t : Template)
  | BTemplates (l : list Template)
  | BStatus (status : string)
  | BChecks (status : string) (checks : list (string * string)).

Record Response := mkResponse { rs_status : Z; rs_body : Body }.

Definition writeJSON (status : Z) (v : Body) : Response := mkResponse status v.
Definition writeError (status : Z) (msg : string) : Response := writeJSON status (BError msg).

Definition handleDomainError (err : error) : Response :=
  if errors_Is err ErrNotFound then writeError StatusNotFound "resource not found"
  else if errors_Is err ErrDuplicate then writeError StatusConflict "duplicate entry"
  else if errors_Is err ErrIdempotencyConflict then
    writeError StatusConflict "idempotency key already exists"
  else if errors_Is err ErrCannotCancel then
    writeError StatusUnprocessableEntity "notification cannot be cancelled in current status"
  else if errors_Is err ErrBatchTooLarge then
    writeError StatusBadRequest "batch size exceeds maximum of 1000"
  else if errors_Is err ErrInvalidChannel then writeError StatusBadRequest "invalid channel"
  else if errors_Is err ErrInvalidPriority then writeError StatusBadRequest "invalid priority"
  else if errors_Is err ErrTemplateRender then writeError StatusBadRequest (Error err)
  else if errors_Is err ErrValidation then writeError StatusBadRequest (Error err)
  else writeError StatusInternalServerError "internal server error".

(** A handler's answer to a result. *)
Definition respond {A} (status : Z) (body : A → Body) (r : result error A) : Response :=
  match r with
  | Ok a => writeJSON status (body a)
  | Er e => handleDomainError e
  end.

(** ** Parsing *)

(** [strconv.Atoi]: an optional sign, decimal digits, an [int]. *)
Fixpoint digits_value (acc : Z) (s : list ascii) : option Z :=
  match s with
  | [] => Some acc
  | c :: s =>
      if in_range "0" "9" c then
        digits_value (acc * 10 + (Z.of_N (N_of_ascii c) - 48)) s
      else None
  end.

Definition strconv_Atoi (s : string) : option Z :=
  let digits l := match l with [] => None | _ => digits_value 0 l end in
  let ranged v := if (int_min <=? v) && (v <=? int_max) then Some v else None in
  match String.list_ascii_of_string s with
  | [] => None
  | c :: l =>
      if Ascii.eqb c "-" then v ← digits l; ranged (- v)
      else if Ascii.eqb c "+" then v ← digits l; ranged v
      else v ← digits (c :: l); ranged v
  end.

(** [time.Parse(time.RFC3339Nano, s)] and the text of a time in JSON
    (RFC 3339 with nanoseconds), parameters. *)
Class TimeParse := {
  Parse_RFC3339Nano : string → option Z;
  Format_RFC3339Nano : Z → string;
}.

(** The years 0 to 9999, which the format can express. *)
Definition time_range (t : Z) : Prop := - 62167219200 * 10 ^ 9 ≤ t < 253402300800 * 10 ^ 9.

Class TimeParseOk (P : TimeParse) := {
  Parse_Format_RFC3339Nano t :
    time_range t → Parse_RFC3339Nano (Format_RFC3339Nano t) = Some t;
  Format_RFC3339Nano_nonempty t : Format_RFC3339Nano t ≠ "";
}.

(** The query parameters of a request: [r.URL.Query().Get]. *)
Abbreviation Query := (string → string).

Section Handlers.
Context {T : UuidText} {V : StructValidator} {TX : TextTemplate} {MP : MailParser}
  {TP : TimeParse}.
Context (svc : NotificationService).

(** ** Notifications (handler/notification.go) *)

Definition NotificationHandler_Create (body : option CreateNotificationRequest) : prog Response :=
  match body with
  | None => Ret (writeError StatusBadRequest "invalid request body")
  | Some req =>
      let! r := NotificationService_Create svc req in
      Ret (respond StatusCreated BNotification r)
  end.

Definition NotificationHandler_CreateBatch (body : option BatchCreateRequest) : prog Response :=
  match body with
  | None => Ret (writeError StatusBadRequest "invalid request body")
  | Some req =>
      let! r := NotificationService_CreateBatch svc req in
      Ret (respond StatusCreated (λ ns, BBatch ns (Z.of_nat (length ns))) r)
  end.

Definition NotificationHandler_Get (id : string) : prog Response :=
  match uuid_Parse id with
  | None => Ret (writeError StatusBadRequest "invalid notification ID")
  | Some id =>
      let! r := NotificationService_GetByID id in
      Ret (respond StatusOK BNotification r)
  end.

(** The filter of the query, or the response that rejects it. *)
Definition parse_filter (q : Query) : Response + NotificationFilter :=
  let status := if negb (q "status" =? "")%string then Some (q "status") else None in
  let channel := if negb (q "channel" =? "")%string then Some (q "channel") else None in
  let with_cursor batch limit :=
    if negb (q "cursor_time" =? "")%string && negb (q "cursor_id" =? "")%string then
      match Parse_RFC3339Nano (q "cursor_time") with
      | None => inl (writeError StatusBadRequest "invalid cursor_time")
      | Some t =>
          match uuid_Parse (q "cursor_id") with
          | None => inl (writeError StatusBadRequest "invalid cursor_id")
          | Some id => inr (mkFilter status channel batch (Some (mkCursor t id)) limit)
          end
      end
    else inr (mkFilter status channel batch None limit) in
  let with_limit batch :=
    if negb (q "limit" =? "")%string then
      match strconv_Atoi (q "limit") with
      | None => inl (writeError StatusBadRequest "invalid limit")
      | Some limit =>
          if limit <? 1 then inl (writeError StatusBadRequest "invalid limit")
          else with_cursor batch limit
      end
    else with_cursor batch 0 in
  if negb (q "batch_id" =? "")%string then
    match uuid_Parse (q "batch_id") with
    | None => inl (writeError StatusBadRequest "invalid batch_id")
    | Some b => with_limit (Some b)
    end
  else with_limit None.

Definition NotificationHandler_List (q : Query) : prog Response :=
  match parse_filter q with
  | inl resp => Ret resp
  | inr filter =>
      let! r := NotificationService_List filter in
      Ret (respond StatusOK BList r)
  end.

Definition NotificationHandler_ListByBatch (batchId : string) : prog Response :=
  match uuid_Parse batchId with
  | None => Ret (writeError StatusBadRequest "invalid batch ID")
  | Some b =>
      let! r := NotificationService_List (mkFilter None None (Some b) None 100) in
      Ret (respond StatusOK BList r)
  end.

Definition NotificationHandler_Cancel (id : string) : prog Response :=
  match uuid_Parse id with
  | None => Ret (writeError StatusBadRequest "invalid notification ID")
  | Some id =>
      let! r := NotificationService_Cancel id in
      match r with
      | Some e => Ret (handleDomainError e)
      | None => Ret (writeJSON StatusOK (BStatus "cancelled"))
      end
  end.

Definition NotificationHandler_GetAttempts (id : string) : prog Response :=
  match uuid_Parse id with
  | None => Ret (writeError StatusBadRequest "invalid notification ID")
  | Some id =>
      let! r := NotificationService_GetDeliveryAttempts id in
      Ret (respond StatusOK BAttempts r)
  end.

(** ** Templates (handler/template.go) *)

Definition TemplateHandler_Create (body : option CreateTemplateRequest) : prog Response :=
  match body with
  | None => Ret (writeError StatusBadRequest "invalid request body")
  | Some req =>
      let! r := TemplateService_Create req in
      Ret (respond StatusCreated BTemplate r)
  end.

Definition TemplateHandler_Get (id : string) : prog Response :=
  match uuid_Parse id with
  | None => Ret (writeError StatusBadRequest "invalid template ID")
  | Some id =>
      let! r := TemplateService_GetByID id in
      Ret (respond StatusOK BTemplate r)
  end.

Definition TemplateHandler_List : prog Response :=
  let! r := TemplateService_List in
  Ret (respond StatusOK BTemplates r).

Definition TemplateHandler_Update (id : string) (body : option UpdateTemplateRequest)
    : prog Response :=
  match uuid_Parse id with
  | None => Ret (writeError StatusBadRequest "invalid template ID")
  | Some id =>
      match body with
      | None => Ret (writeError StatusBadRequest "invalid request body")
      | Some req =>
          let! r := TemplateService_Update id req in
          Ret (respond StatusOK BTemplate r)
      end
  end.

Definition TemplateHandler_Delete (id : string) : prog Response :=
  match uuid_Parse id with
  | None => Ret (writeError StatusBadRequest "invalid template ID")
  | Some id =>
      let! r := TemplateService_Delete id in
      match r with
      | Some e => Ret (handleDomainError e)
      | None => Ret (mkResponse StatusNoContent BEmpty)
      end
  end.

(** ** Health (handler/health.go) *)

Definition Health : Response := writeJSON StatusOK (BStatus "ok").

Definition statusText (code : Z) : string := if code =? StatusOK then "ok" else "unhealthy".

Definition check (err : option string) : string :=
  match err with Some e => "unhealthy: " +:+ e | None => "ok" end.

Definition Ready : prog Response :=
  let! pg := do (Ping "postgres") in
  let! rd := do (Ping "redis") in
  let checks := [("postgres", check pg); ("redis", check rd)] in
  let status :=
    if forallb (λ kv, (kv.2 =? "ok")%string) checks then StatusOK
    else StatusServiceUnavailable in
  Ret (writeJSON status (BChecks (statusText status) checks)).
End Handlers.

(** ** Middleware *)

(** What a request is answered with: a handler's response, the metrics page
    (the Prometheus library writes it), or a WebSocket session that ended. *)
Inductive Answer :=
  | AResponse (r : Response)
  | AMetrics
  | AWebSocket (e : WsEnd).

(** The part of a handler before its panic, if it has one: [None]. *)
Fixpoint recover {A} (p : prog A) : prog (option A) :=
  match p with
  | Ret a => Ret (Some a)
  | Vis e k =>
      match e in Eff X return (X → prog (option A)) → prog (option A) with
      | Panic => λ _, Ret None
      | e => λ k, Vis e k
      end (λ x, recover (k x))
  end.

(** [Recovery]: a panic of the handler becomes a 500 response. *)
Definition Recovery (next : prog Answer) : prog Answer :=
  let! r := recover next in
  match r with
  | Some resp => Ret resp
  | None => Ret (AResponse (mkResponse StatusInternalServerError
                   (BText ("{" +:+ dq +:+ "error" +:+ dq +:+ ":" +:+ dq +:+
                           "internal server error" +:+ dq +:+ "}"))))
  end.

(** [Logging]: the instants before and after, and the handler with a writer that
    keeps the status; the log itself is not modelled. *)
Definition Logging {A} (next : ResponseWriter → prog A) (rw : ResponseWriter) : prog A :=
  let! start := do Now in
  let! a := next (responseWriter rw StatusOK) in
  let! stop := do Now in
  Ret a.

(** [RequestID]: the id of the response's [X-Request-ID] header. *)
Definition RequestID `{UuidText} {A} (header : string) (next : string → prog A)
    : prog (string * A) :=
  if (header =? "")%string then
    let! u := do NewV7 in
    let! a := next (uuid_String u) in
    Ret (uuid_String u, a)
  else let! a := next header in Ret (header, a).

(** ** The router (router.go) *)

(** Which handler serves a request, with the wildcards of its path. *)
Inductive Route :=
  | RHealth | RReady | RMetrics
  | RCreate | RCreateBatch | RGet (id : string) | RList | RListByBatch (batchId : string)
  | RCancel (id : string) | RGetAttempts (id : string)
  | RTemplateCreate | RTemplateList | RTemplateGet (id : string) | RTemplateUpdate (id : string)
  | RTemplateDelete (id : string)
  | RWebSocket (id : string).

(** A pattern of [http.ServeMux]: a method and segments, a wildcard being
    [None]; the handler gets the wildcards' values. *)
Record Pattern := mkPattern {
  pt_method : string;
  pt_path : list (option string);
  pt_route : list string → option Route;
}.

Definition lit (s : string) : option string := Some s.
Definition wild : option string := None.

Definition no_args (r : Route) : list string → option Route :=
  λ l, match l with [] => Some r | _ => None end.
Definition one_arg (f : string → Route) : list string → option Route :=
  λ l, match l with [x] => Some (f x) | _ => None end.

Definition routes : list Pattern :=
  [mkPattern "GET" [lit "health"] (no_args RHealth);
   mkPattern "GET" [lit "ready"] (no_args RReady);
   mkPattern "GET" [lit "metrics"] (no_args RMetrics);
   mkPattern "POST" [lit "api"; lit "v1"; lit "notifications"] (no_args RCreate);
   mkPattern "POST" [lit "api"; lit "v1"; lit "notifications"; lit "batch"] (no_args RCreateBatch);
   mkPattern "GET" [lit "api"; lit "v1"; lit "notifications"; wild] (one_arg RGet);
   mkPattern "GET" [lit "api"; lit "v1"; lit "notifications"] (no_args RList);
   mkPattern "GET" [lit "api"; lit "v1"; lit "batches"; wild; lit "notifications"]
     (one_arg RListByBatch);
   mkPattern "POST" [lit "api"; lit "v1"; lit "notifications"; wild; lit "cancel"]
     (one_arg RCancel);
   mkPattern "GET" [lit "api"; lit "v1"; lit "notifications"; wild; lit "attempts"]
     (one_arg RGetAttempts);
   mkPattern "POST" [lit "api"; lit "v1"; lit "templates"] (no_args RTemplateCreate);
   mkPattern "GET" [lit "api"; lit "v1"; lit "templates"] (no_args RTemplateList);
   mkPattern "GET" [lit "api"; lit "v1"; lit "templates"; wild] (one_arg RTemplateGet);
   mkPattern "PUT" [lit "api"; lit "v1"; lit "templates"; wild] (one_arg RTemplateUpdate);
   mkPattern "DELETE" [lit "api"; lit "v1"; lit "templates"; wild] (one_arg RTemplateDelete);
   mkPattern "GET" [lit "ws"; lit "notifications"; wild] (one_arg RWebSocket)].

(** The values of the wildcards, when the path matches; a wildcard takes one
    segment, not the empty one after a trailing slash. *)
Fixpoint match_path (pat : list (option string)) (path : list string) : option (list string) :=
  match pat, path with
  | [], [] => Some []
  | Some s :: pat, x :: path => if (s =? x)%string then match_path pat path else None
  | None :: pat, x :: path =>
      if (x =? "")%string then None else l ← match_path pat path; Some (x :: l)
  | _, _ => None
  end.

(** A GET pattern serves HEAD as well. *)
Definition match_method (pat method : string) : bool :=
  (pat =? method)%string || ((pat =? "GET")%string && (method =? "HEAD")%string).

(** The outcome of the mux: a route, 405 or 404. *)
Inductive Routed := Serve (r : Route) | MethodNotAllowed | NotFound.

Definition matches_pattern (method : string) (path : list string) (p : Pattern) : bool :=
  match_method (pt_method p) method && bool_decide (is_Some (match_path (pt_path p) path)).

Definition route (method : string) (path : list string) : Routed :=
  match filter (λ p, matches_pattern method path p = true) routes with
  | p :: _ =>
      match match_path (pt_path p) path ≫= pt_route p with
      | Some r => Serve r
      | None => NotFound
      end
  | [] =>
      if existsb (λ p, bool_decide (is_Some (match_path (pt_path p) path))) routes
      then MethodNotAllowed else NotFound
  end.

(** ** The handler of all requests (NewRouter) *)

(** [json.NewDecoder(r.Body).Decode(&req)] at the types of the requests,
    parameters: [None] is an error. *)
Class JsonBody := {
  Decode_CreateNotification : string → option CreateNotificationRequest;
  Decode_BatchCreate : string → option BatchCreateRequest;
  Decode_CreateTemplate : string → option CreateTemplateRequest;
  Decode_UpdateTemplate : string → option UpdateTemplateRequest;
}.

Record Request := mkRequest {
  rq_Method : string;
  rq_Path : list string;           (* the segments of the clean path (ServeMux redirects others) *)
  rq_Query : Query;
  rq_Body : string;
  rq_RequestID : string;           (* the header X-Request-ID *)
}.

Section NewRouter.
Context {T : UuidText} {V : StructValidator} {TX : TextTemplate} {MP : MailParser}
  {TP : TimeParse} {JB : JsonBody}.
Context (svc : NotificationService).

(** The handler of a route; [reads] bounds the frames read from a WebSocket. *)
Definition serve (reads : nat) (rw : ResponseWriter) (req : Request) (r : Route) : prog Answer :=
  let resp p := let! x := p in Ret (AResponse x) in
  match r with
  | RHealth => Ret (AResponse Health)
  | RReady => resp Ready
  | RMetrics => Ret AMetrics
  | RCreate => resp (NotificationHandler_Create svc (Decode_CreateNotification (rq_Body req)))
  | RCreateBatch => resp (NotificationHandler_CreateBatch svc (Decode_BatchCreate (rq_Body req)))
  | RGet id => resp (NotificationHandler_Get id)
  | RList => resp (NotificationHandler_List (rq_Query req))
  | RListByBatch b => resp (NotificationHandler_ListByBatch b)
  | RCancel id => resp (NotificationHandler_Cancel id)
  | RGetAttempts id => resp (NotificationHandler_GetAttempts id)
  | RTemplateCreate => resp (TemplateHandler_Create (Decode_CreateTemplate (rq_Body req)))
  | RTemplateList => resp TemplateHandler_List
  | RTemplateGet id => resp (TemplateHandler_Get id)
  | RTemplateUpdate id => resp (TemplateHandler_Update id (Decode_UpdateTemplate (rq_Body req)))
  | RTemplateDelete id => resp (TemplateHandler_Delete id)
  | RWebSocket id => let! e := HandleWebSocket reads rw id in Ret (AWebSocket e)
  end.

Definition ServeMux (reads : nat) (rw : ResponseWriter) (req : Request) : prog Answer :=
  match route (rq_Method req) (rq_Path req) with
  | Serve r => serve reads rw req r
  | MethodNotAllowed => Ret (AResponse (mkResponse 405 (BText "Method Not Allowed")))
  | NotFound => Ret (AResponse (mkResponse StatusNotFound (BText "404 page not found")))
  end.

(** Logging inside Recovery inside RequestID, given the server's writer. *)
Definition NewRouter (reads : nat) (req : Request) : prog (string * Answer) :=
  RequestID (rq_RequestID req) (λ _, Recovery (Logging (λ rw, ServeMux reads rw req) serverWriter)).
End NewRouter.
