(* ===== verification/ServiceSpec.v ===== *)
(** * What the notification service does with a request

    [accepted] is the content of a request's notification, or the error that
    rejects it, given the templates; without faults the service stores exactly
    that, once, and puts it on the stream of its priority unless it is
    scheduled. *)

From stdpp Require Import gmap.
From S2P Require Import Prelude GoLib Domain Sql Redis RedisFacts Effects Discipline Frames.
From S2P Require Import NotificationRepo NotificationStore NotificationSpec Batches Queue.
From S2P Require Import QueueSpec Worker WorkerSpec Validator Templates TemplateSpec Service.

(** ** Specification *)

Section Accepted.
Context {T : UuidText} {V : StructValidator} {TX : TextTemplate} {MP : MailParser}.

(** The content after the template, from the templates [M]. *)
Definition content (M : TStore) (fetch render : error → error) (req : CreateNotificationRequest)
    (n : Notification) : result error Notification :=
  match r_TemplateID req with
  | None => Ok n
  | Some tid =>
      match M !! tid with
      | None => Er (fetch (ESentinel ErrNotFound))
      | Some tmpl =>
          match Render tmpl (r_TemplateVars req) with
          | Er e => Er (render e)
          | Ok (subject, body) =>
              Ok (set_content
                (if negb (subject =? "")%string then subject else n_Subject n) body n)
          end
      end
  end.

Definition checked (n : Notification) : option error :=
  ValidateNotificationContent (n_Channel n) (n_Recipient n) (n_Subject n) (n_Body n).

(** The notification a single request stands for. *)
Definition accepted (s : NotificationService) (M : TStore) (req : CreateNotificationRequest)
    : result error Notification :=
  match ValidateStruct (create_struct req) with
  | Some e => Er e
  | None =>
      if negb (Channel_Valid (r_Channel req)) then Er (ESentinel ErrInvalidChannel)
      else if negb (Priority_Valid (r_Priority req)) then Er (ESentinel ErrInvalidPriority)
      else match content M (λ e, EWrap "fetching template: " e "") (λ e, e) req
                   (new_notification s None req) with
           | Er e => Er e
           | Ok n => match checked n with
                     | Some e => Er e
                     | None => Ok (set_schedule req n)
                     end
           end
  end.

(** Whether a new notification goes to its stream at once. *)
Definition immediate (s : NotificationService) (n : Notification) : bool :=
  (n_Status n =? StatusPending)%string && ns_producer s.

(** [dispatched s n' S Q n'' S' Q']: from a store [S] that has the new [n'],
    the notification is queued, or left as it is. *)
Definition dispatched (s : NotificationService) (n' : Notification) (S0 : Store) (Q : AQueue)
    (n'' : Notification) (S' : Store) (Q' : AQueue) : Prop :=
  if immediate s n' then
    n'' = set_Status StatusQueued n' ∧
    appended (StreamKey (n_Priority n')) (entry_values (n_ID n') (n_Channel n')) Q Q' ∧
    ∃ t m, S0 !! n_ID n' = Some m ∧ S' = <[n_ID n' := Spec.mark t StatusQueued "" m]> S0
  else n'' = n' ∧ S' = S0 ∧ Q' = Q.

(** The notifications of a batch, one after the other. *)
Inductive dispatched_all (s : NotificationService)
    : list Notification → Store → AQueue → list Notification → Store → AQueue → Prop :=
  | da_nil S0 Q : dispatched_all s [] S0 Q [] S0 Q
  | da_cons n ns S0 Q n' S1 Q1 ns' S' Q' :
      dispatched s n S0 Q n' S1 Q1 → dispatched_all s ns S1 Q1 ns' S' Q' →
      dispatched_all s (n :: ns) S0 Q (n' :: ns') S' Q'.

(** The notification of the request at index [i] of a batch. *)
Definition accepted_at (s : NotificationService) (M : TStore) (batchID : UUID) (i : Z)
    (req : CreateNotificationRequest) : result error Notification :=
  if negb (Channel_Valid (r_Channel req)) then
    Er (EWrap "" (ESentinel ErrInvalidChannel) (at_index i))
  else if negb (Priority_Valid (r_Priority req)) then
    Er (EWrap "" (ESentinel ErrInvalidPriority) (at_index i))
  else match content M (λ e, EWrap ("template" +:+ at_index i +:+ ": ") e "")
               (λ e, EWrap ("template render" +:+ at_index i +:+ ": ") e "") req
               (new_notification s (Some batchID) req) with
       | Er e => Er e
       | Ok n => match checked n with
                 | Some e => Er (EWrap ("validation" +:+ at_index i +:+ ": ") e "")
                 | None => Ok (set_schedule req n)
                 end
       end.

(** All of them, or the error of the first one that has one. *)
Fixpoint accepted_from (s : NotificationService) (M : TStore) (batchID : UUID) (i : Z)
    (reqs : list CreateNotificationRequest) : result error (list Notification) :=
  match reqs with
  | [] => Ok []
  | req :: reqs =>
      match accepted_at s M batchID i req with
      | Er e => Er e
      | Ok n => match accepted_from s M batchID (i + 1) reqs with
                | Er e => Er e
                | Ok ns => Ok (n :: ns)
                end
      end
  end.

Definition accepted_batch (s : NotificationService) (M : TStore) (batchID : UUID)
    (req : BatchCreateRequest) : result error (list Notification) :=
  match ValidateStruct (batch_struct req) with
  | Some e => Er e
  | None =>
      let reqs := default [] (b_Notifications req) in
      if 1000 <? Z.of_nat (length reqs) then Er (ESentinel ErrBatchTooLarge)
      else accepted_from s M batchID 0 reqs
  end.
End Accepted.

(** ** Rejections have a reason the API maps to a client error *)

Section Reasons.
Context {T : UuidText} {V : StructValidator} {TX : TextTemplate} {MP : MailParser}.

Definition has_reason (e : error) : Prop := is_Some (root_sentinel e).

Lemma ValidateStruct_reason st e : ValidateStruct st = Some e → root_sentinel e = Some ErrValidation.
Proof. unfold ValidateStruct. destruct (validate_Struct st); [|done]. by intros [= <-]. Qed.

Lemma checked_reason n e : checked n = Some e →
  root_sentinel e = Some ErrValidation ∨ root_sentinel e = Some ErrInvalidChannel.
Proof.
  unfold checked, ValidateNotificationContent, validation_error, body_required, validation_error.
  intros H. repeat case_match; simplify_eq; auto.
Qed.

Lemma Render_reason t vars e : Render t vars = Er e → root_sentinel e = Some ErrTemplateRender.
Proof. unfold Render, expand, render_error. intros H. repeat case_match; by simplify_eq. Qed.

Lemma content_reason M fetch render req n e :
  (∀ e, root_sentinel (fetch e) = root_sentinel e) →
  (∀ e, root_sentinel (render e) = root_sentinel e) →
  content M fetch render req n = Er e →
  root_sentinel e = Some ErrNotFound ∨ root_sentinel e = Some ErrTemplateRender.
Proof.
  unfold content. intros Hf Hr H. repeat case_match; simplify_eq.
  - right. rewrite Hr. by eapply Render_reason.
  - left. by rewrite Hf.
Qed.

(** The sentinels a rejection of a request can have at its root. *)
Definition rejections : list Sentinel :=
  [ErrValidation; ErrInvalidChannel; ErrInvalidPriority; ErrNotFound; ErrTemplateRender].

Lemma accepted_reason s M req e :
  accepted s M req = Er e → ∃ x, root_sentinel e = Some x ∧ x ∈ rejections.
Proof.
  assert (Hin : ∀ e0 x, root_sentinel e0 = Some x → bool_decide (x ∈ rejections) = true →
    ∃ x, root_sentinel e0 = Some x ∧ x ∈ rejections).
  { intros e0 x ? ?%bool_decide_eq_true. by exists x. }
  unfold accepted. intros H.
  destruct (ValidateStruct (create_struct req)) as [e0|] eqn:Hv.
  { injection H as <-. apply ValidateStruct_reason in Hv. by eapply Hin. }
  destruct (negb (Channel_Valid _)); [injection H as <-; by eapply Hin|].
  destruct (negb (Priority_Valid _)); [injection H as <-; by eapply Hin|].
  destruct (content _ _ _ _ _) as [n|e0] eqn:Hc.
  - destruct (checked n) as [e0|] eqn:Hk; [|done]. injection H as <-.
    apply checked_reason in Hk as [?|?]; by eapply Hin.
  - injection H as <-. apply content_reason in Hc as [?|?]; [by eapply Hin..| |]; done.
Qed.
End Reasons.

(** ** Executions *)

Section ServiceSpec.
Context {T : UuidText} {V : StructValidator} {TX : TextTemplate} {MP : MailParser}
  {S : Services} {HS : ServicesOk S} {HO : SentOnce S}.

Lemma from_template_reads fetch render req n w tr r w' :
  db_ok (w_db w) → exec (from_template fetch render req n) w tr r w' →
  frame_db w w' ∧ w_db w' = w_db w ∧
  (r = content (tabs (w_db w)) fetch render req n ∨
   (¬ fault_free tr ∧ ∃ e, r = Er (fetch e) ∧ root_sentinel e = None)).
Proof.
  intros Hok H. unfold from_template, content in *. destruct (r_TemplateID req) as [tid|].
  2: { destruct H as (-> & -> & ->). split; [done|]. split; [done|]. by left. }
  exec_step H. apply TemplateRepository_GetByID_reads in Hx as (Hf & Hdb & Hcase); [|done].
  assert (Hw : w' = w0) by (repeat case_match; by destruct H as (_ & _ & ->)). subst w'.
  split; [done|]. split; [done|].
  destruct Hcase as [(t & -> & ->)|[(-> & ->)|(e & -> & [Hff He])]].
  - left. destruct (Render t (r_TemplateVars req)) as [[? ?]|]; by destruct H as (_ & -> & _).
  - left. by destruct H as (_ & -> & _).
  - right. destruct H as (-> & -> & _). rewrite app_nil_r. split; [done|]. by exists e.
Qed.

(** Enqueueing a stored notification, without faults. *)
Lemma enqueue_pending_runs s n m w tr n' w' :
  world_ok w → fault_free tr → abs (w_db w) !! n_ID n = Some m →
  exec (enqueue_pending s n) w tr n' w' →
  world_ok w' ∧ worker_frame w w' ∧ others_same (w_db w) (w_db w') ∧
  dispatched s n (abs (w_db w)) (aqueue (w_redis w)) n' (abs (w_db w')) (aqueue (w_redis w')).
Proof.
  intros Hw Hff Hm H. unfold enqueue_pending, dispatched, immediate in *.
  destruct (_ && _); [|by destruct H as (-> & -> & ->)].
  part H Hff. apply Enqueue_queued in Hx as (Hf1 & Hq1); [|apply Hw].
  assert (a = None) as -> by (destruct Hq1 as (_ & [(_ & ?)|(? & _)]); done).
  eapply step_queue in Hw as (Hw1 & Hwf1 & D1 & Happ); [|exact Hff1|by split].
  part H Hff. pose proof Hx as Hx'.
  apply (step_update _ _ _ m) in Hx as (Hw2 & Hf2 & R2 & t & Ha); [|done..|by rewrite D1].
  apply UpdateStatus_refines in Hx' as ((_ & _ & Ho) & _); [|apply Hw1].
  destruct H as (-> & -> & ->). split; [done|]. split; [by etrans|].
  split; [by rewrite <- D1|]. rewrite R2. split; [done|]. split; [done|]. exists t, m. by rewrite Ha, D1.
Qed.

Lemma create_some n S0 S' out :
  Spec.create n S0 S' out →
  (out = None ∧ S' !! n_ID n = Some (Spec.stored n)) ∨ (is_Some out ∧ S' = S0).
Proof. destruct 1; [left|right; by split|right; by split]. split; [done|]. by rewrite lookup_insert_eq. Qed.

(** The program has ended with an error, and nothing has changed. *)
Local Ltac rejected H := destruct H as (-> & -> & ->); split_and!; try done; eauto.

(** What creating a notification may do. *)
Definition create_outcome (s : NotificationService) (req : CreateNotificationRequest)
    (w w' : World) (r : result error Notification) : Prop :=
  let S0 := abs (w_db w) in let S' := abs (w_db w') in
  let Q := aqueue (w_redis w) in let Q' := aqueue (w_redis w') in
  match accepted s (tabs (w_db w)) req with
  | Er e => r = Er e ∧ (∃ x, root_sentinel e = Some x ∧ x ∈ rejections) ∧ S' = S0 ∧ Q' = Q
  | Ok n =>
      ∃ now id, w_clock w ≤ now ≤ w_clock w' ∧
      let n' := set_ident id now now n in
      (∃ x, Spec.create n' S0 S0 (Some x) ∧ r = Er (ESentinel x) ∧ S' = S0 ∧ Q' = Q) ∨
      (∃ S1 n'', Spec.create n' S0 S1 None ∧ r = Ok n'' ∧ dispatched s n' S1 Q n'' S' Q')
  end.

Lemma NotificationService_Create_runs s req w tr r w' :
  world_ok w → fault_free tr → exec (NotificationService_Create s req) w tr r w' →
  world_ok w' ∧ worker_frame w w' ∧ others_same (w_db w) (w_db w') ∧ create_outcome s req w w' r.
Proof.
  intros Hw Hff H. unfold NotificationService_Create in H. unfold create_outcome. cbn zeta.
  pose proof (accepted_reason s (tabs (w_db w)) req) as Hreason. unfold accepted in *.
  destruct (ValidateStruct (create_struct req)) as [e|].
  { by rejected H. }
  destruct (negb (Channel_Valid _)); [by rejected H|].
  destruct (negb (Priority_Valid _)); [by rejected H|].
  part H Hff. apply from_template_reads in Hx as (Hf1 & D1 & [->|[? _]]); [|done|apply Hw].
  assert (R1 : w_redis w0 = w_redis w) by apply Hf1. apply frame_db_worker in Hf1.
  assert (Hw1 : world_ok w0) by (unfold world_ok; by rewrite D1, R1).
  destruct (content _ _ _ _ _) as [n|e].
  2: { rejected H; by rewrite ?D1, ?R1. }
  unfold checked in *. destruct (ValidateNotificationContent _ _ _ _) as [e|].
  { rejected H; by rewrite ?D1, ?R1. }
  part H Hff. destruct a as [n1 err].
  apply Create_refines in Hx as ((Hf2 & Hok2 & Ho2) & now & id & Hnow & -> & Hcr); [|apply Hw1].
  destruct Hcr as [(out & Hcr & ->)|[? _]]; [|done].
  assert (R2 : w_redis w1 = w_redis w0) by apply Hf2. apply frame_db_worker in Hf2.
  assert (Hw2 : world_ok w1) by (split; [done|rewrite R2; apply Hw1]). rewrite D1 in *.
  destruct (create_some _ _ _ _ Hcr) as [(-> & Hst)|([x ->] & HS1)]; cbn in H.
  - part H Hff. apply (enqueue_pending_runs _ _ _ _ _ _ _ Hw2 Hff2 Hst) in Hx
      as (Hw3 & Hf3 & Ho3 & Hd). destruct H as (-> & -> & ->).
    split; [done|]. split; [by etrans; [|etrans]|]. split; [by etrans|].
    exists now, id. split; [destruct Hf1, Hf2, Hf3; intuition lia|]. right.
    rewrite R2, R1 in Hd. by eauto.
  - destruct H as (-> & -> & ->). split; [done|]. split; [by etrans|]. split; [done|].
    exists now, id. split; [destruct Hf1 as (_ & _ & ?); lia|]. left. exists x.
    rewrite HS1 in Hcr. rewrite R2, R1, HS1. by auto.
Qed.

(** (C18) Creating a notification, without faults: the request is rejected, for a
    reason of the domain and changing nothing; or it conflicts with the key
    or the id of a notification there is, and changes nothing; or exactly
    its content is stored under a fresh id and is put on the stream of its
    priority and marked as queued, a scheduled one being left for the
    scheduler. The caller gets the notification as it is then. (The Redis
    client is to send no command again.) *)
Theorem Create_outcome s req w tr r w' :
  world_ok w → fault_free tr → exec (NotificationService_Create s req) w tr r w' →
  world_ok w' ∧ worker_frame w w' ∧ others_same (w_db w) (w_db w') ∧ create_outcome s req w w' r.
Proof. apply NotificationService_Create_runs. Qed.

(** ** Batches *)

Lemma batch_member_reads s b i req w tr r w' :
  db_ok (w_db w) → fault_free tr → exec (batch_member s b i req) w tr r w' →
  frame_db w w' ∧ w_db w' = w_db w ∧ r = accepted_at s (tabs (w_db w)) b i req.
Proof.
  intros Hok Hff H. unfold batch_member, accepted_at in *.
  destruct (negb (Channel_Valid _)); [by destruct H as (_ & -> & ->)|].
  destruct (negb (Priority_Valid _)); [by destruct H as (_ & -> & ->)|].
  part H Hff. apply from_template_reads in Hx as (Hf & D & [->|[? _]]); [|done|done].
  unfold checked. destruct (content _ _ _ _ _) as [n|e]; [|by destruct H as (_ & -> & ->)].
  destruct (ValidateNotificationContent _ _ _ _); by destruct H as (_ & -> & ->).
Qed.

Lemma batch_members_reads s b i reqs w tr r w' :
  db_ok (w_db w) → fault_free tr → exec (batch_members s b i reqs) w tr r w' →
  frame_db w w' ∧ w_db w' = w_db w ∧ r = accepted_from s (tabs (w_db w)) b i reqs.
Proof.
  revert i w tr r w'. induction reqs as [|req reqs IH]; intros i w tr r w' Hok Hff H;
    cbn [batch_members accepted_from] in *; [by destruct H as (_ & -> & ->)|].
  part H Hff. apply batch_member_reads in Hx as (Hf & D & ->); [|done..].
  destruct (accepted_at _ _ _ _ _) as [n|e]; [|by destruct H as (_ & -> & ->)].
  part H Hff. apply IH in Hx as (Hf2 & D2 & ->); [|by rewrite D|done]. rewrite D in *.
  assert (Hf3 : frame_db w w1) by by etrans.
  destruct (accepted_from _ _ _ _ _); by destruct H as (_ & -> & ->).
Qed.

Lemma enqueue_batch_runs s ns w tr ns' w' :
  world_ok w → fault_free tr → Forall (λ n, is_Some (abs (w_db w) !! n_ID n)) ns →
  exec (enqueue_batch s ns) w tr ns' w' →
  world_ok w' ∧ worker_frame w w' ∧ others_same (w_db w) (w_db w') ∧
  dispatched_all s ns (abs (w_db w)) (aqueue (w_redis w)) ns' (abs (w_db w')) (aqueue (w_redis w')).
Proof.
  revert w tr ns' w'. induction ns as [|n ns IH]; intros w tr ns' w' Hw Hff Hin H;
    cbn [enqueue_batch] in H.
  { destruct H as (-> & -> & ->). do 3 (split; [done|]). constructor. }
  apply Forall_cons in Hin as [[m Hm] Hin].
  part H Hff. apply (enqueue_pending_runs _ _ m) in Hx as (Hw1 & Hf1 & Ho1 & Hd); [|done..].
  part H Hff. apply IH in Hx as (Hw2 & Hf2 & Ho2 & Hds); [|done..|].
  - destruct H as (-> & -> & ->). split; [done|]. split; [by etrans|]. split; [by etrans|].
    by econstructor.
  - eapply Forall_impl; [exact Hin|]. intros x Hx'. unfold dispatched in Hd.
    destruct (immediate s n); [|by destruct Hd as (_ & -> & _)].
    destruct Hd as (_ & _ & t & m' & Hm' & ->).
    destruct (decide (n_ID n = n_ID x)) as [->|Hne]; [by rewrite lookup_insert_eq; eexists|].
    by rewrite lookup_insert_ne.
Qed.

Lemma accepted_batch_reason s M b req e :
  accepted_batch s M b req = Er e →
  ∃ x, root_sentinel e = Some x ∧ (x = ErrBatchTooLarge ∨ x ∈ rejections).
Proof.
  assert (Hin : ∀ e0 x, root_sentinel e0 = Some x → bool_decide (x ∈ rejections) = true →
    ∃ x, root_sentinel e0 = Some x ∧ (x = ErrBatchTooLarge ∨ x ∈ rejections)).
  { intros e0 x ? ?%bool_decide_eq_true. exists x. auto. }
  unfold accepted_batch. destruct (ValidateStruct _) eqn:Hv.
  { intros [= <-]. apply ValidateStruct_reason in Hv. by eapply Hin. }
  destruct (_ <? _); [intros [= <-]; exists ErrBatchTooLarge; auto|].
  generalize 0. induction (default [] (b_Notifications req)) as [|r rs IH]; intros i H; [done|].
  cbn [accepted_from] in H. destruct (accepted_at _ _ _ _ _) as [n|e0] eqn:Ha.
  { destruct (accepted_from _ _ _ _ _) eqn:Hr; [done|]. injection H as ->. by eapply IH. }
  injection H as ->. unfold accepted_at in Ha.
  destruct (negb (Channel_Valid _)); [injection Ha as <-; by eapply Hin|].
  destruct (negb (Priority_Valid _)); [injection Ha as <-; by eapply Hin|].
  destruct (content _ _ _ _ _) as [n|e0] eqn:Hc.
  - destruct (checked n) eqn:Hk; [|done]. injection Ha as <-.
    apply checked_reason in Hk as [?|?]; by eapply Hin.
  - injection Ha as <-. apply content_reason in Hc as [?|?]; [by eapply Hin..| |]; done.
Qed.

(** What creating a batch may do. *)
Definition batch_outcome (s : NotificationService) (req : BatchCreateRequest)
    (w w' : World) (r : result error (list Notification)) : Prop :=
  let S0 := abs (w_db w) in let S' := abs (w_db w') in
  let Q := aqueue (w_redis w) in let Q' := aqueue (w_redis w') in
  ∃ batchID,
  match accepted_batch s (tabs (w_db w)) batchID req with
  | Er e => r = Er e ∧ (∃ x, root_sentinel e = Some x ∧ (x = ErrBatchTooLarge ∨ x ∈ rejections)) ∧
            S' = S0 ∧ Q' = Q
  | Ok ns =>
      ∃ now, w_clock w ≤ now ≤ w_clock w' ∧
      ((conflicts now ns S0 ∧ r = Er (ESentinel ErrIdempotencyConflict) ∧ S' = S0 ∧ Q' = Q) ∨
       (∃ ns' S1 ns'', Forall2 (identified now) ns ns' ∧ creates ns' S0 S1 ∧ r = Ok ns'' ∧
          dispatched_all s ns' S1 Q ns'' S' Q'))
  end.

Lemma NotificationService_CreateBatch_runs s req w tr r w' :
  world_ok w → fault_free tr → exec (NotificationService_CreateBatch s req) w tr r w' →
  world_ok w' ∧ worker_frame w w' ∧ others_same (w_db w) (w_db w') ∧ batch_outcome s req w w' r.
Proof.
  intros Hw Hff H. unfold NotificationService_CreateBatch in H.
  unfold batch_outcome. cbn zeta.
  pose proof (λ b, accepted_batch_reason s (tabs (w_db w)) b req) as Hreason.
  unfold accepted_batch in *.
  destruct (ValidateStruct (batch_struct req)) as [e|].
  { do 3 (split; [by destruct H as (_ & _ & ->)|]). exists uuid_Nil. rejected H; by apply (Hreason uuid_Nil). }
  destruct (_ <? _).
  { do 3 (split; [by destruct H as (_ & _ & ->)|]). exists uuid_Nil. rejected H; by apply (Hreason uuid_Nil). }
  part H Hff. apply exec_newv7 in Hx as (-> & ->).
  part H Hff. apply batch_members_reads in Hx as (Hf1 & D1 & ->); [|apply Hw|done].
  assert (R1 : w_redis w0 = w_redis w) by apply Hf1. apply frame_db_worker in Hf1.
  assert (Hw1 : world_ok w0) by (unfold world_ok; by rewrite D1, R1).
  specialize (Hreason a). destruct (accepted_from _ _ _ _ _) as [ns|e] eqn:Hacc.
  2: { destruct H as (-> & -> & ->). rewrite D1. do 3 (split; [done|]). exists a.
       rewrite Hacc, R1. split; [done|]. by split; [apply Hreason|]. }
  part H Hff. destruct a0 as [ns' err].
  apply CreateBatch_refines in Hx as ((Hf2 & Hok2 & Ho2) & Hcr); [|apply Hw1].
  assert (R2 : w_redis w1 = w_redis w0) by apply Hf2. apply frame_db_worker in Hf2.
  assert (Hw2 : world_ok w1) by (split; [done|rewrite R2; apply Hw1]). rewrite D1 in *.
  destruct Hcr as [(-> & now & Hnow & HF & Hcr)|[(-> & Hdb & now & Hnow & Hc)|[? _]]]; [| |done].
  - part H Hff. apply enqueue_batch_runs in Hx as (Hw3 & Hf3 & Ho3 & Hd); [|done..|].
    2: { apply Forall_forall. intros n Hn. destruct (creates_lookup _ _ _ _ Hcr Hn) as [_ ->].
         by eexists. }
    destruct H as (-> & -> & ->).
    split; [done|]. split; [by etrans; [|etrans]|]. split; [by etrans|]. exists a.
    rewrite Hacc. exists now. split; [destruct Hf1 as (_ & _ & ?), Hf3 as (_ & _ & ?); lia|]. right.
    rewrite R2, R1 in Hd. exists ns'. by eauto 10.
  - destruct H as (-> & -> & ->). split; [done|]. split; [by etrans|]. split; [done|]. exists a.
    rewrite Hacc. exists now. split; [destruct Hf1 as (_ & _ & ?); lia|]. left.
    by rewrite Hdb, R2, R1.
Qed.

(** (C19) Creating a batch, without faults, is all or nothing: if one request is
    rejected, or a key of the batch is taken or occurs twice, nothing is
    stored; otherwise all its notifications are stored under fresh ids, with
    one batch id and one creation time, and each is put on the stream of its
    priority, in the order of the requests, the scheduled ones excepted. (The
    Redis client is to send no command again.) *)
Theorem CreateBatch_outcome s req w tr r w' :
  world_ok w → fault_free tr → exec (NotificationService_CreateBatch s req) w tr r w' →
  world_ok w' ∧ worker_frame w w' ∧ others_same (w_db w) (w_db w') ∧ batch_outcome s req w w' r.
Proof. apply NotificationService_CreateBatch_runs. Qed.
End ServiceSpec.
