(* ===== verification/SchedulerSpec.v ===== *)
(** * What the scheduler and the processor of delayed retries do

    One poll releases due notifications and enqueues each of them; one batch of
    the delayed set enqueues every member that is due. The scheduler touches
    nothing that is not scheduled. *)

From stdpp Require Import gmap.
From S2P Require Import Prelude GoLib Domain Sql Redis RedisFacts Effects Discipline Frames.
From S2P Require Import NotificationRepo NotificationStore NotificationSpec Listing Releasing.
From S2P Require Import Queue QueueSpec Worker WorkerSpec MemberSpec.

(** ** Specification *)

(** Entries appended one after the other: the lane and the values of each. *)
Inductive appends : list (string * list (string * string)) → AQueue → AQueue → Prop :=
  | ap_nil Q : appends [] Q Q
  | ap_cons k vs l Q Q1 Q' : appended k vs Q Q1 → appends l Q1 Q' → appends ((k, vs) :: l) Q Q'.

(** What an enqueueing of a notification appends. *)
Definition entry_of `{UuidText} (n : Notification) : string * list (string * string) :=
  (StreamKey (n_Priority n), entry_values (n_ID n) (n_Channel n)).

(** What a member of the delayed set asks for: nothing, if it has not three
    parts; the parser's own value, if its id is not one. *)
Definition member_entry `{UuidText} (member : string)
    : option (string * list (string * string)) :=
  match parseMember member with
  | Some [p0; p1; p2] => Some (StreamKey p2, entry_values (default (uuid_Parse_junk p0) (uuid_Parse p0)) p1)
  | _ => None
  end.

Lemma appends_nil Q Q' : appends [] Q Q' → Q' = Q.
Proof. by inversion 1. Qed.

Lemma appends_one k vs Q Q' : appends [(k, vs)] Q Q' → appended k vs Q Q'.
Proof. inversion 1 as [|? ? ? ? Q1 ? Ha Hn]; subst. by rewrite (appends_nil _ _ Hn). Qed.

(** The lanes after appending: what was waiting, and after it the entries for
    the lane, in order. *)
Lemma appends_lane l Q Q' k :
  appends l Q Q' →
  (e_values <$> ln_waiting (q_lanes Q' k)) =
    (e_values <$> ln_waiting (q_lanes Q k)) ++ (filter (λ p, p.1 = k) l).*2 ∧
  ln_inflight (q_lanes Q' k) = ln_inflight (q_lanes Q k) ∧ q_delayed Q' = q_delayed Q.
Proof.
  induction 1 as [Q|k0 vs l Q Q1 Q' (e & He & Hk & Hne & Hd) _ (IH1 & IH2 & IH3)].
  { by rewrite filter_nil, app_nil_r. }
  rewrite IH1, IH2, IH3, Hd. rewrite filter_cons. cbn. split; [|split; [|done]].
  - destruct (decide (k0 = k)) as [->|Hn]; cbn.
    + rewrite Hk. cbn. rewrite fmap_app. cbn. by rewrite He, <- app_assoc.
    + by rewrite Hne.
  - destruct (decide (k0 = k)) as [->|Hn]; [by rewrite Hk|by rewrite Hne].
Qed.

Section Scheduling.
Context {T : UuidText} {TT : TimeText} {S : Services} {HS : ServicesOk S} {HO : SentOnce S}.

Lemma step_enqueue id ch p w tr r w' :
  world_ok w → fault_free tr → exec (Enqueue id ch p) w tr r w' →
  world_ok w' ∧ worker_frame w w' ∧ w_db w' = w_db w ∧
  appended (StreamKey p) (entry_values id ch) (aqueue (w_redis w)) (aqueue (w_redis w')).
Proof.
  intros Hw Hff H. eapply step_queue; [done|exact Hff|]. apply Enqueue_queued in H; [done|apply Hw].
Qed.

(** A loop each of whose turns appends some entries. *)
Lemma appending_loop {A} (l : list A) (body : A → prog unit)
    (entry : A → option (string * list (string * string))) w tr u w' :
  (∀ x w1 tr1 w2, world_ok w1 → fault_free tr1 → exec (body x) w1 tr1 tt w2 →
     world_ok w2 ∧ worker_frame w1 w2 ∧ w_db w2 = w_db w1 ∧
     appends (option_list (entry x)) (aqueue (w_redis w1)) (aqueue (w_redis w2))) →
  world_ok w → fault_free tr → exec (for_range l body) w tr u w' →
  world_ok w' ∧ worker_frame w w' ∧ w_db w' = w_db w ∧
  appends (omap entry l) (aqueue (w_redis w)) (aqueue (w_redis w')).
Proof.
  intros Hb. revert w tr. induction l as [|x l IH]; intros w tr Hw Hff H.
  { apply exec_for_range_nil in H as (-> & ->). do 3 (split; [done|]). constructor. }
  cbn [for_range] in H. part H Hff. destruct a.
  apply Hb in Hx as (Hw1 & Hf1 & D1 & Ha); [|done..].
  apply IH in H as (Hw2 & Hf2 & D2 & Hl); [|done..].
  split; [done|]. split; [by etrans|]. split; [by rewrite D2|]. cbn [omap list_omap].
  destruct (entry x) as [[k vs]|]; cbn in Ha; [|by rewrite <- (appends_nil _ _ Ha)].
  apply appends_one in Ha. by econstructor.
Qed.

Lemma omap_Some {A B} (f : A → B) (l : list A) : omap (λ x, Some (f x)) l = f <$> l.
Proof. induction l as [|x l IH]; [done|]. cbn. by rewrite IH. Qed.

(** (C21) One poll of the scheduler, without faults: notifications that are
    scheduled and due are chosen, at most as many as the batch size, the
    earliest first, skipping only the rows that other sessions hold locked at
    that instant; each becomes pending and is put on the stream of its priority,
    once; everything else in the store and in the queue is as before. (The Redis
    client is to send no command again.) *)
Theorem poll_releases batchSize w tr u w' :
  world_ok w → fault_free tr → exec (poll batchSize) w tr u w' →
  world_ok w' ∧ worker_frame w w' ∧ others_same (w_db w) (w_db w') ∧
  ∃ now ns, w_clock w ≤ now ≤ w_clock w' ∧
    chosen now batchSize (db_locked (w_db w) now) (abs (w_db w)) ns ∧
    abs (w_db w') = put (Spec.release now <$> ns) (abs (w_db w)) ∧
    appends (entry_of <$> ns) (aqueue (w_redis w)) (aqueue (w_redis w')).
Proof.
  intros Hw Hff H. unfold poll in H. part H Hff.
  apply FetchScheduledDue_refines in Hx as ((Hf1 & Hok1 & Ho1) & Hcase); [|apply Hw].
  assert (R1 : w_redis w0 = w_redis w) by apply Hf1. apply frame_db_worker in Hf1.
  assert (Hw1 : world_ok w0) by (split; [done|rewrite R1; apply Hw]).
  destruct Hcase as [(now & ns & Hnow & _ & Hch & [[Habs ->]|[? _]])|[? _]]; [|done..].
  eapply (appending_loop _ _ (λ n, Some (entry_of n))) in H as (Hw2 & Hf2 & D2 & Ha); [| |done..].
  - split; [done|]. split; [by etrans|]. rewrite D2. split; [done|].
    exists now, ns. split; [destruct Hf2 as (_ & _ & ?); lia|]. split; [done|]. split; [done|].
    rewrite omap_Some, <- list_fmap_compose, R1 in Ha.
    replace (entry_of <$> ns) with (entry_of ∘ Spec.release now <$> ns); [done|].
    apply list_fmap_ext. intros i n _. by destruct n.
  - intros n w1 t1 w2 Hwo Hfb Hx. part Hx Hfb. apply step_enqueue in Hx0 as (? & ? & ? & ?); [|done..].
    destruct Hx as (_ & _ & ->). do 3 (split; [done|]). cbn. econstructor; [done|constructor].
Qed.

Lemma processDelayedBatch_runs w tr u w' :
  world_ok w → fault_free tr → exec processDelayedBatch w tr u w' →
  world_ok w' ∧ worker_frame w w' ∧ w_db w' = w_db w ∧
  ∃ now Q1, w_clock w ≤ now ≤ w_clock w' ∧
    let Q := aqueue (w_redis w) in
    let ms := due_members (UnixMilli now) 50 (q_delayed Q) in
    delayed_to (foldr delete (q_delayed Q) ms) Q Q1 ∧
    appends (omap member_entry ms) Q1 (aqueue (w_redis w')).
Proof.
  intros Hw Hff H. unfold processDelayedBatch in H.
  part H Hff. pose proof Hx as Hnow. apply exec_now in Hnow as (_ & Hle & E0).
  apply step_now in Hx as (Hw1 & Hf1 & D1 & R1 & _); [|done].
  part H Hff. apply PopDelayedDue_pops in Hx as (Hf2 & Hok2 & Hcase); [|apply Hw1].
  rewrite R1 in Hcase. destruct Hcase as [(-> & Hpop)|[? _]]; [|done].
  assert (D2 : w_db w1 = w_db w0) by apply Hf2. apply frame_redis_worker in Hf2.
  assert (Hw2 : world_ok w1) by (split; [rewrite D2; apply Hw1|done]).
  eapply (appending_loop _ _ member_entry) in H as (Hw3 & Hf3 & D3 & Ha); [| |done..].
  - split; [done|]. split; [by etrans; [|etrans]|]. split; [by rewrite D3, D2|].
    exists a, (aqueue (w_redis w1)). split; [|by split].
    split; [done|]. destruct Hf2 as (_ & _ & ?), Hf3 as (_ & _ & ?).
    rewrite E0 in *. cbn in *. lia.
  - intros m w2 t1 w3 Hwo Hfb Hx. unfold requeue, member_entry in *.
    destruct (parseMember m) as [l|];
      [|by destruct Hx as (_ & _ & ->); do 3 (split; [done|]); constructor].
    destruct l as [|p0 [|p1 [|p2 [|]]]];
      try (by destruct Hx as (_ & _ & ->); do 3 (split; [done|]); constructor).
    part Hx Hfb. apply step_enqueue in Hx0 as (? & ? & ? & ?); [|done..].
    destruct Hx as (_ & _ & ->). do 3 (split; [done|]). cbn. econstructor; [|constructor].
    by destruct (uuid_Parse p0).
Qed.

(** (C22) One turn of the processor of delayed retries, without faults: the
    members of the delayed set whose instant has come, at most 50, the
    earliest first, leave the set, and each puts its notification on the
    stream of its priority, once. (The Redis client is to send no command
    again.) *)
Theorem processDelayedBatch_requeues w tr u w' :
  world_ok w → fault_free tr → exec processDelayedBatch w tr u w' →
  world_ok w' ∧ worker_frame w w' ∧ w_db w' = w_db w ∧
  ∃ now Q1, w_clock w ≤ now ≤ w_clock w' ∧
    let Q := aqueue (w_redis w) in
    let ms := due_members (UnixMilli now) 50 (q_delayed Q) in
    delayed_to (foldr delete (q_delayed Q) ms) Q Q1 ∧
    appends (omap member_entry ms) Q1 (aqueue (w_redis w')).
Proof. apply processDelayedBatch_runs. Qed.

(** The id and the rest of a notification that no release touches. *)
Lemma put_release_other now ns (S0 : Store) id n :
  S0 !! id = Some n → (∀ m, m ∈ ns → n_ID m ≠ id) →
  put (Spec.release now <$> ns) S0 !! id = Some n.
Proof.
  unfold put. revert S0. induction ns as [|m ns IH]; intros S0 Hn Hm; [done|].
  cbn. apply IH; [|intros x ?; apply Hm; by right].
  rewrite lookup_insert_ne; [done|]. pose proof (Hm m ltac:(by left)). by destruct m.
Qed.

Lemma poll_keeps batchSize w tr u w' id n :
  db_ok (w_db w) → exec (poll batchSize) w tr u w' →
  db_ok (w_db w') ∧
  (abs (w_db w) !! id = Some n → n_Status n ≠ StatusScheduled → abs (w_db w') !! id = Some n).
Proof.
  intros Hok H. unfold poll in H. exec_step H.
  apply FetchScheduledDue_refines in Hx as ((Hf & Hok' & _) & Hcase); [|done].
  assert (Hrest : w_db w' = w_db w0).
  { destruct x as [ns|e]; [|by destruct H as (_ & _ & ->)].
    refine (exec_for_range_inv (λ w1, w_db w1 = w_db w0) ns _ w0 _ u w' _ eq_refl H).
    intros y w1 tr3 w2 _ E Hy. rewrite <- E.
    apply (redis_keeps _ _ _ _ _) in Hy as (-> & _); [done|]. unfold Enqueue. only_go. }
  rewrite Hrest. split; [done|]. intros Hn Hst.
  destruct Hcase as [(now & ns & _ & _ & Hch & Hx)|(_ & -> & _)]; [|done].
  assert (Habs : abs (w_db w0) = put (Spec.release now <$> ns) (abs (w_db w)) ∨ abs (w_db w0) = abs (w_db w))
    by (destruct Hx as [[-> _]|(_ & [[[->| ->] _]|[-> _]])]; first [by left|by right]).
  destruct Habs as [->| ->]; [|done]. apply put_release_other; [done|]. intros m Hm E. pose proof (abs_keyed (w_db w)) as Hk.
  destruct (chosen_due _ _ _ _ _ _ Hk Hch Hm) as (Hm' & Hdue & _). rewrite E, Hn in Hm'.
  injection Hm' as <-. unfold Spec.due in Hdue. by bool_hyps.
Qed.

(** (C40) The scheduler never touches a notification that is not scheduled,
    whatever faults occur and however often it polls. (So one whose
    enqueueing failed when it was created, which stays pending, is not
    picked up by the scheduler.) *)
Theorem scheduler_leaves_unscheduled ticks interval batchSize w tr u w' id n :
  db_ok (w_db w) → exec (Run ticks interval batchSize) w tr u w' →
  abs (w_db w) !! id = Some n → n_Status n ≠ StatusScheduled →
  abs (w_db w') !! id = Some n.
Proof.
  unfold Run. destruct (_ <=? _); [by intros _ ([] & _)|].
  revert w tr. induction ticks as [|ticks IH]; intros w tr Hok H Hn Hst; cbn [run_loop] in H.
  - by destruct H as (_ & _ & ->).
  - exec_step H. apply exec_do in Hx as [-> Hs]. apply sleep_or_done_doc in Hs as [Hq _].
    apply quiet_worker in Hq as (_ & D & _). rewrite <- D in Hok, Hn.
    destruct x; [by destruct H as (_ & _ & ->)|]. exec_step H.
    apply (poll_keeps _ _ _ _ _ id n) in Hx as [Hok' Hk]; [|done].
    eapply IH; [exact Hok'|exact H|by apply Hk|done].
Qed.
End Scheduling.
