(* ===== verification/Draining.v ===== *)
(** * A worker empties the queue

    A worker that is left alone takes every waiting message off the streams,
    and brings the notification of each to an end or to its retry. *)

From stdpp Require Import gmap.
From S2P Require Import Prelude GoLib Domain Sql Redis RedisFacts Effects Discipline Frames.
From S2P Require Import NotificationRepo NotificationStore NotificationSpec Queue QueueSpec.
From S2P Require Import RateLimit Delivery DeliverySpec Retry Hub RateLimitSpec Worker WorkerSpec.
From S2P Require Import Lifecycle.

(** ** The limiter's clock

    The rate limiter's sets hold no instant that is still to come. *)
Definition limiter_past (w : World) : Prop :=
  ∀ ch m t, zset (limiter_key ch) (w_redis w) !! m = Some t → t ≤ UnixMilli (w_clock w).

(** Effects that leave the limiter's sets alone. *)
Definition spares_limiter : EffPred := test (λ _ e,
  match e with
  | Rd (EvalScript _) => false
  | Rd (ZAdd k _ _) | Rd (ZRem k _) => (k =? DelayedSet)%string
  | _ => true
  end).

Lemma UnixMilli_mono s t : s ≤ t → UnixMilli s ≤ UnixMilli t.
Proof. intros H. unfold UnixMilli. apply Z.div_le_mono; [done|lia]. Qed.

Lemma limiter_past_later w w' :
  (∀ ch, zset (limiter_key ch) (w_redis w') = zset (limiter_key ch) (w_redis w)) →
  w_clock w ≤ w_clock w' → limiter_past w → limiter_past w'.
Proof.
  intros Hz Hc H ch m t. rewrite Hz. intros Ht%H. pose proof (UnixMilli_mono _ _ Hc). lia.
Qed.

Lemma xreadgroup_zsets g c n now ks r : r_zsets (xreadgroup g c n now ks r).2 = r_zsets r.
Proof.
  revert r. induction ks as [|k ks IH]; intros r; [done|]. unfold xreadgroup; fold xreadgroup.
  destruct (s_groups (stream k r) !! g) as [grp|]; [|apply IH].
  destruct (fresh_entries grp n (stream k r)); [apply IH|].
  destruct (xreadgroup _ _ _ _ ks _) as [rest r1] eqn:E. cbn.
  change r1 with (rest, r1).2. by rewrite <- E, IH.
Qed.

Lemma xautoclaim_zsets k g c idle n now r :
  r_zsets (xautoclaim k g c idle n now r).2 = r_zsets r.
Proof. unfold xautoclaim. by destruct (s_groups (stream k r) !! g). Qed.

Lemma redis_spares X (e : RedisE X) w x w' ch :
  spares_limiter _ (Rd e) → redis_doc e w x w' →
  zset (limiter_key ch) (w_redis w') = zset (limiter_key ch) (w_redis w).
Proof.
  intros He. assert (Hk : ∀ z k, (k =? DelayedSet)%string = true →
    zset (limiter_key ch) (set_zset k z (w_redis w)) = zset (limiter_key ch) (w_redis w)).
  { intros z k ->%String.eqb_eq. rewrite zset_set_ne; [done|]. intros E. by apply (limiter_key_ne ch). }
  assert (Hcmd : ∀ (ok : X → Redis → Prop) is_err, redis_cmd ok is_err w x w' →
    (∀ y r', ok y r' → zset (limiter_key ch) r' = zset (limiter_key ch) (w_redis w)) →
    zset (limiter_key ch) (w_redis w') = zset (limiter_key ch) (w_redis w)).
  { intros ok is_err (r' & -> & [H|(_ & [->|(y & H)])]) Hok; cbn; [eauto|done|eauto]. }
  destruct e; cbn [redis_doc] in *; intros H; eapply Hcmd in H; try exact H; cbn.
  - by intros y r' (_ & id & _ & ->).
  - intros y r'. unfold xgroup_create.
    destruct (s_groups _ !! _); [by intros (_ & ->)|by intros (_ & ->)].
  - intros y r' (_ & now & Hx). pose proof (xreadgroup_zsets g consumer (Z.to_nat count) now ks (w_redis w)) as E.
    destruct (xreadgroup _ _ _ _ _ _) as [l r1]. destruct Hx as [_ ->]. unfold zset. cbn in E. by rewrite E.
  - intros y r' (_ & ->). unfold xack. by destruct (s_groups _ !! _).
  - intros y r' (_ & now & Hx). pose proof (xautoclaim_zsets k g consumer minIdle (Z.to_nat count) now (w_redis w)) as E.
    destruct (xautoclaim _ _ _ _ _ _ _) as [l r1]. destruct Hx as [_ ->]. unfold zset. cbn in E. by rewrite E.
  - by intros y r' (_ & ->).
  - intros y r' (_ & ->). by apply Hk.
  - by intros y r' (_ & ->).
  - intros y r' (_ & ->). by apply Hk.
  - by discriminate He.
Qed.

Section Limiter.
Context {S : Services} {HS : ServicesOk S} {HO : SentOnce S}.

Lemma effect_spares X (e : Eff X) w x w' :
  spares_limiter _ e → svc e w x w' → limiter_past w → limiter_past w'.
Proof.
  intros He H.
  assert (Hk : w_redis w' = w_redis w → w_clock w ≤ w_clock w' → limiter_past w → limiter_past w').
  { intros E Hc. apply limiter_past_later; [intros ch; by rewrite E|done]. }
  assert (Hq : quiet w w' → limiter_past w → limiter_past w').
  { intros (t & Ht & ->). by apply Hk. }
  assert (Hr : w' = w → limiter_past w → limiter_past w') by by intros ->.
  destruct e.
  - apply postgres_doc, pg_frame in H as (E & _ & Hc). by apply Hk.
  - pose proof (redis_only _ _ _ _ _ H) as Hw. apply redis_server_doc in H.
    apply (resent_keeps (λ w1, ∀ ch, zset (limiter_key ch) (w_redis w1) = zset (limiter_key ch) (w_redis w)))
      in H as (w1 & E & H); [|done|].
    + apply limiter_past_later; [|by rewrite Hw]. intros ch. rewrite <- E. by eapply redis_spares.
    + intros w1 y w2 E Hy ch. rewrite <- E. by eapply redis_spares.
  - eapply Hq, http_doc, H.
  - apply clock_doc in H as [Hc ->]. by apply Hk.
  - eapply Hr, uuid_doc, H.
  - eapply Hr, ctx_doc, H.
  - apply Hq. by eapply sleep_or_done_doc.
  - apply Hq. by eapply sleep_doc.
  - eapply Hq, ping_doc, H.
  - eapply Hq, (proj1 (ws_accept_doc _ _ _ _ H)).
  - eapply Hq, ws_read_doc, H.
  - apply memory_doc in H as [_ E]. apply Hk; by rewrite E.
  - eapply Hq, ws_write_doc, H.
  - eapply Hr, ws_close_doc, H.
  - eapply Hr, counter_doc, H.
  - eapply Hr, histogram_doc, H.
  - destruct x.
Qed.

Lemma exec_spares {A} (p : prog A) w tr a w' :
  only spares_limiter p → exec p w tr a w' → limiter_past w → limiter_past w'.
Proof.
  revert w tr. induction p as [b|X e k IH]; intros w tr Hp H Hl.
  - by destruct H as (_ & _ & ->).
  - destruct Hp as [He Hk]. destruct H as (x & w1 & tr1 & _ & Hs & H).
    eapply IH; [apply Hk|exact H|]. by eapply effect_spares.
Qed.

(** A run of the script notes an instant that has come. *)
Lemma script_past max ch now z r r' w w' :
  script_ran max ch now z r r' → r = w_redis w → r' = w_redis w' →
  now ≤ w_clock w' → w_clock w ≤ w_clock w' → limiter_past w → limiter_past w'.
Proof.
  intros (at_ & draw & E) -> -> Hnow Hc Hl ch' m t. pose proof (UnixMilli_mono _ _ Hnow).
  pose proof (UnixMilli_mono _ _ Hc).
  destruct (decide (limiter_key ch = limiter_key ch')) as [<-|Hne].
  2: { pose proof (proj2 (script_spares (limiter_key ch) windowMs max (UnixMilli now) at_ draw (w_redis w)) _ Hne)
         as Ez. rewrite E in Ez. cbn in Ez. rewrite Ez. intros Ht%Hl. lia. }
  rewrite slidingWindowLua_spec in E. set (r0 := expire _ _ _) in *.
  assert (Hlive : ∀ t, live windowMs (UnixMilli now) (zset (limiter_key ch) r0) !! m = Some t →
    t ≤ UnixMilli (w_clock w)).
  { intros t0 [Ht0 _]%map_lookup_filter_Some. by apply zset_expire, (Hl ch m) in Ht0. }
  destruct (_ <? _); injection E as _ E; rewrite <- E.
  - rewrite (proj1 (passed_run (limiter_key ch) windowMs (UnixMilli now) at_ draw _ r0 eq_refl)).
    intros [[_ <-]|[_ Ht%Hlive]]%lookup_insert_Some; lia.
  - rewrite zset_set_eq. intros Ht%Hlive. lia.
Qed.

Lemma Allow_past max ch w tr r w' :
  exec (Allow max ch) w tr r w' → limiter_past w → limiter_past w' ∧ w_clock w ≤ w_clock w'.
Proof.
  intros H Hl. apply Allow_runs in H as (Hf & now & Hnow & Hcase).
  assert (Hc : w_clock w ≤ w_clock w') by apply Hf. split; [|done].
  destruct Hcase as [(z & Hs & _)|(_ & _ & [E|(z & Hs)])].
  - eapply script_past; [exact Hs|done..| | |done]; lia.
  - eapply limiter_past_later; [intros ?; by rewrite E|done|done].
  - eapply script_past; [exact Hs|done..| | |done]; lia.
Qed.

Lemma rate_gate_past fuel max ch w tr g w' :
  exec (rate_gate fuel max ch) w tr g w' → limiter_past w → limiter_past w'.
Proof.
  revert w tr. induction fuel as [|fuel IH]; intros w tr H Hl; [by destruct H as (_ & _ & ->)|].
  cbn [rate_gate] in H. exec_step H. apply Allow_past in Hx as [Hl1 _]; [|done].
  destruct x as [[|]|e]; [by destruct H as (_ & _ & ->)| |by destruct H as (_ & _ & ->)].
  exec_step H. eapply exec_spares in Hx; [|by apply only_do|exact Hl1].
  destruct x; [by destruct H as (_ & _ & ->)|]. by eapply IH.
Qed.
End Limiter.

(** ** What becomes of a message *)

(** At most [j] attempts are left to the notification. *)
Definition bounded (j : Z) (id : UUID) (S : Store) : Prop :=
  ∀ n, S !! id = Some n → attempts_left n ≤ j.

(** The notification, if it is stored, is at its end, or it waits for its retry
    with at most [j] attempts left. *)
Definition handled `{UuidText} (j : Z) (id : UUID) (S : Store) (Q : AQueue) : Prop :=
  ∀ n, S !! id = Some n →
    terminal (n_Status n) = true ∨
    (attempts_left n ≤ j ∧ is_Some (q_delayed Q !! delayed_member id (n_Channel n) (n_Priority n))).

(** The message is no longer in flight; the other lanes are as before, but for
    the dead letters. *)
Definition taken_off (k : string) (i : EntryID) (Q Q' : AQueue) : Prop :=
  ∀ k', k' ≠ DLQStream →
    ln_waiting (q_lanes Q' k') = ln_waiting (q_lanes Q k') ∧
    ln_inflight (q_lanes Q' k') = ln_inflight (q_lanes Q k') ∖ (if decide (k' = k) then {[i]} else ∅).

(** The delayed set has lost nothing and gained at most [n] members, due by
    [t]. *)
Definition delays (n : nat) (t : Z) (z z' : ZSet) : Prop :=
  (∀ m, is_Some (z !! m) → is_Some (z' !! m)) ∧ (size z' ≤ size z + n)%nat ∧
  ∀ m s, z' !! m = Some s → z !! m = Some s ∨ s ≤ UnixMilli t.

Lemma delays_same t z : delays 0 t z z.
Proof. split; [done|]. split; [lia|]. by left. Qed.

Lemma delays_trans n1 n2 t1 t2 z1 z2 z3 :
  t1 ≤ t2 → delays n1 t1 z1 z2 → delays n2 t2 z2 z3 → delays (n1 + n2) t2 z1 z3.
Proof.
  intros Ht (H1 & H2 & H3) (H4 & H5 & H6). split; [auto|]. split; [lia|].
  intros m s [[Hs|Hs]%H3|Hs]%H6; [by left|right|by right]. pose proof (UnixMilli_mono _ _ Ht). lia.
Qed.

(** What the messages of a worker do to the store and the delayed set: no
    notification is lost or gets attempts, and none that is handled is
    forgotten. *)
Record keeps_going `{UuidText} (S : Store) (Q : AQueue) (S' : Store) (Q' : AQueue) : Prop := {
  kg_exists id : is_Some (S !! id) → is_Some (S' !! id);
  kg_bounded j id : bounded j id S → bounded j id S';
  kg_handled j id : handled j id S Q → handled j id S' Q';
}.

Lemma keeps_going_same `{UuidText} S Q Q' : q_delayed Q' = q_delayed Q → keeps_going S Q S Q'.
Proof. intros E. split; [done|done|]. intros j id. unfold handled. by rewrite E. Qed.

Lemma keeps_going_trans `{UuidText} S1 Q1 S2 Q2 S3 Q3 :
  keeps_going S1 Q1 S2 Q2 → keeps_going S2 Q2 S3 Q3 → keeps_going S1 Q1 S3 Q3.
Proof. intros [] []. split; auto. Qed.

Lemma terminal_mark t st le n : terminal (n_Status (Spec.mark t st le n)) = terminal st.
Proof. by rewrite Spec.mark_status. Qed.

Lemma acknowledged_taken k i Q Q' : acknowledged k i Q Q' → taken_off k i Q Q' ∧ q_delayed Q' = q_delayed Q.
Proof.
  intros (Hk & Hne & Hd). split; [|done]. intros k' _. case_decide as E.
  - subst k'. by rewrite Hk.
  - rewrite Hne by done. by rewrite difference_empty_L.
Qed.

Lemma taken_off_after k i Q Q1 Q' :
  (∀ k', k' ≠ DLQStream → q_lanes Q1 k' = q_lanes Q k') → taken_off k i Q1 Q' → taken_off k i Q Q'.
Proof. intros E H k' Hk. rewrite <- (E k' Hk). by apply H. Qed.

Section Settled.
Context {T : UuidText} {WH : Webhook}.

Lemma settled_taken d msg id lo hi S Q S' Q' calls :
  settled d msg id lo hi S Q S' Q' calls →
  taken_off (m_StreamID msg) (m_MessageID msg) Q Q' ∧
  delays 1 (hi + 5 * time_Minute) (q_delayed Q) (q_delayed Q').
Proof.
  assert (Hsame : ∀ z, delays 1 (hi + 5 * time_Minute) z z).
  { intros z. destruct (delays_same (hi + 5 * time_Minute) z) as (? & ? & ?). split; [done|].
    split; [lia|done]. }
  destruct 1 as [Q' _ Ha|n Q' _ _ Ha|n t1 t2 Q' _ _ _ Ha|n p code body t1 t2 t3 Q' _ _ _ _ Ha
    |n p a t1 t2 t3 now err Q1 Q' _ _ _ _ _ Hnow [Hl Hd] Ha
    |n p a t1 t2 t3 err Q1 Q' _ _ _ _ _ (e & _ & _ & Hl & Hd) Ha];
    apply acknowledged_taken in Ha as [Ht E]; rewrite E; [by split..| |].
  - split; [eapply taken_off_after; [|exact Ht]; intros; apply Hl|]. rewrite Hd. split_and!.
    + intros m Hm. by apply lookup_insert_is_Some'; right.
    + rewrite map_size_insert. destruct (_ !! _); cbn; lia.
    + intros m s [[_ <-]|[_ ?]]%lookup_insert_Some; [right|by left]. apply UnixMilli_mono.
      rewrite Backoff_is_ref. pose proof (backoff_ref_bounds (n_AttemptCount n + 1)). lia.
  - split; [eapply taken_off_after; [|exact Ht]; intros; by apply Hl|]. by rewrite Hd.
Qed.

Lemma settled_handled d msg id lo hi S Q S' Q' calls j :
  settled d msg id lo hi S Q S' Q' calls → bounded (j + 1) id S → handled j id S' Q'.
Proof.
  intros H Hb. destruct (S !! id) as [n0|] eqn:E0.
  2: { intros m Hm. destruct H; congruence. }
  pose proof (settled_attempts _ _ _ _ _ _ _ _ _ _ _ H E0) as (n' & E' & Hle). specialize (Hb _ E0).
  intros m Hm. assert (m = n') as -> by congruence.
  destruct H as [Q' E|n Q' E Ht|n t1 t2 Q'|n p code body t1 t2 t3 Q'
    |n p a t1 t2 t3 now err Q1 Q' E _ _ _ _ _ [_ Hd] Ha|n p a t1 t2 t3 err Q1 Q'];
    [congruence|left; congruence|..]; rewrite lookup_insert_eq in Hm; injection Hm as <-.
  1,2,4: left; by rewrite terminal_mark.
  right. split; [cbn in Hle; lia|]. apply acknowledged_taken in Ha as [_ ->]. rewrite Hd.
  unfold attempted, Spec.mark, Spec.count_attempt. destruct n. cbn.
  destruct (negb (err =? "")%string); cbn; rewrite lookup_insert_eq; by eexists.
Qed.

Lemma settled_keeps d msg id lo hi S Q S' Q' calls :
  settled d msg id lo hi S Q S' Q' calls → keeps_going S Q S' Q'.
Proof.
  intros H. assert (Hother : ∀ id', id' ≠ id → S' !! id' = S !! id').
  { intros id' Hne. destruct H; [done|done|by rewrite lookup_insert_ne..]. }
  assert (Hown : ∀ n, S !! id = Some n → ∃ n', S' !! id = Some n' ∧ attempts_left n' ≤ attempts_left n).
  { intros n Hn. destruct (settled_attempts _ _ _ _ _ _ _ _ _ _ _ H Hn) as (n' & ? & ?).
    exists n'. split; [done|lia]. }
  assert (Hnone : S !! id = None → S' !! id = None) by (destruct H; congruence).
  assert (Hb : ∀ j id', bounded j id' S → bounded j id' S').
  { intros j id' Hb n' Hn'. destruct (decide (id' = id)) as [->|Hne].
    - destruct (S !! id) as [n|] eqn:E; [|by rewrite Hnone in Hn'].
      destruct (Hown n eq_refl) as (n1 & ? & ?). specialize (Hb _ E).
      assert (n1 = n') as -> by congruence. lia.
    - rewrite Hother in Hn' by done. by apply Hb. }
  split; [|done|].
  - intros id' [n Hn]. destruct (decide (id' = id)) as [->|Hne]; [|by rewrite Hother].
    destruct (Hown n Hn) as (n' & ? & _). by exists n'.
  - intros j id' Hh. destruct (decide (id' = id)) as [->|Hne].
    + intros m Hm. destruct (S !! id) as [n|] eqn:E; [|by rewrite Hnone in Hm].
      destruct (Hh _ E) as [Ht|[Hle _]].
      * destruct H; simplify_eq; [by left|congruence..].
      * destruct (settled_handled _ _ _ _ _ _ _ _ _ _ (j - 1) H) with m as [?|[? ?]];
          [intros ? ?; simplify_eq; lia|done|by left|right; split; [lia|done]].
    + intros n. rewrite Hother by done. intros [?|[? Hm]]%Hh; [by left|right]. split; [done|].
      apply settled_taken in H as [_ (Hd & _ & _)]. by apply Hd.
Qed.
End Settled.

(** ** One message, to its end *)

(** The context did not end during the run. *)
Definition ctx_ended (ev : Event) : bool :=
  match ev with
  | @Ev X e x => match e in Eff Y return Y → bool with
                 | CtxErr | SleepOrDone _ => λ x, x
                 | _ => λ _, false
                 end x
  end.

Definition undisturbed (tr : list Event) : Prop := Forall (λ ev, ctx_ended ev = false) tr.

(** A program that keeps the limiter's clock. *)
Definition keeps_past {S : Services} {A} (p : prog A) : Prop :=
  ∀ w tr a w', exec p w tr a w' → limiter_past w → limiter_past w'.

(** A message that was read comes from its entry. *)
Lemma to_message_ids k e m : to_message k e = Some m → m_StreamID m = k ∧ m_MessageID m = e_id e.
Proof.
  unfold to_message. destruct (field "notification_id" _); [|done]. cbn.
  destruct (field "channel" _); [|done]. cbn. by intros [= <-].
Qed.

Lemma read_message n (Q : AQueue) ms k e :
  mapM (λ p, to_message p.1 p.2)
    (k ← priority_streams; (λ e, (k, e)) <$> take n (ln_waiting (q_lanes Q k))) = Some ms →
  k ∈ priority_streams → e ∈ take n (ln_waiting (q_lanes Q k)) →
  ∃ m, m ∈ ms ∧ to_message k e = Some m.
Proof.
  intros Hms Hk He. apply mapM_Some_1 in Hms.
  assert (Hin : (k, e) ∈ (k ← priority_streams; (λ e, (k, e)) <$> take n (ln_waiting (q_lanes Q k)))).
  { apply list_elem_of_bind. exists k. split; [|done]. apply list_elem_of_fmap. by exists e. }
  apply list_elem_of_lookup in Hin as (i & Hi). eapply Forall2_lookup_l in Hms as (m & Hm & Hto); [|done].
  exists m. split; [by eapply list_elem_of_lookup_2|done].
Qed.

Lemma priority_not_dlq k : k ∈ priority_streams → k ≠ DLQStream.
Proof.
  intros Hk ->. revert Hk. change (DLQStream ∉ priority_streams). apply (bool_decide_unpack _). by vm_compute.
Qed.

Lemma StreamKey_priority p : Priority_Valid p = true → StreamKey p ∈ priority_streams.
Proof.
  intros Hp%Priority_Valid_spec. rewrite !elem_of_cons, elem_of_nil in Hp.
  destruct Hp as [->|[->|[->|[]]]]; by apply (bool_decide_unpack _).
Qed.

(** How many entries wait in the priority lanes. *)
Definition waiting_total (Q : AQueue) : nat :=
  sum_list ((λ k, length (ln_waiting (q_lanes Q k))) <$> priority_streams).

Lemma waiting_total_nil Q :
  (∀ k, k ∈ priority_streams → ln_waiting (q_lanes Q k) = []) → waiting_total Q = 0%nat.
Proof.
  intros H. unfold waiting_total. induction priority_streams as [|k l IH]; [done|]. cbn.
  rewrite H by left. apply IH. intros k' Hk'. apply H. by right.
Qed.

(** A read takes as many entries off the lanes as it gives messages. *)
Lemma read_total n (Q Q1 : AQueue) ms :
  read_to n Q Q1 ms → ∀ Q',
  (∀ k, k ∈ priority_streams → ln_waiting (q_lanes Q' k) = drop n (ln_waiting (q_lanes Q k))) →
  (length ms + waiting_total Q' = waiting_total Q)%nat.
Proof.
  intros [Hms _] Q' H. apply mapM_Some_1, Forall2_length in Hms. rewrite <- Hms. clear Hms.
  unfold waiting_total. induction priority_streams as [|k l IH]; [done|]. cbn.
  rewrite length_app, length_fmap, length_take, H, length_drop by left.
  rewrite <- IH by (intros k' Hk'; apply H; by right). lia.
Qed.

Section Drain.
Context {T : UuidText} {TT : TimeText} {S : Services} {HS : ServicesOk S} {HO : SentOnce S} {WH : Webhook}.

Lemma gate_open fuel max ch w tr g w' :
  limiter_past w → 0 < max → (21 ≤ fuel)%nat → undisturbed tr →
  exec (rate_gate fuel max ch) w tr g w' → g = GateOpen.
Proof.
  intros Hl Hmax Hfuel Hu H. assert (Hg : g ≠ GateFuel).
  { replace fuel with (Datatypes.S (fuel - 1)) in H by lia.
    eapply rate_gate_opens; [exact Hmax|apply Hl| |exact H]. unfold time_Millisecond. lia. }
  clear Hl Hmax Hfuel. destruct g; [done| |done]. exfalso. clear Hg. revert w tr Hu H.
  induction fuel as [|fuel IH]; intros w tr Hu H; [by destruct H as (_ & ? & _)|].
  cbn [rate_gate] in H. exec_step H. apply Forall_app in Hu as [_ Hu].
  destruct x as [[|]|e]; [by destruct H as (_ & ? & _)| |by destruct H as (_ & ? & _)].
  exec_step H. apply Forall_app in Hu as [Hu1 Hu]. apply exec_do in Hx0 as [-> _].
  apply Forall_inv in Hu1. cbn in Hu1. subst x. by eapply IH.
Qed.

Lemma keeps_only {A} (p : prog A) : only spares_limiter p → keeps_past p.
Proof. intros Hp w tr a w'. by apply exec_spares. Qed.

Lemma keeps_bind {A B} (p : prog A) (f : A → prog B) :
  keeps_past p → (∀ a, keeps_past (f a)) → keeps_past (bind p f).
Proof.
  intros Hp Hf w tr b w' H Hl. exec_step H. eapply Hf; [exact H|]. by eapply Hp.
Qed.

Lemma spares_reading c n : only spares_limiter (ReadMessages c n).
Proof.
  assert (Hm : ∀ k es, only spares_limiter (messages_of k es)).
  { intros k es. induction es as [|e es IH]; cbn [messages_of]; [done|]. unfold message_of. only_go; done. }
  assert (Hs : ∀ l, only spares_limiter (stream_messages l)).
  { intros l. induction l as [|[k es] l IH]; cbn [stream_messages]; [done|].
    apply only_bind; [apply Hm|intros ms]. apply only_bind; [done|]. done. }
  unfold ReadMessages. only_go; try apply Hs.
Qed.

Lemma keeps_Send d n p : providers_ok d → dp_providers d !! n_Channel n = Some p → keeps_past (Send p n).
Proof.
  intros Hd Hp w tr r w' H. destruct (Hd _ _ Hp) as (payload & Hok & _).
  pose proof (provider_sends (p := p) _ _ _ _ _ H) as ((t & Ht & ->) & _). by apply limiter_past_later.
Qed.

Ltac spares := apply keeps_only; unfold GetByID, UpdateStatus, Ack, IncrementAttempt,
  CreateDeliveryAttempt, EnqueueDelayed, Push, Broadcast; only_go.

Lemma keeps_processing d msg id : providers_ok d → keeps_past (process_notification d msg id).
Proof.
  intros Hd. unfold process_notification.
  apply keeps_bind; [spares|intros [n|e]]; [|spares].
  destruct (_ || _); [spares|]. apply keeps_bind; [spares|intros _].
  destruct (dp_providers d !! n_Channel n) as [p|] eqn:Hp; [|spares].
  apply keeps_bind; [|intros r; unfold settle; spares]. unfold deliver_once.
  apply keeps_bind; [spares|intros start]. apply keeps_bind; [by eapply keeps_Send|intros r]. spares.
Qed.

(** A message, processed by a worker that is not disturbed. *)
Record finished (msg : Message) (w w' : World) : Prop := {
  fi_world : world_ok w';
  fi_past : limiter_past w';
  fi_clock : w_clock w ≤ w_clock w';
  fi_taken : taken_off (m_StreamID msg) (m_MessageID msg) (aqueue (w_redis w)) (aqueue (w_redis w'));
  fi_delays : delays 1 (w_clock w' + 5 * time_Minute) (q_delayed (aqueue (w_redis w)))
                (q_delayed (aqueue (w_redis w')));
  fi_going : keeps_going (abs (w_db w)) (aqueue (w_redis w)) (abs (w_db w')) (aqueue (w_redis w'));
  fi_handled j id : uuid_Parse (m_NotificationID msg) = Some id → bounded (j + 1) id (abs (w_db w)) →
                    handled j id (abs (w_db w')) (aqueue (w_redis w'));
}.

(** A worker that is not disturbed comes to the processing itself. *)
Lemma undisturbed_processing fuel d msg id w tr p w' :
  0 < dp_maxPerSec d → (21 ≤ fuel)%nat →
  world_ok w → limiter_past w → fault_free tr → undisturbed tr →
  uuid_Parse (m_NotificationID msg) = Some id → exec (processMessage fuel d msg) w tr p w' →
  p = Returned ∧ ∃ w1 tr1, world_ok w1 ∧ limiter_past w1 ∧ worker_frame w w1 ∧
    w_db w1 = w_db w ∧ aqueue (w_redis w1) = aqueue (w_redis w) ∧ posts tr1 = posts tr ∧
    fault_free tr1 ∧ exec (process_notification d msg id) w1 tr1 tt w'.
Proof.
  intros Hmax Hfuel Hw Hl Hff Hu Hid H. unfold processMessage in H. rewrite Hid in H.
  part H Hff. apply Forall_app in Hu as [Hu1 Hu].
  pose proof (rate_gate_past _ _ _ _ _ _ _ Hx Hl) as Hl1.
  pose proof (exec_no_posts _ _ _ _ _ (no_post_rate_gate _ _ _) Hx) as P.
  apply rate_gate_frame in Hx as Hg; [|done]. destruct Hg as (Hw1 & Hf1 & D1 & R1).
  apply gate_open in Hx as ->; [|done..].
  part H Hff. destruct H as (-> & -> & ->). destruct a. split; [done|].
  exists w0, tr. rewrite app_nil_r, posts_app, P. done.
Qed.

Lemma processMessage_finishes fuel d msg w tr p w' :
  providers_ok d → 0 < dp_maxPerSec d → (21 ≤ fuel)%nat →
  world_ok w → limiter_past w → fault_free tr → undisturbed tr →
  exec (processMessage fuel d msg) w tr p w' → p = Returned ∧ finished msg w w'.
Proof.
  intros Hd Hmax Hfuel Hw Hl Hff Hu H.
  destruct (uuid_Parse (m_NotificationID msg)) as [id|] eqn:Hid.
  - destruct (undisturbed_processing _ _ _ _ _ _ _ _ Hmax Hfuel Hw Hl Hff Hu Hid H)
      as (-> & w1 & tr1 & Hw1 & Hl1 & (_ & _ & Hc1) & D1 & R1 & _ & Hff1 & H1). clear H.
    pose proof (keeps_processing _ _ _ Hd _ _ _ _ H1 Hl1) as Hl2.
    apply process_notification_settles in H1 as (Hw2 & (_ & _ & Hc2) & Hs); [|done..].
    rewrite D1, R1 in Hs. split; [done|].
    destruct (settled_taken _ _ _ _ _ _ _ _ _ _ Hs). split; [done|done|lia|done|done| |].
    + by eapply settled_keeps.
    + rewrite Hid. intros j ? [= <-]. by eapply settled_handled.
  - unfold processMessage in H. rewrite Hid in H. part H Hff. assert (Hl1 : limiter_past w0).
    { eapply (keeps_only (Ack _ _)); [unfold Ack; only_go|exact Hx|exact Hl]. }
    apply step_ack in Hx as (Hw1 & (_ & _ & Hc) & D1 & Ha); [|done..]. destruct H as (-> & -> & ->).
    apply acknowledged_taken in Ha as [Ht Ed]. split; [done|]. split; [done..| | |congruence].
    + rewrite Ed. destruct (delays_same (w_clock w0 + 5 * time_Minute) (q_delayed (aqueue (w_redis w))))
        as (? & ? & ?). split; [done|]. split; [lia|done].
    + rewrite D1. by apply keeps_going_same.
Qed.

(** ** All messages, to their ends *)

(** The lanes of [w] and what is left of them in [w'], after the messages [ms]
    were finished. *)
Record all_finished (ms : list Message) (w w' : World) : Prop := {
  af_world : world_ok w';
  af_past : limiter_past w';
  af_clock : w_clock w ≤ w_clock w';
  af_waiting k : k ≠ DLQStream →
    ln_waiting (q_lanes (aqueue (w_redis w')) k) = ln_waiting (q_lanes (aqueue (w_redis w)) k);
  af_inflight k : k ≠ DLQStream →
    ln_inflight (q_lanes (aqueue (w_redis w')) k) ⊆ ln_inflight (q_lanes (aqueue (w_redis w)) k);
  af_gone m : m ∈ ms → m_StreamID m ≠ DLQStream →
    m_MessageID m ∉ ln_inflight (q_lanes (aqueue (w_redis w')) (m_StreamID m));
  af_delays : delays (length ms) (w_clock w' + 5 * time_Minute) (q_delayed (aqueue (w_redis w)))
                (q_delayed (aqueue (w_redis w')));
  af_going : keeps_going (abs (w_db w)) (aqueue (w_redis w)) (abs (w_db w')) (aqueue (w_redis w'));
  af_handled m j id : m ∈ ms → uuid_Parse (m_NotificationID m) = Some id →
                      bounded (j + 1) id (abs (w_db w)) →
                      handled j id (abs (w_db w')) (aqueue (w_redis w'));
}.

Lemma all_finished_nil w : world_ok w → limiter_past w → all_finished [] w w.
Proof.
  intros Hw Hl. split; [done|done|done|done|done|..].
  - by intros m ?%not_elem_of_nil.
  - apply delays_same.
  - by apply keeps_going_same.
  - by intros m j id ?%not_elem_of_nil.
Qed.

Lemma all_finished_cons m ms w w1 w' :
  finished m w w1 → all_finished ms w1 w' → all_finished (m :: ms) w w'.
Proof.
  intros [Hw1 _ Hc Ht Hd Hg Hh] [Hw' Hp Hc' Hwait Hin Hgone Hds Hgs Hall].
  split; [done|done|lia| | | | | |].
  - intros k Hne. rewrite Hwait by done. by apply Ht.
  - intros k Hne. etrans; [by apply Hin|]. destruct (Ht k Hne) as [_ ->]. set_solver.
  - intros m' [->|Hm]%elem_of_cons Hne; [|by apply Hgone]. intros Hi%Hin; [|done].
    destruct (Ht _ Hne) as [_ E]. rewrite E, decide_True in Hi by done. set_solver.
  - eapply (delays_trans 1 (length ms)); [|exact Hd|exact Hds]. lia.
  - by eapply keeps_going_trans.
  - intros m' j id [->|Hm]%elem_of_cons Hid Hb; [by eapply kg_handled, Hh|].
    eapply Hall; [done|done|]. by eapply kg_bounded.
Qed.

Context (d : Dispatcher) (fuel : nat).
Context (Hd : providers_ok d) (Hmax : 0 < dp_maxPerSec d) (Hfuel : (21 ≤ fuel)%nat).

Lemma process_all_finishes ms w tr p w' :
  world_ok w → limiter_past w → fault_free tr → undisturbed tr →
  exec (process_all fuel d ms) w tr p w' → p = Returned ∧ all_finished ms w w'.
Proof.
  revert w tr. induction ms as [|m ms IH]; intros w tr Hw Hl Hff Hu H; cbn [process_all] in H.
  { destruct H as (-> & -> & ->). split; [done|]. by apply all_finished_nil. }
  part H Hff. apply Forall_app in Hu as [Hu1 Hu].
  apply processMessage_finishes in Hx as [-> Hf]; [|done..].
  apply IH in H as [-> Ha]; [|apply Hf..|done|done]. split; [done|]. by eapply all_finished_cons.
Qed.

(** What has been read is gone when all of it is finished. *)
Lemma round_finishes n ms Q w1 w' :
  read_to n Q (aqueue (w_redis w1)) ms → all_finished ms w1 w' →
  ∀ k, k ∈ priority_streams →
    ln_waiting (q_lanes (aqueue (w_redis w')) k) = drop n (ln_waiting (q_lanes Q k)) ∧
    ln_inflight (q_lanes (aqueue (w_redis w')) k) ⊆ ln_inflight (q_lanes Q k).
Proof.
  intros [Hms [Hl _]] Ha k Hk. assert (Hne : k ≠ DLQStream) by by apply priority_not_dlq.
  specialize (Hl k). rewrite decide_True in Hl by done. split.
  - rewrite (af_waiting _ _ _ Ha) by done. by rewrite Hl.
  - intros i Hi. pose proof (af_inflight _ _ _ Ha k Hne i Hi) as Hi1. rewrite Hl in Hi1. cbn in Hi1.
    apply elem_of_union in Hi1 as [?|Hin]; [done|exfalso].
    apply elem_of_list_to_set, list_elem_of_fmap in Hin as (e & -> & He).
    destruct (read_message _ _ _ _ _ Hms Hk He) as (m & Hm & Hto).
    apply to_message_ids in Hto as [E1 E2]. subst k. rewrite <- E2 in Hi.
    by apply (af_gone _ _ _ Ha m Hm Hne).
Qed.

(** What a worker leaves behind, that had enough rounds. *)
Record drained (w w' : World) : Prop := {
  dr_world : world_ok w';
  dr_past : limiter_past w';
  dr_clock : w_clock w ≤ w_clock w';
  dr_empty k : k ∈ priority_streams → ln_waiting (q_lanes (aqueue (w_redis w')) k) = [];
  dr_inflight k : k ∈ priority_streams →
    ln_inflight (q_lanes (aqueue (w_redis w')) k) ⊆ ln_inflight (q_lanes (aqueue (w_redis w)) k);
  dr_delays : delays (waiting_total (aqueue (w_redis w))) (w_clock w' + 5 * time_Minute)
                (q_delayed (aqueue (w_redis w))) (q_delayed (aqueue (w_redis w')));
  dr_going : keeps_going (abs (w_db w)) (aqueue (w_redis w)) (abs (w_db w')) (aqueue (w_redis w'));
  dr_handled k e m j id :
    k ∈ priority_streams → e ∈ ln_waiting (q_lanes (aqueue (w_redis w)) k) →
    to_message k e = Some m → uuid_Parse (m_NotificationID m) = Some id →
    bounded (j + 1) id (abs (w_db w)) → handled j id (abs (w_db w')) (aqueue (w_redis w'));
}.

(** Nothing waits: nothing to do. *)
Lemma drained_empty w :
  world_ok w → limiter_past w →
  (∀ k, k ∈ priority_streams → ln_waiting (q_lanes (aqueue (w_redis w)) k) = []) → drained w w.
Proof.
  intros Hw Hl He. split; [done|done|done|done|done| | |].
  - rewrite waiting_total_nil by done. apply delays_same.
  - by apply keeps_going_same.
  - intros k e m j id Hk Hin. rewrite He in Hin by done. by apply not_elem_of_nil in Hin.
Qed.

(** One round, and the others. *)
Lemma drained_round n ms w w0 w1 w' :
  frame_redis w w0 → read_to n (aqueue (w_redis w)) (aqueue (w_redis w0)) ms →
  all_finished ms w0 w1 → drained w1 w' → drained w w'.
Proof.
  intros (Hc0 & _ & Edb & _) Hread Ha Hdr. pose proof (round_finishes _ _ _ _ _ Hread Ha) as Hround.
  pose proof (read_total _ _ _ _ Hread _ (λ k Hk, proj1 (Hround k Hk))) as Htotal.
  destruct Hread as (Hms & _ & Ed).
  assert (Hg0 : keeps_going (abs (w_db w)) (aqueue (w_redis w)) (abs (w_db w1)) (aqueue (w_redis w1))).
  { rewrite <- Edb. eapply keeps_going_trans; [by apply keeps_going_same|apply Ha]. }
  pose proof (af_clock _ _ _ Ha). pose proof (dr_clock _ _ Hdr).
  split; [apply Hdr|apply Hdr|lia|apply Hdr| | | |].
  - intros k Hk. etrans; [by apply Hdr|]. by apply Hround.
  - rewrite <- Htotal, <- Ed. eapply delays_trans; [|apply Ha|apply Hdr]. lia.
  - by eapply keeps_going_trans, Hdr.
  - intros k e m j id Hk He Hto Hid Hb. rewrite <- (take_drop n (ln_waiting _)) in He.
    apply elem_of_app in He as [He|He].
    + destruct (read_message _ _ _ _ _ Hms Hk He) as (m' & Hm' & Hto').
      assert (m' = m) as -> by congruence. eapply (kg_handled _ _ _ _ (dr_going _ _ Hdr)).
      eapply (af_handled _ _ _ Ha); [done|done|by rewrite Edb].
    + eapply (dr_handled _ _ Hdr); [done|by rewrite (proj1 (Hround k Hk))|done|done|].
      by eapply kg_bounded.
Qed.

Lemma Work_drains rounds w tr p w' :
  world_ok w → limiter_past w → fault_free tr → undisturbed tr →
  (∀ k, k ∈ priority_streams →
        (length (ln_waiting (q_lanes (aqueue (w_redis w)) k)) ≤ rounds)%nat) →
  exec (Work rounds fuel d) w tr p w' → drained w w'.
Proof.
  revert w tr. induction rounds as [|rounds IH]; intros w tr Hw Hl Hff Hu Hlen H; cbn [Work] in H.
  { destruct H as (_ & _ & ->). apply drained_empty; [done..|]. intros k Hk. specialize (Hlen k Hk).
    by destruct (ln_waiting (q_lanes (aqueue (w_redis w)) k)); [|cbn in Hlen; lia]. }
  part H Hff. apply Forall_app in Hu as [Hu0 Hu]. apply exec_do in Hx as [-> Hx].
  apply Forall_inv in Hu0. cbn in Hu0. subst a. apply ctx_doc in Hx as ->.
  part H Hff. apply Forall_app in Hu as [_ Hu].
  assert (Hl1 : limiter_past w0) by by eapply (keeps_only (ReadMessages _ _)), Hl; [apply spares_reading|].
  apply ReadMessages_reads in Hx as (Hf & Hok & [(ms & -> & Hread)|(Hnf & _)]); [|done|apply Hw].
  assert (Hw1 : world_ok w0).
  { destruct Hf as (_ & _ & Edb & _); split; [by rewrite Edb; apply Hw|done]. }
  part H Hff. apply Forall_app in Hu as [Hu1 Hu].
  apply process_all_finishes in Hx as [-> Ha]; [|done..].
  eapply drained_round; [exact Hf|exact Hread|exact Ha|].
  eapply IH; [apply Ha|apply Ha|exact Hff|exact Hu| |exact H]. intros k Hk.
  destruct (round_finishes _ _ _ _ _ Hread Ha k Hk) as [-> _]. rewrite length_drop.
  specialize (Hlen k Hk). lia.
Qed.

(** (C17) A worker that is left alone (no faults, the context not ended) empties
    the queue: after as many rounds as the longest lane has entries, nothing
    waits in any priority lane and nothing more is in flight than before; and
    the notification of every message that was waiting is still there, and is
    delivered, failed or cancelled, or has fewer attempts left and waits in
    the delayed set for its retry. (The Redis client is to send no command
    again.) *)
Theorem worker_drains rounds w tr p w' k :
  world_ok w → limiter_past w → fault_free tr → undisturbed tr →
  (∀ k, k ∈ priority_streams →
        (length (ln_waiting (q_lanes (aqueue (w_redis w)) k)) ≤ rounds)%nat) →
  exec (Work rounds fuel d) w tr p w' → k ∈ priority_streams →
  ln_waiting (q_lanes (aqueue (w_redis w')) k) = [] ∧
  ln_inflight (q_lanes (aqueue (w_redis w')) k) ⊆ ln_inflight (q_lanes (aqueue (w_redis w)) k) ∧
  ∀ e m id n, e ∈ ln_waiting (q_lanes (aqueue (w_redis w)) k) → to_message k e = Some m →
    uuid_Parse (m_NotificationID m) = Some id → abs (w_db w) !! id = Some n →
    ∃ n', abs (w_db w') !! id = Some n' ∧
      (terminal (n_Status n') = true ∨
       (attempts_left n' < attempts_left n ∧
        is_Some (q_delayed (aqueue (w_redis w')) !! delayed_member id (n_Channel n') (n_Priority n')))).
Proof.
  intros Hw Hl Hff Hu Hlen H Hk. apply Work_drains in H as Hdr; [|done..].
  split; [by apply Hdr|]. split; [by apply Hdr|]. intros e m id n He Hto Hid Hn.
  destruct (kg_exists _ _ _ _ (dr_going _ _ Hdr) id) as [n' Hn']; [by exists n|]. exists n'. split; [done|].
  destruct (dr_handled _ _ Hdr k e m (attempts_left n - 1) id Hk He Hto Hid) with n' as [?|[? ?]];
    [intros ? ?; simplify_eq; lia|done|by left|right; split; [lia|done]].
Qed.
End Drain.
