(* ===== verification/Retrying.v ===== *)
(** * Every queued notification comes to an end

    The processor of delayed retries puts every retry back into its lane once
    it is due. A worker and the processor, taking turns, so bring every queued
    notification to an end. *)

From stdpp Require Import gmap.
From S2P Require Import Prelude GoLib Domain Sql SqlFacts Redis RedisFacts Effects Discipline Frames.
From S2P Require Import NotificationRepo NotificationStore Typed NotificationSpec Queue.
From S2P Require Import QueueSpec.
From S2P Require Import RateLimit Delivery DeliverySpec Retry Hub RateLimitSpec Worker WorkerSpec.
From S2P Require Import MemberSpec SchedulerSpec Lifecycle Draining.

(** ** Sizes *)

Lemma foldr_delete_size (z : ZSet) ms :
  NoDup ms → (∀ m, m ∈ ms → is_Some (z !! m)) → (size (foldr delete z ms) + length ms = size z)%nat.
Proof.
  induction ms as [|m ms IH]; intros Hnd Hin; [cbn; lia|]. apply NoDup_cons in Hnd as [Hm Hnd].
  rewrite <- IH; [|done|intros m' Hm'; apply Hin; by right]. cbn.
  assert (Hz : is_Some (foldr delete z ms !! m)).
  { rewrite lookup_foldr_delete_not_elem_of by done. apply Hin. by left. }
  destruct Hz as [t Ht]. rewrite (map_size_delete_Some _ _ (ex_intro _ t Ht)).
  assert (size (foldr delete z ms) ≠ 0%nat); [|lia].
  intros E%map_size_empty_inv. by rewrite E, lookup_empty in Ht.
Qed.

Lemma due_members_in now n z m : m ∈ due_members now n z → is_Some (z !! m).
Proof.
  intros ((m' & t) & -> & Hin)%list_elem_of_fmap. apply elem_of_take in Hin as (i & Hi & _).
  apply list_elem_of_lookup_2, list_elem_of_filter in Hi as [_ Hi].
  unfold z_sorted in Hi. rewrite merge_sort_Permutation in Hi. apply elem_of_map_to_list in Hi.
  by exists t.
Qed.

Lemma due_members_NoDup now n z : NoDup (due_members now n z).
Proof.
  unfold due_members. rewrite fmap_take.
  eapply (sublist_NoDup _ (z_sorted z).*1).
  - unfold z_sorted. rewrite merge_sort_Permutation. apply NoDup_fst_map_to_list.
  - etrans; [apply sublist_take|]. apply fmap_sublist, sublist_filter.
Qed.

(** When everything is due, a batch takes all, or its limit. *)
Lemma due_members_length now n z :
  (∀ m t, z !! m = Some t → t ≤ now) → length (due_members now n z) = (n `min` size z)%nat.
Proof.
  intros H. unfold due_members. rewrite length_fmap, length_take, filter_id.
  - unfold z_sorted. rewrite merge_sort_Permutation. f_equal. apply length_map_to_list.
  - apply Forall_forall. intros [m t] Hin. unfold z_sorted in Hin. rewrite merge_sort_Permutation in Hin.
    apply elem_of_map_to_list in Hin. by apply (H m).
Qed.

(** One more entry in one lane is at most one more in all. *)
Lemma sum_one_more (ks : list string) (f g : string → nat) k :
  NoDup ks → g k = S (f k) → (∀ k', k' ≠ k → g k' = f k') →
  (sum_list (g <$> ks) ≤ S (sum_list (f <$> ks)))%nat.
Proof.
  intros Hnd Hk Hne. induction ks as [|k0 ks IH]; [cbn; lia|]. apply NoDup_cons in Hnd as [Hk0 Hnd].
  specialize (IH Hnd). change (g k0 + sum_list (g <$> ks) ≤ S (f k0 + sum_list (f <$> ks)))%nat.
  destruct (decide (k0 = k)) as [->|Hn]; [|rewrite Hne by done; lia].
  assert (E : g <$> ks = f <$> ks).
  { apply list_fmap_ext. intros i k' Hi. apply Hne. intros ->. apply Hk0.
    by eapply list_elem_of_lookup_2. }
  rewrite E, Hk. lia.
Qed.

Lemma appends_total l Q Q' : appends l Q Q' → (waiting_total Q' ≤ length l + waiting_total Q)%nat.
Proof.
  induction 1 as [Q|k vs l Q Q1 Q' (e & _ & Hk & Hne & _) _ IH]; [done|].
  assert (H1 : (waiting_total Q1 ≤ S (waiting_total Q))%nat); [|cbn [length]; lia].
  apply (sum_one_more _ _ _ k); [apply priority_streams_NoDup| |].
  - rewrite Hk. cbn. rewrite length_app. cbn. lia.
  - intros k' Hk'. by rewrite Hne.
Qed.

Lemma appends_waiting l Q Q' :
  appends l Q Q' →
  (∀ k e, e ∈ ln_waiting (q_lanes Q k) → e ∈ ln_waiting (q_lanes Q' k)) ∧
  (∀ k vs, (k, vs) ∈ l → ∃ e, e ∈ ln_waiting (q_lanes Q' k) ∧ e_values e = vs).
Proof.
  induction 1 as [Q|k vs l Q Q1 Q' (e & He & Hk & Hne & _) _ [IH1 IH2]].
  { split; [done|]. by intros k vs ?%not_elem_of_nil. }
  assert (H1 : ∀ k' e', e' ∈ ln_waiting (q_lanes Q k') → e' ∈ ln_waiting (q_lanes Q1 k')).
  { intros k' e' Hin. destruct (decide (k' = k)) as [->|Hn]; [|by rewrite Hne].
    rewrite Hk. cbn. apply elem_of_app. by left. }
  split; [auto|]. intros k' vs' [[= -> ->]|Hin]%elem_of_cons; [|by apply IH2].
  exists e. split; [|done]. apply IH1. rewrite Hk. cbn. apply elem_of_app. right. by left.
Qed.

(** ** Putting retries back *)

(** Members of the delayed set went to the lanes they name. *)
Record moved `{UuidText} (Q Q' : AQueue) : Prop := {
  mv_delayed : q_delayed Q' ⊆ q_delayed Q;
  mv_waiting k e : e ∈ ln_waiting (q_lanes Q k) → e ∈ ln_waiting (q_lanes Q' k);
  mv_inflight k : ln_inflight (q_lanes Q' k) = ln_inflight (q_lanes Q k);
  mv_total : (waiting_total Q' + size (q_delayed Q') ≤ waiting_total Q + size (q_delayed Q))%nat;
  mv_requeued m k vs :
    is_Some (q_delayed Q !! m) → member_entry m = Some (k, vs) →
    is_Some (q_delayed Q' !! m) ∨ ∃ e, e ∈ ln_waiting (q_lanes Q' k) ∧ e_values e = vs;
}.

Lemma moved_refl `{UuidText} Q : moved Q Q.
Proof. split; [done|done|done|done|]. intros m k vs Hm _. by left. Qed.

Lemma moved_trans `{UuidText} Q1 Q2 Q3 : moved Q1 Q2 → moved Q2 Q3 → moved Q1 Q3.
Proof.
  intros [D1 W1 I1 T1 R1] [D2 W2 I2 T2 R2]. split; [by etrans|auto|by intros k; rewrite I2|lia|].
  intros m k vs Hm He. destruct (R1 _ _ _ Hm He) as [Hr|(e & ? & ?)]; [by apply R2|right].
  exists e. auto.
Qed.

(** A batch moves its members. *)
Lemma batch_moved `{UuidText} ms Q Q1 Q' :
  NoDup ms → (∀ m, m ∈ ms → is_Some (q_delayed Q !! m)) →
  delayed_to (foldr delete (q_delayed Q) ms) Q Q1 → appends (omap member_entry ms) Q1 Q' →
  moved Q Q' ∧ (size (q_delayed Q') + length ms = size (q_delayed Q))%nat.
Proof.
  intros Hnd Hin [Hl Hd] Ha. pose proof (foldr_delete_size _ _ Hnd Hin) as Hsize.
  assert (Hd' : q_delayed Q' = foldr delete (q_delayed Q) ms).
  { rewrite <- Hd. by apply (appends_lane _ _ _ "") in Ha as (_ & _ & ->). }
  pose proof (appends_waiting _ _ _ Ha) as [Hkeep Hnew]. pose proof (appends_total _ _ _ Ha) as Ht.
  assert (Htot : waiting_total Q1 = waiting_total Q).
  { unfold waiting_total. f_equal. apply list_fmap_ext. intros i k _. by rewrite Hl. }
  assert (Hom : (length (omap member_entry ms) ≤ length ms)%nat).
  { clear. induction ms as [|m ms IH]; [done|]. cbn. destruct (member_entry m); cbn; lia. }
  rewrite Hd'. split; [|done]. split; rewrite ?Hd'.
  - apply map_subseteq_spec. intros m t Hm. destruct (decide (m ∈ ms)) as [Hi|Hn].
    + by rewrite lookup_foldr_delete in Hm.
    + by rewrite lookup_foldr_delete_not_elem_of in Hm.
  - intros k e He. apply Hkeep. by rewrite Hl.
  - intros k. apply (appends_lane _ _ _ k) in Ha as (_ & -> & _). by rewrite Hl.
  - lia.
  - intros m k vs Hm He. destruct (decide (m ∈ ms)) as [Hi|Hn]; [right|left].
    + apply Hnew. apply list_elem_of_omap. by exists m.
    + by rewrite lookup_foldr_delete_not_elem_of.
Qed.

Section Retrying.
Context {T : UuidText} {HT : UuidTextOk T} {TT : TimeText} {S : Services} {HS : ServicesOk S} {HO : SentOnce S} {WH : Webhook}.

Lemma spares_delayed ticks : only spares_limiter (ProcessDelayed ticks).
Proof.
  induction ticks as [|ticks IH]; [done|]. cbn [ProcessDelayed].
  unfold processDelayedBatch, PopDelayedDue, requeue, Enqueue. only_go.
Qed.

Lemma batch_moves w tr u w' :
  world_ok w → fault_free tr → exec processDelayedBatch w tr u w' →
  world_ok w' ∧ w_clock w ≤ w_clock w' ∧ w_db w' = w_db w ∧
  moved (aqueue (w_redis w)) (aqueue (w_redis w')) ∧
  let z := q_delayed (aqueue (w_redis w)) in let z' := q_delayed (aqueue (w_redis w')) in
  ((∀ m t, z !! m = Some t → t ≤ UnixMilli (w_clock w)) → (size z' ≤ size z - 1)%nat).
Proof.
  intros Hw Hff H. apply processDelayedBatch_runs in H as (Hw' & (_ & _ & Hc) & D & now & Q1 & Hnow & Hd & Ha);
    [|done..]. split; [done|]. split; [done|]. split; [done|].
  eapply batch_moved in Ha as [Hm Hs]; [|apply due_members_NoDup|apply due_members_in|exact Hd].
  split; [exact Hm|]. cbn zeta. intros Hdue. rewrite due_members_length in Hs; [lia|].
  intros m t Ht%Hdue. pose proof (UnixMilli_mono (w_clock w) now). lia.
Qed.

(** The processor of delayed retries, with enough ticks, empties the delayed
    set: [i] seconds until all members are due, and a tick for each. *)
Lemma ProcessDelayed_moves ticks w tr u w' :
  world_ok w → fault_free tr → undisturbed tr → exec (ProcessDelayed ticks) w tr u w' →
  world_ok w' ∧ w_clock w ≤ w_clock w' ∧ w_db w' = w_db w ∧
  moved (aqueue (w_redis w)) (aqueue (w_redis w')) ∧
  ∀ i, (∀ m t, q_delayed (aqueue (w_redis w)) !! m = Some t →
               t ≤ UnixMilli (w_clock w + Z.of_nat i * time_Second)) →
       (i + size (q_delayed (aqueue (w_redis w))) ≤ ticks)%nat →
       q_delayed (aqueue (w_redis w')) = ∅.
Proof.
  revert w tr. induction ticks as [|ticks IH]; intros w tr Hw Hff Hu H; cbn [ProcessDelayed] in H.
  { destruct H as (_ & _ & ->). do 3 (split; [done|]). split; [apply moved_refl|].
    intros i _ Hle. apply map_size_empty_inv. lia. }
  part H Hff. apply Forall_app in Hu as [Hu0 Hu]. apply exec_do in Hx as [-> Hx].
  apply Forall_inv in Hu0. cbn in Hu0. subst a. apply sleep_or_done_doc in Hx as [Hq Hsl].
  specialize (Hsl eq_refl). apply quiet_worker in Hq as ((_ & _ & Hc0) & D0 & R0).
  assert (Hw0 : world_ok w0) by (unfold world_ok; by rewrite D0, R0).
  part H Hff. apply Forall_app in Hu as [_ Hu].
  apply batch_moves in Hx as (Hw1 & Hc1 & D1 & Hm1 & Hs1); [|done..].
  apply IH in H as (Hw2 & Hc2 & D2 & Hm2 & Hdone); [|done..]. rewrite R0 in Hm1, Hs1.
  split; [done|]. split; [lia|]. split; [congruence|]. split; [by eapply moved_trans|].
  intros i Hdue Hle. pose proof (mv_delayed _ _ Hm1) as Hsub.
  pose proof (map_subseteq_size _ _ Hsub) as Hsize. rewrite map_subseteq_spec in Hsub.
  destruct i as [|i].
  - apply (Hdone 0%nat).
    + intros m t Ht%Hsub%Hdue. etrans; [exact Ht|]. apply UnixMilli_mono. lia.
    + destruct (decide (size (q_delayed (aqueue (w_redis w))) = 0%nat)); [lia|].
      assert (size (q_delayed (aqueue (w_redis w1))) ≤ size (q_delayed (aqueue (w_redis w))) - 1)%nat; [|lia].
      apply Hs1. intros m t Ht%Hdue. etrans; [exact Ht|]. apply UnixMilli_mono. lia.
  - apply (Hdone i); [|lia]. intros m t Ht%Hsub%Hdue. etrans; [exact Ht|]. apply UnixMilli_mono. lia.
Qed.
(** ** A worker and the processor of retries, in turns *)

(** The notification, if it is stored, is at its end, or it has at most [j]
    attempts left and waits in a priority lane. *)
Definition queued_for (j : Z) (id : UUID) (w : World) : Prop :=
  ∀ n, abs (w_db w) !! id = Some n →
    terminal (n_Status n) = true ∨
    (attempts_left n ≤ j ∧ ∃ k e m, k ∈ priority_streams ∧
       e ∈ ln_waiting (q_lanes (aqueue (w_redis w)) k) ∧ to_message k e = Some m ∧
       uuid_Parse (m_NotificationID m) = Some id).

(** At most [N] messages and retries are there, and the retries are due within
    five minutes. *)
Record ready (N : nat) (w : World) : Prop := {
  rd_world : world_ok w;
  rd_past : limiter_past w;
  rd_soon m t : q_delayed (aqueue (w_redis w)) !! m = Some t →
                t ≤ UnixMilli (w_clock w + 5 * time_Minute);
  rd_load : (waiting_total (aqueue (w_redis w)) + size (q_delayed (aqueue (w_redis w))) ≤ N)%nat;
}.

(** A lane has no more entries than all lanes. *)
Lemma lane_total Q k :
  k ∈ priority_streams → (length (ln_waiting (q_lanes Q k)) ≤ waiting_total Q)%nat.
Proof.
  unfold waiting_total. induction 1 as [ks|k0 ks Hk IH]; cbn [fmap list_fmap sum_list_with]; cbn; lia.
Qed.

(** What a worker leaves queued is handled. *)
Lemma drained_handles j id w w' :
  queued_for (j + 1) id w → drained w w' → handled j id (abs (w_db w')) (aqueue (w_redis w')).
Proof.
  intros Hq Hdr. destruct (abs (w_db w) !! id) as [n|] eqn:E.
  - destruct (Hq n E) as [Ht|(Hle & k & e & m & Hk & He & Hto & Hid)].
    + eapply (kg_handled _ _ _ _ (dr_going _ _ Hdr)). intros n' Hn'. left. congruence.
    + eapply (dr_handled _ _ Hdr); [done..|]. intros n' Hn'. by simplify_eq.
  - eapply (kg_handled _ _ _ _ (dr_going _ _ Hdr)). intros n' Hn'. congruence.
Qed.

(** And what is handled the processor queues again. *)
Lemma moved_queues j id w w' :
  db_ok (w_db w) → w_db w' = w_db w → moved (aqueue (w_redis w)) (aqueue (w_redis w')) →
  q_delayed (aqueue (w_redis w')) = ∅ →
  handled j id (abs (w_db w)) (aqueue (w_redis w)) → queued_for j id w'.
Proof.
  intros Hok D Hm Hempty Hh n. rewrite D. intros Hn. destruct (Hh n Hn) as [?|[Hle Hin]]; [by left|right].
  split; [done|]. destruct (abs_well_typed _ _ _ Hok Hn) as [Hch Hp _ _ _ _ _ _ _].
  assert (He : member_entry (delayed_member id (n_Channel n) (n_Priority n))
    = Some (StreamKey (n_Priority n), entry_values id (n_Channel n))).
  { unfold member_entry. rewrite parse_delayed_member by done. by rewrite uuid_Parse_String. }
  destruct (mv_requeued _ _ Hm _ _ _ Hin He) as [[t Ht]|(e & Hw & Hv)].
  { by rewrite Hempty, lookup_empty in Ht. }
  exists (StreamKey (n_Priority n)), e,
    (mkMessage (StreamKey (n_Priority n)) (e_id e) (uuid_String id) (n_Channel n)).
  split; [by apply StreamKey_priority|]. split; [done|].
  split; [unfold to_message; by rewrite Hv|apply uuid_Parse_String].
Qed.

Context (d : Dispatcher) (fuel rounds ticks N : nat).
Context (Hd : providers_ok d) (Hmax : 0 < dp_maxPerSec d) (Hfuel : (21 ≤ fuel)%nat).
Context (Hrounds : (N ≤ rounds)%nat) (Hticks : (300 + N ≤ ticks)%nat).

Definition turn : prog unit :=
  run! Work rounds fuel d in ProcessDelayed ticks.

Lemma turn_ends w tr u w' :
  ready N w → fault_free tr → undisturbed tr → exec turn w tr u w' →
  ready N w' ∧
  (∀ id, is_Some (abs (w_db w) !! id) → is_Some (abs (w_db w') !! id)) ∧
  ∀ j id, queued_for (j + 1) id w → queued_for j id w'.
Proof.
  intros [Hw Hl Hs HN] Hff Hu H. unfold turn in H. part H Hff. apply Forall_app in Hu as [Hu1 Hu].
  apply Work_drains in Hx as Hdr; [|done..|].
  2: { intros k Hk. pose proof (lane_total (aqueue (w_redis w)) k Hk). lia. }
  pose proof (keeps_only _ (spares_delayed ticks) _ _ _ _ H (dr_past _ _ Hdr)) as Hl2.
  apply ProcessDelayed_moves in H as (Hw2 & Hc2 & D2 & Hm & Hempty); [|apply Hdr|done..].
  destruct (dr_delays _ _ Hdr) as (_ & Hsize & Hsoon).
  pose proof (waiting_total_nil _ (dr_empty _ _ Hdr)) as Hnil. pose proof (mv_total _ _ Hm) as Ht.
  pose proof (dr_clock _ _ Hdr) as Hc1.
  assert (Hz : q_delayed (aqueue (w_redis w')) = ∅).
  { apply (Hempty 300%nat); [|lia]. intros m t [Hm1%Hs|Hm1]%Hsoon; (etrans; [exact Hm1|]);
      apply UnixMilli_mono; unfold time_Minute, time_Second; lia. }
  split; [|split].
  - split; [done|done|by intros m t; rewrite Hz, lookup_empty|lia].
  - intros id Hid. rewrite D2. by apply (kg_exists _ _ _ _ (dr_going _ _ Hdr)).
  - intros j id Hq. eapply moved_queues; [apply (dr_world _ _ Hdr)|done|done|done|].
    by eapply drained_handles.
Qed.

Fixpoint turns (n : nat) : prog unit :=
  match n with O => Ret tt | Datatypes.S n => run! turn in turns n end.

Lemma turns_end n w tr u w' id :
  ready N w → fault_free tr → undisturbed tr → exec (turns n) w tr u w' →
  queued_for (Z.of_nat n) id w → is_Some (abs (w_db w) !! id) →
  ∃ nt, abs (w_db w') !! id = Some nt ∧ terminal (n_Status nt) = true.
Proof.
  revert w tr. induction n as [|n IH]; intros w tr Hr Hff Hu H Hq [n0 Hn0]; cbn [turns] in H.
  - destruct H as (_ & _ & ->). exists n0. split; [done|].
    destruct (Hq n0 Hn0) as [?|[Hle _]]; [done|]. unfold attempts_left in Hle.
    destruct (terminal _); [done|lia].
  - part H Hff. apply Forall_app in Hu as [Hu1 Hu].
    apply turn_ends in Hx as (Hr1 & Hex1 & Hq1); [|done..].
    eapply IH; [exact Hr1|done|done|exact H| |apply Hex1; by exists n0].
    apply Hq1. by replace (Z.of_nat n + 1) with (Z.of_nat (Datatypes.S n)) by lia.
Qed.

(** (C16) Every queued notification comes to an end: when a worker and the
    processor of delayed retries take turns, without faults, as often as a
    waiting notification has attempts left, it is delivered, failed or
    cancelled then, whatever the webhook answers. Of the worker, as many
    rounds are enough as there are messages and retries; of the processor,
    300 seconds, for the longest backoff, and one tick for each. (The Redis
    client is to send no command again.) *)
Theorem queued_notifications_end n w tr u w' k e m id nt :
  ready N w → fault_free tr → undisturbed tr → exec (turns n) w tr u w' →
  k ∈ priority_streams → e ∈ ln_waiting (q_lanes (aqueue (w_redis w)) k) →
  to_message k e = Some m → uuid_Parse (m_NotificationID m) = Some id →
  abs (w_db w) !! id = Some nt → attempts_left nt ≤ Z.of_nat n →
  ∃ nt', abs (w_db w') !! id = Some nt' ∧ terminal (n_Status nt') = true.
Proof.
  intros Hr Hff Hu H Hk He Hto Hid Hnt Hn.
  apply (turns_end _ _ _ _ _ id) in H; [done|done..| |by exists nt].
  intros n0 Hn0. simplify_eq. right. split; [done|]. by exists k, e, m.
Qed.
End Retrying.
