(* ===== verification/Boot.v ===== *)
(** * Starting and stopping the process (cmd/notifier/main.go, internal/tracing,
    internal/api/server.go)

    [run], from reading the configuration to the end of the process. What it
    calls of other libraries (the environment's parser, the tracing exporter,
    the connection pool, the migration runner, the listening socket) is a
    parameter, [Platform]. *)

From S2P Require Import Prelude GoLib Domain Effects Queue Validator Templates Service Api Wiring.

(** How [m.Up] of the migration runner ends. *)
Inductive MigrateUp := MigrateDone | ErrNoChange | MigrateFailed (e : error).

(** How [ListenAndServe] ends; it always returns an error. *)
Inductive ListenEnd := ErrServerClosed | ListenFailed (e : error).

Record Platform := mkPlatform {
  env_Parse : result error Config;
  otlptracegrpc_New : string → option error;
  resource_Merge : option error;
  pgxpool_ParseConfig : string → option error;
  pgxpool_NewWithConfig : PostgresConfig → option error;
  migrate_New : string → option error;
  migrate_Up : MigrateUp;
  (* httpServer.Shutdown with a context that ends after the time given *)
  http_Shutdown : Z → option error;
}.

Section Boot.
Context (pf : Platform).

(** config.go *)
Definition Load : result error Config :=
  match env_Parse pf with
  | Er err => Er (EWrap "parsing config: " err "")
  | Ok cfg => Ok cfg
  end.

(** tracing.go *)
Definition Setup (cfg : TracingConfig) : option error :=
  if negb (tc_Enabled cfg) then None
  else
    match otlptracegrpc_New pf (tc_Endpoint cfg) with
    | Some err => Some (EWrap "creating OTLP exporter: " err "")
    | None =>
        match resource_Merge pf with
        | Some err => Some (EWrap "creating resource: " err "")
        | None => None
        end
    end.

Definition runMigrations (dsn : string) : option error :=
  match migrate_New pf dsn with
  | Some err => Some (EWrap "creating migrator: " err "")
  | None =>
      match migrate_Up pf with
      | MigrateFailed err => Some (EWrap "applying migrations: " err "")
      | MigrateDone | ErrNoChange => None
      end
  end.

(** The first part of [run], up to the consumer groups. *)
Definition startup : prog (result error Config) :=
  match Load with
  | Er err => Ret (Er (EWrap "loading config: " err ""))
  | Ok cfg =>
  match Setup (cf_Tracing cfg) with
  | Some err => Ret (Er (EWrap "setting up tracing: " err ""))
  | None =>
  match pgxpool_ParseConfig pf (pc_DSN (cf_Postgres cfg)) with
  | Some err => Ret (Er (EWrap "parsing postgres config: " err ""))
  | None =>
  match pgxpool_NewWithConfig pf (cf_Postgres cfg) with
  | Some err => Ret (Er (EWrap "connecting to postgres: " err ""))
  | None =>
  let! pg := do (Ping "postgres") in
  match pg with
  | Some e => Ret (Er (EWrap "pinging postgres: " (EText e) ""))
  | None =>
  match runMigrations (pc_DSN (cf_Postgres cfg)) with
  | Some err => Ret (Er (EWrap "running migrations: " err ""))
  | None =>
  let! rd := do (Ping "redis") in
  match rd with
  | Some e => Ret (Er (EWrap "connecting to redis: " (EText e) ""))
  | None =>
  let! err := EnsureGroups in
  match err with
  | Some err => Ret (Er (EWrap "ensuring consumer groups: " err ""))
  | None => Ret (Ok cfg)
  end end end end end end end end.

(** ** The server (server.go) *)

(** The configuration of the [http.Server]; its handler is [NewRouter]. *)
Record Server := mkServer {
  sv_Addr : string; sv_ReadTimeout : Z; sv_WriteTimeout : Z; sv_IdleTimeout : Z;
}.

Definition NewServer (cfg : ServerConfig) : Server :=
  mkServer (Addr cfg) (sc_ReadTimeout cfg) (sc_WriteTimeout cfg) (sc_IdleTimeout cfg).

Definition Server_Start (listen : ListenEnd) : option error :=
  match listen with
  | ErrServerClosed => None
  | ListenFailed err => Some (EWrap "HTTP server error: " err "")
  end.

(** The requests that are being handled have 15 seconds. *)
Definition Server_Shutdown : option error := http_Shutdown pf (15 * time_Second).

(** What [run] waits for, once the goroutines run: the signal, or the end of
    the server. *)
Inductive RunEnd := SignalReceived | ServerEnded (listen : ListenEnd).

(** The end of [run], where the context is cancelled and the pool waited for; an
    error of the shutdown is logged. *)
Definition graceful_shutdown : option error :=
  match Server_Shutdown with Some _ | None => None end.

Definition run_end (e : RunEnd) : option error :=
  match e with
  | SignalReceived => graceful_shutdown
  | ServerEnded listen =>
      match Server_Start listen with
      | Some err => Some (EWrap "server error: " err "")
      | None => graceful_shutdown
      end
  end.

(** [run], with how it is brought to its end; while it waits, the goroutines of
    [main_threads] run. *)
Definition run (e : RunEnd) : prog (option error) :=
  let! r := startup in
  match r with
  | Er err => Ret (Some err)
  | Ok _ => Ret (run_end e)
  end.

(** [main]: the status with which the process exits. *)
Definition main (e : RunEnd) : prog Z :=
  let! err := run e in
  match err with
  | Some _ => Ret 1
  | None => Ret 0
  end.

(** Something that has to be there for the process to start is not. *)
Definition platform_fails : Prop :=
  match env_Parse pf with
  | Er _ => True
  | Ok cfg =>
      Setup (cf_Tracing cfg) ≠ None ∨ pgxpool_ParseConfig pf (pc_DSN (cf_Postgres cfg)) ≠ None ∨
      pgxpool_NewWithConfig pf (cf_Postgres cfg) ≠ None ∨
      runMigrations (pc_DSN (cf_Postgres cfg)) ≠ None
  end.
End Boot.
