(* ===== verification/Journey.v ===== *)
(** * From the request to the end

    A notification that the service accepts for immediate delivery is brought
    to an end by the goroutines that run after it: the service, the worker
    and the processor of retries put together. *)

From stdpp Require Import gmap.
From S2P Require Import Prelude GoLib Domain Sql SqlFacts Redis RedisFacts Effects Discipline Frames.
From S2P Require Import NotificationRepo NotificationStore NotificationSpec Queue QueueSpec.
From S2P Require Import RateLimit Delivery DeliverySpec Retry Hub RateLimitSpec Worker WorkerSpec.
From S2P Require Import MemberSpec SchedulerSpec Lifecycle Draining Retrying Validator Templates.
From S2P Require Import TemplateSpec Service ServiceSpec Typed Listing Wiring.

Section Journey.
Context {T : UuidText} {HT : UuidTextOk T} {TT : TimeText} {V : StructValidator}
  {TX : TextTemplate} {MP : MailParser} {S : Services} {HS : ServicesOk S} {HO : SentOnce S} {WH : Webhook}.

(** What an accepted request for immediate delivery looks like. *)
Lemma accepted_fields s M req n :
  accepted s M req = Ok n → r_ScheduledAt req = None →
  n_Status n = StatusPending ∧ n_AttemptCount n = 0 ∧ Priority_Valid (n_Priority n) = true.
Proof.
  unfold accepted. intros H Hs. destruct (ValidateStruct _); [done|].
  destruct (Channel_Valid _); [|done]. destruct (Priority_Valid (r_Priority req)) eqn:Hp; [|done].
  cbn [negb] in H. destruct (content _ _ _ _ _) as [n0|] eqn:Hc; [|done].
  destruct (checked n0); [done|]. injection H as <-. unfold set_schedule. rewrite Hs.
  assert (Hn0 : n_AttemptCount n0 = 0 ∧ n_Priority n0 = r_Priority req).
  { unfold content in Hc. destruct (r_TemplateID req) as [tid|]; [|by injection Hc as <-].
    destruct (M !! tid) as [tm|]; [|done]. destruct (Render tm _) as [[sj b]|]; [|done].
    by injection Hc as <-. }
  destruct n0. cbn in *. destruct Hn0 as [-> ->]. done.
Qed.

Lemma spares_Create s req : only spares_limiter (NotificationService_Create s req).
Proof.
  unfold NotificationService_Create, from_template, TemplateService_GetByID, TemplateRepository_GetByID,
    Create, enqueue_pending, Enqueue, UpdateStatus. only_go.
Qed.

(** A created notification is queued, with all its attempts. *)
Lemma Create_queues N s req w tr n w' :
  ready N w → ns_producer s = true → r_ScheduledAt req = None → fault_free tr →
  exec (NotificationService_Create s req) w tr (Ok n) w' →
  ready (Datatypes.S N) w' ∧ is_Some (abs (w_db w') !! n_ID n) ∧
  queued_for (Z.max 1 (n_MaxRetries n)) (n_ID n) w'.
Proof.
  intros [Hw Hl Hs HN] Hprod Hsch Hff H.
  pose proof (exec_spares _ _ _ _ _ (spares_Create s req) H Hl) as Hl'.
  apply NotificationService_Create_runs in H as (Hw' & (_ & _ & Hc) & _ & Hout); [|done..].
  unfold create_outcome in Hout. destruct (accepted _ _ _) as [n0|] eqn:Ha; [|by destruct Hout].
  destruct (accepted_fields _ _ _ _ Ha Hsch) as (Hst & Hatt & Hp).
  destruct Hout as (now & id & _ & [(x & _ & ? & _)|(S1 & n'' & Hcr & [= <-] & Hdisp)]); [done|].
  unfold dispatched, immediate in Hdisp. destruct n0; cbn in Hst, Hatt, Hp, Hcr, Hdisp. subst. rewrite Hprod in Hdisp.
  cbn in Hdisp. destruct Hdisp as (-> & Happ & t & m & Hm & ES). cbn.
  inversion Hcr as [_ _ E1 E2|_ |]; subst. cbn in Hm. rewrite lookup_insert_eq in Hm. injection Hm as <-.
  pose proof (appends_total _ _ _ (ap_cons _ _ _ _ _ _ Happ (ap_nil _))) as Htot.
  destruct Happ as (e & He & Hk & _ & Hd).
  split; [split; [done|done| |]|split].
  - intros mm tt. rewrite Hd. intros Ht%Hs. etrans; [exact Ht|]. apply UnixMilli_mono. lia.
  - rewrite Hd. cbn [length] in Htot. lia.
  - rewrite ES, lookup_insert_eq. by eexists.
  - intros nt. rewrite ES, lookup_insert_eq. intros [= <-]. right.
    split; [rewrite attempts_left_mark; cbn; lia|].
    eexists _, e, _. split; [by apply StreamKey_priority|]. rewrite Hk. cbn.
    split; [apply elem_of_app; right; by left|]. unfold to_message. rewrite He. cbn.
    split; [reflexivity|]. apply uuid_Parse_String.
Qed.
(** (C8) A notification that the service accepts for immediate delivery comes to
    an end: when, after the request, a worker and the processor of delayed
    retries take turns, without faults, as often as the notification may be
    attempted, it is delivered, failed or cancelled then, whatever the
    webhook answers; whatever else was queued before. (The Redis client is to
    send no command again.) *)
Theorem accepted_notification_ends d fuel rounds ticks N s req n w tr r w' :
  providers_ok d → 0 < dp_maxPerSec d → (21 ≤ fuel)%nat →
  (N < rounds)%nat → (300 + N < ticks)%nat →
  ready N w → ns_producer s = true → r_ScheduledAt req = None → fault_free tr → undisturbed tr →
  exec (let! r := NotificationService_Create s req in
        run! turns d fuel rounds ticks n in Ret r) w tr (Ok r) w' →
  Z.max 1 (n_MaxRetries r) ≤ Z.of_nat n →
  ∃ nt, abs (w_db w') !! n_ID r = Some nt ∧ terminal (n_Status nt) = true.
Proof.
  intros Hd Hmax Hfuel Hrounds Hticks Hr Hprod Hsch Hff Hu H Hn.
  part H Hff. apply Forall_app in Hu as [_ Hu]. part H Hff. apply Forall_app in Hu as [Hu _].
  destruct H as (_ & <- & ->).
  apply (Create_queues N) in Hx as (Hr' & Hex & Hq); [|done..].
  assert (Hq' : queued_for (Z.of_nat n) (n_ID r) w0).
  { intros nt Hnt. destruct (Hq nt Hnt) as [?|[? ?]]; [by left|right; split; [lia|done]]. }
  eapply (turns_end d fuel rounds ticks (Datatypes.S N));
    [done|done|done|lia|lia|exact Hr'| | |exact Hx0|exact Hq'|exact Hex]; done.
Qed.
End Journey.

(** ** The dispatcher that main builds *)

Section MainDispatcher.
Context {T : UuidText} {TT : TimeText} {S : Services} {HS : ServicesOk S} {HO : SentOnce S}.
Context (cfg : Config).

(** What the configuration says is sent. *)
#[local] Instance main_webhook : Webhook := {|
  wh_url ch := dc_WebhookBaseURL (cf_Delivery cfg) +:+ channel_path (cf_Delivery cfg) ch;
  wh_payload := channel_payload;
|}.

Lemma main_providers_ok : providers_ok (main_dispatcher cfg).
Proof. intros ch p Hp. apply (main_provider_ok cfg ch p Hp). Qed.

(** The status after an attempt that was answered so. *)
Definition status_after (answer : HttpRes) (n : Notification) : Status :=
  let failed := if n_AttemptCount n + 1 <? n_MaxRetries n then StatusQueued else StatusFailed in
  match answer with
  | HttpResp code _ => if code <? 400 then StatusDelivered else failed
  | HttpBadRequest _ | HttpFailed _ => failed
  end.

Lemma status_after_failed answer err n :
  failed_with answer err →
  status_after answer n = if n_AttemptCount n + 1 <? n_MaxRetries n then StatusQueued else StatusFailed.
Proof.
  intros (r & e & Hr & He & _). destruct answer as [| |code body]; [done..|].
  destruct Hr as (_ & _ & E). rewrite E in He. pose proof (provider_error_spec code) as H.
  rewrite He in H. destruct H as [H _]. cbn. by destruct (Z.ltb_spec code 400); [lia|].
Qed.

Lemma attempted_mark t1 t2 t3 st err n :
  let n' := Spec.mark t3 st err (attempted t1 t2 n) in
  n_AttemptCount n' = n_AttemptCount n + 1 ∧ n_Status n' = st.
Proof.
  unfold attempted, Spec.mark, Spec.count_attempt. destruct n. cbn.
  destruct (st =? StatusDelivered)%string; [done|]. by destruct (negb (err =? "")%string).
Qed.

(** (C9) Every unfinished notification whose message a worker of the process
    takes up, without faults, is posted to the webhook exactly once (none
    lacks a provider): at the URL configured for its channel, with its
    recipient and content. Its attempt is counted, and then it is delivered
    (answered below 400), waits for its retry, or has failed for good, as it
    has attempts left. (The Redis client is to send no command again.) *)
Theorem main_posts_once fuel msg id n w tr p w' :
  0 < wc_RateLimitPerSec (cf_Worker cfg) → (21 ≤ fuel)%nat →
  world_ok w → limiter_past w → fault_free tr → undisturbed tr →
  uuid_Parse (m_NotificationID msg) = Some id → abs (w_db w) !! id = Some n →
  terminal (n_Status n) = false →
  exec (processMessage fuel (main_dispatcher cfg) msg) w tr p w' →
  ∃ answer n', posts tr = [(wh_url (n_Channel n), wh_payload n, answer)] ∧
    abs (w_db w') !! id = Some n' ∧ n_AttemptCount n' = n_AttemptCount n + 1 ∧
    n_Status n' = status_after answer n.
Proof.
  intros Hmax Hfuel Hw Hl Hff Hu Hid Hn Ht H.
  destruct (undisturbed_processing _ (main_dispatcher cfg) _ _ _ _ _ _ Hmax Hfuel Hw Hl Hff Hu Hid H)
    as (_ & w1 & tr1 & Hw1 & _ & _ & D1 & _ & <- & Hff1 & H1).
  apply process_notification_settles in H1 as (_ & _ & Hs); [|apply main_providers_ok|done..].
  rewrite D1 in Hs.
  assert (Hch : Channel_Valid (n_Channel n) = true) by (eapply abs_well_typed; [apply Hw|exact Hn]).
  apply (every_channel_has_its_provider cfg) in Hch as (pr & Hpr & _).
  destruct Hs as [Q' E|n0 Q' E Ht'|n0 t1 t2 Q' E _ Hp|n0 pr' code body t1 t2 t3 Q' E _ _ Hcode
    |n0 pr' answer t1 t2 t3 now err Q1 Q' E _ _ Hf Hlt|n0 pr' answer t1 t2 t3 err Q1 Q' E _ _ Hf Hge];
    [congruence|congruence|assert (n0 = n) as -> by congruence; congruence|..];
    assert (n0 = n) as -> by congruence; eexists _, _; (split; [reflexivity|]);
    (split; [apply lookup_insert_eq|]); rewrite (proj1 (attempted_mark _ _ _ _ _ _)),
      (proj2 (attempted_mark _ _ _ _ _ _)); (split; [done|]).
  - cbn. by destruct (Z.ltb_spec code 400); [|lia].
  - rewrite (status_after_failed _ _ _ Hf). by destruct (Z.ltb_spec (n_AttemptCount n + 1) (n_MaxRetries n)); [|lia].
  - rewrite (status_after_failed _ _ _ Hf). by destruct (Z.ltb_spec (n_AttemptCount n + 1) (n_MaxRetries n)); [lia|].
Qed.
End MainDispatcher.
