(* ===== verification/Consuming.v ===== *)
(** * Starting up, and the dead letters *)

From stdpp Require Import gmap.
From S2P Require Import Prelude GoLib Domain Redis RedisFacts Effects Discipline Frames.
From S2P Require Import NotificationSpec Queue QueueSpec Groups Hub Wiring Boot.

Section Consuming.
Context {T : UuidText} {S : Services} {HS : ServicesOk S} {HO : SentOnce S}.

(** (C34) Starting up is safe at any time, also while messages are queued or in
    flight: it changes nothing in the queue; when it succeeds it has the
    configuration of the environment and every priority stream has its
    consumer group; and it does succeed, unless the configuration, tracing or
    the migrations fail, a backend is down or Redis fails. *)
Theorem startup_prepares pf w tr r w' :
  redis_ok (w_redis w) → exec (startup pf) w tr r w' →
  redis_ok (w_redis w') ∧ w_db w' = w_db w ∧ same_queue (w_redis w) (w_redis w') ∧
  match r with
  | Ok cfg => env_Parse pf = Ok cfg ∧
              Forall (λ k, is_Some (group ConsumerGroup k (w_redis w'))) priority_streams
  | Er _ => platform_fails pf ∨ (∃ b e, Ev (Ping b) (Some e) ∈ tr) ∨ ¬ fault_free tr
  end.
Proof.
  intros Hok H. unfold startup, Load in H. unfold platform_fails.
  destruct (env_Parse pf) as [cfg|err]; [|by destruct H as (-> & -> & ->); split_and!; auto].
  destruct (Setup _ _); [by destruct H as (-> & -> & ->); split_and!; naive_solver|].
  destruct (pgxpool_ParseConfig _ _); [by destruct H as (-> & -> & ->); split_and!; naive_solver|].
  destruct (pgxpool_NewWithConfig _ _); [by destruct H as (-> & -> & ->); split_and!; naive_solver|].
  apply exec_bind in H as (x & w1 & tr1 & tr2 & -> & Hx & H).
  apply exec_do in Hx as [-> Hx]. apply ping_doc, quiet_frame_redis in Hx as [Hf1 R1].
  destruct x as [e|].
  { destruct H as (-> & -> & ->). rewrite R1. split_and!; [done|apply Hf1|done|]. right. left.
    exists "postgres"%string, e. by left. }
  destruct (runMigrations _ _).
  { destruct H as (-> & -> & ->). rewrite R1. split_and!; [done|apply Hf1|done|]. naive_solver. }
  apply exec_bind in H as (x & w2 & tr3 & tr4 & -> & Hx & H).
  apply exec_do in Hx as [-> Hx]. apply ping_doc, quiet_frame_redis in Hx as [Hf2 R2].
  rewrite R1 in R2. assert (Hf : frame_redis w w2) by by etrans.
  destruct x as [e|].
  { destruct H as (-> & -> & ->). rewrite R2. split_and!; [done|apply Hf|done|]. right. left.
    exists "redis"%string, e. right. by left. }
  apply exec_bind in H as (x & w3 & tr5 & tr6 & -> & Hx & H).
  apply ensure_groups_spec in Hx as [(Hf3 & Hok3 & Hq & _) Hcase]; [|by rewrite R2].
  rewrite R2 in Hq. assert (D : w_db w3 = w_db w) by (destruct (transitivity Hf Hf3) as (_ & _ & ? & _); done).
  destruct Hcase as [[-> Hg]|[Hnf Hne]].
  - destruct H as (-> & -> & ->). done.
  - destruct x as [e|]; [|done]. destruct H as (-> & -> & ->). split_and!; try done.
    right. right. intros Hff. apply Hnf. rewrite !fault_free_app in Hff. tauto.
Qed.

(** [run] reports success exactly if it started up and was brought to its end by
    the signal or by the server's being closed. *)
Lemma run_reports pf e w tr r w' :
  exec (run pf e) w tr r w' →
  ∃ x, exec (startup pf) w tr x w' ∧
    (r = None ↔ is_ok x = true ∧ (e = SignalReceived ∨ e = ServerEnded ErrServerClosed)).
Proof.
  intros (x & w1 & tr1 & tr2 & -> & Hx & H)%exec_bind. exists x. destruct x as [cfg|err].
  - destruct H as (-> & -> & ->). rewrite app_nil_r. split; [done|].
    assert (Hg : graceful_shutdown pf = None) by (unfold graceful_shutdown; by destruct (Server_Shutdown pf)).
    destruct e as [|[|err]]; cbn; rewrite ?Hg; naive_solver.
  - destruct H as (-> & -> & ->). rewrite app_nil_r. split; [done|]. cbn. naive_solver.
Qed.

(** The process exits with status 1 exactly if it did not start up or its server
    ended by itself. *)
Lemma main_status pf e w tr z w' :
  exec (main pf e) w tr z w' →
  ∃ x, exec (startup pf) w tr x w' ∧
    z = (if is_ok x then match e with ServerEnded (ListenFailed _) => 1 | _ => 0 end else 1).
Proof.
  intros (r & w1 & tr1 & tr2 & -> & Hr & H)%exec_bind. apply run_reports in Hr as (x & Hx & Hiff).
  exists x. destruct r; destruct H as (-> & -> & ->); rewrite app_nil_r; (split; [done|]);
    destruct (is_ok x), e as [|[|err]]; naive_solver.
Qed.

(** ** Dead letters *)

(** (C39) A dead letter can be read back: after it was pushed, without faults, a
    read of enough letters gives those there were before and, last, the
    notification's id and channel. (The Redis client is to send no command
    again.) *)
Theorem dead_letter_roundtrip id ch le n w tr res w' :
  redis_ok (w_redis w) → fault_free tr →
  Z.of_nat (length (s_entries (stream DLQStream (w_redis w)))) < n →
  exec (let! e := Push id ch le in let! r := Read n in Ret (e, r)) w tr res w' →
  ∃ ms m, res = (None, Ok (ms ++ [m])) ∧
    mapM (to_message DLQStream) (s_entries (stream DLQStream (w_redis w))) = Some ms ∧
    m_StreamID m = DLQStream ∧ m_NotificationID m = uuid_String id ∧ m_Channel m = ch.
Proof.
  intros Hok Hff Hn H.
  apply exec_bind in H as (e & w1 & tr1 & tr2 & -> & Hx & H).
  apply exec_bind in H as (r & w2 & tr3 & tr4 & -> & Hy & H). destruct H as (-> & -> & ->).
  rewrite !fault_free_app in Hff. destruct Hff as (Hff1 & Hff2 & _).
  unfold Push in Hx. apply exec_bind in Hx as (y & w3 & tr5 & tr6 & -> & Hx & H).
  apply fault_free_app in Hff1 as [Hff1 _]. apply exec_rd in Hx as (-> & Hd).
  destruct Hd as (r' & -> & [(-> & eid & _ & ->)|[Hne _]]).
  2: { destruct y as [m|]; [|done]. apply Forall_inv in Hff1. done. }
  destruct H as (-> & -> & ->). apply Read_reads in Hy as (_ & _ & [(ms & -> & Hms)|[? _]]); [|done].
  cbn [w_redis set_redis] in Hms. unfold xadd in Hms. rewrite stream_set_eq in Hms.
  cbn [s_entries] in Hms. rewrite firstn_all2 in Hms by (rewrite length_app; cbn; lia).
  rewrite mapM_app_option in Hms. apply bind_Some in Hms as (ms0 & H0 & Hms).
  cbn in Hms. injection Hms as <-. do 2 eexists. split; [done|]. by split.
Qed.
End Consuming.
