(* ===== verification/ApiSpec.v ===== *)
(** * What the API answers

    Errors are mapped to statuses by the sentinel at their root; without faults
    no request is answered with a server error; requests that only read change
    nothing, whatever faults occur. *)

From stdpp Require Import gmap.
From S2P Require Import Prelude GoLib Domain Sql Redis RedisFacts Effects Discipline Frames.
From S2P Require Import NotificationRepo NotificationStore NotificationSpec Batches Listing Attempts Queue.
From S2P Require Import QueueSpec Worker WorkerSpec Validator Templates TemplateSpec Service.
From S2P Require Import ServiceSpec Hub Api.

(** ** Errors *)

(** The status of an error, by the sentinel at its root. *)
Definition status_of (root : option Sentinel) : Z :=
  match root with
  | Some ErrNotFound => 404
  | Some ErrDuplicate | Some ErrIdempotencyConflict => 409
  | Some ErrCannotCancel => 422
  | Some ErrBatchTooLarge | Some ErrInvalidChannel | Some ErrInvalidPriority
  | Some ErrTemplateRender | Some ErrValidation => 400
  | _ => 500
  end.

Lemma handleDomainError_status e : rs_status (handleDomainError e) = status_of (root_sentinel e).
Proof.
  unfold handleDomainError. rewrite !errors_Is_root.
  destruct (root_sentinel e) as [s|]; [destruct s|]; by repeat (case_bool_decide; [by simplify_eq|]).
Qed.

(** Whether the text of an error is shown to the client. *)
Definition shown (root : option Sentinel) : bool :=
  match root with Some ErrTemplateRender | Some ErrValidation => true | _ => false end.

(** (C27) However an error was wrapped, its answer depends on the sentinel at its
    root alone: 404, 409, 422 or 400 for the domain's errors and 500 for any
    other; and the texts of errors that are not the domain's own about the
    request (of the database, of Redis) are never shown. *)
Theorem handleDomainError_by_root e1 e2 :
  rs_status (handleDomainError e1) = status_of (root_sentinel e1) ∧
  (root_sentinel e1 = root_sentinel e2 → shown (root_sentinel e1) = false →
   handleDomainError e1 = handleDomainError e2).
Proof.
  split; [apply handleDomainError_status|]. intros E Hs. unfold handleDomainError.
  rewrite !errors_Is_root, E. rewrite E in Hs. clear E.
  destruct (root_sentinel e2) as [s|]; [destruct s; try discriminate Hs|];
    by repeat (case_bool_decide; [done|]).
Qed.

(** ** Errors without faults *)

(** The sentinels that are the client's errors. *)
Definition client_error (e : error) : Prop :=
  ∃ x, root_sentinel e = Some x ∧
    x ∈ [ErrNotFound; ErrDuplicate; ErrIdempotencyConflict; ErrCannotCancel; ErrBatchTooLarge;
         ErrInvalidChannel; ErrInvalidPriority; ErrTemplateRender; ErrValidation].

Lemma client_error_root e x :
  root_sentinel e = Some x →
  bool_decide (x ∈ [ErrNotFound; ErrDuplicate; ErrIdempotencyConflict; ErrCannotCancel;
    ErrBatchTooLarge; ErrInvalidChannel; ErrInvalidPriority; ErrTemplateRender; ErrValidation]) = true →
  client_error e.
Proof. intros ? ?%bool_decide_eq_true. by exists x. Qed.

Lemma client_error_status e : client_error e → rs_status (handleDomainError e) < 500.
Proof.
  intros (x & Hx & Hin). rewrite handleDomainError_status, Hx. revert Hin. generalize x.
  apply (Forall_forall (λ x, status_of (Some x) < 500)). by repeat constructor.
Qed.

Lemma rejection_client e x : root_sentinel e = Some x → x ∈ rejections → client_error e.
Proof.
  intros Hx Hin. exists x. split; [done|]. revert Hin. generalize x.
  apply (Forall_forall (λ x, x ∈ _)). unfold rejections.
  repeat (constructor; [by apply (bool_decide_unpack _); vm_compute|]). constructor.
Qed.

Definition fine {A} (r : result error A) : Prop := ∀ e, r = Er e → client_error e.
Definition fine_opt (r : option error) : Prop := ∀ e, r = Some e → client_error e.

Lemma respond_fine {A} status (body : A → Body) r :
  status < 500 → fine r → rs_status (respond status body r) < 500.
Proof.
  intros Hs Hr. destruct r as [a|e]; cbn; [done|]. by apply client_error_status, Hr.
Qed.

Section NoServerError.
Context {T : UuidText} {V : StructValidator} {TX : TextTemplate} {MP : MailParser}
  {TP : TimeParse} {S : Services} {HS : ServicesOk S} {HO : SentOnce S}.

(** A request that [accepted] rejects. *)
Ltac rejected_fine H Hreason :=
  destruct H as (_ & [= ->] & _); destruct (Hreason _ eq_refl) as (x & Hx & Hin);
  by eapply rejection_client.

Lemma Create_fine s req w tr r w' :
  world_ok w → fault_free tr → exec (NotificationService_Create s req) w tr r w' → fine r.
Proof.
  intros [Hok _] Hff H e ->. unfold NotificationService_Create in H.
  pose proof (accepted_reason s (tabs (w_db w)) req) as Hreason. unfold accepted in Hreason.
  destruct (ValidateStruct (create_struct req)) as [e0|]; [rejected_fine H Hreason|].
  destruct (negb (Channel_Valid _)); [rejected_fine H Hreason|].
  destruct (negb (Priority_Valid _)); [rejected_fine H Hreason|].
  part H Hff. apply from_template_reads in Hx as (_ & D1 & [->|[? _]]); [|done|done].
  destruct (content _ _ _ _ _) as [n|e0]; [|rejected_fine H Hreason].
  unfold checked in Hreason. destruct (ValidateNotificationContent _ _ _ _) as [e0|]; [rejected_fine H Hreason|].
  part H Hff. destruct a as [n1 err]. rewrite <- D1 in Hok.
  apply Create_refines in Hx as (_ & now & id & _ & _ & [(out & Hcr & ->)|[? _]]); [|done..].
  destruct (create_some _ _ _ _ Hcr) as [(-> & _)|([x ->] & _)]; cbn in H.
  - part H Hff. by destruct H as (_ & [=] & _).
  - destruct H as (_ & [= ->] & _). inversion Hcr; subst; by eapply client_error_root.
Qed.

Lemma CreateBatch_fine s req w tr r w' :
  world_ok w → fault_free tr → exec (NotificationService_CreateBatch s req) w tr r w' → fine r.
Proof.
  intros [Hok _] Hff H e ->. unfold NotificationService_CreateBatch in H.
  destruct (ValidateStruct (batch_struct req)) as [e0|] eqn:Hv.
  { destruct H as (_ & [= ->] & _). apply ValidateStruct_reason in Hv. by eapply client_error_root. }
  destruct (_ <? _) eqn:Hlen; [destruct H as (_ & [= ->] & _); by eapply client_error_root|].
  part H Hff. apply exec_newv7 in Hx as (-> & ->).
  part H Hff. apply batch_members_reads in Hx as (_ & D1 & ->); [|done..].
  pose proof (accepted_batch_reason s (tabs (w_db w)) a req) as Hreason. unfold accepted_batch in Hreason.
  rewrite Hv, Hlen in Hreason.
  destruct (accepted_from _ _ _ _ _) as [ns|e0].
  2: { destruct H as (_ & [= ->] & _). destruct (Hreason _ eq_refl) as (x & Hx & [->|Hin]);
         [by eapply client_error_root|by eapply rejection_client]. }
  part H Hff. destruct a0 as [ns' err]. rewrite <- D1 in Hok.
  apply CreateBatch_refines in Hx as (_ & [(-> & _)|[(-> & _)|[? _]]]); [| |done|done].
  - part H Hff. by destruct H as (_ & [=] & _).
  - destruct H as (_ & [= ->] & _). by eapply client_error_root.
Qed.

Lemma GetByID_fine id w tr r w' :
  db_ok (w_db w) → fault_free tr → exec (GetByID id) w tr r w' → fine r.
Proof.
  intros Hok Hff H e ->. apply GetByID_reads in H as (_ & _ & Hcase); [|done].
  destruct Hcase as [(? & [=] & _)|[([= ->] & _)|(? & _ & _ & ?)]]; [by eapply client_error_root|done].
Qed.

Lemma List_fine f w tr r w' :
  db_ok (w_db w) → fault_free tr → exec (List f) w tr r w' → fine r.
Proof.
  intros Hok Hff H e ->. apply List_reads in H as (_ & _ & [[=]|[? _]]); done.
Qed.

Lemma Cancel_fine id w tr r w' :
  db_ok (w_db w) → fault_free tr → exec (Cancel id) w tr r w' → fine_opt r.
Proof.
  intros Hok Hff H e ->. apply Cancel_refines in H as (_ & now & _ & [(_ & Hr)|[? _]]); [|done..].
  destruct (Spec.cancel now id (abs (w_db w))).2 as [x|] eqn:E; [|done]. injection Hr as ->.
  unfold Spec.cancel in E. repeat case_match; cbn in E; simplify_eq; by eapply client_error_root.
Qed.

Lemma GetDeliveryAttempts_fine id w tr r w' :
  db_ok (w_db w) → log_ok (w_db w) → fault_free tr →
  exec (NotificationService_GetDeliveryAttempts id) w tr r w' → fine r.
Proof.
  intros Hok Hlog Hff H. unfold NotificationService_GetDeliveryAttempts in H.
  part H Hff. pose proof Hx as Hx'. apply GetByID_fine in Hx; [|done..].
  apply GetByID_reads in Hx' as (_ & D & _); [|done].
  destruct a as [n|e]; [|destruct H as (_ & -> & _); by intros ? [= <-]; apply Hx].
  intros e ->. rewrite <- D in Hok, Hlog.
  apply GetDeliveryAttempts_reads in H as (_ & _ & [(l & _ & _ & [[=]|(_ & ? & [=])])|[? _]]); done.
Qed.

Lemma Template_GetByID_fine id w tr r w' :
  db_ok (w_db w) → fault_free tr → exec (TemplateRepository_GetByID id) w tr r w' → fine r.
Proof.
  intros Hok Hff H e ->. apply TemplateRepository_GetByID_reads in H as (_ & _ & Hcase); [|done].
  destruct Hcase as [(? & [=] & _)|[([= ->] & _)|(? & _ & ? & _)]]; [by eapply client_error_root|done].
Qed.

Lemma Template_List_fine w tr r w' :
  db_ok (w_db w) → fault_free tr → exec TemplateRepository_List w tr r w' → fine r.
Proof.
  intros Hok Hff H e ->. apply TemplateRepository_List_reads in H as (_ & _ & Hcase); [|done].
  destruct Hcase as [(l & _ & [[=]|(_ & ? & _ & [=])])|(? & _ & ? & _)]; done.
Qed.

Lemma Template_Delete_fine id w tr r w' :
  db_ok (w_db w) → fault_free tr → exec (TemplateRepository_Delete id) w tr r w' → fine_opt r.
Proof.
  intros Hok Hff H e ->. apply TemplateRepository_Delete_refines in H as (_ & Hcase); [|done].
  destruct Hcase as [([=] & _)|[([= ->] & _)|(? & _ & [? _] & _)]]; [by eapply client_error_root|done].
Qed.

Lemma TemplateService_Create_fine req w tr r w' :
  db_ok (w_db w) → fault_free tr → exec (TemplateService_Create req) w tr r w' → fine r.
Proof.
  intros Hok Hff H e ->. unfold TemplateService_Create in H.
  destruct (ValidateStruct _) as [e0|] eqn:Hv.
  { destruct H as (_ & [= ->] & _). apply ValidateStruct_reason in Hv. by eapply client_error_root. }
  destruct (negb _); [destruct H as (_ & [= ->] & _); by eapply client_error_root|].
  destruct (template_Parse _ _) as [tpl|]; [|destruct H as (_ & [= ->] & _); by eapply client_error_root].
  part H Hff. destruct a as [t' err].
  apply TemplateRepository_Create_refines in Hx as (_ & now & id & _ & _ & Hcase); [|done].
  destruct Hcase as [(-> & _)|[(-> & _)|(e0 & -> & [? _] & _)]]; [| |done];
    destruct H as (_ & [= ->] & _). by eapply client_error_root.
Qed.

Lemma Template_Update_fine id req w tr r w' :
  db_ok (w_db w) → fault_free tr → exec (TemplateRepository_Update id req) w tr r w' → fine r.
Proof.
  intros Hok Hff H e ->. apply TemplateRepository_Update_refines in H as (_ & Hcase); [|done].
  destruct (TSpec.no_change req).
  - destruct Hcase as (_ & [(? & [=] & _)|[([= ->] & _)|(? & _ & ? & _)]]);
      [by eapply client_error_root|done].
  - destruct Hcase as (now & _ & [(? & [=] & _)|[([= ->] & _)|[([= ->] & _)|(? & _ & [? _] & _)]]]);
      [by eapply client_error_root..|done].
Qed.

Lemma TemplateService_Update_fine id req w tr r w' :
  db_ok (w_db w) → fault_free tr → exec (TemplateService_Update id req) w tr r w' → fine r.
Proof.
  intros Hok Hff H. unfold TemplateService_Update in H.
  destruct (ValidateStruct _) as [e0|] eqn:Hv.
  { destruct H as (_ & -> & _). intros ? [= <-]. apply ValidateStruct_reason in Hv.
    by eapply client_error_root. }
  destruct (ut_Body req); [destruct (template_Parse _ _)|]; [by eapply Template_Update_fine| |
    by eapply Template_Update_fine].
  destruct H as (_ & -> & _). intros ? [= <-]. by eapply client_error_root.
Qed.

(** A handler that parses something, runs the service and responds. *)
Lemma responds_fine {A B} (parse : option B) msg (p : B → prog (result error A)) status
    (body : A → Body) w tr resp w' :
  status < 500 → fault_free tr →
  (∀ b tr1 r w1, fault_free tr1 → exec (p b) w tr1 r w1 → fine r) →
  exec (match parse with
        | None => Ret (writeError StatusBadRequest msg)
        | Some b => let! r := p b in Ret (respond status body r)
        end) w tr resp w' → rs_status resp < 500.
Proof.
  intros Hs Hff Hp H. destruct parse as [b|]; [|by destruct H as (_ & -> & _)].
  part H Hff. destruct H as (_ & -> & _). apply respond_fine; [done|].
  by apply Hp in Hx.
Qed.

Lemma settles_fine {B} (parse : option B) msg (p : B → prog (option error)) ok w tr resp w' :
  rs_status ok < 500 → fault_free tr →
  (∀ b tr1 r w1, fault_free tr1 → exec (p b) w tr1 r w1 → fine_opt r) →
  exec (match parse with
        | None => Ret (writeError StatusBadRequest msg)
        | Some b => let! r := p b in
                    match r with Some e => Ret (handleDomainError e) | None => Ret ok end
        end) w tr resp w' → rs_status resp < 500.
Proof.
  intros Hs Hff Hp H. destruct parse as [b|]; [|by destruct H as (_ & -> & _)].
  part H Hff. apply Hp in Hx; [|done]. destruct a as [e|]; destruct H as (_ & -> & _); [|done].
  by apply client_error_status, Hx.
Qed.
End NoServerError.

Section Served.
Context {T : UuidText} {V : StructValidator} {TX : TextTemplate} {MP : MailParser}
  {TP : TimeParse} {JB : JsonBody} {S : Services} {HS : ServicesOk S} {HO : SentOnce S}.

Lemma parse_filter_status q resp : parse_filter q = inl resp → rs_status resp = 400.
Proof. unfold parse_filter. intros H. repeat case_match; by simplify_eq. Qed.

Lemma List_status q w tr resp w' :
  db_ok (w_db w) → fault_free tr → exec (NotificationHandler_List q) w tr resp w' →
  rs_status resp < 500.
Proof.
  intros Hok Hff H. unfold NotificationHandler_List in H.
  destruct (parse_filter q) as [r|f] eqn:E.
  { destruct H as (_ & -> & _). by rewrite (parse_filter_status _ _ E). }
  part H Hff. destruct H as (_ & -> & _). apply respond_fine; [done|].
  by apply List_fine in Hx.
Qed.

(** What a route may be answered with when nothing fails: a response without
    a server error, but the 503 of a readiness check that found a backend
    unhealthy; the metrics page, which the Prometheus library writes; for the
    WebSocket the 400 of an id that cannot be parsed, or the refusal that
    [websocket.Accept] writes. *)
Definition answered (r : Route) (a : Answer) : Prop :=
  match a with
  | AResponse resp => rs_status resp < 500 ∨ (r = RReady ∧ rs_status resp = 503)
  | AMetrics => r = RMetrics
  | AWebSocket WsInvalidID => ∃ id, r = RWebSocket id ∧ uuid_Parse id = None
  | AWebSocket e => e = WsNotAccepted ∧ ∃ id, r = RWebSocket id ∧ is_Some (uuid_Parse id)
  end.

Lemma resp_exec (p : prog Response) w tr a w' :
  fault_free tr → exec (let! x := p in Ret (AResponse x)) w tr a w' →
  ∃ resp tr1, a = AResponse resp ∧ fault_free tr1 ∧ exec p w tr1 resp w'.
Proof. intros Hff H. part H Hff. destruct H as (-> & -> & ->). eauto. Qed.

Lemma handshake_refused reads rw id w tr e w' :
  Hijacker rw = false → exec (HandleWebSocket reads rw id) w tr e w' →
  answered (RWebSocket id) (AWebSocket e).
Proof.
  intros Hrw H. unfold HandleWebSocket in H. destruct (uuid_Parse id) as [u|] eqn:Hu.
  - exec_step H. apply exec_do in Hx as [_ [_ Ha]%ws_accept_doc].
    destruct x as [c|x]; [by rewrite Ha in Hrw|]. destruct H as (_ & -> & _).
    split; [done|]. exists id. by rewrite Hu.
  - destruct H as (_ & -> & _). by exists id.
Qed.

Lemma serve_answers svc reads rw req r w tr a w' :
  Hijacker rw = false → world_ok w → log_ok (w_db w) → fault_free tr →
  exec (serve svc reads rw req r) w tr a w' → answered r a.
Proof.
  intros Hrw Hw Hlog Hff H. pose proof (proj1 Hw) as Hok.
  destruct r; cbn [serve] in H;
    try (apply resp_exec in H as (resp & tr1 & -> & Hff1 & H); [|exact Hff]; clear Hff);
    try (destruct H as (_ & -> & _); by try left).
  - unfold Ready in H. do 2 exec_step H. destruct H as (_ & -> & _). cbn [answered writeJSON rs_status].
    match goal with |- context [if ?b then StatusOK else _] => destruct b end; [by left|by right].
  - left. eapply responds_fine; [|exact Hff1| |exact H]; [done|].
    intros b tr2 r0 w1 ? Hb. by apply Create_fine in Hb.
  - left. eapply responds_fine; [|exact Hff1| |exact H]; [done|].
    intros b tr2 r0 w1 ? Hb. by apply CreateBatch_fine in Hb.
  - left. eapply responds_fine; [|exact Hff1| |exact H]; [done|].
    intros b tr2 r0 w1 ? Hb. by apply GetByID_fine in Hb.
  - left. by apply List_status in H.
  - left. eapply (responds_fine _ _ (λ b, List (mkFilter None None (Some b) None 100)));
      [|exact Hff1| |exact H]; [done|].
    intros b tr2 r0 w1 ? Hb. by apply List_fine in Hb.
  - left. eapply settles_fine; [|exact Hff1| |exact H]; [done|].
    intros b tr2 r0 w1 ? Hb. by apply Cancel_fine in Hb.
  - left. eapply responds_fine; [|exact Hff1| |exact H]; [done|].
    intros b tr2 r0 w1 ? Hb. by apply GetDeliveryAttempts_fine in Hb.
  - left. eapply responds_fine; [|exact Hff1| |exact H]; [done|].
    intros b tr2 r0 w1 ? Hb. by apply TemplateService_Create_fine in Hb.
  - left. eapply (responds_fine (Some tt) "" (λ _, TemplateRepository_List));
      [|exact Hff1| |exact H]; [done|].
    intros b tr2 r0 w1 ? Hb. by apply Template_List_fine in Hb.
  - left. eapply responds_fine; [|exact Hff1| |exact H]; [done|].
    intros b tr2 r0 w1 ? Hb. by apply Template_GetByID_fine in Hb.
  - left. unfold TemplateHandler_Update in H.
    destruct (uuid_Parse id) as [u|]; [|by destruct H as (_ & -> & _)].
    eapply responds_fine; [|exact Hff1| |exact H]; [done|].
    intros b tr2 r0 w1 ? Hb. by apply TemplateService_Update_fine in Hb.
  - left. eapply settles_fine; [|exact Hff1| |exact H]; [done|].
    intros b tr2 r0 w1 ? Hb. by apply Template_Delete_fine in Hb.
  - exec_step H. destruct H as (_ & -> & _). by eapply handshake_refused.
Qed.

(** ** Requests that read *)

Definition reading (r : Route) : bool :=
  match r with
  | RHealth | RReady | RMetrics | RGet _ | RList | RListByBatch _ | RGetAttempts _
  | RTemplateList | RTemplateGet _ => true
  | _ => false
  end.

Lemma reads_GetByID id : only read_effect (GetByID id).
Proof. unfold GetByID. only_go. Qed.

Lemma reads_List f : only read_effect (List f).
Proof.
  unfold List. destruct (build_conditions f) as [[? ?] ?]. only_go.
Qed.

Lemma reads_GetDeliveryAttempts id : only read_effect (GetDeliveryAttempts id).
Proof. unfold GetDeliveryAttempts. only_go. Qed.

Lemma reads_Template_GetByID id : only read_effect (TemplateRepository_GetByID id).
Proof. unfold TemplateRepository_GetByID. only_go. Qed.

Lemma reads_Template_List : only read_effect TemplateRepository_List.
Proof. unfold TemplateRepository_List. only_go. Qed.

Hint Resolve reads_GetByID reads_List reads_GetDeliveryAttempts reads_Template_GetByID
  reads_Template_List : discipline.

Lemma reads_serve svc reads rw req r : reading r = true → only read_effect (serve svc reads rw req r).
Proof.
  destruct r; try done; intros _; cbn [serve];
    unfold Ready, NotificationHandler_Get, NotificationHandler_List,
      NotificationHandler_ListByBatch, NotificationHandler_GetAttempts, TemplateHandler_List,
      TemplateHandler_Get, NotificationService_GetByID, NotificationService_List,
      NotificationService_GetDeliveryAttempts, TemplateService_GetByID, TemplateService_List;
    only_go.
Qed.

(** (C36) A request that only asks for something (every GET but the WebSocket)
    changes nothing, whatever the surroundings answer: not a row, not an
    entry of a queue, no subscription. *)
Theorem reads_change_nothing svc reads rw req r w tr a w' :
  reading r = true → db_ok (w_db w) → exec (serve svc reads rw req r) w tr a w' →
  w_db w' = w_db w ∧ w_redis w' = w_redis w ∧ w_hub w' = w_hub w ∧ w_txs w' = w_txs w.
Proof. intros Hr Hok H. eapply read_keeps; [by eapply reads_serve|exact H|done]. Qed.

(** ** Filters outside the enumerations *)

Lemma resolve_none t args now cs :
  Exists (λ c, resolve t args now c = None) cs → mapM (resolve t args now) cs = None.
Proof.
  induction 1 as [c cs Hc|c cs _ IH]; cbn; [by rewrite Hc|].
  destruct (resolve t args now c); [|done]. cbn. by rewrite IH.
Qed.

(** The status of a listing is not checked: a value that is none of the
    seven statuses reaches the database, which rejects it, and the client's
    mistake is answered as a server error. *)
Lemma unknown_status_is_500 q s w tr resp w' f :
  db_ok (w_db w) → parse_filter q = inr f → f_Status f = Some s →
  s ∉ [StatusPending; StatusScheduled; StatusQueued; StatusProcessing; StatusDelivered;
       StatusFailed; StatusCancelled] →
  exec (NotificationHandler_List q) w tr resp w' → rs_status resp = 500.
Proof.
  intros Hok Hf Hst Hs H. unfold NotificationHandler_List in H. rewrite Hf in H.
  exec_step H. destruct H as (_ & -> & _). unfold NotificationService_List, List in Hx.
  destruct (build_conditions f) as [[conds args] k] eqn:Hb.
  exec_step Hx. apply exec_pg in Hx0 as (_ & Hd). apply select_query in Hd as (_ & _ & Hd); [|done].
  destruct Hd as [(now & cs & l & l' & rest & err & rows & _ & _ & _ & Hcs & _)|(e & -> & _)].
  - exfalso. rewrite resolve_none in Hcs; [done|]. unfold build_conditions in Hb.
    rewrite Hst in Hb.
    assert (Hc : ∀ args, resolve Notifications (VText s :: args) now (CEq "status" (EArg 1)) = None).
    { intros args'. cbn. rewrite bool_decide_eq_false_2; [done|].
      intros Hin. apply Hs. revert Hin. unfold StatusPending, StatusScheduled, StatusQueued,
        StatusProcessing, StatusDelivered, StatusFailed, StatusCancelled. done. }
    destruct (f_Channel f), (f_BatchID f), (f_Cursor f); cbn in Hb; injection Hb as <- <- <-;
      apply Exists_cons; left; apply Hc.
  - destruct Hx as (_ & -> & _). cbn [respond]. rewrite handleDomainError_status. cbn.
    by rewrite root_db_error.
Qed.
End Served.
