(* ===== verification/Paging.v ===== *)
(** * A client that follows the cursors

    The listing's pages, fetched through the API by a client that sends back
    each page's cursor as query parameters, are the whole listing. *)

From stdpp Require Import gmap pretty.
From Stdlib Require Import Ascii.
From S2P Require Import Prelude GoLib Domain Sql Effects Discipline Frames NotificationRepo.
From S2P Require Import NotificationStore NotificationSpec Listing Validator Templates Service.
From S2P Require Import WorkerSpec Api ApiSpec.

(** ** The client *)

Section Client.
Context {T : UuidText} {TP : TimeParse}.

(** The query for the next page: the cursor's parts as the JSON shows them. *)
Definition next_query (c : Cursor) (q : Query) : Query := λ k,
  if (k =? "cursor_time")%string then Format_RFC3339Nano (c_CreatedAt c)
  else if (k =? "cursor_id")%string then uuid_String (c_ID c)
  else q k.

(** Fetch pages until there is no cursor, at most [k] more. *)
Fixpoint fetch_all (k : nat) (q : Query) : prog (option (list Notification)) :=
  let! resp := NotificationHandler_List q in
  match rs_body resp with
  | BList l =>
      match l_NextCursor l, k with
      | None, _ => Ret (Some (l_Notifications l))
      | Some _, O => Ret None
      | Some c, S k =>
          let! rest := fetch_all k (next_query c q) in
          Ret (app (l_Notifications l) <$> rest)
      end
  | _ => Ret None
  end.
End Client.

Section Paging.
Context {T : UuidText} {HT : UuidTextOk T} {TP : TimeParse} {HTP : TimeParseOk TP}
  {S : Services} {HS : ServicesOk S} {HO : SentOnce S}.

(** The parameters of the next page are parsed into the same filter with the
    cursor. *)
Lemma parse_next_query c q f :
  time_range (c_CreatedAt c) → parse_filter q = inr f →
  parse_filter (next_query c q) = inr (with_cursor c f).
Proof.
  intros Hr Hf. unfold parse_filter in *.
  assert (Ht : (Format_RFC3339Nano (c_CreatedAt c) =? "")%string = false)
    by apply String.eqb_neq, Format_RFC3339Nano_nonempty.
  assert (Hu : (uuid_String (c_ID c) =? "")%string = false)
    by apply String.eqb_neq, uuid_String_nonempty.
  unfold next_query. cbn [String.eqb Ascii.eqb Bool.eqb andb].
  rewrite Ht, Hu, Parse_Format_RFC3339Nano, uuid_Parse_String by done. cbn [negb andb].
  destruct c as [ct ci]. cbn [c_CreatedAt c_ID].
  repeat case_match; simplify_eq; reflexivity.
Qed.

(** One request of the listing, without faults. *)
Lemma NotificationHandler_List_page q f w tr resp w' :
  db_ok (w_db w) → fault_free tr → parse_filter q = inr f →
  exec (NotificationHandler_List q) w tr resp w' →
  let limit := effective_limit (f_Limit f) in
  w_db w' = w_db w ∧
  resp = mkResponse StatusOK
           (BList (page limit (take (Z.to_nat (limit + 1)) (listing f (abs (w_db w)))))).
Proof.
  intros Hok Hff Hf H limit. unfold NotificationHandler_List in H. rewrite Hf in H.
  part H Hff. apply List_reads in Hx as (_ & D & [->|[? _]]); [|done..].
  by destruct H as (_ & -> & ->).
Qed.

(** (C25) Pagination loses and repeats nothing: a client that follows the
    cursors of the listing, with any filter and any page size, and enough
    requests, gets every matching notification exactly once, the newest
    first (while nothing is written in between). *)
Theorem pagination_complete k q f w tr r w' :
  db_ok (w_db w) → fault_free tr → parse_filter q = inr f →
  map_Forall (λ _ n, time_range (n_CreatedAt n)) (abs (w_db w)) →
  (length (listing f (abs (w_db w))) ≤ k)%nat →
  exec (fetch_all k q) w tr r w' →
  r = Some (listing f (abs (w_db w))) ∧ w_db w' = w_db w.
Proof.
  revert q f w tr r w'. induction k as [|k IH]; intros q f w tr r w' Hok Hff Hf Hr Hlen H;
    cbn [fetch_all] in H; part H Hff;
    apply (NotificationHandler_List_page _ f) in Hx as [D ->]; try done; cbn [rs_body] in H;
    pose proof (effective_limit_bounds (f_Limit f)) as Hb;
    set (limit := effective_limit (f_Limit f)) in *;
    set (l := listing f (abs (w_db w))) in *.
  { rewrite page_last in H by (rewrite ?length_take; lia). rewrite firstn_all2 in H by lia.
    destruct H as (_ & -> & ->). done. }
  destruct (decide (length l ≤ Z.to_nat limit)%nat) as [Hle|Hgt].
  { rewrite page_last in H by (rewrite ?length_take; lia). rewrite firstn_all2 in H by lia.
    destruct H as (_ & -> & ->). done. }
  destruct (page_more limit l) as (x & Hx & Hp); [lia..|]. rewrite Hp in H.
  cbn [l_NextCursor l_Notifications] in H. part H Hff. rewrite <- D in Hr.
  assert (Hxr : time_range (c_CreatedAt (cursor_of x))).
  { apply list_elem_of_lookup_2, (elem_of_listing _ _ _ (abs_keyed _)) in Hx as [Hx _].
    rewrite D in Hr. exact (Hr _ _ Hx). }
  pose proof (listing_after f (abs (w_db w)) _ x (abs_keyed _) (abs_micro _ Hok) Hx) as Hl.
  replace (Datatypes.S (Z.to_nat limit - 1)) with (Z.to_nat limit) in Hl by lia.
  apply (IH _ (with_cursor (cursor_of x) f)) in Hx0 as [-> D2];
    [|by rewrite D|done|by apply parse_next_query|done|].
  - destruct H as (_ & -> & ->). rewrite D2, D. split; [|done]. rewrite Hl. cbn.
    by rewrite take_drop.
  - rewrite D, Hl, length_drop. fold l. lia.
Qed.
End Paging.

(** ** The page size as text *)

Lemma digits_value_pretty x s acc :
  acc = 0 → digits_value acc (String.list_ascii_of_string (pretty_N_go x s)) =
  digits_value (Z.of_N x) (String.list_ascii_of_string s).
Proof.
  intros ->. revert s. induction (N.lt_wf_0 x) as [x _ IH]; intros s.
  destruct (decide (0 < x)%N) as [Hx|Hx].
  - rewrite pretty_N_go_step by done. rewrite IH by (apply N.div_lt; lia).
    assert (Hd : (x mod 10 < 10)%N) by (by apply N.mod_lt).
    assert (Hc : ∀ d, (d < 10)%N → in_range "0" "9" (pretty_N_char d) = true ∧
      Z.of_N (N_of_ascii (pretty_N_char d)) - 48 = Z.of_N d).
    { intros d Hdd. destruct d as [|p]; [done|].
      do 4 (destruct p as [p|p|]; try done; try lia). }
    destruct (Hc _ Hd) as [H1 H2]. cbn [String.list_ascii_of_string digits_value]. rewrite H1, H2.
    f_equal. pose proof (N.div_mod x 10 ltac:(done)). lia.
  - assert (x = 0%N) as -> by lia. by rewrite pretty_N_go_0.
Qed.

(** [strconv.Atoi] inverts the decimal text of every [int]. *)
Lemma Atoi_decimal z : int64_range z → strconv_Atoi (fmt_d z) = Some z.
Proof.
  intros Hz. unfold int64_range in Hz.
  assert (Hd : ∀ x : N, (0 < x)%N → ∃ c l, String.list_ascii_of_string (pretty_N_go x "") = c :: l ∧
    c ≠ "-"%char ∧ c ≠ "+"%char ∧ digits_value 0 (c :: l) = Some (Z.of_N x)).
  { intros x Hx. pose proof (digits_value_pretty x "" 0 eq_refl) as H.
    change (digits_value 0 (String.list_ascii_of_string (pretty_N_go x "")) = Some (Z.of_N x)) in H.
    destruct (String.list_ascii_of_string (pretty_N_go x "")) as [|c l].
    - injection H as H. lia.
    - exists c, l. split; [done|]. split; [|split; [|done]]; intros ->; by cbn in H. }
  assert (Hr : ∀ v, int_min ≤ v ≤ int_max →
    (if (int_min <=? v) && (v <=? int_max) then Some v else None) = Some v).
  { intros v Hv. by rewrite (proj2 (Z.leb_le _ _) (proj1 Hv)), (proj2 (Z.leb_le _ _) (proj2 Hv)). }
  unfold strconv_Atoi, fmt_d. destruct z as [|p|p].
  - by vm_compute.
  - change (pretty (Z.pos p)) with (pretty_N_go (N.pos p) ""%string).
    destruct (Hd (N.pos p)) as (c & l & -> & Hm & Hp & Hv); [lia|].
    destruct (Ascii.eqb_spec c "-"); [done|]. destruct (Ascii.eqb_spec c "+"); [done|].
    rewrite Hv. cbn [mbind option_bind]. by apply Hr.
  - change (pretty (Z.neg p)) with (String "-" (pretty_N_go (N.pos p) ""%string)).
    cbn [String.list_ascii_of_string].
    destruct (Hd (N.pos p)) as (c & l & -> & Hm & Hp & Hv); [lia|].
    cbn [Ascii.eqb Bool.eqb]. rewrite Hv. cbn [mbind option_bind]. by apply Hr.
Qed.

(** ** The query of a filter *)

Section QueryOf.
Context {T : UuidText} {HT : UuidTextOk T} {TP : TimeParse} {HTP : TimeParseOk TP}.

(** The query parameters a client gives for a filter. *)
Definition query_of (f : NotificationFilter) : Query := λ k,
  if (k =? "status")%string then default "" (f_Status f)
  else if (k =? "channel")%string then default "" (f_Channel f)
  else if (k =? "batch_id")%string then match f_BatchID f with Some b => uuid_String b | None => "" end
  else if (k =? "limit")%string then (if f_Limit f =? 0 then "" else fmt_d (f_Limit f))
  else match f_Cursor f with
       | Some c => if (k =? "cursor_time")%string then Format_RFC3339Nano (c_CreatedAt c)
                   else if (k =? "cursor_id")%string then uuid_String (c_ID c) else ""
       | None => ""
       end.

(** The filters a query can express. *)
Record expressible (f : NotificationFilter) : Prop := {
  ex_status : f_Status f ≠ Some "";
  ex_channel : f_Channel f ≠ Some "";
  ex_limit : 0 ≤ f_Limit f ≤ int_max;
  ex_cursor c : f_Cursor f = Some c → time_range (c_CreatedAt c);
}.

Lemma fmt_d_nonempty z : int64_range z → (fmt_d z =? "")%string = false.
Proof.
  intros Hz%Atoi_decimal. apply String.eqb_neq. intros E. by rewrite E in Hz.
Qed.

Lemma text_param o : o ≠ Some "" →
  (if negb (default "" o =? "")%string then Some (default "" o) else None) = o.
Proof. destruct o as [s|]; [|done]. cbn. intros H. by destruct (String.eqb_spec s ""); [subst|]. Qed.

(** A filter given as query parameters is the filter the listing gets:
    whatever status, channel, batch, page size and cursor. *)
Theorem filter_roundtrip f : expressible f → parse_filter (query_of f) = inr f.
Proof.
  intros [Hs Hc Hl Hcur]. unfold parse_filter, query_of. cbn [String.eqb Ascii.eqb Bool.eqb].
  rewrite !text_param by done.
  assert (Hb : ∀ u, (uuid_String u =? "")%string = false)
    by (intros u; apply String.eqb_neq, uuid_String_nonempty).
  assert (Hlim : f_Limit f ≠ 0 → strconv_Atoi (fmt_d (f_Limit f)) = Some (f_Limit f) ∧
    (fmt_d (f_Limit f) =? "")%string = false ∧ (f_Limit f <? 1) = false).
  { intros Hz. assert (int64_range (f_Limit f)) by (unfold int64_range, int_min in *; lia).
    split; [by apply Atoi_decimal|]. split; [by apply fmt_d_nonempty|lia]. }
  assert (Ht : ∀ c, f_Cursor f = Some c →
    Parse_RFC3339Nano (Format_RFC3339Nano (c_CreatedAt c)) = Some (c_CreatedAt c) ∧
    (Format_RFC3339Nano (c_CreatedAt c) =? "")%string = false).
  { intros c E. split; [by apply Parse_Format_RFC3339Nano, Hcur|].
    apply String.eqb_neq, Format_RFC3339Nano_nonempty. }
  destruct f as [st ch b cur lim]. cbn in *.
  destruct (Z.eqb_spec lim 0) as [->|Hz]; [clear Hlim|destruct (Hlim Hz) as (-> & -> & ->); clear Hlim];
    destruct b as [b|]; rewrite ?Hb, ?uuid_Parse_String; cbn;
    (destruct cur as [[t i]|]; [destruct (Ht _ eq_refl) as [E1 E2]; cbn in E1, E2|]);
    cbn [c_CreatedAt c_ID]; rewrite ?E1, ?E2, ?Hb, ?uuid_Parse_String; reflexivity.
Qed.
End QueryOf.
