(* ===== verification/Routing.v ===== *)
(** * The router is a table without overlaps

    Whatever a request's method and path, at most one pattern of the table
    matches it, and every route is reached by the request it is made for. *)

From stdpp Require Import gmap.
From S2P Require Import Prelude GoLib Domain Effects Hub Api.

(** ** Patterns that cannot match the same request *)

Definition methods_disjoint (m1 m2 : string) : bool := negb (m1 =? m2)%string.

Fixpoint paths_disjoint (p1 p2 : list (option string)) : bool :=
  match p1, p2 with
  | [], [] => false
  | Some s1 :: p1, Some s2 :: p2 => negb (s1 =? s2)%string || paths_disjoint p1 p2
  | _ :: p1, _ :: p2 => paths_disjoint p1 p2
  | _, _ => true
  end.

(** Two patterns are disjoint; those of one method must differ in the path, and
    those of two methods may be matched by one request only through HEAD, which
    only GET patterns serve. *)
Definition disjoint (p q : Pattern) : bool :=
  methods_disjoint (pt_method p) (pt_method q) || paths_disjoint (pt_path p) (pt_path q).

Lemma match_path_cons o p x path :
  is_Some (match_path (o :: p) (x :: path)) →
  is_Some (match_path p path) ∧ match o with Some s => s = x | None => x ≠ "" end.
Proof.
  destruct o as [s|]; cbn.
  - destruct (String.eqb_spec s x); [done|by intros []].
  - destruct (String.eqb_spec x ""); [by intros []|].
    destruct (match_path p path); [done|by intros []].
Qed.

Lemma paths_disjoint_sound p1 p2 path :
  paths_disjoint p1 p2 = true → is_Some (match_path p1 path) → is_Some (match_path p2 path) → False.
Proof.
  revert p2 path. induction p1 as [|o1 p1 IH]; intros p2 path Hd H1 H2.
  - destruct p2 as [|o2 p2]; [done|]. destruct path; [destruct o2; by destruct H2|by destruct H1].
  - destruct path as [|x path]; [destruct o1; by destruct H1|].
    destruct p2 as [|o2 p2]; [by destruct H2|].
    apply match_path_cons in H1 as [H1 E1], H2 as [H2 E2]. destruct o1 as [s1|], o2 as [s2|];
      cbn in Hd; try by eapply IH.
    subst. rewrite String.eqb_refl in Hd. cbn in Hd. by eapply IH.
Qed.

Lemma disjoint_sound method path p q :
  pt_method p ≠ "HEAD" → pt_method q ≠ "HEAD" → disjoint p q = true →
  matches_pattern method path p = true → matches_pattern method path q = true → False.
Proof.
  unfold matches_pattern, disjoint, methods_disjoint, match_method. intros Hp Hq Hd H1 H2.
  bool_hyps. apply orb_true_iff in Hd as [Hd|Hd]; [|by eapply paths_disjoint_sound].
  bool_hyps. repeat match goal with H : _ || _ = true |- _ => apply orb_true_iff in H as [?|?] end;
    bool_hyps; congruence.
Qed.

(** All pairs of a list, in order. *)
Fixpoint pairwise {A} (f : A → A → bool) (l : list A) : bool :=
  match l with
  | [] => true
  | x :: l => forallb (f x) l && pairwise f l
  end.

Lemma pairwise_filter {A} (f : A → A → bool) (P : A → Prop) `{!∀ x, Decision (P x)} (l : list A) :
  pairwise f l = true → (∀ x y, f x y = true → P x → P y → False) → (length (filter P l) ≤ 1)%nat.
Proof.
  intros Hl Hf. induction l as [|x l IH]; [cbn; lia|]. cbn in Hl.
  apply andb_true_iff in Hl as [Hx Hl]. rewrite filter_cons. case_decide as HP; [|by apply IH].
  cbn. rewrite filter_none; [cbn; lia|]. apply Forall_forall. intros y Hy HPy.
  rewrite forallb_forall in Hx. apply (Hf x y); [|done..]. apply Hx. by apply list_elem_of_In.
Qed.

Definition proper_method (p : Pattern) : bool := negb (pt_method p =? "HEAD")%string.

Lemma at_most_one method path :
  (length (filter (λ p, matches_pattern method path p = true) routes) ≤ 1)%nat.
Proof.
  apply (pairwise_filter (λ p q, disjoint p q && proper_method p && proper_method q)).
  - by vm_compute.
  - intros p q H Hp Hq. unfold proper_method in H. bool_hyps.
    by eapply (disjoint_sound _ _ p q).
Qed.

(** At most one entry of the table matches a request. *)
Lemma router_unambiguous method path p q :
  p ∈ routes → q ∈ routes →
  matches_pattern method path p = true → matches_pattern method path q = true → p = q.
Proof.
  intros Hp Hq Hmp Hmq. pose proof (at_most_one method path) as H.
  assert (Hin : ∀ x, x ∈ routes → matches_pattern method path x = true →
    x ∈ filter (λ p, matches_pattern method path p = true) routes).
  { intros x ??. by apply list_elem_of_filter. }
  apply Hin in Hmp; [|done]. apply Hin in Hmq; [|done].
  destruct (filter _ routes) as [|x [|]]; cbn in H; [by apply not_elem_of_nil in Hmp| |lia].
  apply list_elem_of_singleton in Hmp, Hmq. congruence.
Qed.

(** ** Every route is reached *)

(** The request a client makes for a route. *)
Definition request_of (r : Route) : string * list string :=
  match r with
  | RHealth => ("GET", ["health"])
  | RReady => ("GET", ["ready"])
  | RMetrics => ("GET", ["metrics"])
  | RCreate => ("POST", ["api"; "v1"; "notifications"])
  | RCreateBatch => ("POST", ["api"; "v1"; "notifications"; "batch"])
  | RGet id => ("GET", ["api"; "v1"; "notifications"; id])
  | RList => ("GET", ["api"; "v1"; "notifications"])
  | RListByBatch b => ("GET", ["api"; "v1"; "batches"; b; "notifications"])
  | RCancel id => ("POST", ["api"; "v1"; "notifications"; id; "cancel"])
  | RGetAttempts id => ("GET", ["api"; "v1"; "notifications"; id; "attempts"])
  | RTemplateCreate => ("POST", ["api"; "v1"; "templates"])
  | RTemplateList => ("GET", ["api"; "v1"; "templates"])
  | RTemplateGet id => ("GET", ["api"; "v1"; "templates"; id])
  | RTemplateUpdate id => ("PUT", ["api"; "v1"; "templates"; id])
  | RTemplateDelete id => ("DELETE", ["api"; "v1"; "templates"; id])
  | RWebSocket id => ("GET", ["ws"; "notifications"; id])
  end.

Definition wildcards (r : Route) : list string :=
  match r with
  | RGet x | RListByBatch x | RCancel x | RGetAttempts x | RTemplateGet x | RTemplateUpdate x
  | RTemplateDelete x | RWebSocket x => [x]
  | _ => []
  end.

(** A pattern that matches is the one the router takes. *)
Lemma route_pattern method path i p l r :
  routes !! i = Some p → match_method (pt_method p) method = true →
  match_path (pt_path p) path = Some l → pt_route p l = Some r →
  route method path = Serve r.
Proof.
  intros Hi Hm Hl Hr. unfold route.
  assert (Hp : p ∈ filter (λ p, matches_pattern method path p = true) routes).
  { apply list_elem_of_filter. split; [|by eapply list_elem_of_lookup_2].
    unfold matches_pattern. rewrite Hm. cbn. apply bool_decide_eq_true. by rewrite Hl. }
  pose proof (at_most_one method path) as Hlen.
  destruct (filter _ routes) as [|q [|]]; cbn in Hlen; [by apply not_elem_of_nil in Hp| |lia].
  apply list_elem_of_singleton in Hp as ->. by rewrite Hl; cbn; rewrite Hr.
Qed.

(** The request made for a route reaches it, if the identifiers it names are not
    empty. *)
Lemma route_reached r :
  Forall (λ x, x ≠ "") (wildcards r) → route (request_of r).1 (request_of r).2 = Serve r.
Proof.
  intros Hw.
  assert (Hx : ∀ x, wildcards r = [x] → (x =? "")%string = false).
  { intros x E. rewrite E in Hw. apply Forall_inv in Hw. by apply String.eqb_neq. }
  assert (Hat : ∀ i p, routes !! i = Some p → match_method (pt_method p) (request_of r).1 = true →
    match_path (pt_path p) (request_of r).2 = Some (wildcards r) →
    pt_route p (wildcards r) = Some r → route (request_of r).1 (request_of r).2 = Serve r)
    by (intros; by eapply route_pattern).
  destruct r;
    [eapply (Hat 0%nat)|eapply (Hat 1%nat)|eapply (Hat 2%nat)|eapply (Hat 3%nat)|eapply (Hat 4%nat)
    |eapply (Hat 5%nat)|eapply (Hat 6%nat)|eapply (Hat 7%nat)|eapply (Hat 8%nat)|eapply (Hat 9%nat)
    |eapply (Hat 10%nat)|eapply (Hat 11%nat)|eapply (Hat 12%nat)|eapply (Hat 13%nat)
    |eapply (Hat 14%nat)|eapply (Hat 15%nat)];
    try reflexivity; cbn; by rewrite (Hx _ eq_refl).
Qed.

(** A path no pattern matches. *)
Lemma route_not_found method path :
  Forall (λ p, match_path (pt_path p) path = None) routes → route method path = NotFound.
Proof.
  intros H. rewrite Forall_forall in H. unfold route. rewrite filter_none.
  - destruct (existsb _ routes) eqn:E; [|done]. apply existsb_exists in E as (p & Hp & Hm).
    rewrite H in Hm; [done|by apply list_elem_of_In].
  - apply Forall_forall. intros p Hp Hm. unfold matches_pattern in Hm. rewrite (H p Hp) in Hm.
    by rewrite andb_false_r in Hm.
Qed.

(** The documentation's path for the notifications of a batch. *)
Lemma documented_batch_path batch :
  batch ≠ "cancel" → batch ≠ "attempts" →
  route "GET" ["api"; "v1"; "notifications"; "batch"; batch] = NotFound.
Proof.
  intros Hc%not_eq_sym%String.eqb_neq Ha%not_eq_sym%String.eqb_neq. apply route_not_found.
  repeat (apply Forall_cons; split; [first [reflexivity|cbn -[String.eqb]; by rewrite ?Hc, ?Ha]|]).
  apply Forall_nil_2.
Qed.

(** (C37) The router serves what its table says, and nothing else: a request is
    given to a handler exactly if some entry of the table matches its method
    and its path, the handler's identifiers being the path's segments; there
    is never more than one such entry, so the order of the registrations does
    not matter; and every route is reached by the request made for it. But
    the path that the documentation gives for the notifications of a batch,
    [/api/v1/notifications/batch/{batchId}], is not found; they are under
    [/api/v1/batches/{batchId}/notifications]. *)
Theorem router_serves :
  (∀ method path r, route method path = Serve r ↔
     ∃ p l, p ∈ routes ∧ match_method (pt_method p) method = true ∧
            match_path (pt_path p) path = Some l ∧ pt_route p l = Some r) ∧
  (∀ method path p q, p ∈ routes → q ∈ routes →
     matches_pattern method path p = true → matches_pattern method path q = true → p = q) ∧
  (∀ r, Forall (λ x, x ≠ "") (wildcards r) → route (request_of r).1 (request_of r).2 = Serve r) ∧
  (∀ batch, batch ≠ "cancel" → batch ≠ "attempts" →
     route "GET" ["api"; "v1"; "notifications"; "batch"; batch] = NotFound).
Proof.
  split; [|split; [apply router_unambiguous|split; [apply route_reached|apply documented_batch_path]]].
  intros method path r. split.
  - unfold route. destruct (filter _ routes) as [|p ps] eqn:Ef; [by case_match|].
    assert (Hp : p ∈ filter (λ p, matches_pattern method path p = true) routes) by (rewrite Ef; left).
    apply list_elem_of_filter in Hp as [Hm Hp]. unfold matches_pattern in Hm.
    apply andb_true_iff in Hm as [Hm _].
    destruct (match_path (pt_path p) path) as [l|] eqn:El; cbn; [|done].
    destruct (pt_route p l) as [x|] eqn:Er; [|done]. intros [= <-]. by exists p, l.
  - intros (p & l & Hp & Hm & Hl & Hr). apply list_elem_of_lookup in Hp as [i Hi].
    by eapply route_pattern.
Qed.
