(* ===== verification/Interleave.v ===== *)
(** * Interleavings

    The goroutines of the process run at the same time: an interleaving picks,
    again and again, a goroutine and lets it have its next effect. A program
    alone is an interleaving of one. What every effect keeps, every
    interleaving keeps. *)

From stdpp Require Import gmap.
From S2P Require Import Prelude GoLib Domain Sql Effects Discipline.

(** ** The step relation *)

Section Interleave.
Context {S : Services}.

Inductive interleaves : list (prog unit) → World → list Event → list (prog unit) → World → Prop :=
  | il_nil ts w : interleaves ts w [] ts w
  | il_step ts i X (e : Eff X) k w x w1 tr ts' w' :
      ts !! i = Some (Vis e k) → svc e w x w1 →
      interleaves (<[i := k x]> ts) w1 tr ts' w' →
      interleaves ts w (Ev e x :: tr) ts' w'.

Lemma interleaves_app ts1 w1 tr1 ts2 w2 tr2 ts3 w3 :
  interleaves ts1 w1 tr1 ts2 w2 → interleaves ts2 w2 tr2 ts3 w3 →
  interleaves ts1 w1 (tr1 ++ tr2) ts3 w3.
Proof. induction 1; [done|]. intros. cbn. econstructor; eauto. Qed.

(** One goroutine alone: its executions. *)
Lemma interleaves_exec (p : prog unit) w tr w' :
  interleaves [p] w tr [Ret tt] w' ↔ exec p w tr tt w'.
Proof.
  split.
  - remember [p] as ts eqn:E1. remember [Ret tt] as ts' eqn:E2. intros H. revert p E1.
    induction H as [ts w|ts i X e k w x w1 tr ts' w' Hi Hs H IH]; intros p ->.
    + by simplify_eq.
    + destruct i as [|i]; [|done]. injection Hi as ->.
      exists x, w1, tr. split; [done|]. split; [done|]. by apply IH.
  - revert w tr. induction p as [[]|X e k IH]; intros w tr H.
    + destruct H as (-> & _ & ->). constructor.
    + destruct H as (x & w1 & tr1 & -> & Hs & H).
      eapply (il_step [Vis e k] 0); [done|exact Hs|]. by apply IH.
Qed.

(** ** Programs guarded by what they are answered

    [guarded P R p]: as long as every answer satisfies [R], every effect of
    [p] satisfies [P]. *)
Fixpoint guarded (P : EffPred) (R : ∀ X, Eff X → X → Prop) {A} (p : prog A) : Prop :=
  match p with
  | Ret _ => True
  | Vis e k => P _ e ∧ ∀ x, R _ e x → guarded P R (k x)
  end.

Lemma guarded_only P R {A} (p : prog A) : only P p → guarded P R p.
Proof. induction p as [a|X e k IH]; [done|]. intros [He Hk]. split; [done|]. auto. Qed.

Lemma guarded_bind P R {A B} (p : prog A) (f : A → prog B) :
  guarded P R p → (∀ a, guarded P R (f a)) → guarded P R (bind p f).
Proof.
  intros Hp Hf. induction p as [a|X e k IH]; [apply Hf|]. destruct Hp as [He Hk]. cbn.
  split; [done|]. intros x Hx. by apply IH, Hk.
Qed.

(** [assured R Q p]: as long as every answer satisfies [R], what [p] returns
    satisfies [Q]. *)
Fixpoint assured (R : ∀ X, Eff X → X → Prop) {A} (Q : A → Prop) (p : prog A) : Prop :=
  match p with
  | Ret a => Q a
  | Vis e k => ∀ x, R _ e x → assured R Q (k x)
  end.

Lemma assured_bind R {A B} (Q : A → Prop) (Q' : B → Prop) (p : prog A) (f : A → prog B) :
  assured R Q p → (∀ a, Q a → assured R Q' (f a)) → assured R Q' (bind p f).
Proof.
  intros Hp Hf. induction p as [a|X e k IH]; [by apply Hf|]. cbn. intros x Hx. by apply IH, Hp.
Qed.

Lemma guarded_bind_with P R {A B} (Q : A → Prop) (p : prog A) (f : A → prog B) :
  guarded P R p → assured R Q p → (∀ a, Q a → guarded P R (f a)) → guarded P R (bind p f).
Proof.
  intros Hp HQ Hf. induction p as [a|X e k IH]; [by apply Hf|]. destruct Hp as [He Hk]. cbn.
  split; [done|]. intros x Hx. apply IH; [by apply Hk|by apply HQ].
Qed.

(** The answers of an effect that a program begins with. *)
Lemma guarded_do P (R : ∀ X, Eff X → X → Prop) {X B} (e : Eff X) (f : X → prog B) :
  P _ e → (∀ x, R _ e x → guarded P R (f x)) → guarded P R (bind (do e) f).
Proof. by split. Qed.

Lemma guarded_for_range P R {A} (l : list A) body :
  (∀ x, guarded P R (body x)) → guarded P R (for_range l body).
Proof. intros H. induction l as [|x l IH]; [done|]. cbn. apply guarded_bind; [apply H|]. by intros _. Qed.

Lemma assured_weaken (R R' : ∀ X, Eff X → X → Prop) {A} (Q : A → Prop) (p : prog A) :
  (∀ X (e : Eff X) x, R' _ e x → R _ e x) → assured R Q p → assured R' Q p.
Proof. intros HR. induction p as [a|X e k IH]; [done|]. cbn. intros H x Hx. by apply IH, H, HR. Qed.

(** An invariant of the world that every guarded effect keeps, and that
    guarantees the answers: it holds all along, and every goroutine stays
    guarded. *)
Lemma interleaves_inv (I : World → Prop) P R ts w tr ts' w' :
  (∀ X (e : Eff X) w x w', P _ e → I w → svc e w x w' → I w' ∧ R _ e x) →
  Forall (guarded P R) ts → I w → interleaves ts w tr ts' w' → I w' ∧ Forall (guarded P R) ts'.
Proof.
  intros Hstep Hts Hi H. revert Hts Hi.
  induction H as [ts w|ts i X e k w x w1 tr ts' w' Hk Hs H IH]; intros Hts Hi; [done|].
  pose proof (proj1 (Forall_lookup _ _) Hts _ _ Hk) as [He Hg].
  destruct (Hstep _ _ _ _ _ He Hi Hs) as [Hi' Hx].
  apply IH; [|done]. apply Forall_insert; [done|]. by apply Hg.
Qed.

(** Then every effect of the run and its answer are as they should be. *)
Lemma interleaves_trace (I : World → Prop) P R ts w tr ts' w' :
  (∀ X (e : Eff X) w x w', P _ e → I w → svc e w x w' → I w' ∧ R _ e x) →
  Forall (guarded P R) ts → I w → interleaves ts w tr ts' w' →
  Forall (λ ev, match ev with Ev e x => P _ e ∧ R _ e x end) tr.
Proof.
  intros Hstep Hts Hi H. revert Hts Hi.
  induction H as [ts w|ts i X e k w x w1 tr ts' w' Hk Hs H IH]; intros Hts Hi; [by constructor|].
  pose proof (proj1 (Forall_lookup _ _) Hts _ _ Hk) as [He Hg].
  destruct (Hstep _ _ _ _ _ He Hi Hs) as [Hi' Hx].
  constructor; [done|]. apply IH; [|done]. apply Forall_insert; [done|]. by apply Hg.
Qed.

(** A relation every guarded effect keeps relates the beginning to the end. *)
Lemma interleaves_rel (I : World → Prop) (Q : World → World → Prop) `{!PreOrder Q} P R ts w tr ts' w' :
  (∀ X (e : Eff X) w x w', P _ e → I w → svc e w x w' → (I w' ∧ R _ e x) ∧ Q w w') →
  Forall (guarded P R) ts → I w → interleaves ts w tr ts' w' → Q w w'.
Proof.
  intros Hstep Hts Hi H. revert Hts Hi.
  induction H as [ts w|ts i X e k w x w1 tr ts' w' Hk Hs H IH]; intros Hts Hi; [done|].
  pose proof (proj1 (Forall_lookup _ _) Hts _ _ Hk) as [He Hg].
  destruct (Hstep _ _ _ _ _ He Hi Hs) as [[Hi' Hx] Hq].
  transitivity w1; [done|]. apply IH; [|done]. apply Forall_insert; [done|]. by apply Hg.
Qed.
End Interleave.
