(* ===== verification/History.v ===== *)
(** * What no statement of the service can do to a notification

    A notification, once stored, stays: its request (recipient, content,
    channel, priority, schedule, retry limit, ..) never changes and its attempt
    count never decreases. This is a property of each statement the service
    sends, whatever it is answered. *)

From stdpp Require Import gmap.
From S2P Require Import Prelude GoLib Domain Sql SqlFacts Effects Discipline Frames.
From S2P Require Import NotificationRepo NotificationStore NotificationSpec.

(** ** Specification *)

(** The two notifications are of the same request. *)
Definition same_request (n m : Notification) : Prop :=
  n_ID m = n_ID n ∧ n_IdempotencyKey m = n_IdempotencyKey n ∧ n_BatchID m = n_BatchID n ∧
  n_Channel m = n_Channel n ∧ n_Priority m = n_Priority n ∧ n_Recipient m = n_Recipient n ∧
  n_Subject m = n_Subject n ∧ n_Body m = n_Body n ∧ n_TemplateID m = n_TemplateID n ∧
  n_TemplateVars m = n_TemplateVars n ∧ n_ScheduledAt m = n_ScheduledAt n ∧
  n_MaxRetries m = n_MaxRetries n ∧ n_CreatedAt m = n_CreatedAt n.

Definition later (n m : Notification) : Prop :=
  same_request n m ∧ n_AttemptCount n ≤ n_AttemptCount m.

(** Every notification of the first store is in the second, possibly later. *)
Definition evolves (S S' : Store) : Prop :=
  map_Forall (λ id n, ∃ m, S' !! id = Some m ∧ later n m) S.

#[export] Instance same_request_preorder : PreOrder same_request.
Proof. split; [by repeat split|]. intros a b c. unfold same_request. intuition congruence. Qed.

#[export] Instance later_preorder : PreOrder later.
Proof.
  split; [by intros n; split|]. intros a b c [H1 L1] [H2 L2]. split; [by etrans|lia].
Qed.

#[export] Instance evolves_preorder : PreOrder evolves.
Proof.
  split; [by intros S id n Hn; exists n|]. intros S1 S2 S3 H12 H23 id n Hn.
  destruct (H12 id n Hn) as (m & Hm & Hl). destruct (H23 id m Hm) as (p & Hp & Hl').
  exists p. split; [done|]. by etrans.
Qed.

(** ** Statements *)

(** The columns a SET may assign. *)
Definition set_safe (p : string * Expr) : bool :=
  bool_decide (p.1 ∈ ["status"; "updated_at"; "delivered_at"; "last_error"]) ||
  ((p.1 =? "attempt_count")%string &&
   match p.2 with EColPlus c z => (c =? "attempt_count")%string && (0 <=? z) | _ => false end).

Definition stmt_safe (s : Stmt) : bool :=
  match s with
  | SInsert _ _ _ | SSelect _ _ _ _ _ => true
  | SUpdate t sets _ _ | SUpdateIn t sets _ _ _ _ =>
      negb (bool_decide (t = Notifications)) || forallb set_safe sets
  | SDelete t _ => negb (bool_decide (t = Notifications))
  end.

(** ** Rows *)

Definition request_cols : list string :=
  ["idempotency_key"; "batch_id"; "channel"; "priority"; "recipient"; "subject"; "body";
   "template_id"; "template_vars"; "scheduled_at"; "max_retries"; "created_at"].

Definition count_of (r : Row) : Z := match r !! "attempt_count" with Some (VInt z) => z | _ => 0 end.

Lemma decode_later id r r' n m :
  decode id r = Some n → decode id r' = Some m →
  Forall (λ c, r' !! c = r !! c) request_cols → count_of r ≤ count_of r' → later n m.
Proof.
  intros Hn Hm Hc Hk.
  assert (Hcv : Forall (λ c, cv r' c = cv r c) request_cols).
  { eapply Forall_impl; [exact Hc|]. intros c E. unfold cv. by rewrite E. }
  unfold request_cols in Hcv. rewrite !Forall_cons in Hcv.
  destruct Hcv as (C1 & C2 & C3 & C4 & C5 & C6 & C7 & C8 & C9 & C10 & C11 & C12 & _).
  scan_inv Hn. scan_inv Hm. injection Hn as <-. injection Hm as <-.
  rewrite C1, C2, C3, C4, C5, C6, C7, C8, C9, C10, C11, C12 in *. simplify_eq.
  split; [by repeat split|]. cbn. unfold count_of, cv in *.
  destruct (r !! "attempt_count") as [[]|], (r' !! "attempt_count") as [[]|]; cbn in *; by simplify_eq.
Qed.

Lemma set_all_lookup kvs r c v :
  set_all kvs r !! c = Some v → (c, v) ∈ kvs ∨ (r !! c = Some v ∧ c ∉ kvs.*1).
Proof.
  unfold set_all. revert r. induction kvs as [|[k u] kvs IH]; intros r H; cbn in H.
  { right. split; [done|]. by apply not_elem_of_nil. }
  apply IH in H as [H|[H Hn]]; [left; by right|]. destruct (decide (k = c)) as [->|Hne].
  - rewrite lookup_insert_eq in H. injection H as ->. left. by left.
  - rewrite lookup_insert_ne in H by done. right. split; [done|]. cbn.
    apply not_elem_of_cons. by split.
Qed.

Lemma set_all_some kvs r c : is_Some (r !! c) → is_Some (set_all kvs r !! c).
Proof.
  unfold set_all. revert r. induction kvs as [|[k u] kvs IH]; intros r H; [done|]. cbn. apply IH.
  destruct (decide (k = c)) as [->|]; [by rewrite lookup_insert_eq; eexists|by rewrite lookup_insert_ne].
Qed.

Lemma stored_value t args now r sets kvs c v :
  mapM (store t args now r) sets = Some kvs → (c, v) ∈ kvs →
  ∃ e col u, (c, e) ∈ sets ∧ find_col t c = Some col ∧ eval args now r e = Some u ∧
             coerce_col col u = Some v.
Proof.
  revert kvs. induction sets as [|p sets IH]; intros kvs H Hin; cbn in H.
  { injection H as <-. by apply not_elem_of_nil in Hin. }
  apply bind_Some in H as (kv & Hk & H). apply bind_Some in H as (kvs' & Hs & [= <-]).
  apply elem_of_cons in Hin as [<-|Hin].
  - unfold store in Hk. apply bind_Some in Hk as (col & Hcol & Hk).
    apply bind_Some in Hk as (u & Hu & Hk). apply bind_Some in Hk as (x & Hx & [= <- <-]).
    destruct p as [c0 e]. exists e, col, u. split; [by left|done].
  - destruct (IH _ Hs Hin) as (e & col & u & ? & ?). exists e, col, u. split; [by right|done].
Qed.

(** A safe update keeps the columns of the request and does not lower the
    count. *)
Lemma update_row_safe sets args now r r' :
  forallb set_safe sets = true → update_row Notifications sets args now r = Some r' →
  Forall (λ c, r' !! c = r !! c) request_cols ∧
  (∀ z, r !! "attempt_count" = Some (VInt z) → ∃ z', r' !! "attempt_count" = Some (VInt z') ∧ z ≤ z').
Proof.
  intros Hsafe Hu. rewrite forallb_forall in Hsafe.
  assert (Hcol : ∀ c e, (c, e) ∈ sets → set_safe (c, e) = true)
    by (intros c e H; by apply Hsafe, list_elem_of_In).
  split.
  - apply Forall_forall. intros c Hc. eapply update_row_ne; [exact Hu|].
    intros ([c' e] & -> & Hin)%list_elem_of_fmap. apply Hcol in Hin. cbn in Hc.
    revert Hin. unfold set_safe. cbn [fst snd]. intros Hin.
    assert (Hno : Forall (λ c, bool_decide (c ∈ ["status"; "updated_at"; "delivered_at"; "last_error"])
      || (c =? "attempt_count")%string = false) request_cols) by by repeat constructor.
    rewrite Forall_forall in Hno. specialize (Hno _ Hc). apply orb_false_iff in Hno as [H1 H2].
    rewrite H1, H2 in Hin. done.
  - intros z Hz. unfold update_row in Hu. apply bind_Some in Hu as (kvs & Hk & [= <-]).
    destruct (set_all_some kvs r "attempt_count") as [v Hv]; [by eexists|]. rewrite Hv.
    apply set_all_lookup in Hv as [Hv|[Hv _]]; [|exists z; split; [congruence|lia]].
    destruct (stored_value _ _ _ _ _ _ _ _ Hk Hv) as (e & col & u & Hin & Hc & He & Hco).
    apply Hcol in Hin. unfold set_safe in Hin. cbn in Hin.
    destruct e as [| | |c k]; try done. apply andb_true_iff in Hin as [->%String.eqb_eq ?%Z.leb_le]. cbn in He. rewrite Hz in He.
    injection He as <-. cbn in Hc. injection Hc as <-. cbn in Hco.
    destruct (_ && _) in Hco; [|done]. injection Hco as <-. exists (z + k). split; [done|lia].
Qed.

(** ** Steps *)

(** The row is of the same request as before, its count no lower. *)
Definition kept (r r' : Row) : Prop :=
  Forall (λ c, r' !! c = r !! c) request_cols ∧
  (∀ z, r !! "attempt_count" = Some (VInt z) →
        ∃ z', r' !! "attempt_count" = Some (VInt z') ∧ z ≤ z').

Definition rows_kept (db db' : DB) : Prop :=
  map_Forall (λ id r, ∃ r', db_notifications db' !! id = Some r' ∧ kept r r') (db_notifications db).

Lemma kept_refl r : kept r r.
Proof. split; [by apply Forall_forall|]. intros z Hz. exists z. by split; [|lia]. Qed.

Lemma rows_kept_same db db' : db_notifications db' = db_notifications db → rows_kept db db'.
Proof. intros E id r Hr. exists r. rewrite E. split; [done|]. apply kept_refl. Qed.

Lemma decode_count id r n :
  decode id r = Some n → r !! "attempt_count" = Some (VInt (n_AttemptCount n)).
Proof.
  intros H. scan_inv H. injection H as <-. cbn. unfold cv in *.
  by destruct (r !! "attempt_count") as [[]|]; simplify_eq/=.
Qed.

Lemma kept_later id r r' n m : decode id r = Some n → decode id r' = Some m → kept r r' → later n m.
Proof.
  intros Hn Hm [Hc Hk]. eapply decode_later; [done..|]. unfold count_of.
  apply decode_count in Hn. destruct (Hk _ Hn) as (z' & Hz & Hle). by rewrite Hn, Hz.
Qed.

Lemma rows_kept_evolves db db' :
  db_ok db → db_ok db' → rows_kept db db' → evolves (abs db) (abs db').
Proof.
  intros Hok Hok' Hk id n Hn. apply abs_lookup_some in Hn as (r & Hr & Hd).
  destruct (Hk _ _ Hr) as (r' & Hr' & Hkr). destruct (abs_lookup_row _ _ _ Hok' Hr') as (m & Hm & Ha).
  exists m. split; [done|]. by eapply kept_later.
Qed.

Lemma put_rows_lookup l (m : Table) id r :
  m !! id = Some r →
  put_rows l m !! id = Some r ∨ ∃ r', (id, r') ∈ l ∧ put_rows l m !! id = Some r'.
Proof.
  revert m r. induction l as [|[i x] l IH]; intros m r Hr; [by left|].
  unfold put_rows. cbn [foldl fst snd]. fold (put_rows l (<[i := x]> m)).
  destruct (decide (i = id)) as [->|Hne].
  - right. destruct (IH (<[id := x]> m) x) as [H|(r' & Hin & H)].
    + by rewrite lookup_insert_eq.
    + exists x. split; [by left|done].
    + exists r'. split; [by right|done].
  - destruct (IH (<[i := x]> m) r) as [H|(r' & Hin & H)].
    + by rewrite lookup_insert_ne.
    + by left.
    + right. exists r'. split; [by right|done].
Qed.

(** An update of rows of the table by safe assignments. *)
Lemma updates_kept db t sets args now l l' :
  negb (bool_decide (t = Notifications)) || forallb set_safe sets = true →
  (∀ p, p ∈ l → table t db !! p.1 = Some p.2) →
  update_rows t sets args now l = Some l' →
  rows_kept db (set_table t (put_rows l' (table t db)) db).
Proof.
  intros Hs Hl Hu. destruct (decide (t = Notifications)) as [->|Hne];
    [|by apply rows_kept_same; destruct t].
  rewrite bool_decide_true in Hs by done. cbn in Hs. intros id r Hr. cbn.
  destruct (put_rows_lookup l' (db_notifications db) id r Hr) as [H|(r' & Hin & H)].
  - exists r. split; [done|]. apply kept_refl.
  - exists r'. split; [done|]. destruct (update_rows_inv _ _ _ _ _ _ _ Hu Hin) as (r0 & Hr0 & Hup).
    cbn in Hr0. specialize (Hl _ Hr0). cbn in Hl. assert (r0 = r) as -> by congruence.
    by eapply update_row_safe.
Qed.

Lemma effect_kept args now db s n rows db' ins t :
  stmt_safe s = true → sql_effect args now db s n rows db' ins t →
  (∀ id, ins = Some id → table t db !! id = None) → rows_kept db db'.
Proof.
  intros Hs He Hfr. destruct He as
    [t cols vals id r Hi|t cols wh cs ord lim l l' Hc Ho Hl|t sets wh cs ret l l' Hc Hl Hu
    |t sets wh cs ord lim ret sel l l' Hc (s & [Hp _] & (k & _ & _ & ->)) Hl Hu
    |t wh cs l Hc Hl]; cbn in Hs.
  - destruct t; try by apply rows_kept_same. intros i x Hx. exists x. split; [|apply kept_refl].
    cbn. specialize (Hfr _ eq_refl). cbn in Hfr. rewrite lookup_insert_ne; [done|congruence].
  - by apply rows_kept_same.
  - eapply updates_kept; [done| |done]. intros [i r] Hp. rewrite Hl in Hp.
    by apply elem_of_matching in Hp as [? _].
  - eapply updates_kept; [done| |done]. intros [i r] H. rewrite Hl in H.
    apply elem_of_take in H as (j & Hj & _). apply list_elem_of_lookup_2 in Hj. rewrite Hp in Hj.
    apply list_elem_of_filter in Hj as [_ Hj]. by apply elem_of_matching in Hj as [? _].
  - apply rows_kept_same. by destruct t.
Qed.

Lemma step_kept args now db s res db' :
  stmt_safe s = true → sql_step args now db s res db' → rows_kept db db'.
Proof.
  intros Hs H. apply sql_step_inv in H as
    [(n & rows & ins & t1 & -> & He & Hfr & _)
    |[(name & msg & n & rows & db1 & ins & t1 & -> & -> & He & Hv)
    |[(code & name & msg & Hc & -> & ->)|(msg & -> & [->|(n & rows & ins & t1 & He & Hfr & _)])]]];
    eauto using effect_kept, rows_kept_same.
Qed.

Lemma overlay_kept ws db : fresh_writes ws db → rows_kept db (overlay ws db).
Proof.
  intros Hf id r Hr. exists r. split; [|apply kept_refl].
  assert (Hn : Forall (λ x, x.1.1 = Notifications → x.1.2 ≠ id) ws).
  { eapply Forall_impl; [exact Hf|]. intros [[t i] x] Hi Ht Hid. cbn in Hi, Ht, Hid. subst. cbn in Hi. congruence. }
  clear Hf. revert db Hr. induction Hn as [|[[t i] x] ws Hi _ IH]; intros db Hr; [done|].
  apply IH. destruct t; [|done..]. cbn. rewrite lookup_insert_ne; [done|]. by apply Hi.
Qed.

(** The statements of an effect. *)
Definition pg_safe {X} (e : PgE X) : bool :=
  match e with
  | PgExec s _ | PgQueryRow s _ | PgQuery s _ | PgTxExec _ s _ => stmt_safe s
  | _ => true
  end.

Lemma pg_evolves X (e : PgE X) w x w' :
  pg_safe e = true → pg_doc e w x w' → db_ok (w_db w) →
  db_ok (w_db w') ∧ evolves (abs (w_db w)) (abs (w_db w')).
Proof.
  assert (Hst : ∀ s args res w', stmt_safe s = true → statement s args w res w' → db_ok (w_db w) →
    db_ok (w_db w') ∧ evolves (abs (w_db w)) (abs (w_db w'))).
  { intros s args res w1 Hs H Hok. pose proof (statement_ok _ _ _ _ _ H Hok) as Hok'.
    split; [done|]. apply rows_kept_evolves; [done..|].
    destruct H as (t & db' & _ & H & ->). by eapply step_kept. }
  destruct e; cbn; intros Hs H Hok.
  1-2: destruct H as (res & H & _); by eapply Hst.
  - destruct H as (res & w1 & H & _ & [->|[_ ->]]); [by eapply Hst|]. by split.
  - by destruct H as [(h & _ & _ & _ & ->)|(e & _ & _ & ->)].
  - by destruct H as (tx & _ & [(?&?&?&?&?&?&?&_&_&_&_&_&->)|(?&?&_&_&->)]).
  - destruct H as (tx & _ & [(_&_&Hf&Ho&->)|[(e & _ & ->)|(msg&_&_&Hf&Ho&->)]]); [|done|];
      (split; [done|]); apply rows_kept_evolves; try done; by apply overlay_kept.
  - by rewrite H.
Qed.
