(* ===== verification/Ledger.v ===== *)
(** * Ledgers: an account kept beside a program

    A ledger says of every effect what it does to the account, when it may be
    done, and which answers may come. [tracks] goes through a program with the
    account in hand; in an interleaving every goroutine has an account of its
    own, and an invariant ties them to the state of the world. *)

From stdpp Require Import gmap.
From S2P Require Import Prelude GoLib Domain Sql Effects Discipline Validator Templates Service.
From S2P Require Import Api Interleave.

Record Ledger (G : Type) := mkLedger {
  lg_allowed : ∀ X, G → Eff X → Prop;
  lg_plausible : ∀ X, Eff X → X → G → Prop;
  lg_after : ∀ X, Eff X → X → G → G;
}.
Arguments mkLedger {G} _ _ _.
Arguments lg_allowed {G} _ {X} _ _.
Arguments lg_plausible {G} _ {X} _ _ _.
Arguments lg_after {G} _ {X} _ _ _.

(** ** Programs *)

Section Tracks.
Context {G : Type} (L : Ledger G).

(** With the account [g], [p] does only what is allowed, and when it returns, [Q]
    holds of the account and of its result. *)
Fixpoint tracks {A} (Q : G → A → Prop) (g : G) (p : prog A) : Prop :=
  match p with
  | Ret a => Q g a
  | Vis e k => lg_allowed L g e ∧ ∀ x, lg_plausible L e x g → tracks Q (lg_after L e x g) (k x)
  end.

Lemma tracks_mono {A} (Q Q' : G → A → Prop) g (p : prog A) :
  tracks Q g p → (∀ g' a, Q g' a → Q' g' a) → tracks Q' g p.
Proof.
  intros H HQ. revert g H. induction p as [a|X e k IH]; intros g; [apply HQ|].
  intros [He Hk]. split; [done|]. intros x Hx. by apply IH, Hk.
Qed.

Lemma tracks_seq {A B} (Q : G → A → Prop) (Q' : G → B → Prop) g (p : prog A) (f : A → prog B) :
  tracks Q g p → (∀ g' a, Q g' a → tracks Q' g' (f a)) → tracks Q' g (bind p f).
Proof.
  intros H Hf. revert g H. induction p as [a|X e k IH]; intros g; [apply Hf|].
  intros [He Hk]. split; [done|]. intros x Hx. by apply IH, Hk.
Qed.

Lemma tracks_do {X B} (Q : G → B → Prop) g (e : Eff X) (f : X → prog B) :
  lg_allowed L g e → (∀ x, lg_plausible L e x g → tracks Q (lg_after L e x g) (f x)) →
  tracks Q g (bind (do e) f).
Proof. by split. Qed.

(** Effects that are allowed with [g] and leave it. *)
Definition idles (g : G) : EffPred := λ X e, lg_allowed L g e ∧ ∀ x, lg_after L e x g = g.

(** The account stays. *)
Definition unmoved {A} (g : G) : G → A → Prop := λ g' _, g' = g.

Lemma tracks_idle g {A} (p : prog A) : only (idles g) p → tracks (unmoved g) g p.
Proof.
  induction p as [a|X e k IH]; [done|]. intros [[Ha Hg] Hk].
  split; [done|]. intros x _. rewrite Hg. by apply IH, Hk.
Qed.

Lemma tracks_after_idle {A B} (Q : G → B → Prop) g (p : prog A) (f : A → prog B) :
  only (idles g) p → (∀ a, tracks Q g (f a)) → tracks Q g (bind p f).
Proof. intros Hp Hf. eapply tracks_seq; [by apply tracks_idle|]. by intros g' a ->. Qed.

(** A handler that recovers from panics, if [Q] holds whenever one is allowed. *)
Lemma tracks_recover (P : G → Prop) {A} g (p : prog A) :
  (∀ g, lg_allowed L g Panic → P g) → tracks (λ g' _, P g') g p → tracks (λ g' _, P g') g (recover p).
Proof.
  intros HP. revert g. induction p as [a|X e k IH]; intros g; [done|]. intros [He Hk]. cbn [recover].
  destruct e; try (split; [done|]; intros x Hx; apply IH, Hk, Hx). by apply HP.
Qed.

(** The middleware: it takes the time and makes an id for the request, and
    recovers from the handler's panics. *)
Lemma tracks_router `{UuidText, StructValidator, TextTemplate, MailParser, TimeParse, JsonBody}
    (P : G → Prop) svc reads req g :
  (∀ g, idles g _ Now) → (∀ g, idles g _ NewV7) → (∀ g, lg_allowed L g Panic → P g) → P g →
  (∀ r, tracks (λ g' _, P g') g (serve svc reads (responseWriter serverWriter StatusOK) req r)) →
  tracks (λ g' _, P g') g (NewRouter svc reads req).
Proof.
  intros Hnow Hid HP Hg Hs.
  assert (Hr : tracks (λ g' _, P g') g (Recovery (Logging (λ rw, ServeMux svc reads rw req) serverWriter))).
  { unfold Recovery. eapply (tracks_seq (λ g' _, P g')); [|by intros g' []]. apply tracks_recover; [done|].
    unfold Logging. apply tracks_after_idle; [by apply only_do|intros start].
    eapply (tracks_seq (λ g' _, P g')); [unfold ServeMux; destruct (route _ _); [apply Hs|done..]|].
    intros g' a Hg'. by apply tracks_after_idle; [apply only_do|]. }
  unfold NewRouter, RequestID. destruct (_ =? _)%string.
  - apply tracks_after_idle; [by apply only_do|intros u]. eapply tracks_seq; [exact Hr|done].
  - eapply tracks_seq; [exact Hr|done].
Qed.
End Tracks.

#[global] Arguments tracks : simpl never.

(** Two accounts at once. *)
Definition both {G H} (L : Ledger G) (M : Ledger H) : Ledger (G * H) :=
  mkLedger (λ X g e, lg_allowed L g.1 e ∧ lg_allowed M g.2 e)
    (λ X e x g, lg_plausible L e x g.1 ∧ lg_plausible M e x g.2)
    (λ X e x g, (lg_after L e x g.1, lg_after M e x g.2)).

Lemma tracks_both {G H A} (L : Ledger G) (M : Ledger H) (Q : G → A → Prop) (R : H → A → Prop) g h (p : prog A) :
  tracks L Q g p → tracks M R h p → tracks (both L M) (λ gh a, Q gh.1 a ∧ R gh.2 a) (g, h) p.
Proof.
  revert g h. induction p as [a|X e k IH]; intros g h; [done|]. intros [? Hk] [? Hk'].
  split; [done|]. intros x [Hx Hx']. by apply IH; [apply Hk|apply Hk'].
Qed.

(** ** Interleavings *)

Section Goroutines.
Context {S : Services} {G : Type} (L : nat → Ledger G) (Q : nat → G → unit → Prop).

(** Every goroutine keeps its account. *)
Definition accounted (ts : list (prog unit)) (gs : list G) : Prop :=
  length gs = length ts ∧
  ∀ i p g, ts !! i = Some p → gs !! i = Some g → tracks (L i) (Q i) g p.

(** An invariant that every allowed effect keeps, of the events so far as well.
    The events of the run satisfy [ok]; the goroutines are guarded besides. *)
Lemma interleaves_accounted (I : list Event → World → list G → Prop) (ok : Event → Prop) P R h ts w tr ts' w' gs :
  (∀ h w gs i g X (e : Eff X) x w', I h w gs → gs !! i = Some g → P _ e → lg_allowed (L i) g e →
     svc e w x w' → ok (Ev e x) →
     I (h ++ [Ev e x]) w' (<[i := lg_after (L i) e x g]> gs) ∧ lg_plausible (L i) e x g ∧ R _ e x) →
  Forall (guarded P R) ts → accounted ts gs → I h w gs →
  interleaves ts w tr ts' w' → Forall ok tr → ∃ gs', accounted ts' gs' ∧ I (h ++ tr) w' gs'.
Proof.
  intros Hstep Hts Hacc Hi H. revert h gs Hts Hacc Hi.
  induction H as [ts w|ts i X e k w x w1 tr ts' w' Hk Hs H IH]; intros h gs Hts Hacc Hi Hok.
  { exists gs. by rewrite app_nil_r. }
  apply Forall_cons in Hok as [Hev Hok]. destruct Hacc as [Hlen Hacc].
  pose proof (proj1 (Forall_lookup _ _) Hts _ _ Hk) as [He Hg].
  destruct (lookup_lt_is_Some_2 gs i) as [g Hgi]; [rewrite Hlen; by eapply lookup_lt_Some|].
  destruct (Hacc _ _ _ Hk Hgi) as [Ha Hkeep].
  destruct (Hstep _ _ _ _ _ _ _ _ _ Hi Hgi He Ha Hs Hev) as (Hi1 & Hp & Hx).
  replace (h ++ Ev e x :: tr) with ((h ++ [Ev e x]) ++ tr) by by rewrite <- app_assoc.
  apply (IH (h ++ [Ev e x]) (<[i := lg_after (L i) e x g]> gs)); try done.
  - apply Forall_insert; [done|]. by apply Hg.
  - split; [by rewrite !length_insert|]. intros j p gj Hj Hgj. destruct (decide (j = i)) as [->|Hne].
    + rewrite list_lookup_insert_eq in Hj by (by eapply lookup_lt_Some). injection Hj as <-.
      rewrite list_lookup_insert_eq in Hgj by (by eapply lookup_lt_Some). injection Hgj as <-. by apply Hkeep.
    + rewrite list_lookup_insert_ne in Hj by done. rewrite list_lookup_insert_ne in Hgj by done. by eapply Hacc.
Qed.
End Goroutines.
