(* ===== verification/System.v ===== *)
(** * The running system: invariants of every interleaving

    The workers, the processor of delayed retries, the scheduler and the
    requests run at the same time. Each of their effects keeps the schema of the
    tables, the streams and the hub well-formed, keeps every notification's
    request, and takes a message off its stream only by acknowledging it; so
    every interleaving of them does. *)

From stdpp Require Import gmap.
From S2P Require Import Prelude GoLib Domain Sql Redis RedisFacts Effects Discipline Frames.
From S2P Require Import NotificationRepo NotificationStore Queue QueueSpec RateLimit Delivery Hub.
From S2P Require Import HubSpec Worker Validator Templates Service Api Wiring Interleave History.

(** ** Streams whose entries can be read *)

Definition readable (vs : list (string * string)) : bool :=
  bool_decide (is_Some (field "notification_id" vs)) && bool_decide (is_Some (field "channel" vs)).

Definition entry_ok (e : Entry) : Prop := readable (e_values e) = true.

Record streams_ok (r : Redis) : Prop := {
  so_redis : redis_ok r;
  so_entries : ∀ k, Forall entry_ok (s_entries (stream k r));
}.

(** The messages of a stream that are not acknowledged: waiting or in flight. *)
Definition inflight (k : string) (r : Redis) : gset EntryID := ln_inflight (lane ConsumerGroup k r).

Definition unacked (k : string) (r : Redis) : gset EntryID :=
  list_to_set (e_id <$> ln_waiting (lane ConsumerGroup k r)) ∪ inflight k r.

(** The effect acknowledges the message. *)
Definition acks {X} (e : Eff X) (k : string) (id : EntryID) : Prop :=
  match e with
  | Rd (XAck k' g id') => k' = k ∧ g = ConsumerGroup ∧ id' = id
  | _ => False
  end.

(** ** Safe effects

    What the effects may do is a parameter [A]: the messages they may
    acknowledge, and whether a goroutine may panic. *)

Record Licence := { lc_acks :> string → EntryID → Prop; may_panic : bool }.

Definition any_ack : Licence := {| lc_acks _ _ := True; may_panic := true |}.

Definition unless_panic : Licence := {| lc_acks _ _ := True; may_panic := false |}.

Definition redis_safe (A : Licence) {X} (e : RedisE X) : Prop :=
  match e with
  | XAdd _ vs => readable vs = true
  | XGroupCreateMkStream _ g => g = ConsumerGroup
  | XAck k g id => g = ConsumerGroup ∧ A k id
  | XAutoClaim _ g _ _ _ => g = ConsumerGroup ∧ ∀ k id, A k id
  | XReadGroup g _ ks _ => g = ConsumerGroup ∧ NoDup ks
  | EvalScript f => ∀ at_ draw r, r_streams (f at_ draw r).2 = r_streams r
  | _ => True
  end.

Definition system_effect (A : Licence) : EffPred := λ X e,
  match e with
  | Pg e => pg_safe e = true
  | Rd e => redis_safe A e
  | Mem f => ∀ h, hub_ok h → hub_ok (f h).2
  | Panic => may_panic A = true
  | _ => True
  end.

(** What the system may count on in an answer: what is read may be
    acknowledged. *)
Definition may_handle (A : Licence) (k : string) (e : Entry) : Prop := entry_ok e ∧ A k (e_id e).

Definition redis_answer (A : Licence) {X} (e : RedisE X) (x : X) : Prop :=
  match e in RedisE Y return Y → Prop with
  | XReadGroup _ _ _ _ => λ x,
      match x with Ok (Some l) => Forall (λ p, Forall (may_handle A p.1) p.2) l | _ => True end
  | XAutoClaim _ _ _ _ _ | XRange _ => λ x,
      match x with Ok l => Forall entry_ok l | Er _ => True end
  | _ => λ _, True
  end x.

Definition system_answer (A : Licence) X (e : Eff X) (x : X) : Prop :=
  match e in Eff Y return Y → Prop with
  | Rd e => λ x, redis_answer A e x
  | _ => λ _, True
  end x.

(** ** Entries *)

Lemma entries_of_set k k' es t gs r :
  es = s_entries (stream k r) →
  s_entries (stream k' (set_stream k (mkStream es t gs) r)) = s_entries (stream k' r).
Proof.
  intros ->. destruct (decide (k = k')) as [<-|]; [by rewrite stream_set_eq|by rewrite stream_set_ne].
Qed.

Lemma xreadgroup_entries g c n now ks r l r' :
  xreadgroup g c n now ks r = (l, r') →
  (∀ k, s_entries (stream k r') = s_entries (stream k r)) ∧
  Forall (λ p, ∀ e, e ∈ p.2 → e ∈ s_entries (stream p.1 r)) l.
Proof.
  revert r l r'. induction ks as [|k ks IH]; intros r l r' H; unfold xreadgroup in H; fold xreadgroup in H.
  { injection H as <- <-. by split; [|constructor]. }
  destruct (s_groups (stream k r) !! g) as [grp|]; [|by apply IH in H].
  destruct (fresh_entries grp n (stream k r)) as [|e es] eqn:Ef; [by apply IH in H|].
  destruct (xreadgroup g c n now ks _) as [rest r1] eqn:Er. injection H as <- <-.
  apply IH in Er as [He Hr]. split.
  - intros k'. rewrite He. by apply entries_of_set.
  - constructor.
    + cbn. intros x Hx. rewrite <- Ef in Hx. apply elem_of_take in Hx as (i & Hi & _).
      apply list_elem_of_lookup_2 in Hi. by apply list_elem_of_filter in Hi as [_ ?].
    + eapply Forall_impl; [exact Hr|]. cbn. intros p Hp x Hx. specialize (Hp x Hx).
      by rewrite entries_of_set in Hp.
Qed.

Lemma entries_kept r r' :
  streams_ok r → redis_ok r' → (∀ k, s_entries (stream k r') = s_entries (stream k r)) → streams_ok r'.
Proof. intros [_ He] Hok E. split; [done|]. intros k. by rewrite E. Qed.

Lemma unacked_same k r r' :
  lane ConsumerGroup k r' = lane ConsumerGroup k r → unacked k r' = unacked k r.
Proof. unfold unacked, inflight. by intros ->. Qed.

(** What a command may do. *)
Definition stream_step (ack : string → EntryID → Prop) (r r' : Redis) : Prop :=
  streams_ok r' ∧ (∀ k id, id ∈ unacked k r → id ∈ unacked k r' ∨ ack k id) ∧
  ∀ k id, id ∈ inflight k r → id ∈ inflight k r' ∨ ack k id.

Lemma stream_step_refl ack r : streams_ok r → stream_step ack r r.
Proof. intros H. split_and!; [done|by left..]. Qed.

Lemma stream_step_lanes ack r r' :
  streams_ok r' → (∀ k, lane ConsumerGroup k r' = lane ConsumerGroup k r) → stream_step ack r r'.
Proof.
  intros H E. split_and!; [done|..]; intros k id Hid; left; [by rewrite (unacked_same k r)|].
  unfold inflight. by rewrite E.
Qed.

Lemma xadd_step ack k id vs r :
  streams_ok r → readable vs = true → (s_top (stream k r) < id)%N →
  stream_step ack r (xadd k id vs r).
Proof.
  intros [Hok He] Hv Hid. split; [split; [by apply xadd_redis_ok|]|].
  - intros k'. unfold xadd. destruct (decide (k = k')) as [<-|]; [|by rewrite stream_set_ne].
    rewrite stream_set_eq. cbn. apply Forall_app. split; [done|]. by repeat constructor.
  - split; intros k' i Hi; left; unfold unacked, inflight in *; rewrite lane_xadd by done;
      (case_decide; [subst k'|done]); cbn; rewrite ?fmap_app, ?list_to_set_app_L; set_solver.
Qed.

Lemma xgroup_create_step ack k r r' :
  streams_ok r → xgroup_create k ConsumerGroup r = Some r' → stream_step ack r r'.
Proof.
  intros H E. pose proof H as [Hok _].
  apply stream_step_lanes; [|intros k'; by apply (lane_xgroup_create _ _ _ _ _ Hok E)].
  eapply entries_kept; [exact H|by eapply xgroup_create_redis_ok|].
  revert E. unfold xgroup_create. destruct (_ !! ConsumerGroup); [done|]. intros [= <-] k'.
  by apply entries_of_set.
Qed.

Lemma xack_step (ack : string → EntryID → Prop) k id r :
  streams_ok r → ack k id → stream_step ack r (xack k ConsumerGroup id r).
Proof.
  intros H Ha. pose proof H as [Hok _]. split.
  - eapply entries_kept; [exact H|by apply xack_redis_ok|]. intros k'. unfold xack.
    destruct (_ !! ConsumerGroup); [by apply entries_of_set|done].
  - split; intros k' i Hi; unfold unacked, inflight in *; rewrite lane_xack;
      (case_decide; [subst k'|by left]); (destruct (decide (i = id)) as [->|]; [by right|left]);
      cbn; set_solver.
Qed.

Lemma unacked_advance n l :
  (list_to_set (e_id <$> ln_waiting l) ∪ ln_inflight l : gset EntryID) =
  list_to_set (e_id <$> ln_waiting (advance n l)) ∪ ln_inflight (advance n l).
Proof.
  unfold advance. cbn. rewrite <- (take_drop n (ln_waiting l)) at 1.
  rewrite fmap_app, list_to_set_app_L. set_solver.
Qed.

(** What waits was never delivered. *)
Lemma waiting_not_inflight k e r :
  redis_ok r → e ∈ ln_waiting (lane ConsumerGroup k r) → e_id e ∉ inflight k r.
Proof.
  intros Hok. unfold inflight, lane, group.
  destruct (s_groups (stream k r) !! ConsumerGroup) as [grp|] eqn:E; [|set_solver].
  destruct (sk_groups _ (stream_is_ok k r Hok) _ _ E) as [_ Hp]. cbn.
  intros [He _]%list_elem_of_filter [x Hx]%elem_of_dom. apply Hp in Hx. lia.
Qed.

Lemma xreadgroup_step ack c n now ks r l r' :
  streams_ok r → NoDup ks → Forall (λ k, is_Some (group ConsumerGroup k r)) ks →
  xreadgroup ConsumerGroup c n now ks r = (l, r') →
  stream_step ack r r' ∧
  Forall (λ p, Forall (λ e, entry_ok e ∧ e_id e ∉ inflight p.1 r) p.2) l.
Proof.
  intros H Hnd Hg E. pose proof H as [Hok He].
  pose proof E as (Hok' & _ & Hr & Hl)%xreadgroup_spec; [|done..].
  apply xreadgroup_entries in E as [Hent Hes]. split; [split_and!|].
  - by eapply entries_kept.
  - intros k id Hid. left. unfold unacked, inflight in *. rewrite Hl. case_decide; [|done].
    by rewrite <- unacked_advance.
  - intros k id Hid. left. unfold inflight in *. rewrite Hl. case_decide; [|done]. cbn. set_solver.
  - apply Forall_forall. intros p Hp. apply Forall_forall. intros e Hin.
    rewrite Forall_forall in Hes. specialize (Hes _ Hp e Hin). split.
    + specialize (He p.1). rewrite Forall_forall in He. by apply He.
    + rewrite Hr in Hp. apply list_elem_of_filter in Hp as [_ (k & -> & _)%list_elem_of_fmap].
      cbn in *. apply waiting_not_inflight; [done|]. apply elem_of_take in Hin as (i & Hi & _).
      by eapply list_elem_of_lookup_2.
Qed.

Lemma xautoclaim_step ack k c idle n now r l r' :
  streams_ok r → xautoclaim k ConsumerGroup c idle n now r = (l, r') →
  stream_step ack r r' ∧ Forall entry_ok l.
Proof.
  intros H E. pose proof H as [Hok He].
  pose proof E as (Hok' & _ & Hl & Hes)%xautoclaim_spec; [|done]. split.
  - apply stream_step_lanes; [|done]. eapply entries_kept; [done..|]. revert E. unfold xautoclaim.
    destruct (_ !! ConsumerGroup); intros [= <- <-] k'; [by apply entries_of_set|done].
  - apply Forall_forall. intros e Hin. apply Hes in Hin as [Hin _]. specialize (He k).
    rewrite Forall_forall in He. by apply He.
Qed.

(** A command that leaves the streams alone. *)
Lemma streams_same_step ack r r' :
  streams_ok r → r_streams r' = r_streams r → stream_step ack r r'.
Proof.
  intros H E. assert (Es : ∀ k, stream k r' = stream k r) by by intros k; unfold stream; rewrite E.
  apply stream_step_lanes; [|by intros k; apply lane_same_stream].
  eapply entries_kept; [exact H| |by intros k; rewrite Es]. unfold redis_ok. rewrite E. apply H.
Qed.

Lemma stream_step_trans ack r1 r2 r3 : stream_step ack r1 r2 → stream_step ack r2 r3 → stream_step ack r1 r3.
Proof.
  intros (_ & U1 & I1) (? & U2 & I2). split_and!; [done|..]; intros k id;
    [intros [?|?]%U1|intros [?|?]%I1]; auto.
Qed.

Lemma redis_cmd_keeps {X} (ok : X → Redis → Prop) is_err (Q : Redis → Prop) (A : X → Prop) w x w' :
  redis_cmd ok is_err w x w' → Q (w_redis w) → (∀ y r', ok y r' → Q r' ∧ A y) →
  (∀ y, is_err y → A y) →
  Q (w_redis w') ∧ A x ∧ w' = set_redis (w_redis w') w.
Proof.
  intros (r' & -> & [H|(He & [->|(y & H)])]) H0 Hok Herr; cbn.
  - by apply Hok in H as [? ?].
  - split; [done|]. split; [by apply Herr|done].
  - apply Hok in H as [? _]. split; [done|]. split; [by apply Herr|done].
Qed.

(** The messages in flight aside, anything may be acknowledged. *)
Definition permits (A : Licence) (w : World) : Prop := ∀ k id, id ∉ inflight k (w_redis w) → A k id.

Lemma any_permits w : permits any_ack w.
Proof. by intros k id. Qed.

Lemma redis_step A X (e : RedisE X) w x w' :
  redis_safe A e → redis_doc e w x w' → streams_ok (w_redis w) → permits A w →
  stream_step (acks (Rd e)) (w_redis w) (w_redis w') ∧ redis_answer A e x ∧
  w' = set_redis (w_redis w') w.
Proof.
  intros Hs Hd Hok HA. pose proof (stream_step_refl (acks (Rd e)) _ Hok) as Hrefl.
  destruct e; cbn [redis_safe] in Hs; apply (redis_cmd_keeps _ _ _ _ _ _ _ Hd);
    try done; cbn.
  - intros y r' (_ & id & Hid & ->). split; [by apply xadd_step|done].
  - intros y r'. subst g. destruct (xgroup_create _ _ _) eqn:E; intros [_ ->]; [|done].
    split; [by eapply xgroup_create_step|done].
  - destruct Hs as [-> Hnd]. intros y r' (Hg & now & Hx).
    destruct (xreadgroup _ _ _ _ _ _) as [l r1] eqn:E. destruct Hx as [-> ->].
    eapply xreadgroup_step in E as [? Hl]; [|exact Hok|exact Hnd|exact Hg]. split; [done|].
    destruct l; [done|]. eapply Forall_impl; [exact Hl|]. intros q Hq.
    eapply Forall_impl; [exact Hq|]. intros e [He Hin]. split; [done|]. by apply HA.
  - by intros [].
  - destruct Hs as [-> _]. intros y r' (_ & ->). split; [by apply xack_step|done].
  - destruct Hs as [-> _]. intros y r' (_ & now & Hx). destruct (xautoclaim _ _ _ _ _ _ _) as [l r1] eqn:E.
    destruct Hx as [-> ->]. by eapply xautoclaim_step.
  - by intros [].
  - intros y r' (-> & ->). split; [done|]. apply Hok.
  - by intros [].
  - intros y r' (_ & ->). split; [by apply streams_same_step|done].
  - intros y r' (_ & ->). done.
  - intros y r' (_ & ->). split; [by apply streams_same_step|done].
  - intros y r' (at_ & draw & Hx). specialize (Hs at_ draw (w_redis w)).
    destruct (script at_ draw (w_redis w)) as [z r1]. cbn in Hs. destruct Hx as [-> ->].
    split; [by apply streams_same_step|done].
Qed.

(** However often the command is sent. *)
Lemma redis_steps A n X (e : RedisE X) w x w' :
  redis_safe A e → resent_doc n e w x w' → streams_ok (w_redis w) → permits A w →
  stream_step (acks (Rd e)) (w_redis w) (w_redis w') ∧ redis_answer A e x ∧
  w' = set_redis (w_redis w') w.
Proof.
  intros Hs H Hok HA.
  assert (Hpermits : ∀ w1, stream_step (acks (Rd e)) (w_redis w) (w_redis w1) → permits A w1).
  { intros w1 (_ & _ & Hi) k id Hid. destruct (decide (id ∈ inflight k (w_redis w))) as [Hin|]; [|by apply HA].
    destruct (Hi k id Hin) as [?|Hack]; [done|]. destruct e; try done.
    cbn in Hs, Hack. destruct Hs as [_ Hs], Hack as (-> & _ & ->). done. }
  apply (resent_keeps (λ w1, stream_step (acks (Rd e)) (w_redis w) (w_redis w1) ∧ w1 = set_redis (w_redis w1) w))
    in H as (w1 & [Hst Ew] & H).
  - apply (redis_step A) in H as (Hst2 & Ha & ->); [|done|apply Hst|by apply Hpermits].
    split; [by eapply stream_step_trans|]. split; [done|]. rewrite Ew. done.
  - split; [by apply stream_step_refl|by destruct w].
  - intros w1 y w2 [Hst Ew] Hy. apply (redis_step A) in Hy as (Hst2 & _ & ->); [|done|apply Hst|by apply Hpermits].
    split; [by eapply stream_step_trans|]. rewrite Ew. done.
Qed.

(** ** One effect *)

Record system_ok (w : World) : Prop := {
  sy_db : db_ok (w_db w);
  sy_streams : streams_ok (w_redis w);
  sy_hub : hub_ok (w_hub w);
}.

(** What a step with the effect may do to the state. *)
Record system_step {X} (e : Eff X) (w w' : World) : Prop := {
  st_ok : system_ok w';
  st_evolves : evolves (abs (w_db w)) (abs (w_db w'));
  st_unacked : ∀ k id, id ∈ unacked k (w_redis w) → id ∈ unacked k (w_redis w') ∨ acks e k id;
  st_inflight : ∀ k id, id ∈ inflight k (w_redis w) → id ∈ inflight k (w_redis w') ∨ acks e k id;
}.

Section System.
Context {S : Services} {HS : ServicesOk S} {HO : SentOnce S}.

Lemma quiet_step {X} (e : Eff X) w w' :
  w_db w' = w_db w → w_redis w' = w_redis w → hub_ok (w_hub w') → system_ok w →
  system_step e w w'.
Proof.
  intros E1 E2 Hh [? ? _]. split; [split; by rewrite ?E1, ?E2|by rewrite E1|..];
    intros k id; rewrite E2; by left.
Qed.

Lemma effect_step A X (e : Eff X) w x w' :
  system_effect A _ e → permits A w → system_ok w → svc e w x w' →
  system_step e w w' ∧ system_answer A _ e x.
Proof.
  intros He HA Hok H. pose proof Hok as [Hdb Hst Hh].
  assert (Hq : quiet w w' → system_step e w w').
  { intros (t & _ & ->). by apply quiet_step. }
  assert (Hr : w' = w → system_step e w w').
  { intros ->. by apply quiet_step. }
  destruct e; cbn [system_effect] in He; try (split; [|done]).
  - apply postgres_doc in H. destruct (pg_frame _ _ _ _ _ H) as (E2 & E3 & _).
    apply pg_evolves in H as [? ?]; [|done..]. split; [split|done|..].
    1: done. 1: by rewrite E2. 1: by rewrite E3. all: intros k id; rewrite E2; by left.
  - apply redis_server_doc, (redis_steps A) in H as ((? & ? & ?) & Ha & ->); [|done..].
    split; [|done]. split; cbn; [by split|done..].
  - apply Hq. by eapply http_doc.
  - apply clock_doc in H as [_ ->]. by apply quiet_step.
  - apply Hr. by eapply uuid_doc.
  - apply Hr. by eapply ctx_doc.
  - apply Hq. by eapply sleep_or_done_doc.
  - apply Hq. by eapply sleep_doc.
  - apply Hq. by eapply ping_doc.
  - apply Hq. by eapply ws_accept_doc.
  - apply Hq. by eapply ws_read_doc.
  - apply memory_doc in H as [E ->]. apply quiet_step; [done|done| |done].
    cbn. specialize (He _ Hh). by rewrite <- E in He.
  - apply Hq. by eapply ws_write_doc.
  - apply Hr. by eapply ws_close_doc.
  - apply Hr. by eapply counter_doc.
  - apply Hr. by eapply histogram_doc.
  - done.
Qed.
End System.
