(* ===== verification/Running.v ===== *)
(** * The goroutines of the process keep the system well-formed

    Going through every program the process runs shows that it only has safe
    effects, as long as what it reads from the streams is readable. The system's
    theorems follow for every interleaving. *)

From stdpp Require Import gmap.
From S2P Require Import Prelude GoLib Domain Sql Redis RedisFacts Effects Discipline Frames.
From S2P Require Import RateLimitSpec NotificationRepo NotificationStore Typed Queue QueueSpec RateLimit Delivery.
From S2P Require Import Hub HubSpec Worker Validator Templates Service Api Wiring Interleave History.
From S2P Require Import System.

(** ** Going through a program *)

Create HintDb running.

Ltac safe_effect :=
  first [reflexivity | exact I | by split; [done|apply priority_streams_NoDup] | by split
        | by intros ? | done].

Ltac safe_step :=
  first
    [ solve [eauto with running]
    | exact I
    | apply only_bind; [|intros ?]
    | apply only_do; safe_effect
    | apply only_for_range; intros ?
    | match goal with
      | |- only _ (match ?x with _ => _ end) => destruct x
      end ].

Ltac safe_go := repeat safe_step.

Section Programs.
Context {T : UuidText} {TT : TimeText} {V : StructValidator} {TX : TextTemplate}
  {MP : MailParser} {TP : TimeParse} {JB : JsonBody} {A : Licence}.

(** ** Repositories *)

Lemma safe_GetByID id : only (system_effect A) (GetByID id).
Proof. unfold GetByID. safe_go. Qed.

Lemma safe_UpdateStatus id st le : only (system_effect A) (UpdateStatus id st le).
Proof.
  unfold UpdateStatus. apply only_bind; [by apply only_do|intros now].
  destruct (st =? StatusDelivered)%string; [|destruct (negb (le =? "")%string)]; safe_go.
Qed.

Lemma safe_Create n : only (system_effect A) (Create n).
Proof. unfold Create. safe_go. Qed.

Lemma safe_batch_inserts h now ns : only (system_effect A) (batch_inserts h now ns).
Proof. induction ns as [|n ns IH]; cbn [batch_inserts]; safe_go. Qed.

Lemma safe_CreateBatch ns : only (system_effect A) (CreateBatch ns).
Proof.
  unfold CreateBatch. apply only_bind; [by apply only_do|intros [h|e]]; [|done].
  apply only_bind; [by apply only_do|intros now].
  apply only_bind; [apply safe_batch_inserts|intros [ns' err]]. safe_go.
Qed.

Lemma safe_List f : only (system_effect A) (List f).
Proof. unfold List. destruct (build_conditions f) as [[c a] i]. safe_go. Qed.

Lemma safe_Cancel id : only (system_effect A) (Cancel id).
Proof. unfold Cancel, GetByID. safe_go. Qed.

Lemma safe_Fetch n : only (system_effect A) (FetchScheduledDue n).
Proof. unfold FetchScheduledDue. safe_go. Qed.

Lemma safe_Increment id : only (system_effect A) (IncrementAttempt id).
Proof. unfold IncrementAttempt. safe_go. Qed.

Lemma safe_CreateAttempt a : only (system_effect A) (CreateDeliveryAttempt a).
Proof. unfold CreateDeliveryAttempt. safe_go. Qed.

Lemma safe_GetAttempts id : only (system_effect A) (GetDeliveryAttempts id).
Proof. unfold GetDeliveryAttempts. safe_go. Qed.

Lemma safe_Template_Create t : only (system_effect A) (TemplateRepository_Create t).
Proof. unfold TemplateRepository_Create. safe_go. Qed.

Lemma safe_Template_GetByID id : only (system_effect A) (TemplateRepository_GetByID id).
Proof. unfold TemplateRepository_GetByID. safe_go. Qed.

Lemma safe_Template_List : only (system_effect A) TemplateRepository_List.
Proof. unfold TemplateRepository_List. safe_go. Qed.

Lemma safe_Template_Update id req : only (system_effect A) (TemplateRepository_Update id req).
Proof.
  unfold TemplateRepository_Update. destruct (set_clauses req) as [[c a] i].
  destruct (_ =? 0)%nat; [apply safe_Template_GetByID|]. safe_go.
Qed.

Lemma safe_Template_Delete id : only (system_effect A) (TemplateRepository_Delete id).
Proof. unfold TemplateRepository_Delete. safe_go. Qed.

(** ** Queue, limiter, hub, providers *)

Lemma safe_Enqueue id ch p : only (system_effect A) (Enqueue id ch p).
Proof. unfold Enqueue. safe_go. Qed.

Lemma safe_EnqueueDelayed id ch p t : only (system_effect A) (EnqueueDelayed id ch p t).
Proof. unfold EnqueueDelayed. safe_go. Qed.

Lemma safe_Pop now n : only (system_effect A) (PopDelayedDue now n).
Proof. unfold PopDelayedDue. safe_go. Qed.

Lemma safe_Push id ch e : only (system_effect A) (Push id ch e).
Proof. unfold Push. safe_go. Qed.

Lemma safe_Ack k id : A k id → only (system_effect A) (Ack k id).
Proof. intros Ha. unfold Ack. safe_go. Qed.


Lemma safe_Allow mx ch : only (system_effect A) (Allow mx ch).
Proof.
  unfold Allow. apply only_bind; [by apply only_do|intros t].
  apply only_bind; [apply only_do; intros at_ draw r; apply script_spares|]. intros []; safe_go.
Qed.

Lemma safe_Broadcast id st : only (system_effect A) (Broadcast id st).
Proof. unfold Broadcast. safe_go. Qed.

Lemma safe_HandleWebSocket fuel rw id : only (system_effect A) (HandleWebSocket fuel rw id).
Proof.
  assert (Hl : ∀ c, only (system_effect A) (read_loop fuel c)).
  { intros c. induction fuel as [|fuel IH]; cbn [read_loop]; safe_go. }
  unfold HandleWebSocket. destruct (uuid_Parse id); [|done].
  apply only_bind; [by apply only_do|intros [c|e]; [|done]].
  apply only_bind; [apply only_do; intros h; by apply subscribe_ok|intros _].
  apply only_bind; [apply Hl|intros []; [|done]].
  apply only_bind; [|done]. apply only_bind; [apply only_do; intros h; by apply unsubscribe_ok|].
  intros _. by apply only_do.
Qed.

Definition safe_providers (d : Dispatcher) : Prop :=
  map_Forall (λ _ p, ∀ n, only (system_effect A) (Send p n)) (dp_providers d).

Lemma main_safe_providers cfg : safe_providers (main_dispatcher cfg).
Proof.
  repeat apply map_Forall_insert_2; [..|apply map_Forall_empty]; intros n; cbn [Send];
    unfold Email_Send, SMS_Send, Push_Send, since_ms; safe_go.
Qed.
End Programs.

#[export] Hint Resolve safe_GetByID safe_UpdateStatus safe_Create safe_CreateBatch safe_List
  safe_Cancel safe_Fetch safe_Increment safe_CreateAttempt safe_GetAttempts safe_Template_Create
  safe_Template_GetByID safe_Template_List safe_Template_Update safe_Template_Delete safe_Enqueue
  safe_EnqueueDelayed safe_Pop safe_Push safe_Ack safe_Allow safe_Broadcast
  safe_HandleWebSocket : running.

(** ** Programs that read the streams *)

Section Reading.
Context {A : Licence}.

Abbreviation safe p := (guarded (system_effect A) (system_answer A) p).
Abbreviation gives Q p := (assured (system_answer A) Q p).

(** The message may be acknowledged. *)
Definition may_ack (m : Message) : Prop := A (m_StreamID m) (m_MessageID m).

Lemma safe_messages_of k es : Forall (may_handle A k) es → safe (messages_of k es).
Proof.
  induction 1 as [|e es [He _] _ IH]; [done|]. cbn [messages_of]. unfold message_of.
  unfold entry_ok, readable in He. bool_hyps. destruct (field "notification_id" _); [|by destruct H].
  destruct (field "channel" _); [|by destruct H0]. apply guarded_bind; [done|intros m].
  apply guarded_bind; [done|]. by intros ms.
Qed.

Lemma messages_of_may_ack k es :
  Forall (may_handle A k) es → gives (Forall may_ack) (messages_of k es).
Proof.
  induction 1 as [|e es [He Ha] _ IH]; [by constructor|]. cbn [messages_of]. unfold message_of.
  destruct (field "notification_id" _); [|intros []]. destruct (field "channel" _); [|intros []].
  eapply (assured_bind _ may_ack); [exact Ha|intros m Hm]. eapply assured_bind; [exact IH|].
  intros ms Hms. by constructor.
Qed.

Definition read_ok (p : string * list Entry) : Prop := Forall (may_handle A p.1) p.2.

Lemma safe_stream_messages l : Forall read_ok l → safe (stream_messages l).
Proof.
  induction 1 as [|[k es] l He _ IH]; [done|]. cbn [stream_messages].
  apply guarded_bind; [by apply safe_messages_of|intros ms]. apply guarded_bind; [done|]. by intros ms'.
Qed.

Lemma stream_messages_may_ack l :
  Forall read_ok l → gives (Forall may_ack) (stream_messages l).
Proof.
  induction 1 as [|[k es] l He _ IH]; [by constructor|]. cbn [stream_messages].
  eapply assured_bind; [by apply messages_of_may_ack|intros ms Hms].
  eapply assured_bind; [exact IH|]. intros ms' Hms'. by apply Forall_app.
Qed.

Definition reply_may_ack (r : result error (list Message)) : Prop :=
  match r with Ok ms => Forall may_ack ms | Er _ => True end.

Lemma safe_ReadMessages c n : safe (ReadMessages c n).
Proof.
  unfold ReadMessages. apply guarded_do; [by split; [|apply priority_streams_NoDup]|].
  intros [[l|]|e] Hx; [|done..]. apply guarded_bind; [by apply safe_stream_messages|]. by intros ms.
Qed.

Lemma ReadMessages_may_ack c n : gives reply_may_ack (ReadMessages c n).
Proof.
  unfold ReadMessages. intros [[l|]|e] Hx; [|by constructor|done].
  apply (assured_bind _ (Forall may_ack) _ (stream_messages l));
    [by apply stream_messages_may_ack|by intros ms].
Qed.
End Reading.

Section Workers.
Context {T : UuidText} {TT : TimeText} {A : Licence}.

Lemma safe_rate_gate fuel mx ch : only (system_effect A) (rate_gate fuel mx ch).
Proof. induction fuel as [|fuel IH]; cbn [rate_gate]; safe_go. Qed.

Lemma safe_settle n msg r : may_ack (A := A) msg → only (system_effect A) (settle n msg r).
Proof. intros Hm. unfold may_ack in Hm. unfold settle. safe_go. Qed.

Lemma safe_processMessage fuel d msg :
  safe_providers (A := A) d → may_ack (A := A) msg → only (system_effect A) (processMessage fuel d msg).
Proof.
  intros Hp Hm. pose proof Hm as Ha. unfold may_ack in Ha. unfold processMessage. destruct (uuid_Parse _); [|safe_go].
  apply only_bind; [apply safe_rate_gate|intros []; [|done..]]. apply only_bind; [|done].
  unfold process_notification. apply only_bind; [apply safe_GetByID|intros [n|e]]; [|safe_go].
  destruct (_ || _ || _); [safe_go|].
  apply only_bind; [apply safe_UpdateStatus|intros _].
  destruct (dp_providers d !! n_Channel n) as [p|] eqn:Ep; [|safe_go].
  apply only_bind; [|intros r; by apply safe_settle]. unfold deliver_once.
  apply only_bind; [by apply only_do|intros start].
  apply only_bind; [apply (Hp _ _ Ep)|intros r]. safe_go.
Qed.

Lemma safe_process_all fuel d l :
  safe_providers (A := A) d → Forall (may_ack (A := A)) l → only (system_effect A) (process_all fuel d l).
Proof.
  intros Hp. induction 1 as [|m l Hm _ IH]; [done|]. cbn [process_all].
  apply only_bind; [by apply safe_processMessage|]. by intros [].
Qed.

Lemma safe_Work rounds fuel d :
  safe_providers (A := A) d → guarded (system_effect A) (system_answer A) (Work rounds fuel d).
Proof.
  intros Hp. induction rounds as [|rounds IH]; [done|]. cbn [Work]. apply guarded_do; [done|].
  intros [] _; [done|].
  eapply guarded_bind_with; [apply safe_ReadMessages|apply ReadMessages_may_ack|intros [ms|e] Hms].
  - apply guarded_bind; [by apply guarded_only, safe_process_all|]. by intros [].
  - apply guarded_do; [done|]. intros [] _; [done|]. by apply guarded_do.
Qed.

Lemma safe_ProcessDelayed ticks : only (system_effect A) (ProcessDelayed ticks).
Proof.
  induction ticks as [|ticks IH]; [done|]. cbn [ProcessDelayed].
  apply only_bind; [by apply only_do|intros []; [done|]]. apply only_bind; [|done].
  unfold processDelayedBatch. apply only_bind; [by apply only_do|intros t].
  apply only_bind; [apply safe_Pop|intros [ms|e]; [|done]]. apply only_for_range. intros m.
  unfold requeue. destruct (parseMember m) as [[|p0 [|p1 [|p2 []]]]|]; safe_go.
Qed.

Lemma safe_Run ticks iv n :
  0 < iv ∨ may_panic A = true → only (system_effect A) (Run ticks iv n).
Proof.
  intros Hiv. unfold Run. destruct (iv <=? 0) eqn:Hp; [apply Z.leb_le in Hp; split; [|done]; cbn; by destruct Hiv; [lia|]|].
  clear Hiv. induction ticks as [|ticks IH]; [done|]. cbn [run_loop].
  apply only_bind; [by apply only_do|intros []; [done|]]. apply only_bind; [|done].
  unfold poll. safe_go.
Qed.
End Workers.

Section Requests.
Context {T : UuidText} {V : StructValidator} {TX : TextTemplate} {MP : MailParser}
  {TP : TimeParse} {JB : JsonBody} {A : Licence}.
Context (svc : NotificationService).

Lemma safe_from_template f r req n : only (system_effect A) (from_template f r req n).
Proof.
  unfold from_template. destruct (r_TemplateID req); [|done].
  apply only_bind; [apply safe_Template_GetByID|intros [t|e]; [|done]].
  by destruct (Render t (r_TemplateVars req)) as [[]|].
Qed.

Lemma safe_enqueue_pending n : only (system_effect A) (enqueue_pending svc n).
Proof. unfold enqueue_pending. destruct (_ && _); safe_go. Qed.

Lemma safe_Service_Create req : only (system_effect A) (NotificationService_Create svc req).
Proof.
  unfold NotificationService_Create. destruct (ValidateStruct _); [done|].
  destruct (negb _); [done|]. destruct (negb _); [done|].
  apply only_bind; [apply safe_from_template|intros [n|e]; [|done]].
  destruct (ValidateNotificationContent _ _ _ _); [done|].
  apply only_bind; [apply safe_Create|intros [m []]]; [done|].
  apply only_bind; [apply safe_enqueue_pending|done].
Qed.

Lemma safe_batch_members b i l : only (system_effect A) (batch_members svc b i l).
Proof.
  revert i. induction l as [|r l IH]; intros i; [done|]. cbn [batch_members].
  apply only_bind; [|intros [n|e]; [|done]].
  - unfold batch_member. destruct (negb _); [done|]. destruct (negb _); [done|].
    apply only_bind; [apply safe_from_template|intros [n|e]; [|done]].
    by destruct (ValidateNotificationContent _ _ _ _).
  - apply only_bind; [apply IH|]. by intros [].
Qed.

Lemma safe_Service_CreateBatch req : only (system_effect A) (NotificationService_CreateBatch svc req).
Proof.
  assert (He : ∀ ns, only (system_effect A) (enqueue_batch svc ns)).
  { induction ns as [|n ns IH]; [done|]. cbn [enqueue_batch].
    apply only_bind; [apply safe_enqueue_pending|intros m]. by apply only_bind. }
  unfold NotificationService_CreateBatch. destruct (ValidateStruct _); [done|].
  destruct (_ <? _); [done|]. apply only_bind; [by apply only_do|intros b].
  apply only_bind; [apply safe_batch_members|intros [ns|e]; [|done]].
  apply only_bind; [apply safe_CreateBatch|intros [ms []]]; [done|].
  apply only_bind; [apply He|done].
Qed.

Lemma safe_Template_service_Create req : only (system_effect A) (TemplateService_Create req).
Proof.
  unfold TemplateService_Create. destruct (ValidateStruct _); [done|]. destruct (negb _); [done|].
  destruct (template_Parse _ _); [|done]. apply only_bind; [apply safe_Template_Create|].
  by intros [t []].
Qed.

Lemma safe_Template_service_Update id req : only (system_effect A) (TemplateService_Update id req).
Proof.
  unfold TemplateService_Update. destruct (ValidateStruct _); [done|].
  destruct (ut_Body req) as [b|]; [destruct (template_Parse _ _); [|done]|];
    apply safe_Template_Update.
Qed.

Lemma safe_serve reads rw req r : only (system_effect A) (serve svc reads rw req r).
Proof.
  destruct r; cbn [serve]; try done; apply only_bind; try done.
  - unfold NotificationHandler_Create. destruct (Decode_CreateNotification _); [|done].
    apply only_bind; [apply safe_Service_Create|done].
  - unfold NotificationHandler_CreateBatch. destruct (Decode_BatchCreate _); [|done].
    apply only_bind; [apply safe_Service_CreateBatch|done].
  - unfold NotificationHandler_Get, NotificationService_GetByID. safe_go.
  - unfold NotificationHandler_List, NotificationService_List.
    destruct (parse_filter _); safe_go.
  - unfold NotificationHandler_ListByBatch, NotificationService_List. safe_go.
  - unfold NotificationHandler_Cancel, NotificationService_Cancel. safe_go.
  - unfold NotificationHandler_GetAttempts, NotificationService_GetDeliveryAttempts. safe_go.
  - unfold TemplateHandler_Create. destruct (Decode_CreateTemplate _); [|done].
    apply only_bind; [apply safe_Template_service_Create|done].
  - unfold TemplateHandler_List, TemplateService_List. safe_go.
  - unfold TemplateHandler_Get, TemplateService_GetByID. safe_go.
  - unfold TemplateHandler_Update. destruct (uuid_Parse _); [|done].
    destruct (Decode_UpdateTemplate _); [|done].
    apply only_bind; [apply safe_Template_service_Update|done].
  - unfold TemplateHandler_Delete, TemplateService_Delete. safe_go.
  - apply safe_HandleWebSocket.
Qed.

Lemma only_recover {B} (p : prog B) : only (system_effect A) p → only (system_effect A) (recover p).
Proof.
  induction p as [a|X e k IH]; [done|]. intros [He Hk]. cbn [recover].
  destruct e; try (split; [done|]; intros x; apply IH, Hk). done.
Qed.

Lemma safe_logged reads req :
  only (system_effect A) (Logging (λ rw, ServeMux svc reads rw req) serverWriter).
Proof.
  unfold Logging. apply only_bind; [by apply only_do|intros start].
  apply only_bind; [|intros a; by apply only_bind; [apply only_do|]].
  unfold ServeMux. destruct (route _ _); [apply safe_serve|done..].
Qed.

Lemma safe_NewRouter reads req : only (system_effect A) (NewRouter svc reads req).
Proof.
  assert (Hr : only (system_effect A) (Recovery (Logging (λ rw, ServeMux svc reads rw req) serverWriter))).
  { unfold Recovery. apply only_bind; [|by intros []]. apply only_recover, safe_logged. }
  unfold NewRouter, RequestID. destruct (_ =? _)%string.
  - apply only_bind; [by apply only_do|intros u]. by apply only_bind.
  - by apply only_bind.
Qed.
End Requests.

(** ** The system *)

(** The goroutine is about to panic. *)
Definition panicking (p : prog unit) : Prop := match p with Vis Panic _ => True | _ => False end.

(** The run acknowledged the message. *)
Definition acked (tr : list Event) (k : string) (id : EntryID) : Prop :=
  Exists (λ ev, match ev with Ev e _ => acks e k id end) tr.

Section Theorems.
Context {T : UuidText} {TT : TimeText} {V : StructValidator} {TX : TextTemplate}
  {MP : MailParser} {TP : TimeParse} {JB : JsonBody} {S : Services} {HS : ServicesOk S} {HO : SentOnce S}.

Lemma main_threads_safe A cfg rounds fuel ticks reads reqs :
  0 < wc_SchedulerInterval (cf_Worker cfg) ∨ may_panic A = true →
  Forall (guarded (system_effect A) (system_answer A)) (main_threads cfg rounds fuel ticks reads reqs).
Proof.
  intros Hp. unfold main_threads, pool_threads. rewrite !Forall_app. split_and!.
  - apply Forall_replicate. apply guarded_bind; [apply safe_Work, main_safe_providers|done].
  - repeat constructor; apply guarded_only; [apply safe_ProcessDelayed|by apply safe_Run].
  - apply Forall_fmap, Forall_true. intros req. apply guarded_bind; [|done].
    apply guarded_only, safe_NewRouter.
Qed.

Lemma interleaves_unacked ts w tr ts' w' k id :
  Forall (guarded (system_effect any_ack) (system_answer any_ack)) ts → system_ok w → interleaves ts w tr ts' w' →
  id ∈ unacked k (w_redis w) → id ∈ unacked k (w_redis w') ∨ acked tr k id.
Proof.
  intros Hts Hi H. revert Hts Hi.
  induction H as [ts w|ts i X e j w x w1 tr ts' w' Hk Hs H IH]; intros Hts Hi Hid; [by left|].
  pose proof (proj1 (Forall_lookup _ _) Hts _ _ Hk) as [He Hg].
  destruct (effect_step any_ack _ _ _ _ _ He (any_permits _) Hi Hs) as [[Hi1 _ Hu _] Hx].
  apply Hu in Hid as [Hid|Ha]; [|right; by constructor].
  apply IH in Hid as [Hid|Ha]; [by left| |by apply Forall_insert, Hg|done].
  right. by constructor 2.
Qed.

Lemma system_invariant A cfg rounds fuel ticks reads reqs w tr ts' w' :
  (∀ w, permits A w) → 0 < wc_SchedulerInterval (cf_Worker cfg) ∨ may_panic A = true →
  system_ok w → interleaves (main_threads cfg rounds fuel ticks reads reqs) w tr ts' w' →
  system_ok w' ∧ Forall (guarded (system_effect A) (system_answer A)) ts'.
Proof.
  intros HA Hp Hi H. apply (interleaves_inv system_ok (system_effect A) (system_answer A)) in H;
    [done|intros X e w1 x w2 He Hw Hs|by apply main_threads_safe|done].
  apply (effect_step A) in Hs as [[] ?]; [|done..]. by split.
Qed.

(** A goroutine that has come to a panic goes no further. *)
Lemma interleaves_panicking ts w tr ts' w' i p :
  interleaves ts w tr ts' w' → ts !! i = Some p → panicking p → ts' !! i = Some p.
Proof.
  intros H Hi Hp. induction H as [|ts j X e k w x w1 tr ts' w' Hj _ _ IH]; [done|].
  apply IH. rewrite list_lookup_insert_ne; [done|]. intros ->.
  rewrite Hj in Hi. injection Hi as <-. by destruct e.
Qed.

Lemma scheduler_panics cfg rounds fuel ticks reads reqs :
  wc_SchedulerInterval (cf_Worker cfg) <= 0 →
  ∃ i, main_threads cfg rounds fuel ticks reads reqs !! i = Some panic.
Proof.
  intros Hn. exists (length (pool_threads cfg rounds fuel) + 1)%nat. unfold main_threads.
  rewrite lookup_app_r, Nat.add_sub_swap, Nat.sub_diag by lia. cbn. unfold Run.
  by rewrite (proj2 (Z.leb_le _ _) Hn).
Qed.

(** (C10) However the goroutines of the process (workers, retries, scheduler, any
    requests) interleave, whatever the backends answer: the tables satisfy
    the schema, the streams and their entries and the hub stay well-formed;
    and a goroutine has come to a panic exactly if the configured interval of
    the scheduler is not positive, which [time.NewTicker] does not accept. *)
Theorem system_stays_wellformed cfg rounds fuel ticks reads reqs w tr ts' w' :
  system_ok w → interleaves (main_threads cfg rounds fuel ticks reads reqs) w tr ts' w' →
  system_ok w' ∧ (Exists panicking ts' ↔ wc_SchedulerInterval (cf_Worker cfg) <= 0).
Proof.
  intros Hi H. split; [|split].
  - apply (system_invariant any_ack) in H as [? _]; [done|done|by right|done].
  - intros Hp. apply Z.nlt_ge. intros Hpos.
    apply (system_invariant unless_panic) in H as [_ Hts]; [|done|by left|done].
    apply Exists_exists in Hp as (p & Hin & Hp). rewrite Forall_forall in Hts.
    specialize (Hts p Hin). destruct p as [|X e k]; [done|]. destruct Hts as [He _]. by destruct e.
  - intros [i Hs]%(scheduler_panics cfg rounds fuel ticks reads reqs).
    eapply interleaves_panicking in Hs; [|exact H|done].
    apply Exists_exists. exists panic. split; [by eapply list_elem_of_lookup_2|done].
Qed.

(** (C11) What is stored is well-typed, at every moment of every interleaving and
    whatever the backends answer: every row of the table can be scanned into
    a notification, under its own id; its channel, priority and status are
    constants of the program, its numbers fit the columns' 32 bits, its texts
    the columns' lengths, its creation time is in whole microseconds; and no
    two notifications have the same idempotency key. *)
Theorem stored_notifications_typed cfg rounds fuel ticks reads reqs w tr ts' w' :
  system_ok w → interleaves (main_threads cfg rounds fuel ticks reads reqs) w tr ts' w' →
  rows_typed (w_db w').
Proof. intros Hi H. apply (system_invariant any_ack) in H as [Hi' _]; [by apply db_ok_typed, Hi'|done|by right|done]. Qed.

(** (C12) Nor does any interleaving lose or rewrite a notification: every one
    that was stored is still stored, with the same recipient, content,
    channel, priority, schedule and retry limit, and its attempt count has
    not decreased. *)
Theorem notifications_are_kept cfg rounds fuel ticks reads reqs w tr ts' w' :
  system_ok w → interleaves (main_threads cfg rounds fuel ticks reads reqs) w tr ts' w' →
  evolves (abs (w_db w)) (abs (w_db w')).
Proof.
  intros Hi H. set (Q w1 w2 := evolves (abs (w_db w1)) (abs (w_db w2))).
  assert (PreOrder Q) by (split; [intros w1; apply (reflexivity (R := evolves))|intros w1 w2 w3; apply (transitivity (R := evolves))]).
  apply (interleaves_rel system_ok Q (system_effect any_ack) (system_answer any_ack)) in H; try done.
  - intros X e w1 x w2 He Hw Hs. apply (effect_step any_ack) in Hs as [[] ?]; [|done..]. done.
  - apply main_threads_safe. by right.
Qed.

(** (C13) Messages are delivered at least once: a message waiting in a stream or
    in flight stays there until some worker acknowledges it. *)
Theorem messages_stay_until_acked cfg rounds fuel ticks reads reqs w tr ts' w' k id :
  system_ok w → interleaves (main_threads cfg rounds fuel ticks reads reqs) w tr ts' w' →
  id ∈ unacked k (w_redis w) → id ∈ unacked k (w_redis w') ∨ acked tr k id.
Proof. intros. eapply interleaves_unacked; [apply main_threads_safe; by right|done..]. Qed.
End Theorems.
