(* ===== verification/Answers.v ===== *)
(** * What a request is answered with

    The answer that leaves the router, with the middleware around the handlers:
    no server error without a fault, and a refusal for every WebSocket. *)

From stdpp Require Import gmap.
From S2P Require Import Prelude GoLib Domain Sql Redis RedisFacts Effects Discipline Frames.
From S2P Require Import NotificationRepo NotificationStore NotificationSpec Attempts Queue QueueSpec Delivery DeliverySpec.
From S2P Require Import Worker WorkerSpec Validator Templates Service Hub Api ApiSpec Interleave System Running.

Section Answers.
Context {T : UuidText} {V : StructValidator} {TX : TextTemplate} {MP : MailParser}
  {TP : TimeParse} {JB : JsonBody} {S : Services} {HS : ServicesOk S}.

(** A handler that does not panic needs no recovery. *)
Lemma exec_recover {A} (p : prog A) w tr x w' :
  only (system_effect unless_panic) p → exec (recover p) w tr x w' →
  ∃ a, x = Some a ∧ exec p w tr a w'.
Proof.
  revert w tr. induction p as [b|X e k IH]; intros w tr Hp H.
  - destruct H as (-> & -> & ->). by exists b.
  - destruct Hp as [He Hk].
    assert (Hv : exec (Vis e (λ y, recover (k y))) w tr x w') by (destruct e; [exact H..|done]).
    destruct Hv as (y & w1 & tr1 & -> & Hs & Hr). apply IH in Hr as (a & -> & Hr); [|done].
    exists a. split; [done|]. by exists y, w1, tr1.
Qed.

(** The middleware: the clock and an id, no more. *)
Lemma exec_NewRouter svc reads req w tr rid a w' :
  exec (NewRouter svc reads req) w tr (rid, a) w' →
  (rq_RequestID req ≠ "" → rid = rq_RequestID req) ∧
  ∃ w1 tr1 tr2 tr3 w2, quiet w w1 ∧ tr = tr1 ++ tr2 ++ tr3 ∧
    exec (ServeMux svc reads (responseWriter serverWriter StatusOK) req) w1 tr2 a w2.
Proof.
  assert (Hr : ∀ w tr a w', exec (Recovery (Logging (λ rw, ServeMux svc reads rw req) serverWriter)) w tr a w' →
    ∃ w1 tr1 tr2 tr3 w2, quiet w w1 ∧ tr = tr1 ++ tr2 ++ tr3 ∧
      exec (ServeMux svc reads (responseWriter serverWriter StatusOK) req) w1 tr2 a w2).
  { clear w tr a w'. intros w tr a w' H. unfold Recovery in H. exec_step H.
    apply exec_recover in Hx as (b & -> & Hx); [|apply safe_logged].
    destruct H as (-> & -> & ->). unfold Logging in Hx.
    exec_step Hx. apply now_quiet in Hx0 as (_ & _ & _ & Hq).
    apply exec_bind in Hx as (a & w2 & tr2 & tr3 & -> & Hs & Hx).
    apply exec_bind in Hx as (? & ? & ? & ? & _ & _ & Hx). destruct Hx as (_ & -> & _).
    exists w1, tr, tr2, (tr3 ++ []), w2. split; [exact Hq|]. split; [by rewrite <- !app_assoc|exact Hs]. }
  intros H. unfold NewRouter, RequestID in H. destruct (String.eqb_spec (rq_RequestID req) "") as [E|E].
  - exec_step H. apply exec_newv7 in Hx as (-> & ->). exec_step H.
    destruct H as (-> & [= -> ->] & ->). split; [done|].
    apply Hr in Hx as (w1 & tr1 & tr2 & tr3 & w2 & ? & -> & ?).
    eexists w1, (_ :: tr1), tr2, (tr3 ++ _), w2. split; [done|]. split; [|done].
    cbn. rewrite <- !app_assoc. reflexivity.
  - exec_step H. destruct H as (-> & [= -> ->] & ->). split; [done|].
    apply Hr in Hx as (w1 & tr1 & tr2 & tr3 & w2 & ? & -> & ?).
    exists w1, tr1, tr2, (tr3 ++ []), w2. split; [done|]. by rewrite <- !app_assoc.
Qed.

(** (C26) A server error is never the program's own doing. Whatever the request,
    the answer that leaves the router is 500 or more only when a server
    reported an error in the course of it (Redis, or Postgres one that is not a
    unique violation; a value that the database rejects is such an error), or
    with the 503 of a readiness check that found a backend unhealthy. Two
    answers are not the program's to write: the metrics page; and the refusal
    that a WebSocket handshake ends in, always, if the id is a UUID. *)
Theorem no_server_error svc reads req w tr rid a w' :
  world_ok w → log_ok (w_db w) → fault_free tr →
  exec (NewRouter svc reads req) w tr (rid, a) w' →
  match route (rq_Method req) (rq_Path req) with
  | Serve r => answered r a
  | MethodNotAllowed => ∃ resp, a = AResponse resp ∧ rs_status resp = 405
  | NotFound => ∃ resp, a = AResponse resp ∧ rs_status resp = 404
  end.
Proof.
  intros Hw Hlog Hff H. apply exec_NewRouter in H as (_ & w1 & tr1 & tr2 & tr3 & w2 & Hq & -> & H).
  apply fault_free_app in Hff as [_ [Hff _]%fault_free_app].
  apply quiet_worker in Hq as (_ & D & R). unfold ServeMux in H.
  destruct (route _ _) as [r| |]; [|destruct H as (_ & -> & _); by eexists..].
  eapply (serve_answers svc reads (responseWriter serverWriter StatusOK)); [done| | |exact Hff|exact H]; [unfold world_ok; by rewrite D, R|by rewrite D].
Qed.
End Answers.
