(* ===== verification/Shutdown.v ===== *)
(** * Shutting down and starting again

    [run] ends the context and waits for the pool ([Pool.Wait]): every worker,
    wherever it is, returns after a bounded number of further calls. What was in
    flight then stays in flight: no later run of the process takes it up. *)

From stdpp Require Import gmap.
From S2P Require Import Prelude GoLib Domain Retry Redis RedisFacts Effects Discipline.
From S2P Require Import NotificationRepo Queue QueueSpec RateLimit Delivery Hub Worker Validator.
From S2P Require Import Templates Service Api Wiring Interleave System Running.

(** ** Programs that stop *)

(** The effects that wait for something outside the process. *)
Definition waits {X} (e : Eff X) : bool :=
  match e with
  | Pg _ | Rd _ | HttpPost _ _ | CtxErr | SleepOrDone _ | Sleep _ | Ping _ | WsAccept _ | WsRead _ => true
  | Now | NewV7 | Mem _ | WsWrite _ _ | WsClose _ | Inc _ _ | Observe _ _ _ | Panic => false
  end.

Definition AnswerPred : Type := ∀ X, Eff X → X → Prop.

(** XREADGROUP keeps to its COUNT, for each stream. *)
Definition counted : AnswerPred := λ X e x,
  match e in Eff Y return Y → Prop with
  | Rd e => match e in RedisE Y return Y → Prop with
            | XReadGroup _ _ ks n => λ x,
                match x with
                | Ok (Some l) => (length l ≤ length ks)%nat ∧
                                 Forall (λ p, (length p.2 ≤ Z.to_nat n)%nat) l
                | _ => True
                end
            | _ => λ _, True
            end
  | _ => λ _, True
  end x.

(** An answer after the context has ended. *)
Definition ended : AnswerPred := λ X e x,
  counted X e x ∧
  match e in Eff Y return Y → Prop with
  | CtxErr | SleepOrDone _ => λ x, x = true
  | _ => λ _, True
  end x.

Definition anything : AnswerPred := λ X e x, True.

(** [p] returns after at most [n] effects that wait, if the answers satisfy [R]. *)
Fixpoint stops_within (R : AnswerPred) (n : nat) {A} (p : prog A) : Prop :=
  match p with
  | Ret _ => True
  | Vis e k =>
      if waits e then
        match n with
        | O => False
        | S n => ∀ x, R _ e x → stops_within R n (k x)
        end
      else ∀ x, R _ e x → stops_within R n (k x)
  end.

(** Wherever [p] is, it stops within [n] effects once the context has ended. *)
Fixpoint always_stops (n : nat) {A} (p : prog A) : Prop :=
  stops_within ended n p ∧
  match p with Ret _ => True | Vis e k => ∀ x, counted _ e x → always_stops n (k x) end.

Lemma stops_mono R n m {A} (p : prog A) : (n ≤ m)%nat → stops_within R n p → stops_within R m p.
Proof.
  revert n m. induction p as [a|X e k IH]; intros n m Hnm; [done|]. cbn. destruct (waits e).
  - destruct n as [|n]; [done|]. destruct m as [|m]; [lia|].
    intros H x Hx. eapply IH; [|by apply H]. lia.
  - intros H x Hx. eapply IH; [done|by apply H].
Qed.

Lemma stops_weaken (R R' : AnswerPred) n {A} (p : prog A) :
  (∀ X (e : Eff X) x, R' _ e x → R _ e x) → stops_within R n p → stops_within R' n p.
Proof.
  intros HR. revert n. induction p as [a|X e k IH]; intros n; [done|]. cbn.
  destruct (waits e); [|intros H x Hx; by apply IH, H, HR].
  destruct n as [|n]; [done|]. intros H x Hx. by apply IH, H, HR.
Qed.

Lemma stops_bind R (n m : nat) {A B} (Q : A → Prop) (p : prog A) (f : A → prog B) :
  stops_within R n p → assured R Q p → (∀ a, Q a → stops_within R m (f a)) →
  stops_within R (n + m) (bind p f).
Proof.
  intros Hp HQ Hf. revert n Hp. induction p as [a|X e k IH]; intros n Hp.
  { eapply stops_mono; [|by apply Hf]. lia. }
  change (bind (Vis e k) f) with (Vis e (λ x, bind (k x) f)).
  cbn in *. destruct (waits e).
  - destruct n as [|n]; [done|]. cbn. intros x Hx. apply IH; [by apply HQ|by apply Hp].
  - intros x Hx. apply IH; [by apply HQ|by apply Hp].
Qed.

Lemma assured_any R {A} (p : prog A) : assured R (λ _, True) p.
Proof. induction p as [a|X e k IH]; [done|]. cbn. auto. Qed.

(** The form for going through a program with its bound in hand. *)
Lemma stops_seq R (n m : nat) {A B} (p : prog A) (f : A → prog B) :
  stops_within R n p → (n ≤ m)%nat → (∀ a, stops_within R (m - n) (f a)) →
  stops_within R m (bind p f).
Proof.
  intros Hp Hle Hf. replace m with (n + (m - n))%nat by lia.
  eapply stops_bind; [done|apply assured_any|auto].
Qed.

Lemma stops_wait R n {X B} (e : Eff X) (f : X → prog B) :
  waits e = true → (∀ x, R _ e x → stops_within R n (f x)) → stops_within R (Datatypes.S n) (bind (do e) f).
Proof. intros He H. change (stops_within R (Datatypes.S n) (Vis e f)). cbn. by rewrite He. Qed.

Lemma stops_free R n {X B} (e : Eff X) (f : X → prog B) :
  waits e = false → (∀ x, R _ e x → stops_within R n (f x)) → stops_within R n (bind (do e) f).
Proof. intros He H. change (stops_within R n (Vis e f)). cbn. by rewrite He. Qed.

Lemma stops_for_range R {A} (l : list A) body :
  (∀ x, stops_within R 0 (body x)) → stops_within R 0 (for_range l body).
Proof.
  intros H. induction l as [|x l IH]; [done|]. cbn [for_range].
  by eapply (stops_seq R 0 0); [apply H|lia|].
Qed.

Lemma always_mono n m {A} (p : prog A) : (n ≤ m)%nat → always_stops n p → always_stops m p.
Proof.
  intros Hnm. induction p as [a|X e k IH]; [done|]. intros [Hs Hk].
  split; [by eapply stops_mono|]. intros x Hx. by apply IH, Hk.
Qed.

Lemma always_bind (n m b : nat) {A B} (Q : A → Prop) (p : prog A) (f : A → prog B) :
  always_stops n p → assured counted Q p → (∀ a, Q a → stops_within ended m (f a)) →
  (n + m ≤ b)%nat → (∀ a, Q a → always_stops b (f a)) → always_stops b (bind p f).
Proof.
  intros Hp HQ Hm Hb Hf. induction p as [a|X e k IH]; [by apply Hf|].
  assert (Hs : stops_within ended b (bind (Vis e k) f)).
  { eapply stops_mono; [exact Hb|]. eapply stops_bind; [apply Hp| |exact Hm].
    eapply assured_weaken; [|exact HQ]. by intros ?? x []. }
  destruct Hp as [_ Hk]. split; [exact Hs|]. intros x Hx. apply IH; [by apply Hk|by apply HQ].
Qed.

Lemma always_wait (n b : nat) {X B} (e : Eff X) (f : X → prog B) :
  waits e = true → (∀ x, ended _ e x → stops_within ended n (f x)) → (n < b)%nat →
  (∀ x, counted _ e x → always_stops b (f x)) → always_stops b (bind (do e) f).
Proof.
  intros He Hn Hb Hf. change (always_stops b (Vis e f)). split; [|exact Hf].
  apply (stops_mono _ (Datatypes.S n)); [lia|]. by apply stops_wait.
Qed.

Lemma always_now n {A} (p : prog A) : always_stops n p → stops_within ended n p.
Proof. by destruct p; [|intros []]. Qed.

(** A program without a loop. *)
Lemma always_of_stops n {A} (p : prog A) : stops_within anything n p → always_stops n p.
Proof.
  revert n. induction p as [a|X e k IH]; intros n H; [done|].
  split; [by eapply (stops_weaken anything)|]. intros x _. cbn in H.
  destruct (waits e); [destruct n as [|n]; [done|]; apply (always_mono n); [lia|]|]; by apply IH, H.
Qed.

(** ** The worker's parts *)

Create HintDb stopping.

Ltac stop_step :=
  first
    [ exact I
    | eapply stops_mono; [|solve [eauto with stopping]]; lia
    | eapply stops_seq; [solve [eauto with stopping]|lia|intros ?; cbn [Nat.sub]]
    | apply stops_wait; [reflexivity|intros ? _]
    | apply stops_free; [reflexivity|intros ? _]
    | progress intros
    | match goal with |- stops_within _ _ (match ?x with _ => _ end) => destruct x end ].

Ltac stop_go := repeat stop_step.

Section Parts.
Context {T : UuidText} {TT : TimeText}.

Abbreviation within n p := (stops_within anything n p).

Lemma stops_GetByID id : within 1 (GetByID id).
Proof. unfold GetByID. stop_go. Qed.

Lemma stops_UpdateStatus id st le : within 1 (UpdateStatus id st le).
Proof.
  unfold UpdateStatus. destruct (st =? StatusDelivered)%string, (negb (le =? "")%string); stop_go.
Qed.

Lemma stops_Increment id : within 1 (IncrementAttempt id).
Proof. unfold IncrementAttempt. stop_go. Qed.

Lemma stops_CreateAttempt a : within 1 (CreateDeliveryAttempt a).
Proof. unfold CreateDeliveryAttempt. stop_go. Qed.

Lemma stops_EnqueueDelayed id ch p t : within 1 (EnqueueDelayed id ch p t).
Proof. unfold EnqueueDelayed. stop_go. Qed.

Lemma stops_Push id ch e : within 1 (Push id ch e).
Proof. unfold Push. stop_go. Qed.

Lemma stops_Ack k id : within 1 (Ack k id).
Proof. unfold Ack. stop_go. Qed.

Lemma stops_Allow mx ch : within 1 (Allow mx ch).
Proof. unfold Allow. stop_go. Qed.

Lemma stops_Broadcast id st : within 0 (Broadcast id st).
Proof.
  unfold Broadcast. stop_go. apply stops_for_range. intros c. stop_go.
Qed.
End Parts.

#[export] Hint Resolve stops_GetByID stops_UpdateStatus stops_Increment stops_CreateAttempt
  stops_EnqueueDelayed stops_Push stops_Ack stops_Allow stops_Broadcast : stopping.

Section Workers.
Context {T : UuidText} {TT : TimeText}.

Abbreviation within n p := (stops_within anything n p).

(** Each provider posts once. *)
Definition quick_providers (d : Dispatcher) : Prop :=
  map_Forall (λ _ p, ∀ n, within 1 (Send p n)) (dp_providers d).

Lemma main_quick_providers cfg : quick_providers (main_dispatcher cfg).
Proof.
  repeat apply map_Forall_insert_2; [..|apply map_Forall_empty]; intros n; cbn [Send];
    unfold Email_Send, SMS_Send, Push_Send, since_ms; stop_go.
Qed.

Lemma stops_settle n msg r : within 3 (settle n msg r).
Proof.
  unfold settle. destruct (d_Error r) as [err|]; [|stop_go].
  apply (stops_seq _ 2); [|lia|intros _; stop_go]. destruct (ShouldRetry _ _); stop_go.
Qed.

Lemma stops_process_notification d msg id :
  quick_providers d → within 8 (process_notification d msg id).
Proof.
  intros Hd. unfold process_notification.
  eapply stops_seq; [apply stops_GetByID|lia|intros [n|e]; cbn [Nat.sub]]; [|stop_go].
  destruct (_ || _ || _); [stop_go|].
  eapply stops_seq; [apply stops_UpdateStatus|lia|intros _; cbn [Nat.sub]].
  destruct (dp_providers d !! n_Channel n) as [p|] eqn:Ep; [|stop_go].
  apply (stops_seq _ 3); [|lia|intros r; apply stops_settle]. unfold deliver_once.
  assert (Hp := Hd _ _ Ep n). stop_go.
Qed.

(** Waiting for the limiter stops with the context, whatever the fuel. *)
Lemma stops_rate_gate fuel mx ch : stops_within ended 2 (rate_gate fuel mx ch).
Proof.
  destruct fuel as [|fuel]; cbn [rate_gate]; [done|].
  eapply stops_seq; [by eapply (stops_weaken anything), stops_Allow|lia|intros [[]|e]; try done].
  by apply stops_wait; [done|intros b [_ ->]].
Qed.

Lemma always_rate_gate fuel mx ch : always_stops 2 (rate_gate fuel mx ch).
Proof.
  induction fuel as [|fuel IH]; [done|]. cbn [rate_gate].
  eapply (always_bind 1 1); [apply always_of_stops, stops_Allow|apply assured_any| |lia|].
  - intros [[]|e] _; try done. by apply stops_wait; [done|intros b [_ ->]].
  - intros [[]|e] _; try done. apply (always_wait 0); [done|intros b [_ ->]; done|lia|].
    by intros [] _.
Qed.

Lemma always_processMessage fuel d msg : quick_providers d → always_stops 10 (processMessage fuel d msg).
Proof.
  intros Hd. unfold processMessage.
  destruct (uuid_Parse _) as [id|]; [|apply (always_mono 1); [lia|apply always_of_stops; stop_go]].
  assert (Hg : ∀ g, stops_within anything 8 (match g with
    | GateFuel => Ret WaitsExceeded
    | GateDone => Ret Returned
    | GateOpen => run! process_notification d msg id in Ret Returned
    end)).
  { intros []; [|done..]. by eapply stops_seq; [by apply stops_process_notification|lia|]. }
  eapply (always_bind 2 8); [apply always_rate_gate|apply assured_any| |lia|]; intros g _.
  - by eapply (stops_weaken anything), Hg.
  - apply (always_mono 8); [lia|]. apply always_of_stops, Hg.
Qed.

Lemma always_process_all fuel d l :
  quick_providers d → always_stops (10 * length l) (process_all fuel d l).
Proof.
  intros Hd. induction l as [|m l IH]; [done|]. cbn [process_all].
  eapply (always_bind 10 (10 * length l)); [by apply always_processMessage|apply assured_any| |cbn [length]; lia|].
  - intros [] _; [|done]. by apply always_now.
  - intros [] _; [|done]. eapply always_mono; [|exact IH]. cbn [length]. lia.
Qed.

Abbreviation gives Q p := (assured counted Q p).

Lemma messages_of_length k es : gives (λ ms, length ms = length es) (messages_of k es).
Proof.
  induction es as [|e es IH]; [done|]. cbn [messages_of]. unfold message_of.
  destruct (field "notification_id" _); [|intros []]. destruct (field "channel" _); [|intros []].
  eapply (assured_bind _ (λ _, True)); [done|intros m _].
  eapply assured_bind; [exact IH|]. intros ms Hms. cbn. by rewrite Hms.
Qed.

Lemma stream_messages_length c l :
  Forall (λ p : string * list Entry, (length p.2 ≤ c)%nat) l →
  gives (λ ms, (length ms ≤ c * length l)%nat) (stream_messages l).
Proof.
  induction 1 as [|[k es] l He _ IH]; [cbn; lia|]. cbn [stream_messages].
  eapply assured_bind; [apply messages_of_length|intros ms Hms].
  eapply assured_bind; [exact IH|]. intros ms' Hms'. cbn in *. rewrite length_app. lia.
Qed.

(** One read brings at most one message of each stream. *)
Definition few (r : result error (list Message)) : Prop :=
  match r with Ok ms => (length ms ≤ 3)%nat | Er _ => True end.

Lemma ReadMessages_few c : gives few (ReadMessages c 1).
Proof.
  unfold ReadMessages. intros [[l|]|e] Hx; [|apply Nat.le_0_l|done].
  assert (H3 : length priority_streams = 3%nat) by done. destruct Hx as [Hl Hc]. cbn in Hl, Hc.
  eapply (assured_bind _ _ _ (stream_messages l)); [by apply (stream_messages_length 1)|].
  intros ms Hms. cbn in *. lia.
Qed.

Lemma stops_ReadMessages c n : always_stops 1 (ReadMessages c n).
Proof.
  assert (Hm : ∀ k es, stops_within anything 0 (messages_of k es)).
  { intros k es. induction es as [|e es IH]; [done|]. cbn [messages_of]. unfold message_of.
    apply (stops_seq _ 0); [|lia|intros m; by apply (stops_seq _ 0)].
    destruct (field "notification_id" _); [|by intros []]. by destruct (field "channel" _); [|intros []]. }
  assert (Hs : ∀ l, stops_within anything 0 (stream_messages l)).
  { intros l. induction l as [|[k es] l IH]; [done|]. cbn [stream_messages].
    apply (stops_seq _ 0); [apply Hm|lia|intros ms; by apply (stops_seq _ 0)]. }
  apply always_of_stops. unfold ReadMessages.
  apply stops_wait; [done|intros [[l|]|e] _]; [|done..]. by apply (stops_seq _ 0).
Qed.

(** Once the context has ended a worker at the head of its loop returns. *)
Lemma stops_Work rounds fuel d : stops_within ended 1 (Work rounds fuel d).
Proof. destruct rounds as [|rounds]; [done|]. apply stops_wait; [done|]. by intros b [_ ->]. Qed.

(** The bound: the read, three messages of ten calls, the look at the context. *)
Lemma always_Work rounds fuel d : quick_providers d → always_stops 32 (Work rounds fuel d).
Proof.
  intros Hd. induction rounds as [|rounds IH]; [done|]. cbn [Work].
  apply (always_wait 0); [done|by intros b [_ ->]|lia|intros [] _; [done|]].
  assert (Herr : ∀ b : bool, always_stops 32 (if b then Ret Returned else
    run! do (Sleep time_Second) in Work rounds fuel d)).
  { intros []; [done|]. apply (always_wait 1); [done|intros ? _; apply stops_Work|lia|]. by intros ? _. }
  eapply (always_bind 1 31); [apply stops_ReadMessages|apply ReadMessages_few| |lia|]; intros [ms|e] Hms.
  - cbn in Hms. apply (stops_mono _ (10 * length ms + 1)); [lia|].
    eapply stops_bind; [by apply always_now, always_process_all|apply assured_any|].
    intros [] _; [apply stops_Work|done].
  - apply stops_wait; [done|]. by intros b [_ ->].
  - cbn in Hms. eapply (always_bind (10 * length ms) 1); [by apply always_process_all|apply assured_any| |lia|];
      intros [] _; [apply stops_Work|done|exact IH|done].
  - apply (always_wait 0); [done|by intros b [_ ->]|lia|]. intros b _. apply Herr.
Qed.
End Workers.

(** ** Stopping the pool *)

Lemma xreadgroup_counted g c n now ks r l r' :
  xreadgroup g c n now ks r = (l, r') →
  (length l ≤ length ks)%nat ∧ Forall (λ p, (length p.2 ≤ n)%nat) l.
Proof.
  revert r l. induction ks as [|k ks IH]; intros r l H; unfold xreadgroup in H; fold xreadgroup in H.
  { injection H as <- <-. by split; [|constructor]. }
  destruct (s_groups (stream k r) !! g) as [grp|]; [|apply IH in H as [? ?]; cbn; split; [lia|done]].
  destruct (fresh_entries grp n (stream k r)) as [|e es] eqn:Ef;
    [apply IH in H as [? ?]; cbn; split; [lia|done]|].
  destruct (xreadgroup g c n now ks _) as [rest r1] eqn:Er. injection H as <- <-.
  apply IH in Er as [? ?]. split; [cbn; lia|]. constructor; [|done]. cbn [snd].
  rewrite <- Ef. unfold fresh_entries. rewrite length_take. lia.
Qed.

(** Everything a thread may count on in an answer. *)
Definition expected : AnswerPred := λ X e x, system_answer any_ack _ e x ∧ counted _ e x.

Section Theorems.
Context {T : UuidText} {TT : TimeText} {V : StructValidator} {TX : TextTemplate}
  {MP : MailParser} {TP : TimeParse} {JB : JsonBody} {S : Services} {HS : ServicesOk S} {HO : SentOnce S}.

Lemma svc_counted X (e : Eff X) w x w' : svc e w x w' → counted _ e x.
Proof.
  intros H. destruct e as [|Y e| | | | | | | | | | | | | | |]; try done. destruct e; try done.
  apply redis_server_doc in H as (j & w1 & _ & _ & r' & _ & Hx).
  assert (Hok : ∀ y r1, (Forall (λ k, is_Some (s_groups (stream k (w_redis w1)) !! g)) ks ∧
      ∃ now, let '(l, r2) := xreadgroup g consumer (Z.to_nat count) now ks (w_redis w1) in
      y = Ok (match l with [] => None | _ => Some l end) ∧ r1 = r2) →
      counted _ (Rd (XReadGroup g consumer ks count)) y).
  { intros y r1 (_ & now & Hy). destruct (xreadgroup _ _ _ _ _ _) as [l r2] eqn:E.
    apply xreadgroup_counted in E. destruct Hy as [-> _]. by destruct l. }
  destruct Hx as [Hx|[He _]]; [by apply Hok in Hx|]. by destruct x.
Qed.

(** A goroutine that always stops still does, whatever the others do. *)
Lemma interleaves_stops n i ts w tr ts' w' :
  Forall (guarded (system_effect any_ack) (system_answer any_ack)) ts → system_ok w →
  interleaves ts w tr ts' w' →
  (∀ p, ts !! i = Some p → always_stops n p) → ∀ p, ts' !! i = Some p → always_stops n p.
Proof.
  intros Hts Hi H. revert Hts Hi.
  induction H as [ts w|ts j X e k w x w1 tr ts' w' Hk Hs H IH]; intros Hts Hi Hn; [done|].
  pose proof (proj1 (Forall_lookup _ _) Hts _ _ Hk) as [He Hg].
  destruct (effect_step any_ack _ _ _ _ _ He (any_permits _) Hi Hs) as [[Hi1 _ _ _] Hx].
  apply IH; [by apply Forall_insert, Hg|done|]. intros p Hp. apply list_lookup_insert_Some in Hp.
  destruct Hp as [(-> & <- & _)|[_ Hp]]; [|by apply Hn].
  destruct (Hn _ Hk) as [_ Hn']. by apply Hn', (svc_counted _ _ _ _ _ Hs).
Qed.

(** (C14) The pool can be waited for: whatever the goroutines of the process have
    been doing until the context ends, every worker then returns after at
    most 32 further calls of the backends (the rest of the messages it has
    read, at most one of each stream, and no further read), whatever they
    answer and however long it has been working. *)
Theorem pool_stops cfg rounds fuel ticks reads reqs w tr ts' w' i p :
  system_ok w → interleaves (main_threads cfg rounds fuel ticks reads reqs) w tr ts' w' →
  (i < Z.to_nat (wc_PoolSize (cf_Worker cfg)))%nat → ts' !! i = Some p →
  stops_within ended 32 p.
Proof.
  intros Hi H Hlt Hp. apply always_now. revert p Hp.
  eapply (interleaves_stops 32 i); [apply main_threads_safe; by right|exact Hi|exact H|]. intros p Hp.
  unfold main_threads, pool_threads, Start in Hp. cbn [main_pool NewPool pl_size] in Hp. rewrite lookup_app_l in Hp by by rewrite length_replicate.
  apply lookup_replicate in Hp as [-> _].
  eapply (always_bind 32 0); [apply always_Work, main_quick_providers|apply assured_any|done|lia|done].
Qed.

(** ** What was in flight *)

(** Every message but one. *)
Definition all_but (k : string) (id : EntryID) : Licence :=
  {| lc_acks k' id' := ¬ (k' = k ∧ id' = id); may_panic := true |}.

(** The call read the message from its stream. *)
Definition reads_message (k : string) (id : EntryID) (ev : Event) : Prop :=
  match ev with
  | @Ev X e x =>
      match e in Eff Y return Y → Prop with
      | Rd e => match e in RedisE Y return Y → Prop with
                | XReadGroup _ _ _ _ => λ x,
                    match x with
                    | Ok (Some l) => ∃ es en, (k, es) ∈ l ∧ en ∈ es ∧ e_id en = id
                    | _ => False
                    end
                | _ => λ _, False
                end
      | _ => λ _, False
      end x
  end.

Lemma expected_reads k id ev :
  match ev with Ev e x => system_answer (all_but k id) _ e x end → ¬ reads_message k id ev.
Proof.
  destruct ev as [X e x]. destruct e as [|Y e| | | | | | | | | | | | | | |]; cbn; try tauto.
  destruct e; cbn; try tauto. destruct x as [[l|]|]; try tauto.
  intros H (es & en & Hl & He & Hid). rewrite Forall_forall in H. specialize (H _ Hl).
  cbn in H. rewrite Forall_forall in H. apply H in He as [_ He]. by apply He.
Qed.

Lemma all_but_not_acked k id X (e : Eff X) : system_effect (all_but k id) _ e → ¬ acks e k id.
Proof.
  destruct e as [|Y e| | | | | | | | | | | | | | |]; cbn; try tauto. destruct e; cbn; tauto.
Qed.

(** The run acknowledged or read the message. *)
Definition touched (tr : list Event) (k : string) (id : EntryID) : Prop :=
  acked tr k id ∨ Exists (reads_message k id) tr.

(** (C15) A message that is in flight when the process starts, left behind by one
    that was shut down or killed, stays in flight: however the goroutines
    interleave and whatever the backends answer, no worker reads it again, and
    none acknowledges it. *)
Theorem in_flight_left_behind cfg rounds fuel ticks reads reqs w tr ts' w' k id :
  system_ok w → id ∈ inflight k (w_redis w) →
  interleaves (main_threads cfg rounds fuel ticks reads reqs) w tr ts' w' →
  id ∈ inflight k (w_redis w') ∧ ¬ touched tr k id.
Proof.
  intros Hi Hid H.
  pose (I := λ w, system_ok w ∧ id ∈ inflight k (w_redis w)).
  assert (Hstep : ∀ X (e : Eff X) w x w', system_effect (all_but k id) _ e → I w → svc e w x w' →
                    I w' ∧ system_answer (all_but k id) _ e x).
  { intros X e w1 x w2 He [Hw Hin] Hs.
    assert (HA : permits (all_but k id) w1) by (intros k' id' Hn [E1 E2]; apply Hn; by rewrite E1, E2).
    destruct (effect_step (all_but k id) _ _ _ _ _ He HA Hw Hs) as [[Hw' _ _ Hf] Hx].
    split; [|done]. split; [done|]. apply Hf in Hin as [Hin|Ha]; [done|].
    by destruct (all_but_not_acked _ _ _ _ He Ha). }
  pose proof (main_threads_safe (all_but k id) cfg rounds fuel ticks reads reqs (or_intror eq_refl)) as Hts.
  split.
  - by destruct (interleaves_inv I _ _ _ _ _ _ _ Hstep Hts (conj Hi Hid) H) as [[_ ?] _].
  - pose proof (interleaves_trace I _ _ _ _ _ _ _ Hstep Hts (conj Hi Hid) H) as Htr.
    rewrite Forall_forall in Htr.
    intros [Ha|Ha]; apply Exists_exists in Ha as (ev & Hin & Ha); apply Htr in Hin;
      destruct ev as [X e x]; destruct Hin as [He Hx].
    + by apply (all_but_not_acked _ _ _ _ He).
    + by apply (expected_reads k id (Ev e x)) in Hx.
Qed.
End Theorems.
