(* ===== verification/Aside.v ===== *)
(** * Effects beside the notifications' progress

    Most of what the process does moves no notification forward: it reads lists,
    keeps templates and records of attempts, limits the rate, posts, writes to
    sockets and counts. [aside] says so of an effect, from its text alone; the
    programs of this file have no other effects. What an account of the
    notifications is kept of (Custody.v, Duty.v) they leave as it is. *)

From stdpp Require Import gmap.
From S2P Require Import Prelude GoLib Domain Sql Redis Effects Discipline NotificationRepo.
From S2P Require Import Queue QueueSpec RateLimit RateLimitSpec WorkerSpec Delivery Hub Worker Validator Templates Service Api Wiring.

(** ** Such effects *)

(** No row of a notification is written. *)
Definition stmt_aside (s : Stmt) : Prop :=
  match s with
  | SSelect _ _ _ _ _ => True
  | SInsert t _ _ | SUpdate t _ _ _ | SDelete t _ | SUpdateIn t _ _ _ _ _ => t ≠ Notifications
  end.

(** The streams and the delayed set stay. *)
Definition script_aside (f : Z → Z → Redis → Z * Redis) : Prop :=
  ∀ at_ draw r, r_streams (f at_ draw r).2 = r_streams r ∧ zset DelayedSet (f at_ draw r).2 = zset DelayedSet r.

(** A single notification is not read either. *)
Definition aside : EffPred := λ X e,
  match e with
  | Pg (PgExec s _) | Pg (PgQuery s _) => stmt_aside s
  | Pg (PgQueryRow s _) => stmt_aside s ∧ match s with SSelect t _ _ _ _ => t ≠ Notifications | _ => True end
  | Pg _ => False
  | Rd (XAdd k _) => k ∉ priority_streams
  | Rd (EvalScript f) => script_aside f
  | Rd _ => False
  | Panic => False
  | _ => True
  end.

(** ** Such programs *)

Create HintDb aside.

Ltac aside_step :=
  first
    [ solve [eauto with aside]
    | exact I
    | apply only_bind; [|intros ?]
    | apply only_do; done
    | apply only_for_range; intros ?
    | match goal with
      | |- only _ (match ?x with _ => _ end) => destruct x
      end ].

Ltac aside_go := repeat aside_step.

Section Aside.
Context {T : UuidText} {TT : TimeText} {V : StructValidator} {TX : TextTemplate}
  {MP : MailParser} {TP : TimeParse} {JB : JsonBody}.

Lemma aside_CreateAttempt a : only aside (CreateDeliveryAttempt a).
Proof. unfold CreateDeliveryAttempt. aside_go. Qed.

Lemma aside_GetAttempts id : only aside (GetDeliveryAttempts id).
Proof. unfold GetDeliveryAttempts. aside_go. Qed.

Lemma aside_List f : only aside (List f).
Proof. unfold List. destruct (build_conditions f) as [[c a] i]. aside_go. Qed.

Lemma aside_Template_Create t : only aside (TemplateRepository_Create t).
Proof. unfold TemplateRepository_Create. aside_go. Qed.

Lemma aside_Template_GetByID id : only aside (TemplateRepository_GetByID id).
Proof. unfold TemplateRepository_GetByID. aside_go. Qed.

Lemma aside_Template_List : only aside TemplateRepository_List.
Proof. unfold TemplateRepository_List. aside_go. Qed.

Lemma aside_Template_Update id req : only aside (TemplateRepository_Update id req).
Proof.
  unfold TemplateRepository_Update. destruct (set_clauses req) as [[c a] i].
  destruct (_ =? 0)%nat; [apply aside_Template_GetByID|]. aside_go.
Qed.

Lemma aside_Template_Delete id : only aside (TemplateRepository_Delete id).
Proof. unfold TemplateRepository_Delete. aside_go. Qed.

Lemma DLQ_no_priority : DLQStream ∉ priority_streams.
Proof. by apply (bool_decide_unpack _). Qed.

Lemma aside_Push id ch e : only aside (Push id ch e).
Proof.
  unfold Push. apply only_bind; [|by intros []]. apply only_do. apply DLQ_no_priority.
Qed.

Lemma aside_Allow mx ch : only aside (Allow mx ch).
Proof.
  unfold Allow. apply only_bind; [by apply only_do|intros t].
  apply only_bind; [|by intros []]. apply only_do. intros at_ draw rd.
  split; apply script_spares. apply limiter_key_ne.
Qed.

Lemma aside_Broadcast id st : only aside (Broadcast id st).
Proof. unfold Broadcast. aside_go. Qed.

Lemma aside_HandleWebSocket fuel rw id : only aside (HandleWebSocket fuel rw id).
Proof.
  assert (Hl : ∀ c, only aside (read_loop fuel c)).
  { intros c. induction fuel as [|fuel IH]; cbn [read_loop]; aside_go. }
  unfold HandleWebSocket. destruct (uuid_Parse id); [|done].
  apply only_bind; [by apply only_do|intros [c|e]; [|done]].
  apply only_bind; [unfold subscribe; aside_go|intros _].
  apply only_bind; [apply Hl|intros []; [|done]].
  apply only_bind; [unfold unsubscribe; aside_go|done].
Qed.

Lemma aside_rate_gate fuel mx ch : only aside (rate_gate fuel mx ch).
Proof.
  induction fuel as [|fuel IH]; [done|]. cbn [rate_gate].
  apply only_bind; [apply aside_Allow|intros [[]|]]; [done| |done].
  apply only_bind; [by apply only_do|]. by intros [].
Qed.

(** The providers only send. *)
Definition aside_providers (d : Dispatcher) : Prop := map_Forall (λ _ p, ∀ n, only aside (Send p n)) (dp_providers d).

Lemma main_aside_providers cfg : aside_providers (main_dispatcher cfg).
Proof.
  repeat apply map_Forall_insert_2; [..|apply map_Forall_empty]; intros n; cbn [Send];
    unfold Email_Send, SMS_Send, Push_Send, since_ms; aside_go.
Qed.

Lemma aside_Template_service_Create req : only aside (TemplateService_Create req).
Proof.
  unfold TemplateService_Create. destruct (ValidateStruct _); [done|]. destruct (negb _); [done|].
  destruct (template_Parse _ _); [|done]. apply only_bind; [apply aside_Template_Create|].
  by intros [t []].
Qed.

Lemma aside_Template_service_Update id req : only aside (TemplateService_Update id req).
Proof.
  unfold TemplateService_Update. destruct (ValidateStruct _); [done|].
  destruct (ut_Body req) as [b|]; [destruct (template_Parse _ _); [|done]|];
    apply aside_Template_Update.
Qed.

Lemma aside_from_template f r req n : only aside (from_template f r req n).
Proof.
  unfold from_template. destruct (r_TemplateID req); [|done].
  apply only_bind; [apply aside_Template_GetByID|intros [t|e]; [|done]].
  by destruct (Render t (r_TemplateVars req)) as [[sb bd]|].
Qed.
End Aside.

#[export] Hint Resolve aside_CreateAttempt aside_GetAttempts aside_List aside_Template_Create
  aside_Template_GetByID aside_Template_List aside_Template_Update aside_Template_Delete aside_Push
  aside_Allow aside_Broadcast aside_HandleWebSocket aside_rate_gate aside_Template_service_Create
  aside_Template_service_Update aside_from_template : aside.

(** ** The other requests

    Besides creating notifications, requests read a single notification, or
    cancel it, and do things beside the notifications' progress. *)
Definition passing : EffPred := λ X e,
  aside X e ∨
  match e with
  | Pg (PgQueryRow s args) => (s = select_by_id ∨ s = cancel_stmt) ∧ ∃ id, args = [VUuid id]
  | _ => False
  end.

Definition creating (r : Route) : bool := match r with RCreate | RCreateBatch => true | _ => false end.

Section Passing.
Context {T : UuidText} {TT : TimeText} {V : StructValidator} {TX : TextTemplate}
  {MP : MailParser} {TP : TimeParse} {JB : JsonBody}.

Lemma passing_aside {A} (p : prog A) : only aside p → only passing p.
Proof. apply only_weaken. intros X e. by left. Qed.

Lemma passing_GetByID id : only passing (GetByID id).
Proof.
  unfold GetByID. apply only_bind; [|done]. apply only_do. right. split; [by left|by exists id].
Qed.

Lemma passing_Cancel id : only passing (Cancel id).
Proof.
  unfold Cancel. apply only_bind; [|intros [[row|]|e]; [done| |done]].
  - apply only_do. right. split; [by right|by exists id].
  - apply only_bind; [apply passing_GetByID|by intros []].
Qed.

(** A handler that calls the service and answers. *)
Lemma passing_answer {A B} (p : prog A) (f : A → B) : only passing p → only passing (let! a := p in Ret (f a)).
Proof. intros Hp. by apply only_bind. Qed.

Lemma passing_serve svc reads rw req r : creating r = false → only passing (serve svc reads rw req r).
Proof.
  destruct r; cbn [serve]; try done; intros _; apply passing_answer.
  - unfold Ready. apply passing_aside. aside_go.
  - unfold NotificationHandler_Get. destruct (uuid_Parse _); [|done]. apply passing_answer, passing_GetByID.
  - unfold NotificationHandler_List. destruct (parse_filter _); [done|].
    apply passing_answer, passing_aside, aside_List.
  - unfold NotificationHandler_ListByBatch. destruct (uuid_Parse _); [|done].
    apply passing_answer, passing_aside, aside_List.
  - unfold NotificationHandler_Cancel. destruct (uuid_Parse _); [|done].
    apply only_bind; [apply passing_Cancel|by intros []].
  - unfold NotificationHandler_GetAttempts. destruct (uuid_Parse _); [|done]. apply passing_answer.
    apply only_bind; [apply passing_GetByID|intros [n|e]; [|done]]. apply passing_aside, aside_GetAttempts.
  - apply passing_aside. unfold TemplateHandler_Create. destruct (Decode_CreateTemplate _); [|done]. aside_go.
  - apply passing_aside. unfold TemplateHandler_List, TemplateService_List. aside_go.
  - apply passing_aside. unfold TemplateHandler_Get, TemplateService_GetByID. aside_go.
  - apply passing_aside. unfold TemplateHandler_Update. destruct (uuid_Parse _); [|done].
    destruct (Decode_UpdateTemplate _); [|done]. aside_go.
  - apply passing_aside. unfold TemplateHandler_Delete, TemplateService_Delete. aside_go.
  - apply passing_aside, aside_HandleWebSocket.
Qed.
End Passing.
