(* ===== verification/Custody.v ===== *)
(** * Custody: who is to go on with a notification

    A notification that is not at its end is in one place at a time: its message
    waits in a priority stream, its retry in the delayed set, its row for the
    scheduler, or a goroutine has it in hand. This file follows what a goroutine
    has in hand through its program: what an effect takes over and gives away
    ([after]), what it may do with what it has ([allowed]) and which answers it
    can get ([plausible]). CustodyInv.v shows that the world keeps this account,
    CustodyRun.v that every program of the process does. *)

From stdpp Require Import gmap.
From S2P Require Import Prelude GoLib Domain Sql Redis Effects Discipline NotificationRepo Typed.
From S2P Require Import Queue Worker Ledger.

(** ** What a goroutine has in hand *)

(** [Ready]: it may enqueue the notification or deliver it. [Listed m]: found in
    the delayed set as the member [m], not removed yet. [Holding n]: read from
    the table. [Spent c m]: an attempt was counted; [c] attempts of [m]. *)
Inductive Phase := Ready | Listed (m : string) | Holding (n : Notification) | Spent (c m : Z).

(** [opened]: the transactions it began, with the inserts of those that may
    still be committed. *)
Record Ghost := mkGhost {
  held : gmap UUID Phase;
  opened : gmap N (option (list (UUID * Status)));
}.

Definition empty_handed : Ghost := mkGhost ∅ ∅.

Definition hold (ph : Phase) (id : UUID) (g : Ghost) : Ghost := mkGhost (<[id := ph]> (held g)) (opened g).
Definition hold_all (ph : Phase) (ids : list UUID) (g : Ghost) : Ghost := foldr (hold ph) g ids.
Definition let_go (id : UUID) (g : Ghost) : Ghost := mkGhost (delete id (held g)) (opened g).
Definition set_tx (h : N) (l : option (list (UUID * Status))) (g : Ghost) : Ghost :=
  mkGhost (held g) (<[h := l]> (opened g)).

Lemma hold_all_held ph ids g id :
  held (hold_all ph ids g) !! id = if decide (id ∈ ids) then Some ph else held g !! id.
Proof.
  induction ids as [|i ids IH]; [done|]. cbn [hold_all foldr hold held]. fold (hold_all ph ids g).
  destruct (decide (i = id)) as [->|Hne].
  - rewrite lookup_insert_eq, decide_True; [done|by left].
  - rewrite lookup_insert_ne, IH by done.
    destruct (decide (id ∈ ids)), (decide (id ∈ i :: ids)) as [Hi|Hi]; rewrite ?elem_of_cons in Hi; try done;
      naive_solver.
Qed.

Lemma hold_all_opened ph ids g : opened (hold_all ph ids g) = opened g.
Proof. by induction ids. Qed.

Section Custody.
Context {T : UuidText}.

(** ** Which notification a message, a member, a row is about *)

Definition about_values (vs : list (string * string)) : option UUID := field "notification_id" vs ≫= uuid_Parse.
Definition about (e : Entry) : option UUID := about_values (e_values e).

Definition member_about (m : string) : option UUID :=
  match parseMember m with Some [p0; _; _] => uuid_Parse p0 | _ => None end.

Definition read_ids (l : list (string * list Entry)) : list UUID := omap about (p ← l; p.2).

Definition row_ids (rows : list (list Val)) : list UUID :=
  omap (λ row, match row with VUuid id :: _ => Some id | _ => None end) rows.

(** The id and the status of the row that is inserted. *)
Definition insert_key (args : list Val) : option (UUID * Status) :=
  match args !! 0%nat, args !! 10%nat with
  | Some (VUuid id), Some (VText st) => Some (id, st)
  | _, _ => None
  end.

Definition unscheduled (l : list (UUID * Status)) : list UUID :=
  (filter (λ p, p.2 ≠ StatusScheduled) l).*1.

Definition list_member (m : string) (g : Ghost) : Ghost :=
  match member_about m with Some id => hold (Listed m) id g | None => g end.

Definition counts (sets : list (string * Expr)) : bool :=
  existsb (λ p, (p.1 =? "attempt_count")%string) sets.

(** ** What an effect does to what is in hand *)

Definition redis_after {X} (e : RedisE X) (x : X) (g : Ghost) : Ghost :=
  match e in RedisE Y return Y → Ghost with
  | XReadGroup _ _ _ _ => λ x, match x with Ok (Some l) => hold_all Ready (read_ids l) g | _ => g end
  | XAdd k vs => λ _,
      if decide (k ∈ priority_streams) then
        match about_values vs with Some id => let_go id g | None => g end
      else g
  | ZAdd _ _ m => λ _, match member_about m with Some id => let_go id g | None => g end
  | ZRangeByScore _ _ _ => λ x, match x with Ok ms => foldr list_member g ms | Er _ => g end
  | ZRem _ ms => λ x, match x with None => hold_all Ready (omap member_about ms) g | Some _ => g end
  | _ => λ _, g
  end x.

Definition pg_after {X} (e : PgE X) (x : X) (g : Ghost) : Ghost :=
  match e in PgE Y return Y → Ghost with
  | PgExec s args => λ x,
      match s with
      | SInsert Notifications _ _ =>
          match x, insert_key args with
          | Ok _, Some (id, st) => if decide (st = StatusScheduled) then g else hold Ready id g
          | _, _ => g
          end
      | SUpdate Notifications sets _ _ =>
          match args with
          | [VUuid id] =>
              match held g !! id with
              | Some (Holding n) =>
                  if counts sets then hold (Spent (n_AttemptCount n + 1) (n_MaxRetries n)) id g else g
              | _ => g
              end
          | _ => g
          end
      | _ => g
      end
  | PgQueryRow s args => λ x,
      match s, args, x with
      | SSelect Notifications _ _ _ _, [VUuid id], Ok (Some row) =>
          match held g !! id, scan_fields row with
          | Some Ready, Some n => hold (Holding n) id g
          | _, _ => g
          end
      | _, _, _ => g
      end
  | PgQuery s args => λ x,
      match s, x with
      | SUpdateIn Notifications _ _ _ _ _, Ok (rows, _) => hold_all Ready (row_ids rows) g
      | _, _ => g
      end
  | PgBegin => λ x, match x with Ok h => set_tx h (Some []) g | Er _ => g end
  | PgTxExec h s args => λ x,
      match x, insert_key args, opened g !! h with
      | Ok _, Some p, Some (Some l) => set_tx h (Some (l ++ [p])) g
      | _, _, _ => set_tx h None g
      end
  | PgCommit h => λ x,
      match x, opened g !! h with
      | None, Some (Some l) => set_tx h None (hold_all Ready (unscheduled l) g)
      | _, _ => set_tx h None g
      end
  | PgRollback h => λ _, set_tx h None g
  end x.

Definition after {X} (e : Eff X) (x : X) (g : Ghost) : Ghost :=
  match e in Eff Y return Y → Ghost with
  | Pg e => λ x, pg_after e x g
  | Rd e => λ x, redis_after e x g
  | _ => λ _, g
  end x.

(** ** What a goroutine may do *)

(** The assignment leaves the attempts and makes no row scheduled. *)
Definition calm_set (args : list Val) (p : string * Expr) : Prop :=
  p.1 ∈ ["updated_at"; "delivered_at"; "last_error"] ∨
  (p.1 = "status" ∧
   match p.2 with
   | ELit v => v ≠ VText StatusScheduled
   | EArg (S k) => args !! k ≠ Some (VText StatusScheduled)
   | _ => False
   end).

Definition calm_stmt (s : Stmt) (args : list Val) : Prop :=
  match s with
  | SSelect _ _ _ _ _ => True
  | SInsert t _ _ | SDelete t _ | SUpdateIn t _ _ _ _ _ => t ≠ Notifications
  | SUpdate t sets _ _ => t = Notifications → Forall (calm_set args) sets
  end.

Definition inserts (s : Stmt) (args : list Val) : Prop :=
  s = insert_notification ∧
  ∃ n, args = insert_args n (json_Marshal (n_TemplateVars n)) ∧ n_AttemptCount n = 0.

Definition pg_allowed {X} (g : Ghost) (e : PgE X) : Prop :=
  match e with
  | PgExec s args =>
      inserts s args ∨
      (s = increment_attempt ∧ ∃ id n, args = [VUuid id] ∧ held g !! id = Some (Holding n)) ∨
      (calm_stmt s args ∧ ∀ x, pg_after (PgExec s args) x g = g)
  | PgQueryRow s args =>
      (s = select_by_id ∧ ∃ id, args = [VUuid id]) ∨
      (calm_stmt s args ∧ ∀ x, pg_after (PgQueryRow s args) x g = g)
  | PgQuery s args =>
      (s = fetch_due ∧ ∃ limit, args = [VInt limit]) ∨
      (calm_stmt s args ∧ ∀ x, pg_after (PgQuery s args) x g = g)
  | PgBegin => True
  | PgTxExec h s args => inserts s args ∧ ∃ l, opened g !! h = Some (Some l)
  | PgCommit h => ∃ l, opened g !! h = Some (Some l)
  | PgRollback h => is_Some (opened g !! h)
  end.

(** Only the processor of retries, [rp], takes members off the delayed set. *)
Definition redis_allowed {X} (rp : bool) (g : Ghost) (e : RedisE X) : Prop :=
  match e with
  | XAdd k vs =>
      k ∈ priority_streams → ∃ id, about_values vs = Some id ∧ held g !! id = Some Ready
  | XGroupCreateMkStream _ gr | XAck _ gr _ => gr = ConsumerGroup
  | XReadGroup gr _ ks _ => gr = ConsumerGroup ∧ ks = priority_streams
  | XAutoClaim _ _ _ _ _ => False
  | XRange _ => True
  | ZAdd k _ m =>
      k = DelayedSet ∧
      ∃ id c mx, member_about m = Some id ∧ held g !! id = Some (Spent c mx) ∧ c < Z.max 1 mx
  | ZRangeByScore k _ _ => k = DelayedSet ∧ rp = true ∧ ∀ id m, held g !! id ≠ Some (Listed m)
  | ZRem k ms =>
      k = DelayedSet ∧ rp = true ∧
      Forall (λ m, ∃ id, member_about m = Some id ∧ held g !! id = Some (Listed m)) ms
  | EvalScript f => ∀ at_ draw r,
      r_streams (f at_ draw r).2 = r_streams r ∧ zset DelayedSet (f at_ draw r).2 = zset DelayedSet r
  end.

Definition allowed {X} (rp : bool) (g : Ghost) (e : Eff X) : Prop :=
  match e with
  | Pg e => pg_allowed g e
  | Rd e => redis_allowed rp g e
  | _ => True
  end.

(** ** Which answers it can get *)

(** The notifications are distinct, and new to the goroutine. *)
Definition new_to (g : Ghost) (ids : list UUID) : Prop :=
  NoDup ids ∧ Forall (λ id, held g !! id = None) ids.

Definition plausible {X} (e : Eff X) (x : X) (g : Ghost) : Prop :=
  match e in Eff Y return Y → Prop with
  | Rd e => match e in RedisE Y return Y → Prop with
            | XReadGroup _ _ _ _ => λ x,
                match x with Ok (Some l) => new_to g (read_ids l) | _ => True end
            | ZRangeByScore _ _ _ => λ x,
                match x with
                | Ok ms => new_to g (omap member_about ms) ∧ Forall (λ m, is_Some (member_about m)) ms
                | Er _ => True
                end
            | ZRem _ _ => λ x, x = None
            | _ => λ _, True
            end
  | Pg e => match e in PgE Y return Y → Prop with
            | PgQueryRow s args => λ x,
                match args, x with
                | [VUuid id], Ok (Some row) => s = select_by_id →
                    ∀ n, scan_fields row = Some n → n_ID n = id ∧ well_typed n
                | _, _ => True
                end
            | PgQuery s args => λ x,
                match x with Ok (rows, _) => s = fetch_due → new_to g (row_ids rows) | Er _ => True end
            | PgCommit h => λ x,
                match x, opened g !! h with
                | None, Some (Some l) => NoDup l.*1 ∧ new_to g (unscheduled l)
                | _, _ => True
                end
            | _ => λ _, True
            end
  | _ => λ _, True
  end x.

(** It stays open whether what is taken up was taken away from where it was: the
    removal of members from the delayed set is answered with an error, or the
    rows of a statement that releases them break off. *)
Definition claim_unsure (ev : Event) : bool :=
  match ev with
  | Ev e x =>
      match e in Eff Y return Y → bool with
      | Rd e => λ x,
          match e in RedisE Y return Y → bool with
          | ZRem _ _ => λ x, match x with Some _ => true | None => false end
          | _ => λ _, false
          end x
      | Pg e => λ x,
          match e in PgE Y return Y → bool with
          | PgQuery s _ => λ x, negb (is_select s) && broken_off x
          | _ => λ _, false
          end x
      | _ => λ _, false
      end x
  end.

Lemma faultless_claim ev : fault ev = false → claim_unsure ev = false.
Proof.
  destruct ev as [X e x]. destruct e as [X e|X e| | | | | | | | | | | | | | |]; try done; destruct e; try done.
  cbn. destruct (is_select s), x as [[? []]|]; done.
Qed.

Definition claims_settled (tr : list Event) : Prop := Forall (λ ev, claim_unsure ev = false) tr.

#[export] Instance claims_settled_dec tr : Decision (claims_settled tr).
Proof. unfold claims_settled. apply _. Defined.

(** ** Programs that keep the account *)

Definition custody_ledger (rp : bool) : Ledger Ghost :=
  mkLedger (λ X, @allowed X rp) (λ X, @plausible X) (λ X, @after X).

Abbreviation keeps rp := (tracks (custody_ledger rp)).

Lemma keeps_do rp {X B} (Q : Ghost → B → Prop) g (e : Eff X) (f : X → prog B) :
  allowed rp g e → (∀ x, plausible e x g → keeps rp Q (after e x g) (f x)) → keeps rp Q g (bind (do e) f).
Proof. exact (tracks_do (custody_ledger rp) Q g e f). Qed.

(** Effects that have nothing to do with it, with [g] in hand. *)
Definition neutral (g : Ghost) : EffPred := λ X e, ∀ rp, allowed rp g e ∧ ∀ x, after e x g = g.

Lemma neutral_idles rp g {A} (p : prog A) : only (neutral g) p → only (idles (custody_ledger rp) g) p.
Proof. apply only_weaken. intros X e He. apply He. Qed.

Lemma keeps_neutral rp g {A} (p : prog A) : only (neutral g) p → keeps rp (unmoved g) g p.
Proof. intros Hp. by apply tracks_idle, neutral_idles. Qed.

(** A neutral program, then another. *)
Lemma keeps_after_neutral rp {A B} (Q : Ghost → B → Prop) g (p : prog A) (f : A → prog B) :
  only (neutral g) p → (∀ a, keeps rp Q g (f a)) → keeps rp Q g (bind p f).
Proof. intros Hp. by apply tracks_after_idle, neutral_idles. Qed.
End Custody.

Abbreviation keeps rp := (tracks (custody_ledger rp)).
