(* ===== verification/CustodyStore.v ===== *)
(** * What the statements of the service do to attempts and schedules

    Seen on the abstract store: the calm statements leave every attempt count
    and make nothing scheduled; inserting, counting an attempt and releasing
    what is due do just that. *)

From stdpp Require Import gmap.
From S2P Require Import Prelude GoLib Domain Sql SqlFacts Redis Effects Discipline Frames.
From S2P Require Import NotificationRepo NotificationStore NotificationSpec Listing Releasing Batches.
From S2P Require Import History Queue Worker Custody.

(** ** Calm changes *)

Definition calm_note (n n' : Notification) : Prop :=
  n_AttemptCount n' = n_AttemptCount n ∧ n_MaxRetries n' = n_MaxRetries n ∧
  (n_Status n' = StatusScheduled → n_Status n = StatusScheduled).

(** No notification comes or goes, and those there are change calmly. *)
Definition calm_store (S S' : Store) : Prop :=
  (∀ id n', S' !! id = Some n' → ∃ n, S !! id = Some n ∧ calm_note n n') ∧
  (∀ id, is_Some (S !! id) → is_Some (S' !! id)).

Lemma calm_refl S : calm_store S S.
Proof. split; [|done]. intros id n Hn. by exists n. Qed.

Definition calm_row (r r' : Row) : Prop :=
  r' !! "attempt_count" = r !! "attempt_count" ∧ r' !! "max_retries" = r !! "max_retries" ∧
  (r' !! "status" = Some (VText StatusScheduled) → r !! "status" = Some (VText StatusScheduled)).

Lemma decode_retries id r n :
  decode id r = Some n → r !! "max_retries" = Some (VInt (n_MaxRetries n)).
Proof.
  intros H. scan_inv H. injection H as <-. cbn. unfold cv in *.
  by destruct (r !! "max_retries") as [[]|]; simplify_eq/=.
Qed.

Lemma calm_row_note id r r' n n' :
  decode id r = Some n → decode id r' = Some n' → calm_row r r' → calm_note n n'.
Proof.
  intros Hn Hn' (Ha & Hm & Hs).
  rewrite (decode_count _ _ _ Hn), (decode_count _ _ _ Hn') in Ha.
  rewrite (decode_retries _ _ _ Hn), (decode_retries _ _ _ Hn') in Hm.
  rewrite (decode_status _ _ _ Hn), (decode_status _ _ _ Hn') in Hs.
  split_and!; [congruence..|]. intros E. rewrite E in Hs. specialize (Hs eq_refl). congruence.
Qed.

(** Assignments that are calm. *)
Lemma update_row_calm sets args now r r' :
  Forall (calm_set args) sets → update_row Notifications sets args now r = Some r' → calm_row r r'.
Proof.
  intros Hc Hu. rewrite Forall_forall in Hc.
  assert (Hne : ∀ c, c ∈ ["attempt_count"; "max_retries"] → r' !! c = r !! c).
  { intros c Hin. eapply update_row_ne; [exact Hu|].
    intros ([c' e] & -> & [Hc'|[Hc' _]]%Hc)%list_elem_of_fmap; cbn in *;
      rewrite !elem_of_cons, elem_of_nil in *; intuition congruence. }
  split_and!; [by apply Hne; left|by apply Hne; right; left|].
  unfold update_row in Hu. apply bind_Some in Hu as (kvs & Hk & [= <-]).
  intros [Hv|[Hv _]]%set_all_lookup; [|done].
  destruct (stored_value _ _ _ _ _ _ _ _ Hk Hv) as (e & col & u & Hin & Hcol & He & Hco).
  apply Hc in Hin as [Hin|[_ Hin]]; cbn in Hin.
  { rewrite !elem_of_cons, elem_of_nil in Hin. intuition discriminate. }
  cbn in Hcol. injection Hcol as <-. apply coerce_norm in Hco.
  destruct e as [[|k]|v| |]; cbn in He; [done| | |done|done].
  - destruct u; try done. cbn in Hco. injection Hco as <-. by rewrite He in Hin.
  - injection He as ->. by destruct u.
Qed.

(** Every row of the second database was there, and changed calmly. *)
Definition calm_rows (db db' : DB) : Prop :=
  ∀ id r', db_notifications db' !! id = Some r' →
    ∃ r, db_notifications db !! id = Some r ∧ calm_row r r'.

Lemma calm_row_refl r : calm_row r r.
Proof. done. Qed.

Lemma calm_rows_same db db' : db_notifications db' = db_notifications db → calm_rows db db'.
Proof. intros E id r. rewrite E. by exists r. Qed.

Lemma calm_rows_store db db' :
  db_ok db → db_ok db' → calm_rows db db' → rows_kept db db' → calm_store (abs db) (abs db').
Proof.
  intros Hok Hok' Hc Hk. split.
  - intros id n' (r' & Hr' & Hd')%abs_lookup_some. destruct (Hc _ _ Hr') as (r & Hr & Hcr).
    destruct (abs_lookup_row _ _ _ Hok Hr) as (n & Hd & Ha). exists n. split; [done|].
    by eapply calm_row_note.
  - intros id [n Hn]. destruct (rows_kept_evolves _ _ Hok Hok' Hk id n Hn) as (m & Hm & _). by eexists.
Qed.

Lemma put_rows_back l (m : Table) id r' :
  put_rows l m !! id = Some r' → (id, r') ∈ l ∨ m !! id = Some r'.
Proof.
  revert m. induction l as [|[i x] l IH]; intros m H; [by right|].
  unfold put_rows in H. cbn [foldl fst snd] in H. fold (put_rows l (<[i := x]> m)) in H.
  apply IH in H as [H|H]; [left; by right|]. destruct (decide (i = id)) as [->|Hne].
  - rewrite lookup_insert_eq in H. injection H as ->. left. by left.
  - rewrite lookup_insert_ne in H by done. by right.
Qed.

Lemma calm_is_safe s args : calm_stmt s args → stmt_safe s = true.
Proof.
  destruct s as [| |t sets wh ret|t sets wh ord lim ret|]; cbn; intros Hc; try done.
  - destruct (decide (t = Notifications)) as [->|Hne]; [|by rewrite bool_decide_false].
    rewrite bool_decide_true by done. cbn. apply forallb_forall. intros p Hp%list_elem_of_In.
    rewrite Forall_forall in Hc. unfold set_safe. apply orb_true_iff. left. apply bool_decide_eq_true.
    destruct (Hc eq_refl p Hp) as [Hin|[-> _]]; [by right|by left].
  - by rewrite bool_decide_false.
  - by rewrite bool_decide_false.
Qed.

Lemma calm_effect args now db s n rows db' ins t :
  calm_stmt s args → sql_effect args now db s n rows db' ins t → calm_rows db db'.
Proof.
  intros Hc He. destruct He as
    [t cols vals id r Hi|t cols wh cs ord lim l l' _ Ho Hl|t sets wh cs ret l l' _ Hl Hu
    |t sets wh cs ord lim ret sel l l' _ Hs Hl Hu|t wh cs l _ Hl]; cbn in Hc;
    try by apply calm_rows_same; destruct t.
  destruct (decide (t = Notifications)) as [->|]; [|by apply calm_rows_same; destruct t].
  intros id r' [Hin|Hr]%put_rows_back; [|by exists r'].
  destruct (update_rows_inv _ _ _ _ _ _ _ Hu Hin) as (r & Hr & Hup). exists r. cbn in *.
  rewrite Hl in Hr. apply elem_of_matching in Hr as [? _]. split; [done|].
  eapply update_row_calm; [by apply Hc|done].
Qed.

Lemma calm_statement s args w res w' :
  calm_stmt s args → statement s args w res w' → db_ok (w_db w) →
  calm_store (abs (w_db w)) (abs (w_db w')).
Proof.
  intros Hc H Hok. pose proof (statement_ok _ _ _ _ _ H Hok) as Hok'.
  destruct H as (t & db' & _ & H & ->). cbn in *.
  apply calm_rows_store; [done|done| |by eapply step_kept; [by eapply calm_is_safe|]].
  apply sql_step_inv in H as
    [(n & rows & ins & t1 & -> & He & _)
    |[(name & msg & n & rows & db1 & ins & t1 & -> & -> & _)
    |[(code & name & msg & Hcd & -> & ->)|(msg & -> & [->|(n & rows & ins & t1 & He & _)])]]];
    by eauto using calm_effect, calm_rows_same.
Qed.

(** ** Inserting *)

Lemma insert_key_args n v : insert_key (insert_args n v) = Some (n_ID n, n_Status n).
Proof. done. Qed.

Lemma insert_effect_store n now db aff rows db' ins t :
  db_ok db →
  sql_effect (insert_args n (json_Marshal (n_TemplateVars n))) now db insert_notification aff rows db' ins t →
  (∀ id, ins = Some id → table t db !! id = None) →
  abs db !! n_ID n = None ∧ abs db' = <[n_ID n := Spec.stored n]> (abs db).
Proof.
  intros Hok He Hf. apply insert_effect in He as (-> & -> & _ & _ & -> & _); [|done].
  split; [|done]. by apply abs_lookup_none, Hf.
Qed.

(** The notification is new and stored, or (the answer is an error) nothing
    changed. *)
Lemma insert_statement n w x w' :
  pg_doc (PgExec insert_notification (insert_args n (json_Marshal (n_TemplateVars n)))) w x w' →
  db_ok (w_db w) →
  (is_ok x = false ∧ abs (w_db w') = abs (w_db w)) ∨
  (abs (w_db w) !! n_ID n = None ∧ abs (w_db w') = <[n_ID n := Spec.stored n]> (abs (w_db w)) ∧
   (is_ok x = true ∨ ∃ e, x = Er e ∧ db_fault e = true)).
Proof.
  intros (res & (t & db' & _ & H & ->) & ->) Hok. cbn [w_db set_db] in *.
  apply sql_step_inv in H as
    [(k & rows & ins & t1 & -> & He & Hf & _)
    |[(name & msg & k & rows & db1 & ins & t1 & -> & -> & _)
    |[(code & name & msg & Hcd & -> & ->)|(msg & -> & [->|(k & rows & ins & t1 & He & Hf & _)])]]];
    try (by left); right; eapply insert_effect_store in He as [? ?]; try done; eauto 6.
Qed.

(** ** Releasing *)

Lemma put_lookup ns S id n :
  put ns S !! id = Some n → (n ∈ ns ∧ n_ID n = id) ∨ (S !! id = Some n ∧ id ∉ n_ID <$> ns).
Proof.
  revert S. induction ns as [|m ns IH]; intros S H.
  { right. split; [done|]. by apply not_elem_of_nil. }
  unfold put in H. cbn [foldl] in H. apply IH in H as [[H <-]|[H Hn]]; [left; split; [by right|done]|].
  destruct (decide (n_ID m = id)) as [<-|Hne].
  - rewrite lookup_insert_eq in H. injection H as ->. left. split; [by left|done].
  - rewrite lookup_insert_ne in H by done. right. split; [done|]. rewrite fmap_cons, not_elem_of_cons.
    by split.
Qed.

Lemma put_some ns S id : is_Some (S !! id) → is_Some (put ns S !! id).
Proof.
  revert S. induction ns as [|m ns IH]; intros S H; [done|]. unfold put. cbn [foldl]. apply IH.
  rewrite lookup_insert_is_Some'. by right.
Qed.

Lemma scan_ids row n : scan_fields row = Some n → ∃ l, row = VUuid (n_ID n) :: l.
Proof.
  destruct row as [|v l]; [done|]. intros H. exists l. f_equal.
  cbn in H. do 17 (destruct l as [|? l]; [done|]). destruct l; [|done].
  apply bind_Some in H as (id & Hid & H). destruct v; try done. injection Hid as ->.
  repeat (apply bind_Some in H as (? & _ & H)). by injection H as <-.
Qed.

Lemma scan_all_ids rows ns : scan_all rows = Ok ns → row_ids rows = n_ID <$> ns.
Proof.
  revert ns. induction rows as [|row rows IH]; intros ns H; cbn in H.
  { by injection H as <-. }
  unfold scanNotificationFromRows in H. destruct (scan_fields row) as [n|] eqn:E; [|done].
  destruct (scan_all rows) as [ms|]; [|done]. injection H as <-.
  apply scan_ids in E as [l ->]. unfold row_ids in *. cbn. f_equal. by apply IH.
Qed.

Section Statements.
Context {S : Services} {HS : ServicesOk S} {HO : SentOnce S}.

(** What is released was scheduled, and all of it is returned; unless the statement
    fails, or its rows break off. *)
Lemma fetch_statement limit w x w' :
  svc (Pg (PgQuery fetch_due [VInt limit])) w x w' → db_ok (w_db w) →
  ((∃ e, x = Er e ∧ db_fault e = true) ∧ abs (w_db w') = abs (w_db w)) ∨ broken_off x = true ∨
  ∃ now ns, Forall (λ n, abs (w_db w) !! n_ID n = Some n ∧ n_Status n = StatusScheduled) ns ∧
    NoDup (n_ID <$> ns) ∧ abs (w_db w') = put (Spec.release now <$> ns) (abs (w_db w)) ∧
    match x with
    | Ok (rows, None) => scan_all rows = Ok (Spec.release now <$> ns) ∧ row_ids rows = n_ID <$> ns
    | Ok (rows, Some _) => False
    | Er e => db_fault e = true
    end.
Proof.
  intros H%postgres_doc Hok. cbn in H.
  apply update_in_query in H as (_ & _ & now & _ & Hx);
    [|repeat constructor; cbn; rewrite ?elem_of_cons, elem_of_nil; intuition discriminate|done].
  destruct Hx as [(cs & s & sel & l & l' & Hcs & Ho & Hl & Hp & Hu & Hx)
                 |(Hdb & e & -> & He)]; [right|left; rewrite Hdb; by eauto].
  cbn in Hcs. injection Hcs as <-. cbv zeta in Hx.
  assert (Hcase : broken_off x = true ∨
    (w_db w' = set_table Notifications (put_rows l' (table Notifications (w_db w))) (w_db w) ∧
     (x = Ok (project notification_cols <$> l', None) ∨ ∃ e, x = Er e ∧ db_fault e = true))).
  { destruct Hx as [[Hdb ->]|[[_ (rows & rest & e & _ & ->)]|[Hdb He]]]; [right; by split; [|left]|by left|].
    right. by split; [|right]. }
  destruct Hcase as [?|[Hdb Hx']]; [by left|right]. clear Hx. rename Hx' into Hx.
  destruct (release_selected _ _ _ _ _ _ _ _ Hok Ho Hl Hp Hu) as (ns & _ & Hch & HF).
  exists now, ns. split_and!.
  - apply Forall_forall. intros n Hn. eapply chosen_due in Hn as (Hn & Hd & _); [|apply abs_keyed|done].
    split; [done|]. unfold Spec.due in Hd. bool_hyps. done.
  - pose proof (chosen_NoDup _ _ _ _ _ (abs_keyed _) Hch) as Hnd. apply NoDup_fmap_2_strong; [|done].
    intros n m Hn Hm E. eapply chosen_due in Hn as (Hn & _); [|apply abs_keyed|done].
    eapply chosen_due in Hm as (Hm & _); [|apply abs_keyed|done]. congruence.
  - rewrite Hdb. by apply decode_put.
  - assert (Hids : ∀ ms : list Notification, n_ID <$> (Spec.release now <$> ms) = n_ID <$> ms).
    { intros ms. rewrite <- list_fmap_compose. apply list_fmap_ext. by intros i []. }
    destruct Hx as [->|(e & -> & He)]; [|done].
    apply scan_all_rows in HF. split; [done|]. rewrite <- Hids. by apply scan_all_ids.
Qed.

(** ** Counting an attempt *)

Lemma increment_statement id w x w' :
  svc (Pg (PgExec increment_attempt [VUuid id])) w x w' → db_ok (w_db w) →
  (abs (w_db w') = abs (w_db w) ∧ (is_ok x = true → abs (w_db w) !! id = None)) ∨
  ∃ n now, abs (w_db w) !! id = Some n ∧ abs (w_db w') = <[id := Spec.count_attempt now n]> (abs (w_db w)).
Proof.
  intros H Hok.
  assert (He : exec (IncrementAttempt id) w [Ev (Pg (PgExec increment_attempt [VUuid id])) x]
    (match x with Er e => Some (db_error e) | Ok _ => None end) w').
  { exists x, w', []. split; [done|]. split; [exact H|]. by destruct x. }
  apply IncrementAttempt_refines in He as (_ & now & _ & Ho); [|done].
  unfold outcome, Spec.increment_attempt in Ho. cbn [fst] in Ho.
  destruct (abs (w_db w) !! id) as [n|] eqn:E.
  - destruct Ho as [[-> _]|(Hf & _ & [->| ->])]; eauto. left. split; [done|]. intros Hx. destruct Hf.
    destruct x; [by repeat constructor|done].
  - left. by destruct Ho as [[-> _]|(_ & _ & [->| ->])].
Qed.

(** ** Reading a row *)

(** The store is as it was, and a row that is answered is the notification's. *)
Lemma select_statement id w x w' :
  svc (Pg (PgQueryRow select_by_id [VUuid id])) w x w' → db_ok (w_db w) →
  w_db w' = w_db w ∧
  match x with
  | Ok (Some row) => ∃ n, scan_fields row = Some n ∧ abs (w_db w) !! id = Some n
  | Ok None => abs (w_db w) !! id = None
  | Er e => db_fault e = true
  end.
Proof.
  intros H%postgres_doc Hok. apply (select_row _ _ _ _ id) in H as (_ & Hdb & Hx); [|done..].
  split; [done|]. destruct Hx as [->|(e & -> & He)]; [|done].
  cbn. destruct (db_notifications (w_db w) !! id) as [r|] eqn:E; cbn.
  - destruct (abs_lookup_row _ _ _ Hok E) as (m & Hd & Ha). exists m. by unfold decode in Hd.
  - by apply abs_lookup_none.
Qed.
End Statements.

(** ** Transactions *)

(** The write inserts the notification, none of whose attempts is counted. *)
Definition writes_note (x : TableName * UUID * Row) (n : Notification) : Prop :=
  ∃ r, x = (Notifications, n_ID n, r) ∧ decode (n_ID n) r = Some n ∧ n_AttemptCount n = 0.

Definition note_key (n : Notification) : UUID * Status := (n_ID n, n_Status n).

(** The open transaction [h] inserts what is listed. *)
Definition tx_inserts (w : World) (h : N) (l : list (UUID * Status)) : Prop :=
  ∃ ws ns, w_txs w !! h = Some (mkTx ws false) ∧ Forall2 writes_note ws ns ∧ l = note_key <$> ns ∧
           NoDup l.*1.

Lemma keys_ids ns : (note_key <$> ns).*1 = n_ID <$> ns.
Proof. rewrite <- list_fmap_compose. by apply list_fmap_ext. Qed.

Lemma overlay_put ws ns db : Forall2 writes_note ws ns → abs (overlay ws db) = put ns (abs db).
Proof.
  intros H. revert db. induction H as [|x n ws ns (r & -> & Hd & _) H IH]; intros db; [done|].
  unfold overlay, put in *. cbn [foldl]. rewrite IH. f_equal. by apply abs_insert.
Qed.

Lemma put_in ns S id : id ∈ n_ID <$> ns → is_Some (put ns S !! id).
Proof.
  revert S. induction ns as [|n ns IH]; intros S; [by intros ?%not_elem_of_nil|].
  rewrite fmap_cons. unfold put. cbn [foldl]. intros [->|H]%elem_of_cons; [|by apply IH].
  apply put_some. by rewrite lookup_insert_eq.
Qed.

Lemma tx_exec_inserts h n w x w' l :
  pg_doc (PgTxExec h insert_notification (insert_args n (json_Marshal (n_TemplateVars n)))) w x w' →
  tx_inserts w h l → n_AttemptCount n = 0 → is_ok x = true → tx_inserts w' h (l ++ [(n_ID n, n_Status n)]).
Proof.
  intros (tx & Htx & Hcase) (ws & ns & Hw & Hws & -> & Hnd) Hn Hx. rewrite Hw in Htx. injection Htx as <-.
  destruct Hcase as [(t & cols & vals & id & r & now & db' & Hs & _ & Hi & Hst & -> & ->)
                    |(e & now & _ & -> & _)]; [|done]. cbn [tx_writes] in *.
  injection Hs as <- <- <-. apply insert_args_row in Hi as (-> & Hd & _).
  exists (ws ++ [(Notifications, n_ID n, r)]), (ns ++ [Spec.stored n]). split_and!.
  - cbn. by rewrite lookup_insert_eq.
  - apply Forall2_app; [done|]. repeat constructor. by exists r.
  - by rewrite fmap_app.
  - rewrite fmap_app. apply NoDup_app. split; [done|]. split; [|apply NoDup_singleton].
    intros id Hid ->%list_elem_of_singleton. rewrite keys_ids in Hid.
    inversion Hst as [k rows dbx ins t1 He Hfresh Hok'| | | |]; subst.
    apply sql_insert_inv in He as (id1 & r1 & Hi1 & _ & _ & _ & -> & ->).
    specialize (Hfresh _ eq_refl). apply insert_args_row in Hi1 as (-> & _).
    apply abs_lookup_none in Hfresh. rewrite (overlay_put _ ns) in Hfresh by done.
    destruct (put_in _ (abs (w_db w)) _ Hid) as [m Hm]. cbn [fst] in Hm. congruence.
Qed.

(** The transaction's notifications are new, and there now; or nothing changed,
    and the answer is an error. *)
Lemma tx_commit_store h w x w' l :
  tx_commit h w x w' → tx_inserts w h l →
  (x ≠ None ∧ abs (w_db w') = abs (w_db w)) ∨
  ∃ ns, l = note_key <$> ns ∧ NoDup l.*1 ∧ abs (w_db w') = put ns (abs (w_db w)) ∧
        Forall (λ n, abs (w_db w) !! n_ID n = None ∧ n_AttemptCount n = 0) ns.
Proof.
  intros (tx & Htx & Hcase) (ws & ns & Hw & Hws & -> & Hnd). rewrite Hw in Htx. injection Htx as <-.
  cbn [tx_writes] in Hcase.
  assert (Happ : fresh_writes ws (w_db w) → ∃ ns', note_key <$> ns = note_key <$> ns' ∧
    NoDup (note_key <$> ns).*1 ∧ abs (overlay ws (w_db w)) = put ns' (abs (w_db w)) ∧
    Forall (λ n, abs (w_db w) !! n_ID n = None ∧ n_AttemptCount n = 0) ns').
  { intros Hf. exists ns. split_and!; [done..|by apply overlay_put|].
    clear Hw Hnd Hcase. induction Hws as [|? n ws ns (r & -> & _ & H0) _ IH]; [done|].
    apply Forall_cons in Hf as [Hf Hfs]. constructor; [|by apply IH]. split; [|done].
    by apply abs_lookup_none. }
  destruct Hcase as [(_ & _ & Hf & _ & ->)|[(e & -> & ->)|(msg & -> & _ & Hf & _ & ->)]];
    [right; by apply Happ|by left|right; by apply Happ].
Qed.
