(* ===== verification/CustodyInv.v ===== *)
(** * The invariant of the account

    Where a notification can be: its message waits in a priority stream, it is a
    member of the delayed set, its row is scheduled, a goroutine has it in hand.
    The invariant [custody] says that it is in one place at most, and what its
    attempts are there; every allowed effect keeps it, and gets a plausible
    answer. *)

From stdpp Require Import gmap.
From S2P Require Import Prelude GoLib Domain Sql SqlFacts Redis RedisFacts Effects Discipline Frames.
From S2P Require Import NotificationRepo NotificationStore Typed NotificationSpec Listing Releasing.
From S2P Require Import Batches History Queue QueueSpec Worker System Custody CustodyStore.

Inductive Place := InLane (k : string) (i : EntryID) | InDelayed (m : string) | InSchedule | WithThread (i : nat).

#[export] Instance Place_eq_dec : EqDecision Place.
Proof. solve_decision. Defined.

(** The state the account is about: what waits in the streams, the delayed set,
    the notifications. *)
Record View := mkView {
  v_waiting : string → list Entry;
  v_delayed : ZSet;
  v_store : Store;
}.

Definition waiting (rd : Redis) (k : string) : list Entry := ln_waiting (lane ConsumerGroup k rd).

Definition view (w : World) : View := mkView (waiting (w_redis w)) (zset DelayedSet (w_redis w)) (abs (w_db w)).

(** Another attempt is due. *)
Definition below (S : Store) (id : UUID) : Prop :=
  ∀ n, S !! id = Some n → n_AttemptCount n < Z.max 1 (n_MaxRetries n).

Definition idle (p : Place) : Prop := match p with WithThread _ => False | _ => True end.

Section Custody.
Context {T : UuidText}.

(** A member that is being taken off the delayed set is with its goroutine. *)
Definition at_place (V : View) (gs : list Ghost) (id : UUID) (p : Place) : Prop :=
  match p with
  | InLane k i =>
      k ∈ priority_streams ∧ ∃ e, e ∈ v_waiting V k ∧ e_id e = i ∧ about e = Some id
  | InDelayed m =>
      is_Some (v_delayed V !! m) ∧ member_about m = Some id ∧
      ∀ i g m', gs !! i = Some g → held g !! id ≠ Some (Listed m')
  | InSchedule => ∃ n, v_store V !! id = Some n ∧ n_Status n = StatusScheduled
  | WithThread i => ∃ g, gs !! i = Some g ∧ is_Some (held g !! id)
  end.

(** What is true of a notification in hand; [r] is the processor of retries. *)
Definition phase_ok (r : nat) (V : View) (i : nat) (id : UUID) (ph : Phase) : Prop :=
  match ph with
  | Ready => below (v_store V) id
  | Listed m =>
      below (v_store V) id ∧ i = r ∧ member_about m = Some id ∧
      ∀ m', is_Some (v_delayed V !! m') → member_about m' = Some id → m' = m
  | Holding n => ∀ s, v_store V !! id = Some s →
      n_AttemptCount s = n_AttemptCount n ∧ n_MaxRetries s = n_MaxRetries n ∧
      n_AttemptCount s < Z.max 1 (n_MaxRetries s)
  | Spent c m => ∀ s, v_store V !! id = Some s → n_AttemptCount s ≤ c ∧ n_MaxRetries s = m
  end.

Record custody (r : nat) (V : View) (gs : list Ghost) : Prop := {
  cu_unique id p q : at_place V gs id p → at_place V gs id q → p = q;
  cu_known id p : at_place V gs id p → is_Some (v_store V !! id);
  cu_idle id p : at_place V gs id p → idle p → below (v_store V) id;
  cu_phases i g id ph : gs !! i = Some g → held g !! id = Some ph → phase_ok r V i id ph;
  cu_bound id n : v_store V !! id = Some n → 0 ≤ n_AttemptCount n ≤ Z.max 1 (n_MaxRetries n);
  cu_members m : is_Some (v_delayed V !! m) → is_Some (member_about m);
}.

(** The open transactions. *)
Record open_txs (w : World) (gs : list Ghost) : Prop := {
  ot_begun i g h : gs !! i = Some g → is_Some (opened g !! h) → (h < w_begun w)%N;
  ot_own i j g g' h : gs !! i = Some g → gs !! j = Some g' → is_Some (opened g !! h) →
                      is_Some (opened g' !! h) → i = j;
  ot_inserts i g h l : gs !! i = Some g → opened g !! h = Some (Some l) → tx_inserts w h l;
}.

(** ** Moving a notification *)

Section Step.
Context (r : nat) (V V' : View) (gs : list Ghost) (i : nat) (g g' : Ghost).
Context (Hc : custody r V gs) (Hi : gs !! i = Some g).

Let gs' := <[i := g']> gs.

(** How the goroutine's places come about, if nothing else is new. *)
Lemma places_back id q :
  at_place V' gs' id q →
  (∀ k e, q = InLane k (e_id e) → e ∈ v_waiting V' k → about e = Some id → e ∈ v_waiting V k) →
  (∀ m, q = InDelayed m → is_Some (v_delayed V' !! m) → member_about m = Some id → is_Some (v_delayed V !! m) ∧
     ∀ m', held g !! id = Some (Listed m') → ∃ m'', held g' !! id = Some (Listed m'')) →
  (∀ n, q = InSchedule → v_store V' !! id = Some n → n_Status n = StatusScheduled →
     ∃ n', v_store V !! id = Some n' ∧ n_Status n' = StatusScheduled) →
  (q = WithThread i ∧ is_Some (held g' !! id)) ∨ (at_place V gs id q ∧ q ≠ WithThread i).
Proof.
  intros Hq Hw Hd Hs. unfold gs' in Hq. destruct q as [k j|m| |j]; cbn in Hq |- *.
  - right. destruct Hq as (Hk & e & He & <- & Ha). split; [|done]. split; [done|]. exists e. eauto.
  - right. destruct Hq as (Hm & Ha & Hl). destruct (Hd m eq_refl Hm Ha) as [Hm' Hli]. split; [|done].
    split; [done|]. split; [done|]. intros j gj m' Hj Hh. destruct (decide (j = i)) as [->|Hne].
    + rewrite Hi in Hj. injection Hj as <-. destruct (Hli _ Hh) as [m'' Hm''].
      apply (Hl i g' m''); [|done]. apply list_lookup_insert_eq. by eapply lookup_lt_Some.
    + by apply (Hl j gj m'); [rewrite list_lookup_insert_ne|].
  - right. destruct Hq as (n & Hn & Hst). split; [by apply (Hs n)|done].
  - destruct Hq as (gj & Hj & Hh). destruct (decide (j = i)) as [->|Hne].
    + left. rewrite list_lookup_insert_eq in Hj by (by eapply lookup_lt_Some). by injection Hj as ->.
    + right. rewrite list_lookup_insert_ne in Hj by done. split; [by exists gj|congruence].
Qed.

Lemma phase_mono j id ph :
  phase_ok r V j id ph →
  (∀ s', v_store V' !! id = Some s' → ∃ s, v_store V !! id = Some s ∧ calm_note s s') →
  (∀ m, is_Some (v_delayed V' !! m) → member_about m = Some id → is_Some (v_delayed V !! m)) →
  phase_ok r V' j id ph.
Proof.
  intros Hp Hs Hd.
  assert (Hb : below (v_store V) id → below (v_store V') id).
  { intros Hb s' Hs'. destruct (Hs _ Hs') as (s & E & -> & -> & _). by apply Hb. }
  destruct ph as [|m|n|c m]; cbn in *.
  - auto.
  - destruct Hp as (H1 & H2 & H3 & H4). split_and!; auto.
  - intros s' Hs'. destruct (Hs _ Hs') as (s & E & -> & -> & _). auto.
  - intros s' Hs'. destruct (Hs _ Hs') as (s & E & -> & -> & _). auto.
Qed.

(** Each notification is where it was, or has moved to one place. *)
Lemma custody_step :
  (∀ id, is_Some (v_store V !! id) → is_Some (v_store V' !! id)) →
  (∀ id, (∀ q, at_place V' gs' id q →
            at_place V gs id q ∧ (idle q → below (v_store V) id → below (v_store V') id)) ∨
         (∃ t, is_Some (v_store V' !! id) ∧ (idle t → below (v_store V') id) ∧
               ∀ q, at_place V' gs' id q → q = t)) →
  (∀ j gj id ph, gs' !! j = Some gj → held gj !! id = Some ph → phase_ok r V' j id ph) →
  (∀ id n, v_store V' !! id = Some n → 0 ≤ n_AttemptCount n ≤ Z.max 1 (n_MaxRetries n)) →
  (∀ m, is_Some (v_delayed V' !! m) → is_Some (member_about m)) →
  custody r V' gs'.
Proof.
  intros Hk Hp Hph Hb Hm. split; [..|done|done|done]; intros id; specialize (Hp id).
  - intros p q Ha Hb'. destruct Hp as [Hp|(t & _ & _ & Ht)].
    + by eapply (cu_unique _ _ _ Hc); [apply Hp|apply Hp].
    + by rewrite (Ht _ Ha), (Ht _ Hb').
  - intros p Ha. destruct Hp as [Hp|(t & ? & _ & _)]; [|done]. apply Hk.
    eapply (cu_known _ _ _ Hc). by apply Hp.
  - intros p Ha Hid. destruct Hp as [Hp|(t & _ & Hbt & Ht)].
    + destruct (Hp _ Ha) as [Ha' Hbl]. apply Hbl; [done|]. by eapply (cu_idle _ _ _ Hc).
    + rewrite (Ht _ Ha) in Hid. auto.
Qed.

(** The phases of the other goroutines, and of the notifications the goroutine
    has not touched. *)
Lemma phases_step :
  (∀ id ph, held g' !! id = Some ph → held g !! id = Some ph ∨ phase_ok r V' i id ph) →
  (∀ j gj id ph, gs !! j = Some gj → held gj !! id = Some ph → held g' !! id = Some ph ∨ j ≠ i →
     phase_ok r V j id ph → phase_ok r V' j id ph) →
  ∀ j gj id ph, gs' !! j = Some gj → held gj !! id = Some ph → phase_ok r V' j id ph.
Proof.
  intros Hnew Hold j gj id ph Hj Hh. unfold gs' in Hj. destruct (decide (j = i)) as [->|Hne].
  - rewrite list_lookup_insert_eq in Hj by (by eapply lookup_lt_Some). injection Hj as <-.
    destruct (Hnew _ _ Hh) as [Hg|]; [|done]. eapply Hold; [done..|by left|].
    by eapply (cu_phases _ _ _ Hc).
  - rewrite list_lookup_insert_ne in Hj by done. eapply Hold; [done..|by right|].
    by eapply (cu_phases _ _ _ Hc).
Qed.

(** What the goroutine has in hand is nowhere else. *)
Lemma held_only_here id ph q : held g !! id = Some ph → at_place V gs id q → q = WithThread i.
Proof. intros Hh Hq. eapply (cu_unique _ _ _ Hc); [done|]. exists g. by rewrite Hh. Qed.

(** What is elsewhere it has not. *)
Lemma not_held id q : at_place V gs id q → q ≠ WithThread i → held g !! id = None.
Proof.
  intros Hq Hne. destruct (held g !! id) eqn:E; [|done]. destruct Hne. by eapply held_only_here.
Qed.
End Step.

(** ** Changes to the queue *)

Section Queue.
Context (r : nat) (V V' : View) (gs : list Ghost) (i : nat) (g : Ghost).
Context (Hc : custody r V gs) (Hi : gs !! i = Some g) (HS : v_store V' = v_store V).

(** Nothing new anywhere, and the goroutine has what it had. *)
Lemma custody_shrinks g' :
  held g' = held g →
  (∀ k e, k ∈ priority_streams → e ∈ v_waiting V' k → e ∈ v_waiting V k) →
  (∀ m, is_Some (v_delayed V' !! m) → is_Some (v_delayed V !! m)) →
  custody r V' (<[i := g']> gs).
Proof.
  intros Hh Hw Hd. eapply custody_step; [exact Hc|..]; rewrite ?HS; [done| | |apply (cu_bound _ _ _ Hc)|].
  - intros id. left. intros q Hq. split; [|done].
    destruct (places_back V _ _ _ _ _ Hi _ _ Hq) as [[-> Hs]|[Hq' _]]; [..|done].
    + intros k e -> He _. apply Hw; [by destruct Hq|done].
    + intros m _ Hm _. split; [by apply Hd|]. rewrite Hh. eauto.
    + rewrite HS. eauto.
    + exists g. by rewrite <- Hh.
  - eapply phases_step; [done|done| |].
    + intros id ph. rewrite Hh. by left.
    + intros j gj id ph _ _ _ Hp. eapply phase_mono; [exact Hp| |intros m Hm _; by apply Hd].
      rewrite HS. intros s Hs. by exists s.
  - intros m Hm. apply (cu_members _ _ _ Hc), Hd, Hm.
Qed.

(** The goroutine takes the notifications of [ids] over: wherever they were,
    they are not there any more. *)
Lemma custody_taken ids :
  (∀ id, id ∈ ids → ∃ p, at_place V gs id p ∧ below (v_store V) id ∧
     ∀ q, at_place V' (<[i := hold_all Ready ids g]> gs) id q → q = WithThread i) →
  (∀ k e, k ∈ priority_streams → e ∈ v_waiting V' k → e ∈ v_waiting V k) →
  (∀ m, is_Some (v_delayed V' !! m) → is_Some (v_delayed V !! m)) →
  custody r V' (<[i := hold_all Ready ids g]> gs).
Proof.
  intros Ht Hw Hd. eapply custody_step; [exact Hc|..]; rewrite ?HS; [done| | |apply (cu_bound _ _ _ Hc)|].
  - intros id. destruct (decide (id ∈ ids)) as [Hin|Hin].
    + right. destruct (Ht id Hin) as (p & Hp & Hb & Hq). exists (WithThread i).
      split_and!; [by eapply (cu_known _ _ _ Hc)|done|done].
    + left. intros q Hq. split; [|done].
      destruct (places_back V _ _ _ _ _ Hi _ _ Hq) as [[-> Hs]|[Hq' _]]; [..|done].
      * intros k e -> He _. apply Hw; [by destruct Hq|done].
      * intros m _ Hm _. split; [by apply Hd|]. rewrite hold_all_held, decide_False by done. eauto.
      * rewrite HS. eauto.
      * exists g. rewrite hold_all_held, decide_False in Hs by done. done.
  - eapply phases_step; [done|done| |].
    + intros id ph. rewrite hold_all_held. case_decide as Hin; [|by left]. intros [= <-]. right.
      cbn. rewrite HS. by destruct (Ht id Hin) as (p & _ & Hb & _).
    + intros j gj id ph _ _ _ Hp. eapply phase_mono; [exact Hp| |intros m Hm _; by apply Hd].
      rewrite HS. intros s Hs. by exists s.
  - intros m Hm. apply (cu_members _ _ _ Hc), Hd, Hm.
Qed.

(** The goroutine puts a notification down as a message or as a member. *)
Lemma custody_put_down id ph t :
  held g !! id = Some ph → below (v_store V) id → (∀ m, ph ≠ Listed m) →
  (∀ q, at_place V' (<[i := let_go id g]> gs) id q → q = t ∨ at_place V gs id q ∨ q = WithThread i) →
  (∀ k e, k ∈ priority_streams → e ∈ v_waiting V' k → e ∈ v_waiting V k ∨ about e = Some id) →
  (∀ m, is_Some (v_delayed V' !! m) → is_Some (v_delayed V !! m) ∨ member_about m = Some id) →
  custody r V' (<[i := let_go id g]> gs).
Proof.
  intros Hh Hb Hnl Ht Hw Hd.
  assert (Hhere : at_place V gs id (WithThread i)) by (exists g; by rewrite Hh).
  eapply custody_step; [exact Hc|..]; rewrite ?HS; [done| | |apply (cu_bound _ _ _ Hc)|].
  - intros id'. destruct (decide (id' = id)) as [->|Hne].
    + right. exists t. split_and!; [by eapply (cu_known _ _ _ Hc)|done|]. intros q Hq.
      assert (Hnot : q ≠ WithThread i).
      { intros ->. destruct Hq as (gi & Hgi & Hs). rewrite list_lookup_insert_eq in Hgi by (by eapply lookup_lt_Some).
        injection Hgi as <-. cbn in Hs. rewrite lookup_delete_eq in Hs. by destruct Hs. }
      destruct (Ht _ Hq) as [|[Hold|]]; [done| |done].
      by apply (held_only_here _ _ _ _ _ Hc Hi _ _ _ Hh) in Hold.
    + left. intros q Hq. split; [|done].
      destruct (places_back V _ _ _ _ _ Hi _ _ Hq) as [[-> Hs]|[Hq' _]]; [..|done].
      * intros k e -> He Ha. destruct (Hw k e) as [|Ha']; [by destruct Hq|done|done|congruence].
      * intros m _ Hm Ha. destruct (Hd m Hm) as [|Ha']; [|congruence]. split; [done|]. cbn.
        rewrite lookup_delete_ne by done. eauto.
      * rewrite HS. eauto.
      * exists g. cbn in Hs. by rewrite lookup_delete_ne in Hs by done.
  - eapply phases_step; [done|done| |].
    + intros id' ph'. cbn. rewrite lookup_delete_Some. intros [_ ?]. by left.
    + intros j gj id' ph' Hj Hh' Hor Hp. eapply phase_mono; [exact Hp| |].
      { rewrite HS. intros s Hs. by exists s. }
      intros m Hm Ha. destruct (Hd m Hm) as [|Ha']; [done|]. exfalso.
      assert (id' = id) as -> by congruence. destruct Hor as [Hor|Hne].
      * cbn in Hor. by rewrite lookup_delete_eq in Hor.
      * assert (E : WithThread j = WithThread i); [|congruence].
        eapply (cu_unique _ _ _ Hc); [|exact Hhere]. exists gj. by rewrite Hh'.
  - intros m Hm. destruct (Hd m Hm) as [|Ha]; [by apply (cu_members _ _ _ Hc)|by rewrite Ha].
Qed.

(** The processor of retries finds members that are due. *)
Lemma held_listed ms g0 id ph :
  held (foldr list_member g0 ms) !! id = Some ph →
  (∃ m, m ∈ ms ∧ member_about m = Some id ∧ ph = Listed m) ∨
  (held g0 !! id = Some ph ∧ ∀ m, m ∈ ms → member_about m ≠ Some id).
Proof.
  induction ms as [|m ms IH]; cbn [foldr].
  { intros H. right. split; [done|]. by intros m ?%not_elem_of_nil. }
  unfold list_member at 1. destruct (member_about m) as [id'|] eqn:E.
  - unfold hold. cbn [held]. rewrite lookup_insert_Some. intros [[-> <-]|[Hne H]].
    + left. exists m. split; [by left|done].
    + apply IH in H as [(m' & Hm' & ?)|[? Hn]]; [left; exists m'; split; [by right|done]|right].
      split; [done|]. intros m' [->|Hm']%elem_of_cons; [congruence|by apply Hn].
  - intros H. apply IH in H as [(m' & Hm' & ?)|[? Hn]]; [left; exists m'; split; [by right|done]|right].
    split; [done|]. intros m' [->|Hm']%elem_of_cons; [congruence|by apply Hn].
Qed.

Lemma listed_held ms g0 id m :
  m ∈ ms → member_about m = Some id → ∃ m', held (foldr list_member g0 ms) !! id = Some (Listed m').
Proof.
  induction ms as [|m0 ms IH]; [by intros ?%not_elem_of_nil|]. cbn [foldr]. unfold list_member at 1.
  intros [->|Hm]%elem_of_cons Ha.
  - rewrite Ha. exists m0. cbn. by rewrite lookup_insert_eq.
  - destruct (IH Hm Ha) as [m' Hm']. destruct (member_about m0) as [id'|]; [|by exists m'].
    cbn. destruct (decide (id' = id)) as [->|]; [rewrite lookup_insert_eq|rewrite lookup_insert_ne by done];
      by eexists.
Qed.

Lemma listed_opened ms g0 : opened (foldr list_member g0 ms) = opened g0.
Proof.
  induction ms as [|m ms IH]; [done|]. cbn [foldr]. unfold list_member at 1. by destruct (member_about m).
Qed.

(** Only the processor of retries has listed members. *)
Lemma listed_by_r j gj id m :
  custody r V gs → gs !! j = Some gj → held gj !! id = Some (Listed m) → j = r.
Proof. intros Hcu Hj Hh. by apply (cu_phases _ _ _ Hcu _ _ _ _ Hj Hh). Qed.
End Queue.

Section Listing.
Context (r : nat) (V : View) (gs : list Ghost) (g : Ghost).
Context (Hc : custody r V gs) (Hi : gs !! r = Some g).
Context (Hnl : ∀ id m, held g !! id ≠ Some (Listed m)).

Lemma in_delayed m id : is_Some (v_delayed V !! m) → member_about m = Some id → at_place V gs id (InDelayed m).
Proof.
  intros Hm Ha. split; [done|]. split; [done|]. intros j gj m' Hj Hh.
  assert (j = r) as -> by by eapply listed_by_r. rewrite Hi in Hj. injection Hj as <-. by apply (Hnl id m').
Qed.

Lemma custody_listed ms :
  Forall (λ m, is_Some (v_delayed V !! m)) ms →
  custody r V (<[r := foldr list_member g ms]> gs).
Proof.
  intros Hms. rewrite Forall_forall in Hms.
  assert (Hnot : ∀ id m ph, m ∈ ms → member_about m = Some id → held g !! id = Some ph → False).
  { intros id m ph Hm Ha Hh. by eapply (held_only_here _ _ _ _ _ Hc Hi) in Hh; [|by apply in_delayed; [by apply Hms|]]. }
  eapply (custody_step _ V V); [exact Hc|done|..|apply (cu_bound _ _ _ Hc)|apply (cu_members _ _ _ Hc)].
  - intros id. destruct (decide (Exists (λ m, member_about m = Some id) ms)) as [Hex|Hex].
    + right. apply Exists_exists in Hex as (m & Hm & Ha).
      pose proof (in_delayed m id (Hms _ Hm) Ha) as Hp. exists (WithThread r).
      split; [by eapply (cu_known _ _ _ Hc)|]. split; [done|]. intros q Hq.
      destruct (listed_held ms g id m Hm Ha) as [m' Hm'].
      destruct (places_back V V _ _ _ _ Hi _ _ Hq) as [[-> _]|[Hq' _]]; [by eauto..|done|].
      apply (cu_unique _ _ _ Hc _ _ _ Hp) in Hq'. subst q. destruct Hq as (_ & _ & Hl). exfalso.
      apply (Hl r (foldr list_member g ms) m'); [|done]. apply list_lookup_insert_eq. by eapply lookup_lt_Some.
    + left. intros q Hq. split; [|auto].
      assert (He : ∀ ph, held (foldr list_member g ms) !! id = Some ph → held g !! id = Some ph).
      { intros ph [(m & Hm & Ha & _)|[? _]]%held_listed; [|done]. destruct Hex. apply Exists_exists. by exists m. }
      destruct (places_back V V _ _ _ _ Hi _ _ Hq) as [[-> [ph Hs]]|[Hq' _]]; [by eauto| |by eauto| |done].
      * intros m _ Hm _. split; [done|]. intros m' Hm'. by apply Hnl in Hm'.
      * exists g. split; [done|]. exists ph. by apply He.
  - eapply phases_step; [done|done| |].
    + intros id ph [(m & Hm & Ha & ->)|[? _]]%held_listed; [right|by left].
      pose proof (in_delayed m id (Hms _ Hm) Ha) as Hp. split_and!; [by apply (cu_idle _ _ _ Hc _ _ Hp)|done|done|].
      intros m' Hm' Ha'. pose proof (in_delayed m' id Hm' Ha') as Hp'.
      by injection (cu_unique _ _ _ Hc _ _ _ Hp Hp') as ->.
    + by intros.
Qed.

(** The due members are of distinct notifications, new to the goroutine. *)
Lemma listed_new ms :
  NoDup ms → Forall (λ m, is_Some (v_delayed V !! m)) ms →
  new_to g (omap member_about ms) ∧ Forall (λ m, is_Some (member_about m)) ms.
Proof.
  intros Hnd Hms. split; [split|].
  - induction Hnd as [|m ms Hm Hnd IH]; [constructor|]. apply Forall_cons in Hms as [Hm0 Hms]. cbn.
    destruct (member_about m) as [id|] eqn:E; [|by apply IH]. apply NoDup_cons. split; [|by apply IH].
    intros (m' & Hm' & Ha')%list_elem_of_omap. rewrite Forall_forall in Hms.
    pose proof (in_delayed m id Hm0 E) as Hp. pose proof (in_delayed m' id (Hms _ Hm') Ha') as Hp'.
    injection (cu_unique _ _ _ Hc _ _ _ Hp Hp') as ->. done.
  - apply Forall_forall. intros id (m & Hm & Ha)%list_elem_of_omap. rewrite Forall_forall in Hms.
    eapply (not_held _ _ _ _ _ Hc Hi); [by apply (in_delayed m); [apply Hms|]|done].
  - eapply Forall_impl; [exact Hms|]. apply (cu_members _ _ _ Hc).
Qed.
End Listing.

(** ** Changes to the table *)

Section Table.
Context (r : nat) (V : View) (S' : Store) (gs : list Ghost) (i : nat) (g : Ghost).
Context (Hc : custody r V gs) (Hi : gs !! i = Some g).

Let V' := mkView (v_waiting V) (v_delayed V) S'.

(** What the goroutine has, at most, if no row is newly scheduled. *)
Lemma places_table g' id q :
  (∀ n, q = InSchedule → S' !! id = Some n → n_Status n = StatusScheduled →
     ∃ n', v_store V !! id = Some n' ∧ n_Status n' = StatusScheduled) →
  (∀ m', held g !! id = Some (Listed m') → ∃ m'', held g' !! id = Some (Listed m'')) →
  at_place V' (<[i := g']> gs) id q →
  (q = WithThread i ∧ is_Some (held g' !! id)) ∨ (at_place V gs id q ∧ q ≠ WithThread i).
Proof. intros Hs Hl Hq. eapply (places_back V V'); eauto. Qed.

Lemma custody_calm g' :
  held g' = held g → calm_store (v_store V) S' → custody r V' (<[i := g']> gs).
Proof.
  intros Hh [Hback Hk].
  assert (Hb : ∀ id, below (v_store V) id → below S' id).
  { intros id Hb n Hn. destruct (Hback _ _ Hn) as (s & E & -> & -> & _). by apply Hb. }
  eapply custody_step; [exact Hc|exact Hk|..|apply (cu_members _ _ _ Hc)].
  - intros id. left. intros q Hq. split; [|auto]. apply places_table in Hq as [[-> Hs]|[Hq _]]; [|done| |].
    + exists g. by rewrite <- Hh.
    + intros n _ Hn Hst. destruct (Hback _ _ Hn) as (s & E & _ & _ & Hs). eauto.
    + rewrite Hh. eauto.
  - eapply phases_step; [done|done| |].
    + intros id ph. rewrite Hh. by left.
    + intros j gj id ph _ _ _ Hp. eapply phase_mono; [exact Hp|apply Hback|done].
  - intros id n Hn. destruct (Hback _ _ Hn) as (s & E & -> & -> & _). by apply (cu_bound _ _ _ Hc id).
Qed.

(** The goroutine goes on with a notification it has. *)
Lemma custody_rephase g' id ph ph' :
  held g !! id = Some ph → (∀ m, ph ≠ Listed m) → held g' = <[id := ph']> (held g) →
  (∀ id', id' ≠ id → S' !! id' = v_store V !! id') →
  (∀ n, v_store V !! id = Some n → ∃ n', S' !! id = Some n' ∧ n_Status n' = n_Status n ∧
     0 ≤ n_AttemptCount n' ≤ Z.max 1 (n_MaxRetries n')) →
  phase_ok r V' i id ph' → custody r V' (<[i := g']> gs).
Proof.
  intros Hg Hnl Hh Hne Hs Hph.
  assert (Hhere : at_place V gs id (WithThread i)) by (exists g; by rewrite Hg).
  destruct (cu_known _ _ _ Hc _ _ Hhere) as [n Hn]. destruct (Hs _ Hn) as (n' & Hn' & Hst & Hbd).
  eapply custody_step; [exact Hc|..|apply (cu_members _ _ _ Hc)].
  - intros id' Hid'. cbn. destruct (decide (id' = id)) as [->|Hd]; [by eexists|by rewrite Hne].
  - intros id'. left. intros q Hq.
    apply places_table in Hq as [[-> Hs']|[Hq Hq']]; [split| split| |].
    + exists g. split; [done|]. rewrite Hh in Hs'.
      destruct (decide (id' = id)) as [->|Hd]; [by rewrite Hg|by rewrite lookup_insert_ne in Hs'].
    + done.
    + done.
    + intros _ Hb x Hx. cbn in Hx. rewrite Hne in Hx; [by apply Hb|]. intros ->.
      apply Hq'. by eapply (held_only_here _ _ _ _ _ Hc Hi).
    + intros x _ Hx Hsx. destruct (decide (id' = id)) as [->|Hd]; [|rewrite <- Hne by done; eauto].
      rewrite Hn' in Hx. injection Hx as <-. exists n. by rewrite <- Hst.
    + intros m Hm. rewrite Hh. destruct (decide (id' = id)) as [->|Hd].
      * by destruct (Hnl m); congruence.
      * rewrite lookup_insert_ne by done. eauto.
  - eapply phases_step; [done|done| |].
    + intros id' ph0. rewrite Hh, lookup_insert_Some. intros [[<- <-]|[_ ?]]; [by right|by left].
    + intros j gj id' ph0 Hj Hhj Hor Hp. destruct (decide (id' = id)) as [->|Hd].
      * destruct Hor as [Hor|Hji].
        -- rewrite Hh, lookup_insert_eq in Hor. injection Hor as <-. destruct (decide (j = i)) as [->|Hji]; [done|].
           destruct Hji. assert (E : WithThread j = WithThread i); [|congruence].
           eapply (held_only_here _ _ _ _ _ Hc Hi); [done|]. exists gj. by rewrite Hhj.
        -- destruct Hji. assert (E : WithThread j = WithThread i); [|congruence].
           eapply (held_only_here _ _ _ _ _ Hc Hi); [done|]. exists gj. by rewrite Hhj.
      * eapply phase_mono; [exact Hp| |done]. cbn. rewrite Hne by done. intros s E. by exists s.
  - intros id' x. cbn. destruct (decide (id' = id)) as [->|Hd].
    + rewrite Hn'. by intros [= <-].
    + rewrite Hne by done. apply (cu_bound _ _ _ Hc).
Qed.

(** Rows are inserted, or released: the goroutine takes those of [ids] over,
    which are not scheduled. *)
Definition may_put (m : Notification) : Prop :=
  (v_store V !! n_ID m = None ∧ n_AttemptCount m = 0) ∨
  (n_Status m ≠ StatusScheduled ∧
   ∃ n, v_store V !! n_ID m = Some n ∧ n_Status n = StatusScheduled ∧
        n_AttemptCount m = n_AttemptCount n ∧ n_MaxRetries m = n_MaxRetries n).

Lemma may_put_places m q : may_put m → at_place V gs (n_ID m) q → q = InSchedule.
Proof.
  intros [[Hn _]|(_ & n & Hn & Hs & _)] Hq.
  - destruct (cu_known _ _ _ Hc _ _ Hq) as [x Hx]. congruence.
  - eapply (cu_unique _ _ _ Hc); [done|]. by exists n.
Qed.

Lemma may_put_below m : may_put m → 0 ≤ n_AttemptCount m < Z.max 1 (n_MaxRetries m).
Proof.
  intros [[_ ->]|(_ & n & Hn & Hs & -> & ->)]; [lia|]. split; [by apply (cu_bound _ _ _ Hc _ _ Hn)|].
  apply (cu_idle _ _ _ Hc (n_ID m) InSchedule); [by exists n|done|done].
Qed.

Lemma custody_put ms ids :
  S' = put ms (v_store V) → Forall may_put ms →
  (∀ id, id ∈ ids → id ∈ n_ID <$> ms) →
  (∀ m, m ∈ ms → n_ID m ∈ ids → n_Status m ≠ StatusScheduled) →
  custody r V' (<[i := hold_all Ready ids g]> gs).
Proof.
  intros HS Hms Hids Hns. rewrite Forall_forall in Hms.
  assert (Hin : ∀ id n, id ∈ n_ID <$> ms → S' !! id = Some n → n ∈ ms ∧ n_ID n = id).
  { intros id n Hid Hn. rewrite HS in Hn. apply put_lookup in Hn as [?|[_ ?]]; done. }
  assert (Hout : ∀ id, id ∉ n_ID <$> ms → S' !! id = v_store V !! id).
  { intros id Hid. apply option_eq. intros n. rewrite HS. split.
    - intros [(Hn & <-)|[? _]]%put_lookup; [|done]. destruct Hid. by apply list_elem_of_fmap_2.
    - intros Hn. destruct (put_some ms (v_store V) id) as [n' Hn']; [by exists n|]. rewrite Hn'.
      apply put_lookup in Hn' as [(Hm & <-)|[Hm _]]; [destruct Hid; by apply list_elem_of_fmap_2|congruence]. }
  assert (Hhere : ∀ id q, id ∈ n_ID <$> ms → at_place V gs id q → q = InSchedule).
  { intros id q (m & -> & Hm)%list_elem_of_fmap. apply may_put_places, Hms, Hm. }
  assert (Hbelow : ∀ id, id ∈ n_ID <$> ms → below S' id).
  { intros id Hid n Hn. destruct (Hin _ _ Hid Hn) as [Hm _]. by apply may_put_below, Hms. }
  eapply custody_step; [exact Hc|..|apply (cu_members _ _ _ Hc)].
  - intros id Hid. cbn. rewrite HS. by apply put_some.
  - intros id. destruct (decide (id ∈ n_ID <$> ms)) as [Hid|Hid].
    + right. exists (if decide (id ∈ ids) then WithThread i else InSchedule).
      split; [cbn; rewrite HS; by apply put_in|]. split; [by intros _; apply Hbelow|]. intros q Hq.
      destruct (decide (q = InSchedule)) as [->|Hne].
      { rewrite decide_False; [done|]. intros Hi'. destruct Hq as (n & Hn & Hst).
        destruct (Hin _ _ Hid Hn) as [Hm Hm']. apply (Hns n); [done|by rewrite Hm'|done]. }
      apply places_table in Hq as [[-> Hs]|[Hq _]]; [|by apply Hhere in Hq|done|].
      * case_decide as Hi'; [done|]. rewrite hold_all_held, decide_False in Hs by done.
        assert (E : WithThread i = InSchedule); [|done]. apply (Hhere id); [done|]. by exists g.
      * intros m Hm. assert (E : WithThread i = InSchedule); [|done].
        apply (Hhere id); [done|]. exists g. by rewrite Hm.
    + assert (Hni : id ∉ ids) by auto.
      left. intros q Hq. apply places_table in Hq as [[-> Hs]|[Hq _]].
      * split; [|done]. exists g. by rewrite hold_all_held, decide_False in Hs.
      * split; [done|]. intros _ Hb n Hn. cbn in Hn. rewrite Hout in Hn by done. by apply Hb.
      * intros n _. rewrite Hout by done. eauto.
      * rewrite hold_all_held, decide_False by done. eauto.
  - eapply phases_step; [done|done| |].
    + intros id ph. rewrite hold_all_held. case_decide as Hd; [|by left]. intros [= <-]. right.
      by apply Hbelow, Hids.
    + intros j gj id ph Hj Hh _ Hp. destruct (decide (id ∈ n_ID <$> ms)) as [Hid|Hid].
      * assert (E : WithThread j = InSchedule); [|done]. apply (Hhere id); [done|]. exists gj. by rewrite Hh.
      * eapply phase_mono; [exact Hp| |done]. cbn. rewrite Hout by done. intros s E. by exists s.
  - intros id n Hn. destruct (decide (id ∈ n_ID <$> ms)) as [Hid|Hid].
    + destruct (Hin _ _ Hid Hn) as [Hm%Hms%may_put_below _]. lia.
    + cbn in Hn. rewrite Hout in Hn by done. by apply (cu_bound _ _ _ Hc id).
Qed.
End Table.
End Custody.
