(* ===== verification/CustodyStep.v ===== *)
(** * Every allowed effect keeps the account

    What the commands of Redis and the statements of Postgres do to the places
    of the notifications, and the step lemma: an effect that is allowed keeps
    [custody], and its answer is plausible. *)

From stdpp Require Import gmap.
From S2P Require Import Prelude GoLib Domain Sql SqlFacts Redis RedisFacts Effects Discipline Frames.
From S2P Require Import NotificationRepo NotificationStore Typed NotificationSpec Listing Releasing.
From S2P Require Import Batches History Queue QueueSpec Worker System Custody CustodyStore CustodyInv.

(** ** Lists *)

Lemma NoDup_omap {A B} (f : A → option B) (l : list A) :
  NoDup l → (∀ x y z, x ∈ l → y ∈ l → f x = Some z → f y = Some z → x = y) → NoDup (omap f l).
Proof.
  induction 1 as [|x l Hx Hnd IH]; intros Hf; [constructor|]. cbn.
  assert (IH' : NoDup (omap f l)) by (apply IH; intros; eapply Hf; eauto; by right).
  destruct (f x) as [z|] eqn:E; [|done]. constructor; [|done].
  intros (y & Hy & Ey)%list_elem_of_omap. assert (x = y) as <- by (eapply Hf; eauto; [by left|by right]). done.
Qed.

Lemma foldr_delete_lookup (z : ZSet) (ms : list string) m :
  is_Some (foldr delete z ms !! m) ↔ is_Some (z !! m) ∧ m ∉ ms.
Proof.
  induction ms as [|m' ms IH]; cbn [foldr]; [split; [split; [done|apply not_elem_of_nil]|by intros [? _]]|].
  rewrite not_elem_of_cons. destruct (decide (m' = m)) as [->|Hne].
  - rewrite lookup_delete_eq. split; [by intros []|by intros (_ & [])].
  - rewrite lookup_delete_ne by done. rewrite IH. intuition.
Qed.

Lemma take_in {A} n (l : list A) x : x ∈ take n l → x ∈ l.
Proof. intros H. eapply elem_of_sublist; [exact H|apply sublist_take]. Qed.

Lemma drop_in {A} n (l : list A) x : x ∈ drop n l → x ∈ l.
Proof. intros H. eapply elem_of_sublist; [exact H|apply sublist_drop]. Qed.

(** ** What waits, and what is delayed *)

Lemma waiting_ids rd k : redis_ok rd → NoDup (e_id <$> waiting rd k).
Proof.
  intros Hok. assert (Hs : StronglySorted id_lt (waiting rd k)).
  { pose proof (sk_sorted _ (stream_is_ok k rd Hok)) as Hs. unfold waiting, lane.
    destruct (group _ _ _); [by apply filter_sorted|done]. }
  induction Hs as [|e l Hs IH He]; [constructor|]. rewrite fmap_cons. constructor; [|done].
  intros (e' & E & He')%list_elem_of_fmap. rewrite Forall_forall in He. specialize (He _ He').
  unfold id_lt in He. lia.
Qed.

Lemma waiting_inj rd k e e' :
  redis_ok rd → e ∈ waiting rd k → e' ∈ waiting rd k → e_id e = e_id e' → e = e'.
Proof.
  intros Hok (i & Hi)%list_elem_of_lookup (j & Hj)%list_elem_of_lookup E.
  assert (i = j) as ->; [|congruence].
  eapply NoDup_lookup; [by apply (waiting_ids rd k)|..]; rewrite list_lookup_fmap, ?Hi, ?Hj; cbn; by f_equal.
Qed.

(** What is read and what is left of a lane. *)
Lemma taken_or_left rd k n e e' :
  redis_ok rd → e ∈ take n (waiting rd k) → e' ∈ drop n (waiting rd k) → e_id e ≠ e_id e'.
Proof.
  intros Hok He He' E. pose proof (waiting_ids rd k Hok) as Hnd.
  rewrite <- (take_drop n (waiting rd k)), fmap_app in Hnd. apply NoDup_app in Hnd as (_ & Hnd & _).
  apply (Hnd (e_id e)); [by apply list_elem_of_fmap_2|]. rewrite E. by apply list_elem_of_fmap_2.
Qed.

Lemma zrange_members k mx n rd :
  NoDup (zrangebyscore k mx n rd) ∧ Forall (λ m, is_Some (zset k rd !! m)) (zrangebyscore k mx n rd).
Proof.
  unfold zrangebyscore. set (l := filter _ _).
  assert (Hsub : take n l `sublist_of` z_sorted (zset k rd)).
  { trans l; [apply sublist_take|apply sublist_filter]. }
  assert (Hp : z_sorted (zset k rd) ≡ₚ map_to_list (zset k rd)) by apply merge_sort_Permutation.
  split.
  - eapply sublist_NoDup; [|apply (fmap_sublist _ _ _ Hsub)]. rewrite Hp. apply NoDup_fst_map_to_list.
  - apply Forall_fmap, Forall_forall. intros [m s] Hin. eapply elem_of_sublist in Hin; [|exact Hsub].
    rewrite Hp in Hin. apply elem_of_map_to_list in Hin. by eexists.
Qed.

Section Custody.
Context {T : UuidText}.

(** ** What is read *)

Lemma read_ids_nonempty l : read_ids (filter (λ p, p.2 ≠ []) l) = read_ids l.
Proof.
  induction l as [|[k es] l IH]; [done|]. rewrite filter_cons. unfold read_ids in *.
  case_decide as H; cbn [mbind list_bind] in *; [by rewrite !omap_app, IH|].
  assert (es = []) as -> by (clear IH; destruct es; [done|by destruct H]). done.
Qed.

Lemma elem_of_read_ids (f : string → list Entry) ks id :
  id ∈ read_ids ((λ k, (k, f k)) <$> ks) ↔ ∃ k e, k ∈ ks ∧ e ∈ f k ∧ about e = Some id.
Proof.
  unfold read_ids. rewrite list_elem_of_omap. setoid_rewrite list_elem_of_bind. split.
  - intros (e & ([k es] & He & (k' & [= -> ->] & Hk)%list_elem_of_fmap) & Ha). by exists k', e.
  - intros (k & e & Hk & He & Ha). exists e. split; [|done]. exists (k, f k). split; [done|].
    by apply list_elem_of_fmap_2 with (f := λ k, (k, f k)).
Qed.

Section Redis.
Context (r : nat) (rd : Redis) (V : View) (gs : list Ghost) (i : nat) (g : Ghost).
Context (Hok : redis_ok rd) (HV : v_waiting V = waiting rd).
Context (Hc : custody r V gs) (Hi : gs !! i = Some g).

Lemma waiting_place k e id :
  k ∈ priority_streams → e ∈ waiting rd k → about e = Some id → at_place V gs id (InLane k (e_id e)).
Proof. intros Hk He Ha. split; [done|]. exists e. by rewrite HV. Qed.

Lemma read_ids_new n :
  new_to g (read_ids ((λ k, (k, take n (waiting rd k))) <$> priority_streams)).
Proof.
  split.
  - assert (Hks : ∀ ks, NoDup ks → (∀ k, k ∈ ks → k ∈ priority_streams) →
      NoDup (read_ids ((λ k, (k, take n (waiting rd k))) <$> ks)));
      [|by apply Hks; [apply priority_streams_NoDup|]].
    intros ks Hnd Hsub. induction Hnd as [|k ks Hk Hnd IH]; [constructor|]. unfold read_ids in *. rewrite fmap_cons.
    cbn [mbind list_bind fst snd]. rewrite omap_app. apply NoDup_app. split_and!.
    + apply NoDup_omap.
      * apply (NoDup_fmap_1 e_id).
        pose proof (waiting_ids rd k Hok) as Hids. rewrite <- (take_drop n (waiting rd k)), fmap_app in Hids.
        apply NoDup_app in Hids as [Hids _]. exact Hids.
      * intros e e' id He He' Ha Ha'. eapply waiting_inj; [done|by eapply take_in..|].
        assert (Hp : ∀ e, e ∈ take n (waiting rd k) → about e = Some id → at_place V gs id (InLane k (e_id e))).
        { intros x Hx Hax. apply waiting_place; [apply Hsub; by left|by eapply take_in|done]. }
        by injection (cu_unique _ _ _ Hc _ _ _ (Hp _ He Ha) (Hp _ He' Ha')).
    + intros id (e & He & Ha)%list_elem_of_omap Hid.
      apply (elem_of_read_ids (λ k, take n (waiting rd k))) in Hid as (k' & e' & Hk' & He' & Ha').
      assert (E : InLane k (e_id e) = InLane k' (e_id e')); [|by injection E as -> _].
      eapply (cu_unique _ _ _ Hc);
        (apply waiting_place; [apply Hsub|by eapply take_in|done]); [by left|by right].
    + apply IH. intros k' Hk'. apply Hsub. by right.
  - apply Forall_forall. intros id (k & e & Hk & He & Ha)%elem_of_read_ids.
    eapply (not_held _ _ _ _ _ Hc Hi); [by apply (waiting_place k e); [|eapply take_in|]|done].
Qed.
End Redis.

(** ** Commands *)

Section Command.
Context (r : nat) (w : World) (gs : list Ghost) (i : nat) (g : Ghost).
Context (Hok : redis_ok (w_redis w)) (Hc : custody r (view w) gs) (Hi : gs !! i = Some g).

Lemma view_shrinks g' rd :
  held g' = held g →
  (∀ k e, k ∈ priority_streams → e ∈ waiting rd k → e ∈ waiting (w_redis w) k) →
  (∀ m, is_Some (zset DelayedSet rd !! m) → is_Some (zset DelayedSet (w_redis w) !! m)) →
  custody r (view (set_redis rd w)) (<[i := g']> gs).
Proof. intros. by eapply (custody_shrinks _ _ _ _ _ _ Hc Hi). Qed.

Lemma view_same g' rd :
  held g' = held g → (∀ k, waiting rd k = waiting (w_redis w) k) →
  zset DelayedSet rd = zset DelayedSet (w_redis w) →
  custody r (view (set_redis rd w)) (<[i := g']> gs).
Proof. intros Hh Hw Hz. apply view_shrinks; [done|..]; [intros k e _; by rewrite Hw|by rewrite Hz]. Qed.

Lemma waiting_same rd rd' : (∀ k, lane ConsumerGroup k rd' = lane ConsumerGroup k rd) → ∀ k, waiting rd' k = waiting rd k.
Proof. intros H k. unfold waiting. by rewrite H. Qed.

(** Whatever the answer, the message is out of hand. *)
Lemma xadd_custody k vs id x w' :
  redis_doc (XAdd k vs) w x w' → k ∈ priority_streams → about_values vs = Some id →
  held g !! id = Some Ready → custody r (view w') (<[i := let_go id g]> gs).
Proof.
  intros (rd & -> & H) Hk Ha Hh.
  assert (Hb : below (v_store (view w)) id) by apply (cu_phases _ _ _ Hc _ _ _ _ Hi Hh).
  assert (Hsame : rd = w_redis w → custody r (view (set_redis rd w)) (<[i := let_go id g]> gs)).
  { intros ->. eapply (custody_put_down _ _ (view w) _ _ _ Hc Hi eq_refl _ _ (WithThread i)); [done..| |by left|by left].
    intros q Hq. destruct (places_back (view w) _ _ _ _ _ Hi _ _ Hq) as [[-> _]|[? _]]; [by eauto| |by eauto|by left|by right; left].
    intros m _ Hm _. split; [done|]. cbn. by rewrite Hh. }
  assert (Hadd : ∀ j, (s_top (stream k (w_redis w)) < j)%N → rd = xadd k j vs (w_redis w) →
    custody r (view (set_redis rd w)) (<[i := let_go id g]> gs)).
  { intros j Hj ->.
    assert (Hw : ∀ k' e, e ∈ waiting (xadd k j vs (w_redis w)) k' → e ∈ waiting (w_redis w) k' ∨ (k' = k ∧ e = mkEntry j vs)).
    { intros k' e. unfold waiting. rewrite lane_xadd by done. case_decide as E; [subst k'|by left].
      cbn. intros [?| ->%list_elem_of_singleton]%elem_of_app; [by left|by right]. }
    eapply (custody_put_down _ _ (view (set_redis (xadd k j vs (w_redis w)) w)) _ _ _ Hc Hi eq_refl _ _ (InLane k j)); [done..| | |by left].
    - intros q Hq. destruct q as [k' j'|m| |j'].
      + destruct Hq as (Hk' & e & He & <- & Hae). cbn in He. apply Hw in He as [He|[-> ->]]; [right; left|by left].
        split; [done|]. by exists e.
      + destruct (places_back (view w) _ _ _ _ _ Hi _ _ Hq) as [[[=] _]|[? _]]; [done| |done|by auto].
        intros m' _ Hm _. split; [done|]. cbn. by rewrite Hh.
      + right; left. exact Hq.
      + destruct (places_back (view w) _ _ _ _ _ Hi _ _ Hq) as [[-> _]|[? _]]; [done| |done|by auto|by auto].
        intros m' Hm _. split; [done|]. cbn. by rewrite Hh.
    - intros k' e _ He. apply Hw in He as [?|[_ ->]]; [by left|by right]. }
  destruct H as [(_ & j & Hj & E)|(_ & [E|(y & _ & j & Hj & E)])]; eauto.
Qed.

Lemma zadd_custody sc m id c mx x w' :
  redis_doc (ZAdd DelayedSet sc m) w x w' → member_about m = Some id →
  held g !! id = Some (Spent c mx) → c < Z.max 1 mx → custody r (view w') (<[i := let_go id g]> gs).
Proof.
  intros (rd & -> & H) Ha Hh Hlt.
  assert (Hb : below (v_store (view w)) id).
  { intros n Hn. destruct (cu_phases _ _ _ Hc _ _ _ _ Hi Hh n Hn) as [? ->]. lia. }
  assert (Hd : (∀ k, waiting rd k = waiting (w_redis w) k) →
    (∀ m', is_Some (zset DelayedSet rd !! m') → is_Some (zset DelayedSet (w_redis w) !! m') ∨ m' = m) →
    custody r (view (set_redis rd w)) (<[i := let_go id g]> gs)).
  { intros Hw Hz. eapply (custody_put_down _ _ (view (set_redis rd w)) _ _ _ Hc Hi eq_refl _ _ (InDelayed m)); [done..| | |].
    - intros q Hq. destruct (decide (q = InDelayed m)) as [|Hne]; [by left|].
      destruct (places_back (view w) _ _ _ _ _ Hi _ _ Hq) as [[-> _]|[? _]]; [| |by eauto|by auto|by auto].
      + intros k e -> He _. cbn in He. by rewrite Hw in He.
      + intros m' -> Hm' _. split; [apply Hz in Hm' as [?| ->]; [done|by destruct Hne]|]. cbn. by rewrite Hh.
    - intros k e _ He. left. cbn in He. by rewrite Hw in He.
    - intros m' Hm'. apply Hz in Hm' as [?| ->]; [by left|by right]. }
  assert (Hz : rd = zadd DelayedSet sc m (w_redis w) →
    custody r (view (set_redis rd w)) (<[i := let_go id g]> gs)).
  { intros ->. apply Hd; [done|]. intros m'. unfold zadd. rewrite zset_set_eq, lookup_insert_is_Some'. intros [->|?]; auto. }
  destruct H as [[_ E]|[_ [->|(y & _ & E)]]]; [by auto|apply Hd; by auto|by auto].
Qed.

(** The messages that are delivered are in hand. *)
Lemma read_custody c n x w' :
  redis_doc (XReadGroup ConsumerGroup c priority_streams n) w x w' →
  let e := XReadGroup ConsumerGroup c priority_streams n in
  custody r (view w') (<[i := redis_after e x g]> gs) ∧ plausible (Rd e) x g.
Proof.
  intros (rd & -> & H) e. set (f k := take (Z.to_nat n) (waiting (w_redis w) k)).
  assert (Hr : ∀ l rd now, Forall (λ k, is_Some (s_groups (stream k (w_redis w)) !! ConsumerGroup)) priority_streams →
    xreadgroup ConsumerGroup c (Z.to_nat n) now priority_streams (w_redis w) = (l, rd) →
    zset DelayedSet rd = zset DelayedSet (w_redis w) ∧ read_ids l = read_ids ((λ k, (k, f k)) <$> priority_streams) ∧
    ∀ k, k ∈ priority_streams → waiting rd k = drop (Z.to_nat n) (waiting (w_redis w) k)).
  { intros l rd' now Hg Hx. apply xreadgroup_spec in Hx as (_ & Hz & -> & Hl); [|done|apply priority_streams_NoDup|done].
    split; [by unfold zset; rewrite Hz|]. split; [apply read_ids_nonempty|]. intros k Hk. unfold waiting.
    by rewrite Hl, decide_True. }
  assert (Hdrop : ∀ g', held g' = held g →
    (∀ k, k ∈ priority_streams → waiting rd k = drop (Z.to_nat n) (waiting (w_redis w) k)) →
    zset DelayedSet rd = zset DelayedSet (w_redis w) → custody r (view (set_redis rd w)) (<[i := g']> gs)).
  { intros g' Hg' Hd Hz. apply view_shrinks; [done| |by rewrite Hz]. intros k e' Hk. rewrite Hd by done. apply drop_in. }
  destruct H as [(Hg & now & Hx)|(Herr & [->|(y & Hg & now & Hx)])].
  - destruct (xreadgroup _ _ _ _ _ _) as [l r1] eqn:E. destruct Hx as [-> ->].
    apply Hr in E as (Hz & Hids & Hd); [|done]. destruct l as [|p l]; [by split; [apply Hdrop|]|].
    pose proof (read_ids_new r (w_redis w) (view w) gs i g Hok eq_refl Hc Hi (Z.to_nat n)) as Hnew.
    change (new_to g (read_ids ((λ k, (k, f k)) <$> priority_streams))) in Hnew. rewrite <- Hids in Hnew.
    split; [|exact Hnew]. cbn [redis_after e]. rewrite Hids.
    eapply (custody_taken _ (view w)); [done..| | |by cbn; rewrite Hz].
    + intros id (k & en & Hk & He & Ha)%(elem_of_read_ids f).
      assert (Hp : at_place (view w) gs id (InLane k (e_id en))).
      { apply (waiting_place (w_redis w)); [done..|by eapply take_in|done]. }
      exists (InLane k (e_id en)). split; [done|]. split; [by apply (cu_idle _ _ _ Hc _ _ Hp)|].
      intros q Hq. assert (Hne : q ≠ InLane k (e_id en)).
      { intros ->. destruct Hq as (_ & e' & He' & Hid & _). cbn in He'. rewrite Hd in He' by done.
        by eapply taken_or_left. }
      destruct (places_back (view w) _ _ _ _ _ Hi _ _ Hq) as [[-> _]|[Hq' _]]; [| |by eauto|done|].
      * intros k' e' -> He' _. cbn in He'. rewrite Hd in He' by (by destruct Hq). by eapply drop_in.
      * intros m _ Hm _. cbn in Hm. rewrite Hz in Hm. split; [done|]. intros m' Hm'.
        eapply (held_only_here _ _ _ _ _ Hc Hi) in Hm'; [|exact Hp]. done.
      * by destruct Hne; eapply (cu_unique _ _ _ Hc).
    + intros k e' Hk He'. cbn in He'. rewrite Hd in He' by done. by eapply drop_in.
  - destruct x as [[]|]; [done..|]. split; [|done]. by apply view_same.
  - destruct x as [[]|]; [done..|]. split; [|done].
    destruct (xreadgroup _ _ _ _ _ _) as [l r1] eqn:E. destruct Hx as [_ ->].
    apply Hr in E as (Hz & _ & Hd); [|done]. by apply Hdrop.
Qed.

(** The members are off the set, and in hand. *)
Lemma zrem_custody ms w' :
  redis_doc (ZRem DelayedSet ms) w None w' →
  Forall (λ m, ∃ id, member_about m = Some id ∧ held g !! id = Some (Listed m)) ms →
  custody r (view w') (<[i := hold_all Ready (omap member_about ms) g]> gs).
Proof.
  intros (rd & -> & H) Hms. rewrite Forall_forall in Hms.
  assert (E : rd = zrem DelayedSet ms (w_redis w)) by by destruct H as [[_ ?]|[[] _]]. clear H.
  assert (Hz : ∀ m, is_Some (zset DelayedSet rd !! m) ↔ is_Some (zset DelayedSet (w_redis w) !! m) ∧ m ∉ ms).
  { intros m. subst rd. unfold zrem. rewrite zset_set_eq. apply foldr_delete_lookup. }
  assert (Hw : ∀ k, waiting rd k = waiting (w_redis w) k) by by intros k; subst rd.
  eapply (custody_taken _ (view w)); [done..| |by intros k e _; cbn; rewrite Hw|by intros m [? _]%Hz].
  intros id (m & Hm & Ha)%list_elem_of_omap. destruct (Hms _ Hm) as (id' & Ha' & Hh).
  assert (id' = id) as -> by congruence.
  destruct (cu_phases _ _ _ Hc _ _ _ _ Hi Hh) as (Hb & _ & _ & Hu).
  exists (WithThread i). split; [exists g; by rewrite Hh|]. split; [done|]. intros q Hq.
  assert (Hq' : ∀ m', q ≠ InDelayed m').
  { intros m' ->. destruct Hq as (Hs & Hm' & _). cbn in Hs. apply Hz in Hs as [Hs Hn]. apply Hn.
    by rewrite (Hu m'). }
  destruct (places_back (view w) _ _ _ _ _ Hi _ _ Hq) as [[-> _]|[Hold _]]; [| |by eauto|done|].
  - intros k e -> He _. cbn in He. by rewrite Hw in He.
  - intros m' ->. by destruct (Hq' m').
  - by apply (held_only_here _ _ _ _ _ Hc Hi _ _ _ Hh) in Hold.
Qed.

(** A command of Redis. *)
Lemma redis_custody X (e : RedisE X) x w' :
  redis_allowed (bool_decide (i = r)) g e → redis_doc e w x w' → claim_unsure (Ev (Rd e) x) = false →
  custody r (view w') (<[i := redis_after e x g]> gs) ∧ plausible (Rd e) x g.
Proof.
  intros Ha H Hrem. destruct e; cbn [redis_allowed] in Ha.
  - split; [|done]. cbn [redis_after]. case_decide as Hk.
    + destruct (Ha Hk) as (id & Hab & Hh). rewrite Hab. by eapply xadd_custody.
    + destruct H as (rd & -> & H).
      assert (Hadd : ∀ j, (s_top (stream k (w_redis w)) < j)%N → rd = xadd k j values (w_redis w) →
        custody r (view (set_redis rd w)) (<[i := g]> gs)).
      { intros j Hj ->. apply view_shrinks; [done| |done]. intros k' e Hk'. unfold waiting.
        rewrite lane_xadd by done. by rewrite decide_False by congruence. }
      destruct H as [(_ & j & Hj & E)|(_ & [->|(y & _ & j & Hj & E)])]; [by eauto|by apply view_same|by eauto].
  - split; [|done]. subst g0. destruct H as (rd & -> & H).
    assert (Hx : ∀ y, match xgroup_create k ConsumerGroup (w_redis w) with
      | Some r1 => y = None ∧ rd = r1 | None => y = Some busygroup ∧ rd = w_redis w end →
      custody r (view (set_redis rd w)) (<[i := g]> gs)).
    { intros y. destruct (xgroup_create _ _ _) eqn:E; intros [_ ->]; [|by apply view_same].
      apply view_same; [done| |].
      - apply waiting_same. intros k'. by apply (lane_xgroup_create _ _ _ _ _ Hok E).
      - revert E. unfold xgroup_create. by destruct (_ !! ConsumerGroup); intros [= <-]. }
    destruct H as [H|(_ & [->|(y & H)])]; [by eapply Hx|by apply view_same|by eapply Hx].
  - destruct Ha as [-> ->]. by apply read_custody.
  - split; [|done]. subst g0. destruct H as (rd & -> & H).
    assert (Hx : rd = xack k ConsumerGroup id (w_redis w) → custody r (view (set_redis rd w)) (<[i := g]> gs)).
    { intros ->. apply view_same; [done| |].
      - intros k'. unfold waiting. rewrite lane_xack. case_decide; [by subst|done].
      - unfold xack. by destruct (_ !! ConsumerGroup). }
    destruct H as [[_ H]|(_ & [->|(y & _ & H)])]; [by apply Hx|by apply view_same|by apply Hx].
  - done.
  - split; [|done]. destruct H as (rd & -> & [[_ ->]|(_ & [->|(y & _ & ->)])]); by apply view_same.
  - split; [|done]. destruct Ha as (-> & id & c & mx & Hm & Hh & Hlt). cbn [redis_after]. rewrite Hm.
    by eapply zadd_custody.
  - destruct Ha as (-> & Hr%bool_decide_eq_true & Hnl). pose proof Hi as Hir. rewrite Hr in Hir. destruct H as (rd & -> & H).
    assert (rd = w_redis w) as -> by (destruct H as [[_ ->]|(_ & [->|(y & _ & ->)])]; done).
    destruct H as [[-> _]|[He _]]; [|destruct x; [done|]; split; [by apply view_same|done]].
    destruct (zrange_members DelayedSet max (Z.to_nat count) (w_redis w)) as [Hnd Hms].
    rewrite Hr. split; [by apply custody_listed|by eapply listed_new].
  - destruct Ha as (-> & _ & Hms).
    assert (x = None) as -> by by destruct x. split; [|done]. by apply zrem_custody.
  - split; [|done]. destruct H as (rd & -> & H).
    assert (Hx : ∀ at_ draw (y : result string Z), (let '(z, r1) := script at_ draw (w_redis w) in y = Ok z ∧ rd = r1) →
      custody r (view (set_redis rd w)) (<[i := g]> gs)).
    { intros at_ draw y Hy. destruct (Ha at_ draw (w_redis w)) as [Hs Hz].
      destruct (script at_ draw (w_redis w)) as [z r1]. cbn in Hs, Hz. destruct Hy as [_ ->]. apply view_same; [done| |done].
      apply waiting_same. intros k. apply lane_same_stream. unfold stream. by rewrite Hs. }
    destruct H as [(at_ & draw & H)|(_ & [->|(y & at_ & draw & H)])]; [by eapply Hx|by apply view_same|by eapply Hx].
Qed.
End Command.

(** ** Open transactions *)

Section Open.
Context (w w' : World) (gs : list Ghost) (i : nat) (g g' : Ghost).
Context (Ho : open_txs w gs) (Hi : gs !! i = Some g).

Lemma update_cases j gj : <[i := g']> gs !! j = Some gj → (j = i ∧ gj = g') ∨ (j ≠ i ∧ gs !! j = Some gj).
Proof.
  destruct (decide (j = i)) as [->|Hne].
  - rewrite list_lookup_insert_eq by (by eapply lookup_lt_Some). intros [= <-]. by left.
  - rewrite list_lookup_insert_ne by done. by right.
Qed.

Lemma open_same :
  opened g' = opened g → w_txs w' = w_txs w → w_begun w' = w_begun w → open_txs w' (<[i := g']> gs).
Proof.
  intros Hop Ht Hb.
  assert (Hold : ∀ j gj, <[i := g']> gs !! j = Some gj → ∃ gj0, gs !! j = Some gj0 ∧ opened gj = opened gj0).
  { intros j gj [[-> ->]|[_ Hj]]%update_cases; [by exists g|by exists gj]. }
  split.
  - intros j gj h (g0 & Hg0 & ->)%Hold. rewrite Hb. by apply (ot_begun _ _ Ho j).
  - intros j k gj gk h (g1 & Hg1 & ->)%Hold (g2 & Hg2 & ->)%Hold. by apply (ot_own _ _ Ho _ _ _ _ _ Hg1 Hg2).
  - intros j gj h l (g0 & Hg0 & ->)%Hold. intros Hl. destruct (ot_inserts _ _ Ho _ _ _ _ Hg0 Hl) as (ws & ns & Hw & ?).
    exists ws, ns. by rewrite Ht.
Qed.

(** The goroutine does something with a transaction of its own, or a new one. *)
Lemma open_set h ol :
  opened g' = <[h := ol]> (opened g) → (∀ h', h' ≠ h → w_txs w' !! h' = w_txs w !! h') →
  (w_begun w ≤ w_begun w')%N → (h < w_begun w')%N → is_Some (opened g !! h) ∨ (w_begun w ≤ h)%N →
  (∀ l, ol = Some l → tx_inserts w' h l) → open_txs w' (<[i := g']> gs).
Proof.
  intros Hop Ht Hb Hh Hnew Hins.
  assert (Hmine : ∀ j gj, gs !! j = Some gj → is_Some (opened gj !! h) → j = i).
  { intros j gj Hj Hs. destruct Hnew as [Hn|Hn]; [by eapply (ot_own _ _ Ho)|].
    apply (ot_begun _ _ Ho _ _ _ Hj) in Hs. lia. }
  assert (Hold : ∀ h', is_Some (opened g' !! h') → h' = h ∨ is_Some (opened g !! h')).
  { intros h'. rewrite Hop. destruct (decide (h = h')) as [->|]; [by left|].
    rewrite lookup_insert_ne by done. by right. }
  split.
  - intros j gj h' [[-> ->]|[_ Hj]]%update_cases Hs; [|by apply (ot_begun _ _ Ho _ _ _ Hj) in Hs; lia].
    apply Hold in Hs as [->|Hs]; [done|]. apply (ot_begun _ _ Ho _ _ _ Hi) in Hs. lia.
  - intros j k gj gk h' [[-> ->]|[Hji Hj]]%update_cases [[-> ->]|[Hki Hk]]%update_cases H1 H2; [done| | |].
    + apply Hold in H1 as [->|H1]; [by rewrite (Hmine _ _ Hk)|by eapply (ot_own _ _ Ho)].
    + apply Hold in H2 as [->|H2]; [by rewrite (Hmine _ _ Hj)|by eapply (ot_own _ _ Ho)].
    + by apply (ot_own _ _ Ho j k gj gk h').
  - intros j gj h' l Hj Hl.
    assert (Hkept : h' ≠ h → tx_inserts w h' l → tx_inserts w' h' l).
    { intros Hne (ws & ns & Hw & ?). exists ws, ns. by rewrite Ht. }
    apply update_cases in Hj as [[-> ->]|[Hji Hj]].
    + rewrite Hop in Hl. destruct (decide (h = h')) as [->|Hne].
      * rewrite lookup_insert_eq in Hl. injection Hl as ->. by apply Hins.
      * rewrite lookup_insert_ne in Hl by done. apply Hkept; [done|]. by eapply (ot_inserts _ _ Ho).
    + apply Hkept; [|by eapply (ot_inserts _ _ Ho)]. intros ->. apply Hji, (Hmine _ _ Hj). by rewrite Hl.
Qed.
End Open.

(** ** Statements *)

(** Only what is in hand counts, not the transactions. *)
Lemma custody_held r V gs i g1 g2 :
  custody r V (<[i := g1]> gs) → (i < length gs)%nat → held g2 = held g1 → custody r V (<[i := g2]> gs).
Proof.
  intros Hc Hi Hh. rewrite <- (list_insert_insert_eq gs i g2 g1). destruct V as [W D St].
  apply (custody_calm r (mkView W D St) St _ i g1); [done|by apply list_lookup_insert_eq|done|apply calm_refl].
Qed.

(** A statement outside of a transaction only changes the tables. *)
Definition tables_only (w w' : World) : Prop :=
  w_txs w' = w_txs w ∧ w_begun w' = w_begun w ∧ w_redis w' = w_redis w.

Lemma statement_tables s args w res w' : statement s args w res w' → tables_only w w'.
Proof. by intros (t & db' & _ & _ & ->). Qed.

Section Postgres.
Context {S : Services} {HS : ServicesOk S} {HO : SentOnce S}.
Context (r : nat) (w : World) (gs : list Ghost) (i : nat) (g : Ghost).
Context (Hok : db_ok (w_db w)) (Hc : custody r (view w) gs) (Ho : open_txs w gs) (Hi : gs !! i = Some g).

(** The new state after a statement: the rows may differ. *)
Definition moved_on (w' : World) (g' : Ghost) : Prop :=
  custody r (view w') (<[i := g']> gs) ∧ open_txs w' (<[i := g']> gs).

Lemma moved_frame w' g' :
  tables_only w w' → opened g' = opened g →
  custody r (mkView (waiting (w_redis w)) (zset DelayedSet (w_redis w)) (abs (w_db w'))) (<[i := g']> gs) →
  moved_on w' g'.
Proof.
  intros (Ht & Hb & Hr) Hop Hcu. split; [unfold view; by rewrite Hr|]. by eapply open_same.
Qed.

Lemma calm_moved s args w' res :
  calm_stmt s args → statement s args w res w' → moved_on w' g.
Proof.
  intros Hs H. apply moved_frame; [by eapply statement_tables|done|].
  apply (custody_calm r (view w) _ gs i g Hc Hi); [done|by eapply calm_statement].
Qed.

Lemma same_moved w' g' :
  tables_only w w' → held g' = held g → opened g' = opened g → abs (w_db w') = abs (w_db w) → moved_on w' g'.
Proof.
  intros Hf Hh Hop E. apply moved_frame; [done..|]. rewrite E.
  apply (custody_calm r (view w) _ gs i g Hc Hi); [done|apply calm_refl].
Qed.

Lemma insert_moved n x w' :
  let e := PgExec insert_notification (insert_args n (json_Marshal (n_TemplateVars n))) in
  n_AttemptCount n = 0 → svc (Pg e) w x w' → moved_on w' (pg_after e x g).
Proof.
  intros e Hn H%postgres_doc. assert (Hf : tables_only w w').
  { destruct H as (res & Hst & _). by eapply statement_tables. }
  pose proof (insert_statement _ _ _ _ H Hok) as Hst. cbn [e pg_after insert_notification].
  rewrite insert_key_args.
  assert (Hput : ∀ ids, abs (w_db w) !! n_ID n = None → abs (w_db w') = <[n_ID n := Spec.stored n]> (abs (w_db w)) →
    (∀ id, id ∈ ids → id = n_ID n ∧ n_Status n ≠ StatusScheduled) → moved_on w' (hold_all Ready ids g)).
  { intros ids Hfresh E Hids. apply moved_frame; [done|by apply hold_all_opened|].
    eapply (custody_put r (view w) _ gs i g Hc Hi [Spec.stored n]); [exact E| | |].
    - repeat constructor; done.
    - intros id Hid. apply Hids in Hid as [-> _]. by left.
    - intros m ->%list_elem_of_singleton Hid. by apply Hids in Hid as [_ ?]. }
  destruct Hst as [[Hx E]|(Hfresh & E & _)].
  - destruct x as [|e']; [done|]. by apply same_moved.
  - destruct x as [k|e']; [case_decide as Hs|].
    + apply (Hput []); [done..|]. by intros id ?%not_elem_of_nil.
    + apply (Hput [n_ID n]); [done..|]. by intros id ->%list_elem_of_singleton.
    + apply (Hput []); [done..|]. by intros id ?%not_elem_of_nil.
Qed.

Lemma increment_moved id n x w' :
  let e := PgExec increment_attempt [VUuid id] in
  held g !! id = Some (Holding n) → svc (Pg e) w x w' → moved_on w' (pg_after e x g).
Proof.
  intros e Hh H. assert (Hf : tables_only w w').
  { apply postgres_doc in H as (res & Hst & _). by eapply statement_tables. }
  assert (E : pg_after e x g = hold (Spent (n_AttemptCount n + 1) (n_MaxRetries n)) id g).
  { cbn. by rewrite Hh. }
  rewrite E. apply moved_frame; [done..|].
  pose proof (cu_phases _ _ _ Hc _ _ _ _ Hi Hh) as Hp. cbn in Hp.
  assert (Hcount : ∀ s', abs (w_db w') !! id = Some s' → ∃ s, abs (w_db w) !! id = Some s ∧
    n_Status s' = n_Status s ∧ n_MaxRetries s' = n_MaxRetries s ∧ n_AttemptCount s ≤ n_AttemptCount s' ≤ n_AttemptCount s + 1).
  { intros s' Hs'. apply increment_statement in H as [[E' _]|(s & now & Hs & E')]; [|..|done].
    - rewrite E' in Hs'. exists s'. split_and!; [done..|lia].
    - rewrite E', lookup_insert_eq in Hs'. injection Hs' as <-. exists s. split; [done|]. destruct s. cbn. split_and!; [done..|lia|lia]. }
  eapply (custody_rephase r (view w) _ gs i g Hc Hi); [exact Hh|done|done|..].
  - intros id' Hne. apply increment_statement in H as [[-> _]|(s & now & Hs & ->)]; [done| |done].
    by rewrite lookup_insert_ne.
  - intros s Hs. assert (Hs' : is_Some (abs (w_db w') !! id)).
    { apply increment_statement in H as [[-> _]|(s' & now & _ & ->)]; [by eexists|by rewrite lookup_insert_eq|done]. }
    destruct Hs' as [s' Hs']. exists s'. split; [done|]. destruct (Hcount _ Hs') as (s0 & Hs0 & Hst & Hm & Hle).
    cbn in Hs. assert (s0 = s) as -> by congruence. split; [done|]. destruct (Hp s Hs) as (_ & _ & Hlt).
    pose proof (cu_bound _ _ _ Hc id s Hs). lia.
  - intros s' Hs'. cbn in Hs'. destruct (Hcount _ Hs') as (s0 & Hs0 & _ & -> & Hle).
    destruct (Hp s0 Hs0) as (? & ? & _). split; [lia|done].
Qed.

Lemma select_moved id x w' :
  let e := PgQueryRow select_by_id [VUuid id] in
  svc (Pg e) w x w' → moved_on w' (pg_after e x g) ∧ plausible (Pg e) x g.
Proof.
  intros e H. assert (Hf : tables_only w w').
  { apply postgres_doc in H as (res & Hst & _). by eapply statement_tables. }
  apply select_statement in H as [Hdb Hrow]; [|done]. split.
  - assert (Hsame : moved_on w' g) by (apply same_moved; [done..|by rewrite Hdb]).
    cbn. destruct x as [[row|]|]; [|done..]. destruct (held g !! id) as [[]|] eqn:Hh; [|done..].
    destruct Hrow as (n & -> & Hn). apply moved_frame; [done..|]. rewrite Hdb.
    pose proof (cu_phases _ _ _ Hc _ _ _ _ Hi Hh) as Hb. cbn in Hb.
    eapply (custody_rephase r (view w) _ gs i g Hc Hi); [exact Hh|done|done|done|..].
    + intros s Hs. exists s. split; [done|]. split; [done|]. by apply (cu_bound _ _ _ Hc id).
    + intros s Hs. cbn in Hs. assert (s = n) as -> by congruence. split_and!; [done..|]. by apply Hb.
  - cbn. destruct x as [[row|]|]; [|done..]. intros _ n Hs. destruct Hrow as (n' & Hs' & Hn).
    assert (n' = n) as -> by congruence. split; [by apply (db_ok_typed _ Hok)|]. by eapply abs_well_typed.
Qed.

Lemma fetch_moved limit x w' :
  let e := PgQuery fetch_due [VInt limit] in
  svc (Pg e) w x w' → broken_off x = false → moved_on w' (pg_after e x g) ∧ plausible (Pg e) x g.
Proof.
  intros e H Hcut. assert (Hf : tables_only w w').
  { apply postgres_doc in H as (res & w1 & Hst & _ & Hw). apply statement_tables in Hst.
    by destruct Hw as [->|[_ ->]]. }
  apply fetch_statement in H as [[(e' & -> & _) E]|[?|(now & ns & Hns & Hnd & E & Hx)]]; [|congruence| |done].
  { split; [by apply same_moved|done]. }
  assert (Hids : n_ID <$> (Spec.release now <$> ns) = n_ID <$> ns).
  { rewrite <- list_fmap_compose. apply list_fmap_ext. by intros ? []. }
  assert (Hput : ∀ ids, (∀ id, id ∈ ids → id ∈ n_ID <$> ns) → moved_on w' (hold_all Ready ids g)).
  { intros ids Hin. apply moved_frame; [done|by apply hold_all_opened|].
    eapply (custody_put r (view w) _ gs i g Hc Hi (Spec.release now <$> ns)); [exact E| |by rewrite Hids|].
    - apply Forall_fmap. eapply Forall_impl; [exact Hns|]. intros n [Hn Hst]. right. split; [by destruct n|].
      exists n. by destruct n.
    - intros m (n & -> & _)%list_elem_of_fmap _. by destruct n. }
  destruct x as [[rows [err|]]|e']; [done| |split; [|done]; apply (Hput []); by intros id ?%not_elem_of_nil].
  destruct Hx as [_ Hk]. split.
  - cbn [e pg_after fetch_due]. apply Hput. intros id. by rewrite Hk.
  - cbn. intros _. rewrite Hk. split; [done|].
    + apply Forall_forall. intros id (n & -> & Hn)%list_elem_of_fmap. rewrite Forall_forall in Hns.
      destruct (Hns _ Hn) as [Hs Hst]. by apply (not_held _ _ _ _ _ Hc Hi _ InSchedule); [exists n|].
Qed.

(** *** Transactions *)

Lemma begin_moved x w' : svc (Pg PgBegin) w x w' → moved_on w' (pg_after PgBegin x g).
Proof.
  intros [(h & -> & Hh & Hn & ->)|(e & -> & _ & ->)]%postgres_doc; [|by apply same_moved].
  split.
  - apply (custody_held r (view w) gs i g); [|by eapply lookup_lt_Some|done]. by rewrite list_insert_id.
  - eapply (open_set w _ gs i g _ Ho Hi h (Some [])); [done|..]; cbn.
    + intros h' Hne. by rewrite lookup_insert_ne.
    + lia.
    + lia.
    + by right.
    + intros l [= <-]. exists [], []. split_and!; [by cbn; rewrite lookup_insert_eq|done..|constructor].
Qed.

(** The transaction is as it is to be, the rest of the state as it was. *)
Lemma tx_moved w' h ol g' :
  held g' = held g → opened g' = <[h := ol]> (opened g) → is_Some (opened g !! h) →
  view w' = view w → w_begun w' = w_begun w → (∀ h', h' ≠ h → w_txs w' !! h' = w_txs w !! h') →
  (∀ l, ol = Some l → tx_inserts w' h l) → moved_on w' g'.
Proof.
  intros Hh Hop Hs Hv Hb Ht Hins. split.
  - rewrite Hv. apply (custody_held r (view w) gs i g); [by rewrite list_insert_id|by eapply lookup_lt_Some|done].
  - eapply (open_set w _ gs i g _ Ho Hi h ol); [done|done|lia| |by left|done].
    rewrite Hb. by apply (ot_begun _ _ Ho _ _ _ Hi).
Qed.

Lemma tx_exec_moved h n l x w' :
  let e := PgTxExec h insert_notification (insert_args n (json_Marshal (n_TemplateVars n))) in
  n_AttemptCount n = 0 → opened g !! h = Some (Some l) → svc (Pg e) w x w' → moved_on w' (pg_after e x g).
Proof.
  intros e Hn Hl H%postgres_doc.
  pose proof (ot_inserts _ _ Ho _ _ _ _ Hi Hl) as Hins.
  assert (Hsame : view w' = view w ∧ w_begun w' = w_begun w ∧ ∀ h', h' ≠ h → w_txs w' !! h' = w_txs w !! h').
  { destruct H as (tx & _ & [(?&?&?&?&?&?&?&_&_&_&_&_&->)|(?&?&_&_&->)]); split_and!; try done;
      intros h' Hne; cbn; by rewrite lookup_insert_ne. }
  destruct Hsame as (Hv & Hb & Ht). cbn [e pg_after]. rewrite insert_key_args, Hl.
  destruct x as [k|e'].
  - eapply (tx_moved _ h (Some (l ++ [(n_ID n, n_Status n)]))); [done|done|by rewrite Hl|done..|].
    intros l' [= <-]. by apply (tx_exec_inserts h n w (Ok k) w').
  - by eapply (tx_moved _ h None); [done|done|rewrite Hl|..].
Qed.

Lemma rollback_moved h x w' :
  is_Some (opened g !! h) → svc (Pg (PgRollback h)) w x w' → moved_on w' (pg_after (PgRollback h) x g).
Proof.
  intros Hs H%postgres_doc. cbn in H. unfold tx_rollback in H. subst w'.
  eapply (tx_moved _ h None); [done..| |done]. intros h' Hne. cbn. by rewrite lookup_delete_ne.
Qed.

Lemma commit_moved h l x w' :
  opened g !! h = Some (Some l) → svc (Pg (PgCommit h)) w x w' →
  moved_on w' (pg_after (PgCommit h) x g) ∧ plausible (Pg (PgCommit h)) x g.
Proof.
  intros Hl H%postgres_doc. cbn in H.
  pose proof (ot_inserts _ _ Ho _ _ _ _ Hi Hl) as Hins.
  assert (Hsame : w_redis w' = w_redis w ∧ w_begun w' = w_begun w ∧ ∀ h', h' ≠ h → w_txs w' !! h' = w_txs w !! h').
  { destruct H as (tx & _ & [(_&_&_&_&->)|[(?&_&->)|(?&_&_&_&_&->)]]); split_and!; try done;
      intros h' Hne; cbn; by rewrite lookup_delete_ne. }
  destruct Hsame as (Hr & Hb & Ht). cbn [pg_after plausible]. rewrite Hl.
  assert (Hlast : ∀ g1, opened g1 = opened g → open_txs w' (<[i := set_tx h None g1]> gs)).
  { intros g1 Hg1. eapply (open_set w _ gs i g _ Ho Hi h None); [by cbn; rewrite Hg1|done|lia| |by left; rewrite Hl|done].
    rewrite Hb. apply (ot_begun _ _ Ho _ _ _ Hi). by rewrite Hl. }
  assert (Hv : view w' = mkView (waiting (w_redis w)) (zset DelayedSet (w_redis w)) (abs (w_db w')))
    by (unfold view; by rewrite Hr).
  destruct (tx_commit_store _ _ _ _ _ H Hins) as [[Hx E]|(ns & -> & Hnd & E & Hns)].
  { destruct x; [|done]. split; [|done]. split; [|by apply Hlast]. rewrite Hv, E.
    apply (custody_calm r (view w) _ gs i g Hc Hi); [done|apply calm_refl]. }
  rewrite keys_ids in Hnd. rewrite Forall_forall in Hns.
  assert (Hun : ∀ id, id ∈ unscheduled (note_key <$> ns) → ∃ n, n ∈ ns ∧ n_ID n = id ∧ n_Status n ≠ StatusScheduled).
  { intros id (p & -> & [Hp (n & -> & Hn)%list_elem_of_fmap]%list_elem_of_filter)%list_elem_of_fmap. by exists n. }
  assert (Hput : ∀ ids, (∀ id, id ∈ ids → id ∈ unscheduled (note_key <$> ns)) →
    moved_on w' (set_tx h None (hold_all Ready ids g))).
  { intros ids Hids. split; [|apply Hlast, hold_all_opened]. rewrite Hv.
    apply (custody_held _ _ _ _ (hold_all Ready ids g)); [|by eapply lookup_lt_Some|done].
    eapply (custody_put r (view w) _ gs i g Hc Hi ns); [exact E|..].
    - apply Forall_forall. intros n Hn. left. by apply Hns.
    - intros id Hid. apply Hids, Hun in Hid as (n & Hn & <- & _). by apply list_elem_of_fmap_2.
    - intros m Hm Hid. apply Hids, Hun in Hid as (n & Hn & Hid & Hs). 
      assert (m = n) as ->; [|done]. apply list_elem_of_lookup in Hm as [a Ha], Hn as [b Hb'].
      assert (a = b) as ->; [|congruence].
      eapply NoDup_lookup; [exact Hnd|..]; rewrite list_lookup_fmap, ?Ha, ?Hb'; cbn; by f_equal. }
  destruct x as [e|].
  - split; [|done]. apply (Hput []). by intros id ?%not_elem_of_nil.
  - split; [by apply Hput|]. split; [by rewrite keys_ids|]. split.
    + eapply sublist_NoDup; [exact Hnd|]. rewrite <- keys_ids. apply fmap_sublist, sublist_filter.
    + apply Forall_forall. intros id (n & Hn & <- & _)%Hun. destruct (held g !! n_ID n) eqn:Eh; [|done].
      destruct (cu_known _ _ _ Hc (n_ID n) (WithThread i)) as [n' Hn']; [exists g; by rewrite Eh|].
      destruct (Hns _ Hn) as [Hnone _]. cbn in Hn'. congruence.
Qed.

(** An effect of Postgres. *)
Lemma postgres_custody X (e : PgE X) x w' :
  pg_allowed g e → svc (Pg e) w x w' → claim_unsure (Ev (Pg e) x) = false →
  moved_on w' (pg_after e x g) ∧ plausible (Pg e) x g.
Proof.
  intros Ha H Hcut. destruct e; cbn [pg_allowed] in Ha.
  - split; [|done]. destruct Ha as [(-> & n & -> & Hn)|[(-> & id & n & -> & Hh)|[Hcs Hg]]].
    + by apply insert_moved.
    + by eapply increment_moved.
    + rewrite Hg. apply postgres_doc in H as (res & H & _). by eapply calm_moved.
  - destruct Ha as [(-> & id & ->)|[Hcs Hg]]; [by apply select_moved|].
    split; [rewrite Hg; apply postgres_doc in H as (res & H & _); by eapply calm_moved|].
    cbn. destruct args as [|[|id| | | |] []], x as [[row|]|]; try done. intros ->.
    exact (proj2 (select_moved id (Ok (Some row)) w' H) eq_refl).
  - destruct Ha as [(-> & limit & ->)|[Hcs Hg]]; [by apply fetch_moved|].
    rewrite Hg. split.
    { apply postgres_doc in H as (res & w1 & H & _ & Hw). pose proof (statement_tables _ _ _ _ _ H) as Ht.
      destruct Hw as [->|[_ ->]]; [by eapply calm_moved|]. by apply same_moved. }
    cbn. destruct x as [[rows err]|]; [|done]. intros ->. by destruct Hcs.
  - split; [by apply begin_moved|done].
  - destruct Ha as [(-> & n & -> & Hn) [l Hl]]. split; [by eapply tx_exec_moved|done].
  - destruct Ha as [l Hl]. by eapply commit_moved.
  - split; [by apply rollback_moved|done].
Qed.
End Postgres.

(** ** The step *)

(** Every allowed effect, unless the answer of a removal from the delayed set is
    lost: it keeps the account, and its answer is plausible. *)
Lemma custody_effect {S : Services} {HS : ServicesOk S} {HO : SentOnce S} r w gs i g X (e : Eff X) x w' :
  system_ok w → custody r (view w) gs → open_txs w gs → gs !! i = Some g →
  allowed (bool_decide (i = r)) g e → svc e w x w' → claim_unsure (Ev e x) = false →
  (custody r (view w') (<[i := after e x g]> gs) ∧ open_txs w' (<[i := after e x g]> gs)) ∧ plausible e x g.
Proof.
  intros Hok Hc Ho Hi Ha H Hrem.
  assert (Hrest : w_db w' = w_db w → w_redis w' = w_redis w → w_txs w' = w_txs w → w_begun w' = w_begun w →
    custody r (view w') (<[i := g]> gs) ∧ open_txs w' (<[i := g]> gs)).
  { intros E1 E2 E3 E4. rewrite list_insert_id by done. split; [unfold view; by rewrite E1, E2|].
    rewrite <- (list_insert_id gs i g) by done. by eapply open_same. }
  assert (Hq : quiet w w' → custody r (view w') (<[i := g]> gs) ∧ open_txs w' (<[i := g]> gs)).
  { intros (t & _ & ->). by apply Hrest. }
  assert (Hr : w' = w → custody r (view w') (<[i := g]> gs) ∧ open_txs w' (<[i := g]> gs)).
  { intros ->. by apply Hrest. }
  destruct e; cbn [after allowed] in *; try (split; [|done]).
  - eapply postgres_custody; [apply Hok|done..].
  - apply sent_once_doc in H.
    assert (Hf : ∃ rd, w' = set_redis rd w).
    { destruct e; destruct H as (rd & -> & _); by exists rd. }
    eapply redis_custody in H as [Hcu Hp]; [|apply Hok|done..]. split; [|done]. split; [done|].
    destruct Hf as [rd ->]. eapply open_same; [done|done| |done..].
    destruct e; cbn; try done; repeat case_match; try done; apply hold_all_opened || apply listed_opened.
  - apply Hq. by eapply http_doc.
  - apply clock_doc in H as [_ ->]. by apply Hrest.
  - apply Hr. by eapply uuid_doc.
  - apply Hr. by eapply ctx_doc.
  - apply Hq. by eapply sleep_or_done_doc.
  - apply Hq. by eapply sleep_doc.
  - apply Hq. by eapply ping_doc.
  - apply Hq. by eapply ws_accept_doc.
  - apply Hq. by eapply ws_read_doc.
  - apply memory_doc in H as [_ E]. apply Hrest; by rewrite E.
  - apply Hq. by eapply ws_write_doc.
  - apply Hr. by eapply ws_close_doc.
  - apply Hr. by eapply counter_doc.
  - apply Hr. by eapply histogram_doc.
  - done.
Qed.
End Custody.
