(* ===== verification/CustodyRun.v ===== *)
(** * The programs of the process keep the account

    Going through the workers, the processor of retries, the scheduler and the
    handlers: they only do with a notification what is allowed to the goroutine
    that has it in hand. *)

From stdpp Require Import gmap.
From S2P Require Import Prelude GoLib Domain Retry Sql Redis Effects Discipline NotificationRepo.
From S2P Require Import NotificationStore Typed Queue QueueSpec RateLimit Delivery Hub Worker.
From S2P Require Import MemberSpec Validator Templates Service Api Wiring Aside Ledger Custody CustodyStore.
From S2P Require Import CustodyInv.

(** ** Programs that have nothing to do with it *)

Create HintDb custody.

Ltac calm_sets :=
  repeat (apply Forall_cons; split;
          [first [left; by apply (bool_decide_unpack _) | right; split; [done|by cbn; auto]]|]);
  by apply Forall_nil.

Ltac neutral_effect :=
  intros ?; split;
  [ first [ done
          | right; right; split; [try (intros _; calm_sets); done|done]
          | right; split; [try (intros _; calm_sets); done|done] ]
  | done ].

Ltac neutral_step :=
  first
    [ solve [eauto with custody aside]
    | exact I
    | apply only_bind; [|intros ?]
    | apply only_do; neutral_effect
    | apply only_for_range; intros ?
    | match goal with
      | |- only _ (match ?x with _ => _ end) => destruct x
      end ].

Ltac neutral_go := repeat neutral_step.

Section Neutral.
Context {T : UuidText} {TT : TimeText} {V : StructValidator} {TX : TextTemplate}
  {MP : MailParser} {TP : TimeParse} {JB : JsonBody} {g : Ghost}.

Abbreviation idly p := (only (neutral g) p).

(** What is done beside the notifications' progress. *)
Lemma aside_calm s args : stmt_aside s → calm_stmt s args.
Proof. by destruct s; cbn. Qed.

Lemma aside_neutral X (e : Eff X) : aside X e → neutral g X e.
Proof.
  intros He rp. destruct e as [X e|X e| | | | | | | | | | | | | | |]; try done.
  - destruct e as [s args|s args|s args| | | |]; try done; cbn in He.
    + assert (Hg : ∀ x, pg_after (PgExec s args) x g = g) by (destruct s as [[]|[]|[]|[]|[]]; done).
      split; [right; right; split|]; (done || by apply aside_calm).
    + destruct He as [He Hs].
      assert (Hg : ∀ x, pg_after (PgQueryRow s args) x g = g) by (destruct s as [[]|[]|[]|[]|[]]; done).
      split; [right; split|]; (done || by apply aside_calm).
    + assert (Hg : ∀ x, pg_after (PgQuery s args) x g = g) by (destruct s as [[]|[]|[]|[]|[]]; done).
      split; [right; split|]; (done || by apply aside_calm).
  - destruct e; try done; cbn in He.
    + split; [by intros Hk|]. intros x. cbn [after redis_after]. by rewrite decide_False.
Qed.

Lemma idly_aside {A} (p : prog A) : only aside p → idly p.
Proof. apply only_weaken, aside_neutral. Qed.

Lemma idly_UpdateStatus id st le : st ≠ StatusScheduled → idly (UpdateStatus id st le).
Proof.
  intros Hst. unfold UpdateStatus. apply only_bind; [apply only_do; neutral_effect|intros now].
  assert (Hne : Some (VText st) ≠ Some (VText StatusScheduled)) by (intros [= E]; done).
  destruct (st =? StatusDelivered)%string; [|destruct (negb (le =? "")%string)];
    (apply only_bind; [|intros [k|e]; [by destruct (k =? 0)|done]]); apply only_do; intros rp;
    (split; [|done]); right; right; (split; [|done]); intros _;
    calm_sets.
Qed.

(** Reading a notification that is not in hand. *)
Lemma idly_GetByID id : held g !! id ≠ Some Custody.Ready → idly (GetByID id).
Proof.
  intros Hh. unfold GetByID. apply only_bind; [|done]. apply only_do. intros rp. split.
  - left. split; [done|]. by exists id.
  - intros [[row|]|]; cbn; try done. destruct (held g !! id) as [[]|]; try done.
Qed.

Lemma idly_Cancel id : held g !! id ≠ Some Custody.Ready → idly (Cancel id).
Proof.
  intros Hh. unfold Cancel. apply only_bind; [apply only_do; neutral_effect|intros [[row|]|e]]; [done| |done].
  apply only_bind; [by apply idly_GetByID|]. by intros [].
Qed.

Lemma idly_Ack k id : idly (Ack k id).
Proof. unfold Ack. neutral_go. Qed.
End Neutral.

#[export] Hint Resolve idly_Ack idly_aside : custody.

(** ** Enqueueing and reading *)

Ltac idly_first :=
  apply keeps_after_neutral;
    [first [by apply idly_UpdateStatus | by neutral_go | by apply only_do; neutral_effect]|intros ?].

Section Hands.
Context {T : UuidText} {HT : UuidTextOk T} {TT : TimeText}.

(** The rest of what was in hand still is. *)
Definition others {A} (id : UUID) (g g' : Ghost) (_ : A) : Prop :=
  ∀ id', id' ≠ id → held g' !! id' = held g !! id'.

Lemma others_same {A} id g (a : A) : others id g g a.
Proof. by intros id' _. Qed.

Lemma others_hold {A} id ph g (a : A) : others id g (hold ph id g) a.
Proof. intros id' Hne. cbn. by rewrite lookup_insert_ne. Qed.

Lemma others_let_go {A} id g (a : A) : others id g (let_go id g) a.
Proof. intros id' Hne. cbn. by rewrite lookup_delete_ne. Qed.

Lemma entry_about id ch : about_values (entry_values id ch) = Some id.
Proof. unfold about_values, entry_values. cbn. by rewrite uuid_Parse_String. Qed.

Lemma keeps_Enqueue rp (Q : Ghost → option error → Prop) g id ch p :
  held g !! id = Some Custody.Ready → (∀ g' r, g' = g ∨ g' = let_go id g → Q g' r) →
  keeps rp Q g (Enqueue id ch p).
Proof.
  intros Hh HQ. unfold Enqueue. apply keeps_do.
  - intros _. exists id. split; [apply entry_about|done].
  - intros x _. cbn [after redis_after]. rewrite entry_about.
    assert (Hg : ∀ r, Q (if decide (StreamKey p ∈ priority_streams) then let_go id g else g) r).
    { intros r. case_decide; apply HQ; auto. }
    destruct x; apply Hg.
Qed.

Lemma keeps_GetByID rp (Q : Ghost → result error Notification → Prop) g id :
  held g !! id = Some Custody.Ready → (∀ e, Q g (Er e)) →
  (∀ n, n_ID n = id → well_typed n → Q (hold (Holding n) id g) (Ok n)) → keeps rp Q g (GetByID id).
Proof.
  intros Hh He Hn. unfold GetByID. apply keeps_do; [left; split; [done|]; by exists id|].
  intros x Hp. cbn [after pg_after select_by_id]. destruct x as [[row|]|e]; [|apply He..].
  rewrite Hh. cbn [scanNotification]. destruct (scan_fields row) as [n|] eqn:Es; [|apply He].
  destruct (Hp eq_refl n Es) as [Hid Hwt]. by apply Hn.
Qed.

(** ** The workers *)

(** After the delivery: a retry, or the end. *)
Lemma keeps_settle rp g n msg result :
  held g !! n_ID n = Some (Spent (n_AttemptCount n + 1) (n_MaxRetries n)) → well_typed n →
  keeps rp (others (n_ID n) g) g (settle n msg result).
Proof.
  intros Hh Hwt. unfold settle. destruct (d_Error result) as [err|].
  2: { do 3 idly_first. eapply tracks_mono; [apply keeps_neutral, idly_aside, aside_Broadcast|]. intros g' ? ->. apply others_same. }
  eapply (tracks_seq _ (others (n_ID n) g)).
  2: { intros g' ? Hg'. idly_first. exact Hg'. }
  destruct (ShouldRetry _ _) eqn:Hr.
  - do 2 idly_first. eapply (tracks_seq _ (others (n_ID n) g)).
    + unfold EnqueueDelayed. apply keeps_do.
      * split; [done|]. exists (n_ID n), (n_AttemptCount n + 1), (n_MaxRetries n). split_and!; [|done|].
        -- unfold member_about. rewrite parse_delayed_member; [apply uuid_Parse_String|apply Hwt..].
        -- unfold ShouldRetry in Hr. bool_hyps. destruct (wt_attempts _ Hwt) as [? ?].
           rewrite wrap64_id in Hr by (unfold int64_range, int4_max, int_min, int_max in *; lia). lia.
      * intros x _. cbn [after redis_after]. unfold member_about.
        rewrite parse_delayed_member, uuid_Parse_String by apply Hwt. destruct x; apply others_let_go.
    + intros g' r Hg'. idly_first. eapply tracks_mono; [apply keeps_neutral, idly_aside, aside_Broadcast|].
      by intros g'' ? ->.
  - do 4 idly_first. eapply tracks_mono; [apply keeps_neutral, idly_aside, aside_Broadcast|]. intros g' ? ->. apply others_same.
Qed.

Lemma keeps_process_notification rp d msg g id :
  aside_providers d → held g !! id = Some Custody.Ready →
  keeps rp (others id g) g (process_notification d msg id).
Proof.
  intros Hp Hh. unfold process_notification.
  eapply (tracks_seq _ (λ g' r, match r with
    | Er _ => g' = g
    | Ok n => g' = hold (Holding n) id g ∧ n_ID n = id ∧ well_typed n end)).
  { by apply keeps_GetByID. }
  intros g' [n|e]; [|intros ->; idly_first; apply others_same].
  intros (-> & <- & Hwt). destruct (_ || _ || _); [idly_first; apply others_hold|].
  idly_first. destruct (dp_providers d !! n_Channel n) as [p|] eqn:Ep; [|do 2 idly_first; apply others_hold].
  eapply (tracks_seq _ (λ g' _, g' = hold (Spent (n_AttemptCount n + 1) (n_MaxRetries n)) (n_ID n)
                                          (hold (Holding n) (n_ID n) g))).
  - unfold deliver_once. idly_first. apply keeps_after_neutral; [apply idly_aside, (Hp _ _ Ep)|intros result].
    do 2 idly_first. eapply tracks_seq.
    + unfold IncrementAttempt. apply keeps_do.
      * right; left. split; [done|]. exists (n_ID n), n. split; [done|]. cbn. by rewrite lookup_insert_eq.
      * intros x _. cbn [after pg_after increment_attempt]. cbn [held hold]. rewrite lookup_insert_eq.
        instantiate (1 := λ g' _, g' = hold (Spent (n_AttemptCount n + 1) (n_MaxRetries n)) (n_ID n)
                                          (hold (Holding n) (n_ID n) g)).
        by destruct x.
    + intros g' r ->. idly_first. done.
  - intros g' result ->. eapply tracks_mono; [apply keeps_settle; [|done]|].
    + cbn. by rewrite lookup_insert_eq.
    + intros g' [] Hg' id' Hne. rewrite Hg' by done. cbn. by rewrite !lookup_insert_ne.
Qed.

(** The notification a message is about. *)
Definition msg_about (m : Message) : option UUID := uuid_Parse (m_NotificationID m).

Lemma keeps_processMessage rp fuel d msg g :
  aside_providers d → (∀ id, msg_about msg = Some id → held g !! id = Some Custody.Ready) →
  keeps rp (λ g' _, ∀ id, msg_about msg ≠ Some id → held g' !! id = held g !! id) g (processMessage fuel d msg).
Proof.
  intros Hp Hh. unfold processMessage, msg_about in *. destruct (uuid_Parse _) as [id|]; [|by idly_first].
  apply keeps_after_neutral; [apply idly_aside, aside_rate_gate|intros []; [|done..]]. eapply tracks_seq; [by apply keeps_process_notification, Hh|].
  intros g' [] Hg' id' Hne. apply Hg'. congruence.
Qed.

Lemma keeps_process_all rp fuel d ms g :
  aside_providers d → NoDup (omap msg_about ms) →
  (∀ id, id ∈ omap msg_about ms → held g !! id = Some Custody.Ready) →
  keeps rp (λ _ _, True) g (process_all fuel d ms).
Proof.
  intros Hp. revert g. induction ms as [|m ms IH]; intros g Hnd Hh; [done|]. cbn [process_all].
  cbn in Hnd, Hh. eapply tracks_seq.
  - apply keeps_processMessage; [done|]. intros id E. rewrite E in Hh. apply Hh. by left.
  - intros g' [] Hg'; [|done]. apply IH.
    + destruct (msg_about m); [by apply NoDup_cons in Hnd as [_ ?]|done].
    + intros id Hid. rewrite Hg'; [apply Hh; destruct (msg_about m); [by right|done]|].
      intros E. rewrite E in Hnd. by apply NoDup_cons in Hnd as [? _].
Qed.

(** The messages that are read are about what the reply is about. *)
Lemma keeps_messages_of rp k es g :
  keeps rp (λ g' ms, g' = g ∧ omap msg_about ms = omap about es) g (messages_of k es).
Proof.
  induction es as [|e es IH]; [done|]. cbn [messages_of]. unfold message_of, about, about_values.
  destruct (field "notification_id" (e_values e)) as [id|] eqn:Ei, (field "channel" (e_values e));
    try (split; [done|by intros []]).
  eapply (tracks_seq _ (λ g' m, g' = g ∧ msg_about m = uuid_Parse id)); [done|intros g' m [-> Hm]].
  eapply tracks_seq; [exact IH|]. intros g' ms [-> Hms]. split; [done|]. cbn. rewrite Hm.
  unfold about, about_values in *. rewrite Ei. cbn. by rewrite Hms.
Qed.

Lemma keeps_stream_messages rp l g :
  keeps rp (λ g' ms, g' = g ∧ omap msg_about ms = read_ids l) g (stream_messages l).
Proof.
  induction l as [|[k es] l IH]; [done|]. cbn [stream_messages].
  eapply tracks_seq; [apply keeps_messages_of|]. intros g' ms [-> Hms].
  eapply tracks_seq; [exact IH|]. intros g' ms' [-> Hms']. split; [done|].
  unfold read_ids in *. cbn [mbind list_bind]. by rewrite !omap_app, Hms, Hms'.
Qed.

Lemma keeps_Work rounds fuel d g :
  aside_providers d → keeps false (λ _ _, True) g (Work rounds fuel d).
Proof.
  intros Hp. revert g. induction rounds as [|rounds IH]; intros g; [done|]. cbn [Work].
  apply keeps_after_neutral; [apply only_do; neutral_effect|intros []; [done|]].
  unfold ReadMessages. eapply (tracks_seq _ (λ g' r, match r with
    | Ok ms => NoDup (omap msg_about ms) ∧ ∀ id, id ∈ omap msg_about ms → held g' !! id = Some Custody.Ready
    | Er _ => True end)).
  - apply keeps_do; [done|]. intros [[l|]|e] Hx; [|split; [constructor|by intros id ?%not_elem_of_nil]|done].
    eapply tracks_seq; [apply keeps_stream_messages|]. intros g' ms [-> Hms]. hnf. rewrite Hms.
    destruct Hx as [Hnd _]. split; [done|]. intros id Hid. cbn. by rewrite hold_all_held, decide_True.
  - intros g' [ms|e] Hms.
    + eapply tracks_seq; [destruct Hms; by apply keeps_process_all|]. intros g'' [] _; [apply IH|done].
    + apply keeps_after_neutral; [apply only_do; neutral_effect|intros []; [done|]].
      apply keeps_after_neutral; [apply only_do; neutral_effect|intros _]. apply IH.
Qed.

(** ** Delayed retries *)

Definition none_listed (g : Ghost) : Prop := ∀ id m, held g !! id ≠ Some (Listed m).

Lemma listed_exact ms g id m :
  NoDup (omap member_about ms) → m ∈ ms → member_about m = Some id →
  held (foldr list_member g ms) !! id = Some (Listed m).
Proof.
  induction ms as [|m0 ms IH]; intros Hnd Hm Ha; [by apply not_elem_of_nil in Hm|].
  cbn [foldr]. unfold list_member at 1. cbn in Hnd. apply elem_of_cons in Hm as [->|Hm].
  - rewrite Ha. cbn. by rewrite lookup_insert_eq.
  - destruct (member_about m0) as [id0|]; [|by apply IH]. apply NoDup_cons in Hnd as [Hn Hnd]. cbn.
    rewrite lookup_insert_ne; [by apply IH|]. intros ->. apply Hn, list_elem_of_omap. by exists m.
Qed.

Lemma keeps_PopDelayedDue now count g :
  none_listed g →
  keeps true (λ g' r, none_listed g' ∧ match r with
    | Ok ms => NoDup (omap member_about ms) ∧ Forall (λ m, is_Some (member_about m)) ms ∧
               ∀ id, id ∈ omap member_about ms → held g' !! id = Some Custody.Ready
    | Er _ => True end) g (PopDelayedDue now count).
Proof.
  intros Hnl. unfold PopDelayedDue. apply keeps_do; [by split|]. intros [ms|e] Hx; [|by split].
  destruct ms as [|m0 ms]; [split; [done|]; split_and!; [constructor..|by intros id ?%not_elem_of_nil]|].
  set (l := m0 :: ms) in *. destruct Hx as [[Hnd _] Hall]. cbn [after redis_after].
  rewrite Forall_forall in Hall. apply keeps_do.
  - split; [done|]. split; [done|]. apply Forall_forall. intros m Hm. destruct (Hall _ Hm) as [id Ha].
    exists id. split; [done|]. by apply listed_exact.
  - intros x Hx. cbn in Hx. subst x. cbn [after redis_after]. split; [|split; [done|split; [by apply Forall_forall|]]].
    + intros id m. rewrite hold_all_held. case_decide as Hid; [done|].
      intros [(m' & Hm' & Ha & _)|[H _]]%held_listed; [|by apply Hnl in H].
      apply Hid, list_elem_of_omap. by exists m'.
    + intros id Hid. by rewrite hold_all_held, decide_True.
Qed.

Lemma keeps_requeue m g :
  (∀ id, member_about m = Some id → held g !! id = Some Custody.Ready) → is_Some (member_about m) →
  keeps true (λ g' _, g' = g ∨ ∃ id, member_about m = Some id ∧ g' = let_go id g) g (requeue m).
Proof.
  intros Hh [id Ha]. specialize (Hh _ Ha). unfold requeue. rewrite Ha. unfold member_about in Ha.
  destruct (parseMember m) as [[|p0 [|p1 [|p2 []]]]|]; try done. rewrite Ha.
  eapply (tracks_seq _ (λ g' _, g' = g ∨ g' = let_go id g)); [by apply keeps_Enqueue|].
  intros g' _ [->| ->]; [by left|right]. by exists id.
Qed.

Lemma keeps_requeue_all ms g :
  none_listed g → NoDup (omap member_about ms) → Forall (λ m, is_Some (member_about m)) ms →
  (∀ id, id ∈ omap member_about ms → held g !! id = Some Custody.Ready) →
  keeps true (λ g' _, none_listed g') g (for_range ms requeue).
Proof.
  revert g. induction ms as [|m ms IH]; intros g Hnl Hnd Hms Hh; [done|]. cbn [for_range].
  apply Forall_cons in Hms as [[id Ha] Hms]. cbn in Hnd, Hh. rewrite Ha in Hnd, Hh.
  apply NoDup_cons in Hnd as [Hid Hnd]. eapply tracks_seq.
  - apply keeps_requeue; [|by exists id]. intros id' Ha'. apply Hh. rewrite Ha in Ha'. injection Ha' as <-. by left.
  - intros g' _ [->|(id' & Ha' & ->)]; apply IH; try done.
    + intros i Hi. apply Hh. by right.
    + intros i m'. cbn. rewrite lookup_delete_Some. intros [_ H]. by apply Hnl in H.
    + intros i Hi. cbn. rewrite lookup_delete_ne; [apply Hh; by right|].
      intros ->. rewrite Ha in Ha'. injection Ha' as ->. done.
Qed.

Lemma keeps_ProcessDelayed ticks g :
  none_listed g → keeps true (λ _ _, True) g (ProcessDelayed ticks).
Proof.
  revert g. induction ticks as [|ticks IH]; intros g Hnl; [done|]. cbn [ProcessDelayed].
  apply keeps_after_neutral; [apply only_do; neutral_effect|intros []; [done|]].
  eapply (tracks_seq _ (λ g' _, none_listed g')); [|intros g' _ Hnl'; by apply IH].
  unfold processDelayedBatch. apply keeps_after_neutral; [apply only_do; neutral_effect|intros t].
  eapply tracks_seq; [by apply keeps_PopDelayedDue|]. intros g' [ms|e] [Hnl' Hr]; [|done].
  destruct Hr as (Hnd & Hms & Hh). by apply keeps_requeue_all.
Qed.

(** ** The scheduler *)

Lemma keeps_enqueue_all rp (ns : list Notification) g :
  NoDup (n_ID <$> ns) → (∀ id, id ∈ n_ID <$> ns → held g !! id = Some Custody.Ready) →
  keeps rp (λ _ _, True) g
    (for_range ns (λ n, run! Enqueue (n_ID n) (n_Channel n) (n_Priority n) in Ret tt)).
Proof.
  revert g. induction ns as [|n ns IH]; intros g Hnd Hh; [done|]. cbn [for_range].
  rewrite fmap_cons in Hnd, Hh. apply NoDup_cons in Hnd as [Hn Hnd].
  eapply (tracks_seq _ (λ g' _, g' = g ∨ g' = let_go (n_ID n) g)).
  - eapply (tracks_seq _ (λ g' _, g' = g ∨ g' = let_go (n_ID n) g)); [|done].
    apply keeps_Enqueue; [apply Hh; by left|done].
  - intros g' _ [->| ->]; apply IH; try done; intros i Hi; [apply Hh; by right|].
    cbn. rewrite lookup_delete_ne; [apply Hh; by right|]. intros E. by rewrite E in Hn.
Qed.

Lemma keeps_run_loop rp ticks iv limit g : keeps rp (λ _ _, True) g (run_loop ticks iv limit).
Proof.
  revert g. induction ticks as [|ticks IH]; intros g; [done|]. cbn [run_loop].
  apply keeps_after_neutral; [apply only_do; neutral_effect|intros []; [done|]].
  eapply (tracks_seq _ (λ _ _, True)); [|intros g' _ _; apply IH].
  unfold poll. eapply (tracks_seq _ (λ g' r, match r with
    | Ok ns => NoDup (n_ID <$> ns) ∧ ∀ id, id ∈ n_ID <$> ns → held g' !! id = Some Custody.Ready
    | Er _ => True end)).
  - unfold FetchScheduledDue. apply keeps_do; [left; split; [done|]; by exists limit|].
    intros [[rows err]|e] Hx; [|done]. destruct (Hx eq_refl) as [Hnd _]. cbn [after pg_after fetch_due].
    hnf. destruct (scan_all rows) as [ns|e] eqn:Es; [|done]. apply scan_all_ids in Es. rewrite Es in *.
    split; [done|]. intros id Hid. by rewrite hold_all_held, decide_True.
  - intros g' [ns|e] Hr; [|done]. destruct Hr. by apply keeps_enqueue_all.
Qed.

Lemma keeps_Run rp ticks iv limit g : keeps rp (λ _ _, True) g (Run ticks iv limit).
Proof. unfold Run. destruct (_ <=? _); [by split|apply keeps_run_loop]. Qed.
End Hands.
