(* ===== verification/CustodySystem.v ===== *)
(** * No notification is worked on twice at the same time

    The handlers keep the account as well; so every interleaving of the
    goroutines of the process does. Hence the theorems: a notification is in one
    place at a time, and no two goroutines go on with the same. *)

From stdpp Require Import gmap.
From S2P Require Import Prelude GoLib Domain Retry Sql Redis Effects Discipline NotificationRepo.
From S2P Require Import NotificationStore Typed Queue QueueSpec Worker Validator Templates Service.
From S2P Require Import Api Wiring Interleave History System Running Aside Ledger Custody CustodyStore CustodyInv.
From S2P Require Import CustodyStep CustodyRun.

(** ** Creating notifications *)

Section Requests.
Context {T : UuidText} {HT : UuidTextOk T} {TT : TimeText} {V : StructValidator} {TX : TextTemplate}
  {MP : MailParser} {TP : TimeParse} {JB : JsonBody}.
Context (svc : NotificationService).

(** What is stored as to be sent now is in hand. *)
Definition ready (g : Ghost) (n : Notification) : Prop :=
  n_Status n ≠ StatusScheduled → held g !! n_ID n = Some Custody.Ready.

Definition unattempted (n : Notification) : Prop := n_AttemptCount n = 0.

Lemma inserts_ident n i c u :
  unattempted n → inserts insert_notification (insert_args (set_ident i c u n) (json_Marshal (n_TemplateVars n))).
Proof. intros Hn. split; [done|]. exists (set_ident i c u n). by destruct n. Qed.

Lemma keeps_Create rp n g :
  unattempted n → keeps rp (λ g' r, r.2 = None → ready g' r.1) g (Create n).
Proof.
  intros Hn. unfold Create. idly_first. idly_first.
  apply keeps_do; [left; by apply inserts_ident|].
  intros x _. cbn [after pg_after insert_notification]. rewrite insert_key_args.
  destruct x as [k|e]; [|done]. hnf. intros _ Hs. cbn [fst] in *. 
  rewrite decide_False by done. cbn. by rewrite lookup_insert_eq.
Qed.

Lemma keeps_enqueue_pending rp (n : Notification) g :
  ready g n → keeps rp (λ g' _, g' = g ∨ g' = let_go (n_ID n) g) g (enqueue_pending svc n).
Proof.
  intros Hr. unfold enqueue_pending. destruct (_ && _) eqn:E; [|by left]. bool_hyps.
  eapply (tracks_seq _ (λ g' _, g' = g ∨ g' = let_go (n_ID n) g)).
  - apply keeps_Enqueue; [|done]. apply Hr. by rewrite H.
  - intros g' [e|] Hg'; [done|]. apply keeps_after_neutral; [by apply idly_UpdateStatus|done].
Qed.

Lemma keeps_enqueue_batch rp (ns : list Notification) g :
  NoDup (n_ID <$> ns) → Forall (ready g) ns → keeps rp (λ _ _, True) g (enqueue_batch svc ns).
Proof.
  revert g. induction ns as [|n ns IH]; intros g Hnd Hr; [done|]. cbn [enqueue_batch].
  apply Forall_cons in Hr as [Hn Hr]. rewrite fmap_cons in Hnd. apply NoDup_cons in Hnd as [Hid Hnd].
  eapply tracks_seq; [by apply keeps_enqueue_pending|]. intros g' m Hg'.
  eapply (tracks_seq _ (λ _ _, True)); [|done]. apply IH; [done|].
  destruct Hg' as [->| ->]; [done|]. rewrite Forall_forall in Hr |- *. intros k Hk Hs. cbn.
  rewrite lookup_delete_ne; [by apply Hr|]. intros E. apply Hid. rewrite E. by apply list_elem_of_fmap_2.
Qed.

(** The content of a template changes no count. *)
Lemma keeps_from_template rp f r req n g :
  unattempted n →
  keeps rp (λ g' x, g' = g ∧ match x with Ok m => unattempted m | Er _ => True end) g (from_template f r req n).
Proof.
  intros Hn. unfold from_template. destruct (r_TemplateID req); [|done].
  apply keeps_after_neutral; [apply idly_aside, aside_Template_GetByID|intros [t|e]; [|done]].
  destruct (Render t (r_TemplateVars req)) as [[sb bd]|]; [|done]. split; [done|]. by destruct n.
Qed.

Lemma set_schedule_unattempted req n : unattempted n → unattempted (set_schedule req n).
Proof. unfold set_schedule. by destruct (r_ScheduledAt req), n. Qed.

Lemma keeps_Service_Create rp req g : keeps rp (λ _ _, True) g (NotificationService_Create svc req).
Proof.
  unfold NotificationService_Create. destruct (ValidateStruct _); [done|].
  destruct (negb _); [done|]. destruct (negb _); [done|].
  eapply tracks_seq; [by apply keeps_from_template|]. intros g' [n|e] [-> Hn]; [|done].
  destruct (ValidateNotificationContent _ _ _ _); [done|].
  eapply tracks_seq; [by apply keeps_Create, set_schedule_unattempted|].
  intros g' [m [e|]] Hm; [done|]. eapply tracks_seq; [by apply keeps_enqueue_pending, Hm|]. done.
Qed.

(** ** Batches *)

Lemma keeps_batch_inserts rp h now ns l g :
  opened g !! h = Some (Some l) → Forall unattempted ns →
  keeps rp (λ g' r, held g' = held g ∧ is_Some (opened g' !! h) ∧
    (r.2 = None → opened g' !! h = Some (Some (l ++ (note_key <$> r.1))))) g (batch_inserts h now ns).
Proof.
  revert l g. induction ns as [|n ns IH]; intros l g Hl Hns.
  { hnf. rewrite app_nil_r. rewrite Hl. by split_and!. }
  apply Forall_cons in Hns as [Hn Hns]. cbn [batch_inserts].
  apply keeps_after_neutral; [apply only_do; neutral_effect|intros id].
  apply keeps_do.
  { split; [split; [done|]; exists (set_ident id now now n); by destruct n|by exists l]. }
  intros x _. cbn [after pg_after]. rewrite insert_key_args, Hl. destruct x as [k|e].
  - eapply tracks_seq; [apply (IH (l ++ [note_key (set_ident id now now n)])); [|done]|].
    + cbn. by rewrite lookup_insert_eq.
    + intros g' [ns' err] (Hh & Ho & Hk). hnf. split; [done|]. split; [done|]. intros He. cbn in *.
      rewrite (Hk He), <- app_assoc. done.
  - hnf. split_and!; [done| |done]. cbn. by rewrite lookup_insert_eq.
Qed.

Lemma unscheduled_in ns n : n ∈ ns → n_Status n ≠ StatusScheduled → n_ID n ∈ unscheduled (note_key <$> ns).
Proof.
  intros Hn Hs. apply list_elem_of_fmap. exists (note_key n). split; [done|].
  apply list_elem_of_filter. split; [done|]. by apply list_elem_of_fmap_2.
Qed.

Lemma keeps_CreateBatch rp ns g :
  Forall unattempted ns →
  keeps rp (λ g' r, r.2 = None → NoDup (n_ID <$> r.1) ∧ Forall (ready g') r.1) g (CreateBatch ns).
Proof.
  intros Hns. unfold CreateBatch. apply keeps_do; [done|]. intros [h|e] _; [|done]. cbn [after pg_after].
  idly_first. eapply tracks_seq; [apply (keeps_batch_inserts _ _ _ _ []); [|done]|].
  { cbn. by rewrite lookup_insert_eq. }
  intros g1 [ns' err] (Hh & Ho & Hk). cbn [fst snd] in *.
  eapply (tracks_seq _ (λ g' err, is_Some (opened g' !! h) ∧
    (err = None → NoDup (n_ID <$> ns') ∧ Forall (ready g') ns'))).
  - destruct err as [e|]; [done|]. specialize (Hk eq_refl). apply keeps_do; [by eexists|].
    intros [e|] Hx; cbn [after pg_after plausible] in *; rewrite Hk in *.
    + split; [|done]. cbn. by rewrite lookup_insert_eq.
    + destruct Hx as [Hnd _]. rewrite app_nil_l, keys_ids in *. split; [cbn; by rewrite lookup_insert_eq|].
      intros _. split; [done|]. apply Forall_forall. intros n Hn Hs. cbn [held set_tx].
      by rewrite hold_all_held, decide_True by by apply unscheduled_in.
  - intros g2 err' [Hs Hr]. by apply keeps_do.
Qed.

Lemma keeps_batch_members rp b i l g :
  keeps rp (λ g' r, g' = g ∧ match r with Ok ns => Forall unattempted ns | Er _ => True end) g
    (batch_members svc b i l).
Proof.
  revert i. induction l as [|r l IH]; intros i; [by split|]. cbn [batch_members].
  eapply (tracks_seq _ (λ g' x, g' = g ∧ match x with Ok m => unattempted m | Er _ => True end)).
  - unfold batch_member. destruct (negb _); [done|]. destruct (negb _); [done|].
    eapply tracks_seq; [by apply keeps_from_template|]. intros g' [n|e] [-> Hn]; [|done].
    destruct (ValidateNotificationContent _ _ _ _); [done|]. split; [done|]. by apply set_schedule_unattempted.
  - intros g' [n|e] [-> Hn]; [|done]. eapply tracks_seq; [apply IH|]. intros g' [ns|e] [-> Hns]; [|done].
    split; [done|]. by constructor.
Qed.

Lemma keeps_Service_CreateBatch rp req g : keeps rp (λ _ _, True) g (NotificationService_CreateBatch svc req).
Proof.
  unfold NotificationService_CreateBatch. destruct (ValidateStruct _); [done|].
  destruct (_ <? _); [done|]. idly_first. eapply tracks_seq; [apply keeps_batch_members|].
  intros g' [ns|e] [-> Hns]; [|done]. eapply tracks_seq; [by apply keeps_CreateBatch|].
  intros g' [ms [e|]] Hms; [done|]. destruct (Hms eq_refl) as [Hnd Hr].
  eapply tracks_seq; [by apply keeps_enqueue_batch|]. done.
Qed.

(** ** The handlers *)

Abbreviation starts p := (keeps false (λ _ _, True) empty_handed p).

Lemma passing_neutral X (e : Eff X) : passing X e → neutral empty_handed X e.
Proof.
  intros [He|He]; [by apply aside_neutral|].
  destruct e as [X e| | | | | | | | | | | | | | | |]; try done. destruct e as [|s args| | | | |]; try done.
  destruct He as ([-> | ->] & id & ->); intros rp.
  - split; [left; split; [done|]; by exists id|]. intros [[row|]|]; [|done..].
    cbn [after pg_after select_by_id]. by rewrite (lookup_empty id : held empty_handed !! id = None).
  - revert rp. neutral_effect.
Qed.

Lemma starts_serve reads rw req r : starts (serve svc reads rw req r).
Proof.
  destruct (creating r) eqn:Er.
  2: { eapply tracks_mono; [|by intros g' a _]. apply keeps_neutral.
       eapply only_weaken; [apply passing_neutral|by apply passing_serve]. }
  destruct r; try done; cbn [serve]; (eapply (tracks_seq _ (λ _ _, True)); [|by intros g a _]).
  - unfold NotificationHandler_Create. destruct (Decode_CreateNotification _); [|done].
    eapply tracks_seq; [apply keeps_Service_Create|done].
  - unfold NotificationHandler_CreateBatch. destruct (Decode_BatchCreate _); [|done].
    eapply tracks_seq; [apply keeps_Service_CreateBatch|done].
Qed.

Lemma starts_NewRouter reads req : starts (NewRouter svc reads req).
Proof.
  apply (tracks_router _ (λ _, True)); try done. intros r. apply starts_serve.
Qed.
End Requests.

(** ** The process *)

Section System.
Context {T : UuidText} {HT : UuidTextOk T} {TT : TimeText} {V : StructValidator} {TX : TextTemplate}
  {MP : MailParser} {TP : TimeParse} {JB : JsonBody} {S : Services} {HS : ServicesOk S} {HO : SentOnce S}.

(** The account of every goroutine; [r] is the processor of retries. *)
Definition ledgers (r : nat) (i : nat) : Ledger Ghost := custody_ledger (bool_decide (i = r)).

Abbreviation accounts r := (accounted (ledgers r) (λ _ _ _, True)).

Lemma main_threads_accounted cfg rounds fuel ticks reads reqs :
  let ts := main_threads cfg rounds fuel ticks reads reqs in
  accounts (Z.to_nat (wc_PoolSize (cf_Worker cfg))) ts (replicate (length ts) empty_handed).
Proof.
  intros ts. split; [apply length_replicate|]. intros i p g Hp Hg.
  apply lookup_replicate in Hg as [-> _]. unfold ts, main_threads, pool_threads, Start in Hp. cbn [main_pool NewPool pl_size] in Hp.
  unfold ledgers. set (n := Z.to_nat (wc_PoolSize (cf_Worker cfg))) in *.
  apply lookup_app_Some in Hp as [[-> Hi]%lookup_replicate|[Hi Hp]].
  - rewrite bool_decide_false by lia. eapply tracks_seq; [|done].
    apply keeps_Work, main_aside_providers.
  - rewrite length_replicate in Hi, Hp. apply lookup_app_Some in Hp as [Hp|[Hi' Hp]].
    + destruct (i - n)%nat as [|[|k]] eqn:E; [..|done]; injection Hp as <-.
      * rewrite bool_decide_true by lia. by apply keeps_ProcessDelayed.
      * apply keeps_Run.
    + cbn in Hi'. rewrite bool_decide_false by lia. apply list_lookup_fmap_Some in Hp as (req & -> & _).
      eapply tracks_seq; [apply starts_NewRouter|done].
Qed.

(** What the interleaving keeps. *)
Record in_custody (r : nat) (w : World) (gs : list Ghost) : Prop := {
  ic_ok : system_ok w;
  ic_custody : custody r (view w) gs;
  ic_txs : open_txs w gs;
}.

Lemma custody_kept r w gs i g X (e : Eff X) x w' :
  in_custody r w gs → gs !! i = Some g → system_effect any_ack X e → allowed (bool_decide (i = r)) g e →
  Effects.svc e w x w' → claim_unsure (Ev e x) = false →
  in_custody r w' (<[i := after e x g]> gs) ∧ plausible e x g ∧ system_answer any_ack X e x.
Proof.
  intros [Hok Hc Ho] Hgi He Ha Hs Hev.
  destruct (custody_effect r w gs i g X e x w' Hok Hc Ho Hgi Ha Hs Hev) as [[Hc1 Ho1] Hp].
  apply (effect_step any_ack) in Hs as [[Hok1 _ _ _] Hx]; [|done|apply any_permits|done]. by split.
Qed.

(** ** The theorems *)

(** The notification waits: as a message, a retry, or a scheduled row. *)
Definition waits_at (w : World) (id : UUID) (p : Place) : Prop := at_place (view w) [] id p.

(** One place at most, a due attempt for what waits, and no more attempts than
    configured. *)
Record orderly (w : World) : Prop := {
  od_place id p q : waits_at w id p → waits_at w id q → p = q;
  od_due id p : waits_at w id p → ∃ n, abs (w_db w) !! id = Some n ∧ n_AttemptCount n < Z.max 1 (n_MaxRetries n);
  od_bound id n : abs (w_db w) !! id = Some n → 0 ≤ n_AttemptCount n ≤ Z.max 1 (n_MaxRetries n);
  od_members m : is_Some (zset DelayedSet (w_redis w) !! m) → is_Some (member_about m);
}.

(** What the goroutine does next is for the notification: to count an attempt, to
    enqueue it or to put its retry off. *)
Definition works_on (p : prog unit) (id : UUID) : Prop :=
  match p with
  | Vis e _ =>
      match e with
      | Pg (PgExec s args) => s = increment_attempt ∧ args = [VUuid id]
      | Rd (XAdd k vs) => k ∈ priority_streams ∧ about_values vs = Some id
      | Rd (ZAdd _ _ m) => member_about m = Some id
      | _ => False
      end
  | Ret _ => False
  end.

Lemma waits_idle w id p : waits_at w id p → idle p.
Proof. destruct p; try done. by intros (g & Hg & _). Qed.

Lemma at_place_waits w gs id p : at_place (view w) gs id p → idle p → waits_at w id p.
Proof. destruct p; try done. intros (? & ? & _) _. by split_and!. Qed.

(** What waits is where it waits, or is being taken off the delayed set. *)
Lemma waits_cases r w gs id :
  custody r (view w) gs →
  (∀ p, waits_at w id p → at_place (view w) gs id p) ∨
  ∃ m g, gs !! r = Some g ∧ held g !! id = Some (Listed m) ∧ below (abs (w_db w)) id ∧
       ∀ p, waits_at w id p → p = InDelayed m.
Proof.
  intros Hc. destruct (gs !! r ≫= λ g, held g !! id) as [ph|] eqn:E.
  1: apply bind_Some in E as (g & Hg & Hh); destruct ph as [|m|n|c mx].
  2: { right. exists m, g. destruct (cu_phases _ _ _ Hc _ _ _ _ Hg Hh) as (Hb & _ & _ & Hu).
       assert (Hr : at_place (view w) gs id (WithThread r)) by (exists g; by rewrite Hh).
       split_and!; [done..|]. intros p Hp. destruct p as [k j|m'| |j].
       - by pose proof (cu_unique _ _ _ Hc _ _ (InLane k j) Hr Hp).
       - f_equal. by apply Hu; apply Hp.
       - by pose proof (cu_unique _ _ _ Hc _ _ InSchedule Hr Hp).
       - by apply waits_idle in Hp. }
  all: left; intros p Hp; destruct p as [k j|m'| |j]; [exact Hp| |exact Hp|by apply waits_idle in Hp].
  all: destruct Hp as (Hm & Ha & _); split; [done|]; split; [done|]; intros i gi m'' Hi Hh' .
  all: assert (i = r) as -> by (by apply (cu_phases _ _ _ Hc _ _ _ _ Hi Hh')).
  all: try (assert (gi = g) as -> by congruence); try congruence.
  rewrite Hi in E. cbn in E. congruence.
Qed.

Lemma custody_orderly r w gs : custody r (view w) gs → orderly w.
Proof.
  intros Hc. split; [..|apply (cu_bound _ _ _ Hc)|apply (cu_members _ _ _ Hc)].
  - intros id p q Hp Hq. destruct (waits_cases _ _ _ id Hc) as [Hw|(m & _ & _ & _ & _ & Hw)].
    + eapply (cu_unique _ _ _ Hc); by apply Hw.
    + by rewrite (Hw _ Hp), (Hw _ Hq).
  - intros id p Hp.
    assert (H : is_Some (abs (w_db w) !! id) ∧ below (abs (w_db w)) id).
    { destruct (waits_cases _ _ _ id Hc) as [Hw|(m & g & Hg & Hh & Hb & _)].
      - split; [by eapply (cu_known _ _ _ Hc), Hw|]. eapply (cu_idle _ _ _ Hc _ _ (Hw _ Hp)). by eapply waits_idle.
      - split; [|done]. apply (cu_known _ _ _ Hc _ (WithThread r)). exists g. by rewrite Hh. }
    destruct H as [[n Hn] Hb]. exists n. split; [done|]. by apply Hb.
Qed.

Lemma orderly_custody r w n : orderly w → custody r (view w) (replicate n empty_handed).
Proof.
  intros Ho.
  assert (Hw : ∀ id p, at_place (view w) (replicate n empty_handed) id p → waits_at w id p).
  { intros id p Hp. eapply at_place_waits; [done|]. destruct p; try done.
    destruct Hp as (g & [-> _]%lookup_replicate & Hs). cbn in Hs. rewrite lookup_empty in Hs. by destruct Hs. }
  split.
  - intros id p q Hp%Hw Hq%Hw. by eapply (od_place _ Ho).
  - intros id p Hp%Hw. destruct (od_due _ Ho _ _ Hp) as (m & Hm & _). by exists m.
  - intros id p Hp%Hw _ m Hm. destruct (od_due _ Ho _ _ Hp) as (m' & Hm' & Hlt). cbn in Hm. congruence.
  - by intros i g id ph [-> _]%lookup_replicate.
  - apply (od_bound _ Ho).
  - apply (od_members _ Ho).
Qed.

Lemma replicate_open w n : open_txs w (replicate n empty_handed).
Proof.
  split.
  - intros i g h [-> _]%lookup_replicate. cbn. rewrite lookup_empty. by intros [].
  - intros i j g g' h [-> _]%lookup_replicate _. cbn. rewrite lookup_empty. by intros [].
  - by intros i g h l [-> _]%lookup_replicate.
Qed.

Lemma main_custody cfg rounds fuel ticks reads reqs w tr ts' w' :
  system_ok w → orderly w → interleaves (main_threads cfg rounds fuel ticks reads reqs) w tr ts' w' →
  claims_settled tr →
  ∃ r gs', accounts r ts' gs' ∧ custody r (view w') gs'.
Proof.
  intros Hok Ho H Hrem. set (r := Z.to_nat (wc_PoolSize (cf_Worker cfg))).
  eapply (interleaves_accounted (ledgers r) _ (λ _, in_custody r) _ _ _ []) in H as (gs' & Hacc & Hc); [| | | | |exact Hrem].
  - exists r, gs'. split; [exact Hacc|apply Hc].
  - intros. by eapply custody_kept.
  - apply main_threads_safe. by right.
  - apply main_threads_accounted.
  - split; [done|by apply orderly_custody|apply replicate_open].
Qed.

(** (C4) A notification is in one place at a time. As long as the Redis client
    sends no command again, no removal from the delayed set is answered with an
    error and the rows of the scheduler's UPDATE do not break off, then however
    the goroutines of the process interleave, whatever else fails and whenever
    the process is stopped (closed runs of Losses.v show that each of the three
    is needed):
    a notification waits as at most one message of the priority streams, or as
    one member of the delayed set, or as a scheduled row, never in two of these
    places; what waits is stored and has an attempt left; and no notification
    is tried more often than its retry limit (once, if the limit is zero). *)
Theorem one_place_at_a_time cfg rounds fuel ticks reads reqs w tr ts' w' :
  system_ok w → orderly w → interleaves (main_threads cfg rounds fuel ticks reads reqs) w tr ts' w' →
  claims_settled tr → orderly w'.
Proof. intros Hok Ho H Hrem. destruct (main_custody _ _ _ _ _ _ _ _ _ _ Hok Ho H Hrem) as (r & gs & _ & Hc). by eapply custody_orderly. Qed.

(** What a goroutine is about to do is for a notification it has in hand. *)
Lemma works_on_held rp g p id :
  keeps rp (λ _ _, True) g p → works_on p id → ∃ ph, held g !! id = Some ph ∧ ∀ m, ph ≠ Listed m.
Proof.
  destruct p as [|X e k]; [done|]. intros [Ha _] Hw. destruct e as [X e|X e| | | | | | | | | | | | | | |]; try done.
  - destruct e; try done. destruct Hw as [-> ->]. destruct Ha as [([=] & _)|[(_ & i & n & [= <-] & Hh)|[Hcs Hg]]].
    + by exists (Holding n).
    + specialize (Hcs eq_refl). apply Forall_cons in Hcs as [[Hin|[[=] _]] _]. cbn in Hin.
      rewrite !elem_of_cons, elem_of_nil in Hin. intuition discriminate.
  - destruct e; try done; cbn in Hw, Ha.
    + destruct Hw as [Hk Hw]. destruct (Ha Hk) as (i & Hi & Hh). exists Custody.Ready. by simplify_eq.
    + destruct Ha as (_ & i & c & mx & Hi & Hh & _). exists (Spent c mx). by simplify_eq.
Qed.

(** (C5) No two goroutines go on with the same notification. As long as the Redis
    client sends no command again, no removal from the delayed set is answered
    with an error and the rows of the scheduler's UPDATE do not break off: when a goroutine is about
    to count an attempt of a notification, to enqueue it or to put off its
    retry, no other goroutine is about to do any of these for it, and it waits
    neither in a stream, nor in the delayed set, nor for the scheduler. *)
Theorem no_two_work_on_one cfg rounds fuel ticks reads reqs w tr ts' w' i j p q id :
  system_ok w → orderly w → interleaves (main_threads cfg rounds fuel ticks reads reqs) w tr ts' w' →
  claims_settled tr →
  ts' !! i = Some p → ts' !! j = Some q → works_on p id → works_on q id →
  i = j ∧ ∀ pl, ¬ waits_at w' id pl.
Proof.
  intros Hok Ho H Hrem Hp Hq Hwp Hwq.
  destruct (main_custody _ _ _ _ _ _ _ _ _ _ Hok Ho H Hrem) as (r & gs & [Hlen Hacc] & Hc).
  assert (Hat : ∀ k p, ts' !! k = Some p → works_on p id → at_place (view w') gs id (WithThread k) ∧
    ∃ g ph, gs !! k = Some g ∧ held g !! id = Some ph ∧ ∀ m, ph ≠ Listed m).
  { intros k p' Hk Hw. destruct (lookup_lt_is_Some_2 gs k) as [g Hg]; [rewrite Hlen; by eapply lookup_lt_Some|].
    destruct (works_on_held _ _ _ _ (Hacc _ _ _ Hk Hg) Hw) as (ph & Hh & Hne).
    split; [exists g; by rewrite Hh|]. by exists g, ph. }
  destruct (Hat _ _ Hp Hwp) as [Hi (g & ph & Hg & Hh & Hne)]. destruct (Hat _ _ Hq Hwq) as [Hj _].
  split; [by injection (cu_unique _ _ _ Hc _ _ _ Hi Hj)|]. intros pl Hpl.
  destruct (waits_cases _ _ _ id Hc) as [Hw|(m & gr & Hgr & Hhr & _)].
  - pose proof (Hw _ Hpl) as Hpl'. apply (cu_unique _ _ _ Hc _ _ _ Hi) in Hpl'. subst pl.
    by apply waits_idle in Hpl.
  - assert (Hr : at_place (view w') gs id (WithThread r)) by (exists gr; by rewrite Hhr).
    injection (cu_unique _ _ _ Hc _ _ _ Hi Hr) as ->. rewrite Hgr in Hg. injection Hg as <-.
    apply (Hne m). congruence.
Qed.
End System.
