(* ===== verification/Duty.v ===== *)
(** * Duty: who has to see a notification through

    Custody.v says that a notification is in one place at most. The other half
    is that it is in one: a notification whose end was not recorded waits
    somewhere, or its message is in flight, or a goroutine owes it a place. This
    file follows what a goroutine owes through its program: what an effect puts
    it under a duty to do and what discharges it ([pursue]), what it may do
    meanwhile ([proper]) and which answers it can count on ([reliable]) when
    nothing fails. DutyInv.v and DutyStep.v show that the world keeps this
    account, DutyRun.v that every program of the process does. *)

From stdpp Require Import gmap.
From S2P Require Import Prelude GoLib Domain Sql Redis Effects Discipline NotificationRepo NotificationSpec Typed.
From S2P Require Import Queue Worker WorkerSpec Aside Ledger Custody.

(** ** The end of a notification *)

(** The notification and the status that a statement of [UpdateStatus] writes. *)
Definition status_write (s : Stmt) (args : list Val) : option (UUID * Status) :=
  match s with
  | SUpdate Notifications ((c, EArg 1) :: _) [CEq _ (EArg (S k))] [] =>
      if (c =? "status")%string then
        match args !! 0%nat, args !! k with
        | Some (VText st), Some (VUuid id) => Some (id, st)
        | _, _ => None
        end
      else None
  | _ => None
  end.

(** The status that a statement writes as a literal. *)
Definition literal_status (s : Stmt) : option Status :=
  match s with
  | SUpdate Notifications ((c, ELit (VText st)) :: _) _ _ => if (c =? "status")%string then Some st else None
  | _ => None
  end.

(** The event records the end of a notification: it was delivered, failed or
    cancelled. *)
Definition ends (ev : Event) : option UUID :=
  match ev with
  | Ev e x =>
      match e in Eff Y return Y → option UUID with
      | Pg e => λ x,
          match e in PgE Y return Y → option UUID with
          | PgExec s args => λ x,
              match x, status_write s args with
              | Ok _, Some (id, st) => if terminal st then Some id else None
              | _, _ => None
              end
          | PgQueryRow s args => λ x,
              match x, literal_status s, args with
              | Ok (Some _), Some st, [VUuid id] => if terminal st then Some id else None
              | _, _, _ => None
              end
          | _ => λ _, None
          end x
      | _ => λ _, None
      end x
  end.

(** ** What a goroutine owes *)

(** A message of a stream. *)
Abbreviation Slot := (string * EntryID)%type.

(** [owed]: the notifications it has to put somewhere. [letters]: the message
    in flight it has of a notification. [ackable]: the messages it may
    acknowledge. [begun]: notifications that are stored and not scheduled.
    [drafts]: its transactions, as in [Ghost]. *)
Record Duty := mkDuty {
  owed : gset UUID;
  letters : gmap UUID Slot;
  ackable : gset Slot;
  begun : gset UUID;
  drafts : gmap N (option (list (UUID * Status)));
}.

Definition no_duty : Duty := mkDuty ∅ ∅ ∅ ∅ ∅.

Definition owe (ids : list UUID) (d : Duty) : Duty :=
  mkDuty (list_to_set ids ∪ owed d) (letters d) (ackable d) (begun d) (drafts d).

Definition begin_all (ids : list UUID) (d : Duty) : Duty :=
  mkDuty (owed d) (letters d) (ackable d) (list_to_set ids ∪ begun d) (drafts d).

Definition let_ack (s : Slot) (d : Duty) : Duty :=
  mkDuty (owed d) (letters d) ({[s]} ∪ ackable d) (begun d) (drafts d).

Definition take_letter (id : UUID) (s : Slot) (d : Duty) : Duty :=
  mkDuty (owed d) (<[id := s]> (letters d)) (ackable d) ({[id]} ∪ begun d) (drafts d).

(** The notification has its place, or its end. *)
Definition discharge (id : UUID) (d : Duty) : Duty :=
  mkDuty (owed d ∖ {[id]}) (letters d)
    (match letters d !! id with Some s => {[s]} ∪ ackable d | None => ackable d end)
    (begun d) (drafts d).

Definition draft (h : N) (l : option (list (UUID * Status))) (d : Duty) : Duty :=
  mkDuty (owed d) (letters d) (ackable d) (begun d) (<[h := l]> (drafts d)).

Section Duty.
Context {T : UuidText}.

(** ** What an effect does to it *)

(** The retry that a member of the delayed set stands for. *)
Definition member_due (m : string) : option UUID :=
  match parseMember m with
  | Some [p0; _; p2] => if decide (StreamKey p2 ∈ priority_streams) then uuid_Parse p0 else None
  | _ => None
  end.

(** A message that was read; one about no notification needs nothing done. *)
Definition receive (p : string * Entry) (d : Duty) : Duty :=
  match about p.2 with
  | Some id => take_letter id (p.1, e_id p.2) d
  | None => let_ack (p.1, e_id p.2) d
  end.

Definition tagged (l : list (string * list Entry)) : list (string * Entry) :=
  p ← l; (λ e, (p.1, e)) <$> p.2.

Definition redis_pursue {X} (e : RedisE X) (x : X) (d : Duty) : Duty :=
  match e in RedisE Y return Y → Duty with
  | XReadGroup _ _ _ _ => λ x, match x with Ok (Some l) => foldr receive d (tagged l) | _ => d end
  | XAdd k vs => λ _,
      if decide (k ∈ priority_streams) then
        match about_values vs with Some id => discharge id d | None => d end
      else d
  | ZAdd _ _ m => λ _, match member_due m with Some id => discharge id d | None => d end
  | ZRem _ ms => λ _, owe (omap member_due ms) d
  | _ => λ _, d
  end x.

Definition pg_pursue {X} (e : PgE X) (x : X) (d : Duty) : Duty :=
  match e in PgE Y return Y → Duty with
  | PgExec s args => λ x,
      match s with
      | SInsert Notifications _ _ =>
          match x, insert_key args with
          | Ok _, Some (id, st) =>
              if decide (st = StatusScheduled) then d else owe [id] (begin_all [id] d)
          | _, _ => d
          end
      | _ => match status_write s args with
             | Some (id, st) => if terminal st then discharge id d else d
             | None => d
             end
      end
  | PgQueryRow s args => λ x,
      match s, args, x with
      | SSelect Notifications _ _ _ _, [VUuid id], Ok (Some row) =>
          if decide (id ∈ begun d) then
            match scan_fields row with
            | Some n => if terminal (n_Status n) then discharge id d else d
            | None => d
            end
          else d
      | _, _, _ => d
      end
  | PgQuery s args => λ x,
      match s, x with
      | SUpdateIn Notifications _ _ _ _ _, Ok (rows, _) => owe (row_ids rows) d
      | _, _ => d
      end
  | PgBegin => λ x, match x with Ok h => draft h (Some []) d | Er _ => d end
  | PgTxExec h s args => λ x,
      match x, insert_key args, drafts d !! h with
      | Ok _, Some p, Some (Some l) => draft h (Some (l ++ [p])) d
      | _, _, _ => draft h None d
      end
  | PgCommit h => λ x,
      match x, drafts d !! h with
      | None, Some (Some l) => draft h None (owe (unscheduled l) (begin_all (unscheduled l) d))
      | _, _ => draft h None d
      end
  | PgRollback h => λ _, draft h None d
  end x.

Definition pursue {X} (e : Eff X) (x : X) (d : Duty) : Duty :=
  match e in Eff Y return Y → Duty with
  | Pg e => λ x, pg_pursue e x d
  | Rd e => λ x, redis_pursue e x d
  | _ => λ _, d
  end x.

(** ** What a goroutine may do *)

(** The insert of a notification that is not at its end. *)
Definition drafted (s : Stmt) (args : list Val) : Prop :=
  s = insert_notification ∧
  ∃ n, args = insert_args n (json_Marshal (n_TemplateVars n)) ∧ terminal (n_Status n) = false.

(** Workers, [wk], put no notification under their own charge. *)
Definition pg_proper (wk : bool) {X} (d : Duty) (e : PgE X) : Prop :=
  match e with
  | PgExec s args =>
      (wk = false ∧ drafted s args) ∨
      (∃ now id st le, (s, args) = status_update now id st le ∧ id ∈ begun d ∧ st ≠ StatusScheduled) ∨
      (s = increment_attempt ∧ ∃ id, args = [VUuid id]) ∨
      stmt_aside s
  | PgQueryRow s args =>
      ((s = select_by_id ∨ s = cancel_stmt) ∧ ∃ id, args = [VUuid id]) ∨
      (stmt_aside s ∧ match s with SSelect t _ _ _ _ => t ≠ Notifications | _ => True end)
  | PgQuery s args => (wk = false ∧ s = fetch_due ∧ ∃ limit, args = [VInt limit]) ∨ stmt_aside s
  | PgBegin => True
  | PgTxExec h s args => drafted s args ∧ ∃ l, drafts d !! h = Some (Some l)
  | PgCommit h => wk = false ∧ ∃ l, drafts d !! h = Some (Some l) ∧ Forall (λ p, terminal p.2 = false) l
  | PgRollback h => True
  end.

Definition redis_proper (wk : bool) {X} (d : Duty) (e : RedisE X) : Prop :=
  match e with
  | XAdd _ _ | XRange _ => True
  | XGroupCreateMkStream _ g => g = ConsumerGroup
  | XReadGroup g _ ks _ => g = ConsumerGroup ∧ ks = priority_streams
  | XAck k g i => g = ConsumerGroup ∧ (k, i) ∈ ackable d
  | XAutoClaim _ _ _ _ _ => False
  | ZAdd k _ _ | ZRangeByScore k _ _ => k = DelayedSet
  | ZRem k _ => k = DelayedSet ∧ wk = false
  | EvalScript f => script_aside f
  end.

(** Nobody rests, or panics, who owes something. *)
Definition proper (wk : bool) {X} (d : Duty) (e : Eff X) : Prop :=
  match e with
  | Pg e => pg_proper wk d e
  | Rd e => redis_proper wk d e
  | SleepOrDone _ | Panic => owed d = ∅
  | _ => True
  end.

(** ** Which answers it can count on, when nothing fails *)

Definition reliable {X} (e : Eff X) (x : X) (d : Duty) : Prop :=
  match e in Eff Y return Y → Prop with
  | Rd e => match e in RedisE Y return Y → Prop with
            | XReadGroup _ _ _ _ => λ x, match x with Ok (Some l) => NoDup (read_ids l) | _ => True end
            | _ => λ _, True
            end
  | Pg e => match e in PgE Y return Y → Prop with
            | PgQueryRow s args => λ x, s = select_by_id → ∀ id, args = [VUuid id] → id ∈ begun d →
                ∃ row n, x = Ok (Some row) ∧ scan_fields row = Some n ∧ n_ID n = id ∧ well_typed n
            | PgQuery s args => λ x, s = fetch_due →
                ∃ rows ns, x = Ok (rows, None) ∧ scan_all rows = Ok ns ∧ Forall well_typed ns
            | _ => λ _, True
            end
  | _ => λ _, True
  end x.

Definition duty_ledger (wk : bool) : Ledger Duty :=
  mkLedger (λ X, @proper wk X) (λ X, @reliable X) (λ X, @pursue X).

Lemma tends_do wk {X B} (Q : Duty → B → Prop) d (e : Eff X) (f : X → prog B) :
  proper wk d e → (∀ x, reliable e x d → tracks (duty_ledger wk) Q (pursue e x d) (f x)) →
  tracks (duty_ledger wk) Q d (bind (do e) f).
Proof. exact (tracks_do (duty_ledger wk) Q d e f). Qed.

(** What is done beside the notifications' progress, by who owes nothing. *)
Lemma aside_idles wk d X (e : Eff X) : owed d = ∅ → aside X e → idles (duty_ledger wk) d X e.
Proof.
  intros Hd He. destruct e as [X e|X e| | | | | | | | | | | | | | |]; try by split.
  - destruct e as [s args|s args|s args| | | |]; try done; cbn in He.
    + split; [by do 3 right|]. intros x. by destruct s as [[]|[]|[]|[]|[]].
    + split; [by right|]. intros x. destruct He as [He Hs]. by destruct s as [[]|[]|[]|[]|[]].
    + split; [by right|]. intros x. by destruct s as [[]|[]|[]|[]|[]].
  - destruct e; try done; cbn in He. split; [done|]. intros x. cbn. by rewrite decide_False.
Qed.

Lemma tends_aside wk {A B} (Q : Duty → B → Prop) d (p : prog A) (f : A → prog B) :
  owed d = ∅ → only aside p → (∀ a, tracks (duty_ledger wk) Q d (f a)) →
  tracks (duty_ledger wk) Q d (bind p f).
Proof.
  intros Hd Hp. apply tracks_after_idle. eapply only_weaken; [|exact Hp]. intros X e. by apply aside_idles.
Qed.
End Duty.

Abbreviation tends wk := (tracks (duty_ledger wk)).

(** Something beside the notifications' progress, by who owes nothing. *)
Ltac aside_first := apply tends_aside; [done|first [by apply only_do|solve [auto with aside]]|intros ?].
