(* ===== verification/DutyInv.v ===== *)
(** * The invariant of the duties

    [duty]: every notification has its end recorded, or a place to wait, or a
    message in flight that nobody may acknowledge yet, or a goroutine that owes
    it a place. How the parts of the state may change, and what a goroutine may
    take upon itself or get rid of, without breaking it. *)

From stdpp Require Import gmap.
From S2P Require Import Prelude GoLib Domain Sql Redis RedisFacts Effects Discipline NotificationRepo.
From S2P Require Import NotificationStore NotificationSpec Typed Queue QueueSpec Worker WorkerSpec System.
From S2P Require Import Aside Ledger Custody CustodyStore CustodyInv CustodyStep Duty.

Section Duty.
Context {T : UuidText}.

(** ** Where a notification waits *)

(** The message [i] of the stream [k] is about the notification. *)
Definition message_for (rd : Redis) (k : string) (i : EntryID) (id : UUID) : Prop :=
  ∃ e, e ∈ s_entries (stream k rd) ∧ e_id e = i ∧ about e = Some id.

(** A message of a priority stream, not yet read or not yet acknowledged, a
    retry in the delayed set, or its own schedule. *)
Inductive awaits (w : World) (id : UUID) : Prop :=
  | aw_message k e : k ∈ priority_streams → e ∈ waiting (w_redis w) k → about e = Some id → awaits w id
  | aw_in_flight k i : k ∈ priority_streams → i ∈ inflight k (w_redis w) →
      message_for (w_redis w) k i id → awaits w id
  | aw_retry m : is_Some (zset DelayedSet (w_redis w) !! m) → member_due m = Some id → awaits w id
  | aw_schedule n : abs (w_db w) !! id = Some n → n_Status n = StatusScheduled → awaits w id.

(** Delivered already: the message will not be read again. *)
Definition past (rd : Redis) (k : string) (i : EntryID) : Prop :=
  (∃ e, e ∈ s_entries (stream k rd) ∧ e_id e = i) ∧ ∀ e, e ∈ waiting rd k → e_id e ≠ i.

Definition may_ack (ds : list Duty) (s : Slot) : Prop := ∃ j d, ds !! j = Some d ∧ s ∈ ackable d.
Definition owed_by (ds : list Duty) (id : UUID) : Prop := ∃ j d, ds !! j = Some d ∧ id ∈ owed d.

(** [E]: the notifications whose end was recorded. *)
Inductive cared (E : UUID → Prop) (w : World) (ds : list Duty) (id : UUID) : Prop :=
  | ca_end : E id → cared E w ds id
  | ca_message k e : k ∈ priority_streams → e ∈ waiting (w_redis w) k → about e = Some id → cared E w ds id
  | ca_letter k i : k ∈ priority_streams → i ∈ inflight k (w_redis w) → message_for (w_redis w) k i id →
      ¬ may_ack ds (k, i) → cared E w ds id
  | ca_retry m : is_Some (zset DelayedSet (w_redis w) !! m) → member_due m = Some id → cared E w ds id
  | ca_schedule n : abs (w_db w) !! id = Some n → n_Status n = StatusScheduled → cared E w ds id
  | ca_owed : owed_by ds id → cared E w ds id.

Record duty (E : UUID → Prop) (w : World) (ds : list Duty) : Prop := {
  du_all id : is_Some (abs (w_db w) !! id) → cared E w ds id;
  du_ended id n : abs (w_db w) !! id = Some n → terminal (n_Status n) = true → E id;
  du_letters j d id k i : ds !! j = Some d → letters d !! id = Some (k, i) →
    past (w_redis w) k i ∧ message_for (w_redis w) k i id;
  du_ackable k i : may_ack ds (k, i) → past (w_redis w) k i;
  du_begun j d id : ds !! j = Some d → id ∈ begun d →
    ∃ n, abs (w_db w) !! id = Some n ∧ n_Status n ≠ StatusScheduled;
}.

(** ** Entries *)

Lemma entry_inj rd k e e' :
  redis_ok rd → e ∈ s_entries (stream k rd) → e' ∈ s_entries (stream k rd) → e_id e = e_id e' → e = e'.
Proof.
  intros Hok He He' E. pose proof (sk_sorted _ (stream_is_ok k rd Hok)) as Hs.
  induction Hs as [|x l Hs IH Hx]; [by apply not_elem_of_nil in He|]. rewrite Forall_forall in Hx.
  apply elem_of_cons in He as [->|He], He' as [->|He']; [done|..|by apply IH].
  - specialize (Hx _ He'). unfold id_lt in Hx. lia.
  - specialize (Hx _ He). unfold id_lt in Hx. lia.
Qed.

Lemma message_inj rd k i id id' :
  redis_ok rd → message_for rd k i id → message_for rd k i id' → id = id'.
Proof.
  intros Hok (e & He & <- & Ha) (e' & He' & E & Ha').
  assert (e = e') as <- by (by eapply entry_inj). congruence.
Qed.

Lemma waiting_entry rd k e : e ∈ waiting rd k → e ∈ s_entries (stream k rd).
Proof.
  unfold waiting, lane. destruct (group _ _ _); cbn; [|done]. by intros [_ ?]%list_elem_of_filter.
Qed.

(** ** Changes of the world *)

Section World.
Context (E E' : UUID → Prop) (w w' : World) (ds : list Duty) (Hd : duty E w ds).

(** Of the queue. *)
Lemma duty_queue :
  (∀ id, E id → E' id) → abs (w_db w') = abs (w_db w) →
  let rd := w_redis w in let rd' := w_redis w' in
  (∀ k e, e ∈ s_entries (stream k rd) → e ∈ s_entries (stream k rd')) →
  (∀ k i, past rd k i → past rd' k i) →
  (∀ k e, k ∈ priority_streams → e ∈ waiting rd k → e ∈ waiting rd' k ∨ e_id e ∈ inflight k rd') →
  (∀ k i, k ∈ priority_streams → i ∈ inflight k rd → i ∈ inflight k rd' ∨ may_ack ds (k, i)) →
  (∀ m id, is_Some (zset DelayedSet rd !! m) → member_due m = Some id →
     is_Some (zset DelayedSet rd' !! m) ∨ owed_by ds id) →
  duty E' w' ds.
Proof.
  intros HE HS rd rd' Hent Hpast Hwait Hfly Hdel.
  assert (Hmsg : ∀ k i id, message_for rd k i id → message_for rd' k i id).
  { intros k i id (e & He & ? & ?). exists e. auto. }
  split; rewrite ?HS.
  - intros id Hs. destruct (du_all _ _ _ Hd id Hs) as [He|k e Hk He Ha|k i Hk Hi Hm Hn|m Hm Hdue|n Hn Hst|Ho].
    + by apply ca_end, HE.
    + destruct (Hwait k e Hk He) as [He'|He']; [by eapply ca_message|].
      apply (ca_letter _ _ _ _ k (e_id e)); [done|done| |].
      * exists e. split; [|done]. by apply Hent, waiting_entry.
      * intros [_ Hp]%(du_ackable _ _ _ Hd). by eapply Hp.
    + destruct (Hfly k i Hk Hi) as [Hi'|[]%Hn]. eapply ca_letter; eauto.
    + destruct (Hdel m id Hm Hdue) as [Hm'|Ho]; [by eapply ca_retry|by apply ca_owed].
    + eapply ca_schedule; [by rewrite HS|done].
    + by apply ca_owed.
  - intros id n Hn Ht. by eapply HE, du_ended.
  - intros j d id k i Hj Hl. destruct (du_letters _ _ _ Hd _ _ _ _ _ Hj Hl). auto.
  - intros k i Hm. by apply Hpast, (du_ackable _ _ _ Hd).
  - apply (du_begun _ _ _ Hd).
Qed.

(** Of the store. *)
Lemma duty_store :
  (∀ id, E id → E' id) → w_redis w' = w_redis w →
  let S := abs (w_db w) in let S' := abs (w_db w') in
  (∀ id n, S' !! id = Some n → S !! id = None → n_Status n = StatusScheduled ∨ owed_by ds id) →
  (∀ id n, S !! id = Some n → n_Status n = StatusScheduled →
     (∃ n', S' !! id = Some n' ∧ n_Status n' = StatusScheduled) ∨ E' id ∨ owed_by ds id) →
  (∀ id n, S' !! id = Some n → terminal (n_Status n) = true → E' id) →
  (∀ id n, S !! id = Some n → n_Status n ≠ StatusScheduled →
     ∃ n', S' !! id = Some n' ∧ n_Status n' ≠ StatusScheduled) →
  duty E' w' ds.
Proof.
  intros HE Hr S S' Hnew Hsch Hend Hbeg. split; rewrite ?Hr.
  - intros id [n' Hn']. destruct (S !! id) as [n|] eqn:En.
    2: { destruct (Hnew _ _ Hn' En); [by eapply ca_schedule|by apply ca_owed]. }
    destruct (du_all _ _ _ Hd id) as [He|k e Hk He Ha|k i Hk Hi Hm Hna|m Hm Hdue|m Hm Hst|Ho]; [by eexists|..].
    + by apply ca_end, HE.
    + eapply ca_message; by rewrite ?Hr.
    + eapply ca_letter; by rewrite ?Hr.
    + eapply ca_retry; by rewrite ?Hr.
    + destruct (Hsch _ _ Hm Hst) as [(n2 & Hn2 & Hs2)|[?|?]];
        [by eapply ca_schedule|by apply ca_end|by apply ca_owed].
    + by apply ca_owed.
  - exact Hend.
  - apply (du_letters _ _ _ Hd).
  - apply (du_ackable _ _ _ Hd).
  - intros j d id Hj Hb. destruct (du_begun _ _ _ Hd _ _ _ Hj Hb) as (n & Hn & Hs). by eapply Hbeg.
Qed.
End World.

(** ** What a goroutine takes on, and gets rid of *)

Section Self.
Context (E : UUID → Prop) (w : World) (ds : list Duty) (i : nat) (d : Duty).
Context (Hok : redis_ok (w_redis w)) (Hd : duty E w ds) (Hi : ds !! i = Some d).

Lemma may_ack_insert d' s : may_ack (<[i := d']> ds) s → s ∈ ackable d' ∨ may_ack ds s.
Proof.
  intros (j & dj & Hj & Hs). destruct (decide (j = i)) as [->|Hne].
  - rewrite list_lookup_insert_eq in Hj by (by eapply lookup_lt_Some). injection Hj as ->. by left.
  - rewrite list_lookup_insert_ne in Hj by done. right. by exists j, dj.
Qed.

Lemma owed_self id d' : id ∈ owed d' → owed_by (<[i := d']> ds) id.
Proof.
  intros H. exists i, d'. split; [|done]. apply list_lookup_insert_eq. by eapply lookup_lt_Some.
Qed.

Lemma duty_self d' :
  (∀ id, id ∈ owed d → id ∈ owed d' ∨ cared E w (<[i := d']> ds) id) →
  (∀ k j, (k, j) ∈ ackable d' → (k, j) ∈ ackable d ∨ past (w_redis w) k j ∧
     ∀ id, message_for (w_redis w) k j id → cared E w (<[i := d']> ds) id) →
  (∀ id k j, letters d' !! id = Some (k, j) → letters d !! id = Some (k, j) ∨
     past (w_redis w) k j ∧ message_for (w_redis w) k j id) →
  (∀ id, id ∈ begun d' → id ∈ begun d ∨ ∃ n, abs (w_db w) !! id = Some n ∧ n_Status n ≠ StatusScheduled) →
  duty E w (<[i := d']> ds).
Proof.
  intros Ho Ha Hl Hb.
  assert (Hold : ∀ s, s ∈ ackable d → may_ack ds s) by (intros s Hs; by exists i, d).
  split.
  - intros id Hs. destruct (du_all _ _ _ Hd id Hs) as [He|k e Hk He Hab|k j Hk Hj Hm Hna|m Hm Hdue|n Hn Hst|Hob].
    + by apply ca_end.
    + by eapply ca_message.
    + destruct (decide ((k, j) ∈ ackable d')) as [Hin|Hin].
      * apply Ha in Hin as [Hin%Hold|[_ Hc]]; [done|by apply Hc].
      * eapply ca_letter; [done..|]. by intros [?|?]%may_ack_insert.
    + by eapply ca_retry.
    + by eapply ca_schedule.
    + destruct Hob as (j & dj & Hj & Hin). destruct (decide (j = i)) as [->|Hne].
      * rewrite Hi in Hj. injection Hj as <-. apply Ho in Hin as [Hin|]; [|done]. by apply ca_owed, owed_self.
      * apply ca_owed. exists j, dj. by rewrite list_lookup_insert_ne.
  - apply (du_ended _ _ _ Hd).
  - intros j dj id k s Hj Hs. destruct (decide (j = i)) as [->|Hne].
    + rewrite list_lookup_insert_eq in Hj by (by eapply lookup_lt_Some). injection Hj as <-.
      apply Hl in Hs as [Hs|]; [|done]. by eapply (du_letters _ _ _ Hd).
    + rewrite list_lookup_insert_ne in Hj by done. by eapply (du_letters _ _ _ Hd).
  - intros k s [Hs|Hs]%may_ack_insert; [|by apply (du_ackable _ _ _ Hd)].
    apply Ha in Hs as [Hs%Hold|[? _]]; [by apply (du_ackable _ _ _ Hd)|done].
  - intros j dj id Hj Hin. destruct (decide (j = i)) as [->|Hne].
    + rewrite list_lookup_insert_eq in Hj by (by eapply lookup_lt_Some). injection Hj as <-.
      apply Hb in Hin as [Hin|]; [|done]. by eapply (du_begun _ _ _ Hd).
    + rewrite list_lookup_insert_ne in Hj by done. by eapply (du_begun _ _ _ Hd).
Qed.

Lemma duty_draft h l : duty E w (<[i := draft h l d]> ds).
Proof. apply duty_self; cbn; auto. Qed.

Lemma duty_owe ids : duty E w (<[i := owe ids d]> ds).
Proof. apply duty_self; cbn; auto. set_solver. Qed.

Lemma duty_begin ids :
  (∀ id, id ∈ ids → ∃ n, abs (w_db w) !! id = Some n ∧ n_Status n ≠ StatusScheduled) →
  duty E w (<[i := begin_all ids d]> ds).
Proof. intros Hs. apply duty_self; cbn; auto. intros id. set_solver. Qed.

(** The notification has its end, or waits. *)
Lemma duty_discharge id : (∀ ds, cared E w ds id) → duty E w (<[i := discharge id d]> ds).
Proof.
  intros Hc. apply duty_self; cbn; auto.
  - intros id' Hin. destruct (decide (id' = id)) as [->|]; [by right|]. left. set_solver.
  - intros k j. destruct (letters d !! id) as [s|] eqn:El; [|by left].
    intros [<-%elem_of_singleton|]%elem_of_union; [right|by left].
    destruct (du_letters _ _ _ Hd _ _ _ _ _ Hi El) as [Hp Hm]. split; [done|]. intros id' Hm'.
    by rewrite (message_inj _ _ _ _ _ Hok Hm' Hm).
Qed.

(** A message was delivered. *)
Lemma duty_receive k e :
  past (w_redis w) k (e_id e) → e ∈ s_entries (stream k (w_redis w)) →
  (∀ id, about e = Some id → ∃ n, abs (w_db w) !! id = Some n ∧ n_Status n ≠ StatusScheduled) →
  duty E w (<[i := receive (k, e) d]> ds).
Proof.
  intros Hp He Hs. unfold receive. cbn [fst snd]. destruct (about e) as [id|] eqn:Ea.
  - apply duty_self; cbn; auto.
    + intros id' k' j. rewrite lookup_insert_Some. intros [[-> [= <- <-]]|[_ ?]]; [right|by left].
      split; [done|]. by exists e.
    + intros id'. rewrite elem_of_union, elem_of_singleton. intros [->|]; [right; by apply Hs|by left].
  - apply duty_self; cbn; auto. intros k' j [[= -> ->]%elem_of_singleton|]%elem_of_union; [right|by left].
    split; [done|]. intros id (e' & He' & Hid & Ha'). assert (e' = e) as -> by (by eapply entry_inj). congruence.
Qed.
End Self.

Lemma duty_receive_all E w ds i d l :
  redis_ok (w_redis w) → duty E w ds → ds !! i = Some d →
  Forall (λ p, past (w_redis w) p.1 (e_id p.2) ∧ p.2 ∈ s_entries (stream p.1 (w_redis w)) ∧
    ∀ id, about p.2 = Some id → ∃ n, abs (w_db w) !! id = Some n ∧ n_Status n ≠ StatusScheduled) l →
  duty E w (<[i := foldr receive d l]> ds).
Proof.
  intros Hok Hd Hi. induction l as [|[k e] l IH]; intros Hl; [by rewrite list_insert_id|].
  apply Forall_cons in Hl as [(Hp & He & Hs) Hl]. specialize (IH Hl). cbn [foldr].
  assert (Hlt : (i < length ds)%nat) by (by eapply lookup_lt_Some).
  rewrite <- (list_insert_insert_eq ds i (receive (k, e) (foldr receive d l)) (foldr receive d l)).
  eapply duty_receive; [done|exact IH| |done..]. by apply list_lookup_insert_eq.
Qed.

(** More ends are recorded. *)
Lemma duty_more (E E' : UUID → Prop) w ds : (∀ id, E id → E' id) → duty E w ds → duty E' w ds.
Proof. intros HE Hd. apply (duty_queue E E' w w ds Hd); auto. Qed.
End Duty.
