(* ===== verification/DutyStep.v ===== *)
(** * Every proper effect keeps the duties

    As long as nothing fails: the commands of Redis and the statements of
    Postgres, each with what the goroutine takes upon itself or is rid of. *)

From stdpp Require Import gmap.
From S2P Require Import Prelude GoLib Domain Sql SqlFacts Redis RedisFacts Effects Discipline Frames.
From S2P Require Import NotificationRepo NotificationStore NotificationSpec Typed Listing Releasing.
From S2P Require Import Batches History Queue QueueSpec Worker WorkerSpec System Aside Ledger.
From S2P Require Import Custody CustodyStore CustodyInv CustodyStep Duty DutyInv.

Section Duty.
Context {T : UuidText}.

Section Redis.
Context (E : UUID → Prop) (w : World) (ds : list Duty) (i : nat) (d : Duty).
Context (Hso : streams_ok (w_redis w)) (Hd : duty E w ds) (Hi : ds !! i = Some d).

Let Hok : redis_ok (w_redis w) := so_redis _ Hso.
Let rd := w_redis w.

(** The streams as they were, the delayed set with more in it. *)
Lemma duty_lanes rd' :
  (∀ k, lane ConsumerGroup k rd' = lane ConsumerGroup k rd) →
  (∀ k, s_entries (stream k rd') = s_entries (stream k rd)) →
  (∀ m, is_Some (zset DelayedSet rd !! m) → is_Some (zset DelayedSet rd' !! m)) →
  duty E (set_redis rd' w) ds.
Proof.
  intros Hl He Hz. apply (duty_queue E E w _ ds Hd); cbn [w_redis set_redis w_db]; fold rd; auto.
  - intros k e. by rewrite He.
  - intros k j. unfold past, waiting. by rewrite He, Hl.
  - intros k e _. unfold waiting. rewrite Hl. by left.
  - intros k j _. unfold inflight. rewrite Hl. by left.
Qed.

Lemma xadd_duty k vs w' :
  redis_doc (XAdd k vs) w None w' → readable vs = true →
  duty E w' (<[i := redis_pursue (XAdd k vs) None d]> ds).
Proof.
  intros (rd' & -> & H) Hv.
  assert (∃ j, (s_top (stream k rd) < j)%N ∧ rd' = xadd k j vs rd) as (j & Hj & ->).
  { destruct H as [(_ & j & Hj & E')|(Hn & _)]; [by exists j|done]. }
  set (rd' := xadd k j vs rd).
  assert (Hent : ∀ k' e, e ∈ s_entries (stream k' rd') ↔
    e ∈ s_entries (stream k' rd) ∨ (k' = k ∧ e = mkEntry j vs)).
  { intros k' e. unfold rd', xadd. destruct (decide (k = k')) as [<-|Hne].
    - rewrite stream_set_eq. cbn. rewrite elem_of_app, list_elem_of_singleton. naive_solver.
    - rewrite stream_set_ne by done. naive_solver. }
  assert (Hw : ∀ k' e, e ∈ waiting rd' k' ↔ e ∈ waiting rd k' ∨ (k' = k ∧ e = mkEntry j vs)).
  { intros k' e. unfold waiting, rd'. rewrite lane_xadd by done. case_decide as Ek; [subst k'|naive_solver].
    cbn. rewrite elem_of_app, list_elem_of_singleton. naive_solver. }
  assert (Hd' : duty E (set_redis rd' w) ds).
  { apply (duty_queue E E w _ ds Hd); cbn [w_redis set_redis w_db]; auto.
    - intros k' e. rewrite Hent. by left.
    - intros k' l [(e & He & Hid) Hn]. split; [exists e; rewrite Hent; auto|].
      intros e' [He'|[-> ->]]%Hw; [by apply Hn|]. cbn. intros <-.
      pose proof (sk_top _ (stream_is_ok k rd Hok)) as Ht. rewrite Forall_forall in Ht. specialize (Ht _ He). lia.
    - intros k' e _. rewrite Hw. auto.
    - intros k' l _. unfold inflight, rd'. rewrite lane_xadd by done. case_decide as Ek; [subst k'|]; by left. }
  cbn [redis_pursue]. case_decide as Hk; [|by rewrite list_insert_id].
  destruct (about_values vs) as [id|] eqn:Ea; [|by rewrite list_insert_id].
  apply duty_discharge; [by apply xadd_redis_ok|done..|]. intros ds'.
  apply (ca_message _ _ _ _ k (mkEntry j vs)); [done| |exact Ea]. apply Hw. by right.
Qed.

Lemma zadd_duty sc m w' :
  redis_doc (ZAdd DelayedSet sc m) w None w' →
  duty E w' (<[i := redis_pursue (ZAdd DelayedSet sc m) None d]> ds).
Proof.
  intros (rd' & -> & H). assert (rd' = zadd DelayedSet sc m rd) as -> by by destruct H as [[_ ?]|[? _]].
  assert (Hz : ∀ m', is_Some (zset DelayedSet (zadd DelayedSet sc m rd) !! m') ↔
    m = m' ∨ is_Some (zset DelayedSet rd !! m')).
  { intros m'. unfold zadd. by rewrite zset_set_eq, lookup_insert_is_Some'. }
  assert (Hd' : duty E (set_redis (zadd DelayedSet sc m rd) w) ds).
  { apply duty_lanes; try done. intros m'. rewrite Hz. by right. }
  cbn [redis_pursue]. destruct (member_due m) as [id|] eqn:Em; [|by rewrite list_insert_id].
  apply duty_discharge; [done..|]. intros ds'. apply (ca_retry _ _ _ _ m); [|done]. apply Hz. by left.
Qed.

Lemma zrem_duty ms w' :
  redis_doc (ZRem DelayedSet ms) w None w' →
  duty E w' (<[i := redis_pursue (ZRem DelayedSet ms) None d]> ds).
Proof.
  intros (rd' & -> & H). assert (rd' = zrem DelayedSet ms rd) as -> by by destruct H as [[_ ?]|[? _]].
  cbn [redis_pursue]. apply (duty_queue E E w); cbn [w_redis set_redis w_db]; auto; [by apply duty_owe|].
  intros m id Hm Hdue. unfold zrem. rewrite zset_set_eq, foldr_delete_lookup.
  destruct (decide (m ∈ ms)) as [Hin|]; [right|by left]. eapply owed_self; [exact Hi|].
  cbn. apply elem_of_union_l, elem_of_list_to_set, list_elem_of_omap. by exists m.
Qed.

Lemma xack_duty k j w' :
  redis_doc (XAck k ConsumerGroup j) w None w' → (k, j) ∈ ackable d → duty E w' ds.
Proof.
  intros (rd' & -> & H) Ha. assert (rd' = xack k ConsumerGroup j rd) as -> by by destruct H as [[_ ?]|[? _]].
  assert (Hw : ∀ k', waiting (xack k ConsumerGroup j rd) k' = waiting rd k').
  { intros k'. unfold waiting. rewrite lane_xack. case_decide; [by subst|done]. }
  assert (He : ∀ k', s_entries (stream k' (xack k ConsumerGroup j rd)) = s_entries (stream k' rd)).
  { intros k'. unfold xack. destruct (_ !! ConsumerGroup); [by apply entries_of_set|done]. }
  apply (duty_queue E E w _ ds Hd); cbn [w_redis set_redis w_db]; fold rd; auto.
  - intros k' e. by rewrite He.
  - intros k' l. unfold past. by rewrite He, Hw.
  - intros k' e _. rewrite Hw. by left.
  - intros k' l _. unfold inflight. rewrite lane_xack. case_decide as Ek; [subst k'|by left]. cbn.
    intros Hin. destruct (decide (l = j)) as [->|]; [right; by exists i, d|left; set_solver].
  - intros m id. unfold xack. destruct (_ !! ConsumerGroup); by left.
Qed.

Lemma elem_of_tagged l (k : string) (e : Entry) : (k, e) ∈ tagged l ↔ ∃ es, (k, es) ∈ l ∧ e ∈ es.
Proof.
  unfold tagged. rewrite list_elem_of_bind. split.
  - intros ([k' es] & (e' & [= -> ->] & He)%list_elem_of_fmap & Hl). by exists es.
  - intros (es & Hl & He). exists (k, es). split; [|done]. cbn. by apply list_elem_of_fmap_2.
Qed.

(** What is read was stored, and is not scheduled. *)
Lemma waiting_begun r gs k e id :
  custody r (view w) gs → k ∈ priority_streams → e ∈ waiting rd k → about e = Some id →
  ∃ n, abs (w_db w) !! id = Some n ∧ n_Status n ≠ StatusScheduled.
Proof.
  intros Hc Hk He Ha.
  assert (Hp : at_place (view w) gs id (InLane k (e_id e))) by (split; [done|]; by exists e).
  destruct (cu_known _ _ _ Hc _ _ Hp) as [n Hn]. exists n. split; [done|]. intros Hs.
  assert (Hq : at_place (view w) gs id InSchedule) by by exists n.
  by pose proof (cu_unique _ _ _ Hc _ _ _ Hp Hq).
Qed.

Lemma read_duty r gs c n x w' :
  custody r (view w) gs → redis_doc (XReadGroup ConsumerGroup c priority_streams n) w x w' →
  is_ok x = true →
  duty E w' (<[i := redis_pursue (XReadGroup ConsumerGroup c priority_streams n) x d]> ds).
Proof.
  intros Hc (rd' & -> & H) Hx. destruct H as [(Hg & now & H)|(He & _)]; [|by rewrite Hx in He].
  destruct (xreadgroup _ _ _ _ _ _) as [l r1] eqn:Er. destruct H as [-> ->]. clear Hx.
  pose proof Er as [He _]%xreadgroup_entries.
  apply xreadgroup_spec in Er as (Hok' & Hz & Hl & Hlane); [|done|apply priority_streams_NoDup|done].
  set (m := Z.to_nat n) in *.
  assert (Hw : ∀ k, waiting r1 k = if decide (k ∈ priority_streams) then drop m (waiting rd k) else waiting rd k).
  { intros k. unfold waiting. rewrite Hlane. by case_decide. }
  assert (Hd' : duty E (set_redis r1 w) ds).
  { apply (duty_queue E E w _ ds Hd); cbn [w_redis set_redis w_db]; fold rd; auto.
    - intros k e. by rewrite He.
    - intros k j. unfold past. rewrite He, Hw. intros [? Hn]. split; [done|]. intros e Hin. apply Hn.
      case_decide; [by eapply drop_in|done].
    - intros k e Hk Hin. rewrite Hw, decide_True by done. unfold inflight. rewrite Hlane, decide_True by done.
      unfold waiting in Hin. rewrite <- (take_drop m (ln_waiting _)) in Hin.
      apply elem_of_app in Hin as [Hin|Hin]; [right|by left]. cbn.
      apply elem_of_union_r, elem_of_list_to_set. by apply list_elem_of_fmap_2.
    - intros k j Hk. unfold inflight. rewrite Hlane, decide_True by done. cbn. left. set_solver.
    - intros mm id Hm _. left. unfold zset. by rewrite Hz. }
  cbn [redis_pursue]. destruct l as [|p l]; [by rewrite list_insert_id|].
  apply duty_receive_all; [done..|]. apply Forall_forall. intros [k e] Hin. cbn [fst snd].
  assert (Hke : k ∈ priority_streams ∧ e ∈ take m (waiting rd k)).
  { apply elem_of_tagged in Hin as (es & Hes & Hin). rewrite Hl in Hes.
    apply list_elem_of_filter in Hes as [_ (k' & [= -> ->] & Hk)%list_elem_of_fmap]. done. }
  destruct Hke as [Hk Hin']. split_and!.
  - split; [exists e; split; [|done]; cbn; rewrite He; by eapply waiting_entry, take_in|].
    intros e' He' E'. cbn in He'. rewrite Hw, decide_True in He' by done. symmetry in E'.
    by apply (taken_or_left rd k m e e').
  - cbn. rewrite He. by eapply waiting_entry, take_in.
  - intros id Ha. eapply (waiting_begun r gs k e); [done..|by eapply take_in|done].
Qed.

(** A command of Redis. *)
Lemma redis_duty r gs wk X (e : RedisE X) x w' :
  custody r (view w) gs → redis_safe any_ack e → redis_proper wk d e → redis_doc e w x w' →
  redis_fault e x = false → duty E w' (<[i := redis_pursue e x d]> ds).
Proof.
  intros Hc Hs Ha H Hf.
  assert (Hsame : w' = w → duty E w' (<[i := d]> ds)) by (intros ->; by rewrite list_insert_id).
  destruct e; cbn [redis_proper redis_safe redis_fault redis_pursue] in *.
  - destruct x; [done|]. by apply xadd_duty.
  - subst g. rewrite list_insert_id by done. destruct H as (rd' & -> & H).
    assert (Hx : match xgroup_create k ConsumerGroup rd with Some r1 => rd' = r1 | None => rd' = rd end).
    { unfold rd. destruct H as [H|[[Hn Hb] _]].
      - destruct (xgroup_create _ _ _); by destruct H.
      - destruct x as [y|]; [|done]. apply negb_false_iff, String.eqb_eq in Hf. by rewrite Hf in Hb. }
    destruct (xgroup_create k ConsumerGroup rd) as [r1|] eqn:Eg; subst rd'; [|by apply duty_lanes].
    pose proof Eg as Eg'. unfold xgroup_create in Eg'. destruct (_ !! ConsumerGroup); [done|]. injection Eg' as <-.
    apply duty_lanes; [|intros k'; by apply entries_of_set|done].
    intros k'. by apply (lane_xgroup_create _ _ _ _ _ Hok Eg).
  - destruct Ha as [-> ->]. eapply read_duty; [done..|]. by destruct x.
  - destruct Ha as [-> Ha]. rewrite list_insert_id by done. destruct x; [done|]. by eapply xack_duty.
  - done.
  - apply Hsame. destruct H as (rd' & -> & [[_ ->]|[Hn _]]); [by destruct w|by destruct x].
  - subst k. destruct x; [done|]. by apply (zadd_duty score).
  - apply Hsame. destruct H as (rd' & -> & [[_ ->]|[Hn _]]); [by destruct w|by destruct x].
  - destruct Ha as [-> _]. destruct x; [done|]. by apply zrem_duty.
  - rewrite list_insert_id by done. destruct H as (rd' & -> & [(at_ & draw & H)|[Hn _]]); [|by destruct x].
    destruct (Ha at_ draw rd) as [Es Ez]. unfold rd in *. destruct (script at_ draw (w_redis w)) as [z r1].
    cbn in Es, Ez. destruct H as [_ ->].
    assert (Hst : ∀ k, stream k r1 = stream k (w_redis w)) by (intros k; unfold stream; by rewrite Es).
    apply duty_lanes; [intros k; by apply lane_same_stream|intros k; by rewrite Hst|by rewrite Ez].
Qed.
End Redis.

(** ** Statements *)

(** A statement that writes no notification leaves the store. *)
Lemma aside_statement s args w res w' :
  stmt_aside s → statement s args w res w' → db_ok (w_db w) → abs (w_db w') = abs (w_db w).
Proof.
  intros Hs (t & db' & _ & H & ->) Hok. cbn [w_db set_db].
  assert (He : ∀ n rows db1 ins t1, sql_effect args t (w_db w) s n rows db1 ins t1 →
    db_notifications db1 = db_notifications (w_db w)).
  { intros n rows db1 ins t1 He. destruct He as
      [t' cols vals id r Hi|t' cols wh cs ord lim l l' _ Ho Hl|t' sets wh cs ret l l' _ Hl Hu
      |t' sets wh cs ord lim ret sel l l' _ Hsel Hl Hu|t' wh cs l _ Hl]; cbn in Hs;
      try done; by destruct t'. }
  unfold abs. apply sql_step_inv in H as
    [(n & rows & ins & t1 & -> & Hx & _)
    |[(name & msg & n & rows & db1 & ins & t1 & -> & -> & _)
    |[(code & name & msg & Hcd & -> & ->)|(msg & -> & [->|(n & rows & ins & t1 & Hx & _)])]]];
    try done; by erewrite He.
Qed.

Lemma status_write_update t id st le :
  let '(q, args) := status_update t id st le in
  status_write q args = Some (id, st) ∧ ∀ x d, pg_pursue (PgExec q args) x d = if terminal st then discharge id d else d.
Proof. unfold status_update. by destruct (_ =? _)%string; [|destruct (negb _)]. Qed.

(** What is there already stays, if what is put is new. *)
Lemma put_kept ns (st : Store) id n :
  st !! id = Some n → (∀ m, m ∈ ns → st !! n_ID m = None) → put ns st !! id = Some n.
Proof.
  intros Hn Hnew. destruct (put_some ns st id) as [m Hm]; [by eexists|]. rewrite Hm.
  apply put_lookup in Hm as [[Hm <-]|[Hm _]]; [|by rewrite <- Hm]. rewrite Hnew in Hn; done.
Qed.

Section Postgres.
Context {S : Services} {HS : ServicesOk S} {HO : SentOnce S}.
Context (E : UUID → Prop) (w : World) (ds : list Duty) (i : nat) (d : Duty).
Context (Hok : db_ok (w_db w)) (Hr : redis_ok (w_redis w)) (Hd : duty E w ds) (Hi : ds !! i = Some d).

(** The ends recorded after the event. *)
Definition ended (ev : Event) : UUID → Prop := λ id, E id ∨ ends ev = Some id.

Lemma pg_redis X (e : PgE X) x w' : svc (Pg e) w x w' → w_redis w' = w_redis w.
Proof. intros H%postgres_doc. by apply pg_frame in H as (? & _). Qed.

(** Every status is as it was. *)
Lemma duty_statuses ev w' ds' :
  duty E w ds' → w_redis w' = w_redis w →
  (∀ id, n_Status <$> abs (w_db w') !! id = n_Status <$> abs (w_db w) !! id) → duty (ended ev) w' ds'.
Proof.
  intros Hd' Hr' Hst.
  assert (Hback : ∀ id n, abs (w_db w') !! id = Some n → ∃ m, abs (w_db w) !! id = Some m ∧ n_Status m = n_Status n).
  { intros id n Hn. specialize (Hst id). rewrite Hn in Hst. destruct (abs (w_db w) !! id) as [m|]; [|done].
    exists m. split; [done|]. by injection Hst. }
  assert (Hforth : ∀ id n, abs (w_db w) !! id = Some n → ∃ m, abs (w_db w') !! id = Some m ∧ n_Status m = n_Status n).
  { intros id n Hn. specialize (Hst id). rewrite Hn in Hst. destruct (abs (w_db w') !! id) as [m|]; [|done].
    exists m. split; [done|]. by injection Hst. }
  apply (duty_store E (ended ev) w w' ds' Hd'); [by left|done|..]; cbv zeta.
  - intros id n (m & Hm & _)%Hback Hn. congruence.
  - intros id n (m & Hm & <-)%Hforth Hs. left. by exists m.
  - intros id n (m & Hm & <-)%Hback Ht. left. by eapply (du_ended _ _ _ Hd').
  - intros id n (m & Hm & <-)%Hforth Hs. by exists m.
Qed.

Lemma duty_same_store ev w' ds' :
  duty E w ds' → w_redis w' = w_redis w → abs (w_db w') = abs (w_db w) → duty (ended ev) w' ds'.
Proof. intros Hd' Hr' E'. apply duty_statuses; [done..|]. intros id. by rewrite E'. Qed.

Lemma status_duty t id st le x w' :
  let '(q, args) := status_update t id st le in let e := PgExec q args in
  id ∈ begun d → st ≠ StatusScheduled → svc (Pg e) w x w' → pg_fault e x = false →
  duty (ended (Ev (Pg e) x)) w' (<[i := pg_pursue e x d]> ds).
Proof.
  pose proof (status_statement t id st le w x w' Hok) as Hs. pose proof (status_write_update t id st le) as Hw.
  destruct (status_update t id st le) as [q args]. cbv zeta. intros Hb Hst H Hf. destruct Hw as [Hw Hp].
  rewrite Hp. pose proof (pg_redis _ _ _ _ H) as Hr'. apply postgres_doc in H.
  assert (Hx : ∃ k, x = Ok k).
  { destruct (Hs H) as [[-> _]|[(-> & _)|(e & -> & He & _)]]; [by eexists..|]. cbn in Hf. congruence. }
  assert (Hend : terminal st = true → ends (Ev (Pg (PgExec q args)) x) = Some id).
  { intros Ht. destruct Hx as [k ->]. cbn. by rewrite Hw, Ht. }
  destruct (du_begun _ _ _ Hd _ _ _ Hi Hb) as (n & Hn & Hns).
  assert (Hd' : duty (ended (Ev (Pg (PgExec q args)) x)) w' ds).
  { destruct (Hs H) as [(_ & m & Hm & Ha & _)|[(_ & Hm & _)|(e & -> & He & _)]].
    2: congruence. 2: by cbn in Hf; congruence.
    assert (m = n) as -> by congruence.
    apply (duty_store E _ w w' ds Hd); [by left|done|..]; cbv zeta; rewrite Ha.
    - intros id' n' [[-> <-]|[_ Hn']]%lookup_insert_Some Hnone; congruence.
    - intros id' n' Hn' Hs'. left. exists n'. split; [|done].
      rewrite lookup_insert_ne; [done|]. intros <-. congruence.
    - intros id' n' [[-> <-]|[_ Hn']]%lookup_insert_Some Ht; [right; apply Hend; by rewrite Spec.mark_status in Ht|left].
      by eapply (du_ended _ _ _ Hd).
    - intros id' n' Hn' Hs'. destruct (decide (id = id')) as [<-|Hne].
      + rewrite lookup_insert_eq. eexists. split; [done|]. by rewrite Spec.mark_status.
      + rewrite lookup_insert_ne by done. by exists n'. }
  destruct (terminal st) eqn:Ht; [|by rewrite list_insert_id].
  apply duty_discharge; [by rewrite Hr'|done..|]. intros ds'. apply ca_end. right. by apply Hend.
Qed.

(** New notifications are stored: those to be sent now are owed, the others
    scheduled. *)
Lemma stored_duty ev w' ids ns :
  w_redis w' = w_redis w → abs (w_db w') = put ns (abs (w_db w)) →
  Forall (λ n, abs (w_db w) !! n_ID n = None ∧ terminal (n_Status n) = false ∧
    (n_Status n = StatusScheduled ∨ n_ID n ∈ ids)) ns →
  (∀ id, id ∈ ids → ∃ n, put ns (abs (w_db w)) !! id = Some n ∧ n_Status n ≠ StatusScheduled) →
  duty (ended ev) w' (<[i := owe ids (begin_all ids d)]> ds).
Proof.
  intros Hr' Ha Hns Hids. rewrite Forall_forall in Hns.
  assert (Hlt : (i < length ds)%nat) by (by eapply lookup_lt_Some).
  change (owe ids (begin_all ids d)) with (begin_all ids (owe ids d)).
  rewrite <- (list_insert_insert_eq ds i (begin_all ids (owe ids d)) (owe ids d)).
  apply duty_begin; [by rewrite Hr'| |by apply list_lookup_insert_eq|by rewrite Ha].
  apply (duty_store E _ w w'); [by apply duty_owe|by left|done|..]; cbv zeta; rewrite Ha.
  - intros id n [[Hn <-]|[Hn _]]%put_lookup Hnone; [|congruence].
    destruct (Hns _ Hn) as (_ & _ & [?|Hin]); [by left|right]. eapply owed_self; [exact Hi|]. cbn. set_solver.
  - intros id n Hn Hs. left. exists n. split; [|done]. apply put_kept; [done|]. by intros m [? _]%Hns.
  - intros id n [[Hn <-]|[Hn _]]%put_lookup Ht; [|left; by eapply (du_ended _ _ _ Hd)].
    destruct (Hns _ Hn) as (_ & ? & _). congruence.
  - intros id n Hn Hs. exists n. split; [|done]. apply put_kept; [done|]. by intros m [? _]%Hns.
Qed.

Lemma insert_duty n x w' :
  let e := PgExec insert_notification (insert_args n (json_Marshal (n_TemplateVars n))) in
  terminal (n_Status n) = false → svc (Pg e) w x w' → pg_fault e x = false →
  duty (ended (Ev (Pg e) x)) w' (<[i := pg_pursue e x d]> ds).
Proof.
  intros e Ht H Hf. pose proof (pg_redis _ _ _ _ H) as Hr'. apply postgres_doc in H.
  apply insert_statement in H as [[Hx Ha]|(Hnone & Ha & Hx)]; [| |done].
  - destruct x as [|er]; [done|]. cbn [e pg_pursue insert_notification]. rewrite list_insert_id by done.
    by apply duty_same_store.
  - destruct x as [k|er]; [|destruct Hx as [|(e' & [= <-] & He)]; [done|cbn in Hf; congruence]].
    cbn [e pg_pursue insert_notification]. rewrite insert_key_args.
    assert (Hput : abs (w_db w') = put [Spec.stored n] (abs (w_db w))) by (rewrite Ha; by destruct n).
    case_decide as Hs.
    + assert (E0 : owe [] (begin_all [] d) = d).
      { unfold owe, begin_all. cbn. rewrite !(left_id_L ∅ (∪)). by destruct d. }
      rewrite <- E0 at 1. eapply stored_duty; [done|done| |by intros id ?%not_elem_of_nil].
      apply Forall_singleton. destruct n; cbn in *; auto.
    + eapply stored_duty; [done|done| |].
      * apply Forall_singleton. destruct n; cbn in *. split_and!; [done..|right; by left].
      * intros id ->%list_elem_of_singleton. rewrite <- Hput, Ha, lookup_insert_eq. exists (Spec.stored n).
        by destruct n.
Qed.

Lemma select_duty id x w' :
  let e := PgQueryRow select_by_id [VUuid id] in
  svc (Pg e) w x w' → pg_fault e x = false →
  duty (ended (Ev (Pg e) x)) w' (<[i := pg_pursue e x d]> ds) ∧ reliable (Pg e) x d.
Proof.
  intros e H Hf. pose proof (pg_redis _ _ _ _ H) as Hr'.
  apply select_statement in H as [Hdb Hx]; [|done].
  assert (Hd' : duty (ended (Ev (Pg e) x)) w' ds) by (apply duty_same_store; [done..|by rewrite Hdb]).
  split.
  - cbn [e pg_pursue select_by_id]. destruct x as [[row|]|]; try by rewrite list_insert_id.
    destruct Hx as (n & -> & Hn). case_decide; [|by rewrite list_insert_id].
    destruct (terminal (n_Status n)) eqn:Ht; [|by rewrite list_insert_id].
    apply duty_discharge; [by rewrite Hr'|done..|]. intros ds'. apply ca_end. left. by eapply (du_ended _ _ _ Hd).
  - intros _ id' [= <-] Hb. destruct (du_begun _ _ _ Hd _ _ _ Hi Hb) as (n & Hn & _).
    destruct x as [[row|]|er]; [|congruence|cbn in Hf; congruence].
    destruct Hx as (n' & Hs & Hn'). exists row, n'. split_and!; [done|done|by apply (db_ok_typed _ Hok)|].
    by eapply abs_well_typed.
Qed.

Lemma cancel_duty id x w' :
  let e := PgQueryRow cancel_stmt [VUuid id] in
  svc (Pg e) w x w' → pg_fault e x = false → duty (ended (Ev (Pg e) x)) w' (<[i := pg_pursue e x d]> ds).
Proof.
  intros e H Hf. pose proof (pg_redis _ _ _ _ H) as Hr'. apply postgres_doc in H.
  apply cancel_statement in H as (t & _ & Hx); [|done]. rewrite list_insert_id by done.
  destruct Hx as [([row ->] & n & Hn & _ & Ha & _)|[(_ & Hdb & _)|(er & -> & He & _)]].
  - apply (duty_store E _ w w' ds Hd); [by left|done|..]; cbv zeta; rewrite Ha.
    + intros id' n' [[-> _]|[_ ?]]%lookup_insert_Some ?; congruence.
    + intros id' n' Hn' Hs. destruct (decide (id = id')) as [<-|Hne]; [right; left; by right|left].
      exists n'. by rewrite lookup_insert_ne.
    + intros id' n' [[-> _]|[_ Hn']]%lookup_insert_Some Ht; [by right|left]. by eapply (du_ended _ _ _ Hd).
    + intros id' n' Hn' Hs. destruct (decide (id = id')) as [<-|Hne].
      * rewrite lookup_insert_eq. eexists. split; [done|]. by destruct n.
      * exists n'. by rewrite lookup_insert_ne.
  - apply duty_same_store; [done..|by rewrite Hdb].
  - cbn in Hf. congruence.
Qed.

Lemma increment_duty id x w' :
  let e := PgExec increment_attempt [VUuid id] in
  svc (Pg e) w x w' → duty (ended (Ev (Pg e) x)) w' (<[i := pg_pursue e x d]> ds).
Proof.
  intros e H. pose proof (pg_redis _ _ _ _ H) as Hr'. rewrite list_insert_id by done.
  apply increment_statement in H as [[Ha _]|(n & t & Hn & Ha)]; [by apply duty_same_store| |done].
  apply duty_statuses; [done..|]. intros id'. rewrite Ha. destruct (decide (id = id')) as [<-|Hne].
  - rewrite lookup_insert_eq, Hn. by destruct n.
  - by rewrite lookup_insert_ne.
Qed.

Lemma fetch_duty limit x w' :
  let e := PgQuery fetch_due [VInt limit] in
  svc (Pg e) w x w' → pg_fault e x = false →
  duty (ended (Ev (Pg e) x)) w' (<[i := pg_pursue e x d]> ds) ∧ reliable (Pg e) x d.
Proof.
  intros e H Hf. pose proof (pg_redis _ _ _ _ H) as Hr'.
  apply fetch_statement in H as [[(er & -> & He) _]|[Hcut|(t & ns & Hns & _ & Ha & Hx)]]; [| | |done].
  { cbn in Hf. congruence. }
  { by destruct x as [[rows [er|]]|er]. }
  destruct x as [[rows [er|]]|er]; [done| |cbn in Hf; congruence]. destruct Hx as [Hs Hrows].
  rewrite Forall_forall in Hns.
  assert (Hrel : ∀ id n, put (Spec.release t <$> ns) (abs (w_db w)) !! id = Some n →
    (∃ m, abs (w_db w) !! id = Some m ∧ m ∈ ns ∧ n_Status n = StatusPending) ∨
    (abs (w_db w) !! id = Some n ∧ id ∉ n_ID <$> ns)).
  { intros id n [[(m & -> & Hm)%list_elem_of_fmap <-]|[Hn Hnot]]%put_lookup.
    - left. exists m. destruct (Hns _ Hm) as [Hm' _]. by destruct m.
    - right. split; [done|]. intros (m & -> & Hm)%list_elem_of_fmap. apply Hnot.
      apply list_elem_of_fmap. exists (Spec.release t m). split; [by destruct m|by apply list_elem_of_fmap_2]. }
  split.
  - cbn [e pg_pursue fetch_due]. rewrite Hrows.
    apply (duty_store E _ w w'); [by apply duty_owe|by left|done|..]; cbv zeta; rewrite Ha.
    + intros id n [(m & Hm & _)|[Hn _]]%Hrel ?; congruence.
    + intros id n Hn Hst. destruct (decide (id ∈ n_ID <$> ns)) as [Hin|Hin].
      * right. right. eapply owed_self; [exact Hi|]. cbn. set_solver.
      * left. exists n. split; [|done].
        destruct (put_some (Spec.release t <$> ns) (abs (w_db w)) id) as [m Hm]; [by eexists|].
        rewrite Hm. f_equal. apply Hrel in Hm as [(m' & Hm' & Hin' & _)|[Hm _]]; [|congruence].
        destruct Hin. apply list_elem_of_fmap. exists m'. destruct (Hns _ Hin') as [Hk _].
        split; [|done]. apply abs_keyed in Hm'. by rewrite Hm'.
    + intros id n [(m & _ & _ & Hst)|[Hn _]]%Hrel Ht; [by rewrite Hst in Ht|left].
      by eapply (du_ended _ _ _ Hd).
    + intros id n Hn Hst.
      destruct (put_some (Spec.release t <$> ns) (abs (w_db w)) id) as [m Hm]; [by eexists|].
      exists m. split; [done|]. apply Hrel in Hm as [(m' & Hm' & Hin' & _)|[Hm _]]; [|congruence].
      destruct (Hns _ Hin') as [_ Hsch]. congruence.
  - intros _. exists rows, (Spec.release t <$> ns). split_and!; [done..|]. apply Forall_fmap, Forall_forall.
    intros m Hm. destruct (Hns _ Hm) as [Hm' _]. apply abs_well_typed in Hm'; [|done].
    destruct m, Hm'. split; [done|done|by apply (bool_decide_unpack _)|done..].
Qed.

Lemma commit_duty h l x w' :
  drafts d !! h = Some (Some l) → tx_inserts w h l → Forall (λ p, terminal p.2 = false) l →
  svc (Pg (PgCommit h)) w x w' → pg_fault (PgCommit h) x = false →
  duty (ended (Ev (Pg (PgCommit h)) x)) w' (<[i := pg_pursue (PgCommit h) x d]> ds).
Proof.
  intros Hl Hins Ht H Hf. pose proof (pg_redis _ _ _ _ H) as Hr'. apply postgres_doc in H.
  destruct x as [|]; [done|]. cbn [pg_pursue]. rewrite Hl.
  destruct (tx_commit_store _ _ _ _ _ H Hins) as [[Hx _]|(ns & -> & Hnd & Ha & Hns)]; [done|].
  rewrite keys_ids in Hnd. rewrite Forall_forall in Hns. rewrite Forall_fmap, Forall_forall in Ht.
  set (ids := unscheduled (note_key <$> ns)).
  assert (Hlt : (i < length ds)%nat) by (by eapply lookup_lt_Some).
  rewrite <- (list_insert_insert_eq ds i _ (owe ids (begin_all ids d))).
  apply duty_draft; [|by apply list_lookup_insert_eq].
  eapply stored_duty; [done|exact Ha|..].
  - apply Forall_forall. intros n Hn. destruct (Hns _ Hn) as [Hnone _]. split_and!; [done|by apply Ht|].
    destruct (decide (n_Status n = StatusScheduled)) as [|Hs]; [by left|right].
    apply list_elem_of_fmap. exists (note_key n). split; [done|]. apply list_elem_of_filter.
    split; [done|]. by apply list_elem_of_fmap_2.
  - intros id (p & -> & [Hs (n & -> & Hn)%list_elem_of_fmap]%list_elem_of_filter)%list_elem_of_fmap.
    exists n. split; [|done]. destruct (put_in ns (abs (w_db w)) (n_ID n)) as [m Hm]; [by apply list_elem_of_fmap_2|].
    cbn. rewrite Hm. f_equal. apply put_lookup in Hm as [[Hm Hid]|[_ []]]; [|by apply list_elem_of_fmap_2].
    apply list_elem_of_lookup in Hm as [a Ham], Hn as [b Hb]. assert (a = b) as ->; [|congruence].
    eapply NoDup_lookup; [exact Hnd|..]; rewrite list_lookup_fmap, ?Ham, ?Hb; cbn; by f_equal.
Qed.

(** An effect of Postgres. *)
Lemma postgres_duty wk X (e : PgE X) x w' :
  pg_proper wk d e → (∀ h l, drafts d !! h = Some (Some l) → tx_inserts w h l) →
  svc (Pg e) w x w' → pg_fault e x = false →
  duty (ended (Ev (Pg e) x)) w' (<[i := pg_pursue e x d]> ds) ∧ reliable (Pg e) x d.
Proof.
  intros Ha Htx H Hf. pose proof (pg_redis _ _ _ _ H) as Hr'.
  assert (Haside : ∀ s args, stmt_aside s → (∃ res, statement s args w res w') →
    duty (ended (Ev (Pg e) x)) w' (<[i := d]> ds)).
  { intros s args Hs [res Hst]. rewrite list_insert_id by done. apply duty_same_store; [done..|].
    by eapply aside_statement. }
  assert (Htxs : ∀ h l t, w' = set_begun t (set_txs (w_txs w') w) ∨ w' = set_txs (w_txs w') w →
    duty (ended (Ev (Pg e) x)) w' (<[i := draft h l d]> ds)).
  { intros h l t Hw. apply duty_same_store; [by apply duty_draft|done|]. by destruct Hw as [->| ->]. }
  destruct e; cbn [pg_proper] in Ha.
  - split; [|done]. destruct Ha as [(_ & -> & n & -> & Ht)|[(t & id & st & le & Heq & Hb & Hs)|[(-> & id & ->)|Hs]]].
    + by apply insert_duty.
    + pose proof (status_duty t id st le x w') as Hst. rewrite <- Heq in Hst. by apply Hst.
    + by apply increment_duty.
    + destruct (postgres_doc _ _ _ _ _ H) as (res & Hst & _).
      assert (pg_pursue (PgExec s args) x d = d) as -> by (by destruct s as [[]|[]|[]|[]|[]]).
      eapply Haside; [exact Hs|by eexists].
  - destruct Ha as [([-> | ->] & id & ->)|[Hs Ht]].
    + by apply select_duty.
    + split; [by apply cancel_duty|done].
    + destruct (postgres_doc _ _ _ _ _ H) as (res & Hst & _). split.
      * assert (pg_pursue (PgQueryRow s args) x d = d) as -> by (by destruct s as [[]|[]|[]|[]|[]]).
        eapply Haside; [exact Hs|by eexists].
      * by intros ->.
  - destruct Ha as [(_ & -> & limit & ->)|Hs]; [by apply fetch_duty|].
    destruct (postgres_doc _ _ _ _ _ H) as (res & w1 & Hst & _ & Hw).
    assert (w' = w1) as -> by (destruct Hw as [?|[Hcut _]]; [done|by destruct x as [[? []]|]]). split.
    + assert (pg_pursue (PgQuery s args) x d = d) as -> by (by destruct s as [[]|[]|[]|[]|[]]).
      eapply Haside; [exact Hs|by eexists].
    + by intros ->.
  - split; [|done]. apply postgres_doc in H as [(h & -> & _ & _ & ->)|(er & -> & _ & ->)].
    + cbn [pg_pursue]. apply (Htxs _ _ (h + 1)%N). by left.
    + cbn [pg_pursue]. rewrite list_insert_id by done. by apply duty_same_store.
  - split; [|done]. assert (Hw : w' = set_txs (w_txs w') w).
    { apply postgres_doc in H as (tx & _ & [(?&?&?&?&?&?&?&_&_&_&_&_&->)|(?&?&_&_&->)]); done. }
    cbn [pg_pursue]. destruct x, (insert_key args), (drafts d !! h) as [[]|]; apply (Htxs _ _ 0%N); by right.
  - split; [|done]. destruct Ha as (_ & l & Hl & Ht). eapply commit_duty; [done|by apply Htx|done..].
  - split; [|done]. cbn [pg_pursue]. apply (Htxs _ _ 0%N). right.
    apply postgres_doc in H. cbn in H. unfold tx_rollback in H. by rewrite H.
Qed.
End Postgres.

(** ** The step *)

Lemma duty_effect {S : Services} {HS : ServicesOk S} {HO : SentOnce S} E r w gs ds i d wk X (e : Eff X) x w' :
  system_ok w → custody r (view w) gs → duty E w ds → ds !! i = Some d →
  (∀ h l, drafts d !! h = Some (Some l) → tx_inserts w h l) →
  system_effect any_ack X e → proper wk d e → svc e w x w' → fault (Ev e x) = false →
  (∀ g, gs !! i = Some g → plausible e x g) → is_Some (gs !! i) →
  duty (ended E (Ev e x)) w' (<[i := pursue e x d]> ds) ∧ reliable e x d.
Proof.
  intros [Hdb Hst _] Hc Hd Hi Htx Hsys Ha H Hf Hpl [g Hg].
  assert (Hmore : duty (ended E (Ev e x)) w ds) by (eapply duty_more; [|exact Hd]; by left).
  assert (Hrest : w_db w' = w_db w → w_redis w' = w_redis w → duty (ended E (Ev e x)) w' (<[i := d]> ds)).
  { intros E1 E2. rewrite list_insert_id by done. eapply duty_same_store; [exact Hd|done|by rewrite E1]. }
  assert (Hq : quiet w w' → duty (ended E (Ev e x)) w' (<[i := d]> ds)).
  { intros (t & _ & ->). by apply Hrest. }
  assert (Hr : w' = w → duty (ended E (Ev e x)) w' (<[i := d]> ds)) by (intros ->; by apply Hrest).
  destruct e; cbn [pursue proper system_effect] in *; try (split; [|done]).
  - eapply postgres_duty; [done|apply Hst|done..].
  - apply sent_once_doc in H. split.
    + by eapply (redis_duty (ended E (Ev (Rd e) x)) w ds i d Hst).
    + specialize (Hpl g Hg). destruct e; try done. cbn in Hpl |- *. destruct x as [[l|]|]; try done. apply Hpl.
  - apply Hq. by eapply http_doc.
  - apply clock_doc in H as [_ ->]. by apply Hrest.
  - apply Hr. by eapply uuid_doc.
  - apply Hr. by eapply ctx_doc.
  - apply Hq. by eapply sleep_or_done_doc.
  - apply Hq. by eapply sleep_doc.
  - apply Hq. by eapply ping_doc.
  - apply Hq. by eapply ws_accept_doc.
  - apply Hq. by eapply ws_read_doc.
  - apply memory_doc in H as [_ E']. apply Hrest; by rewrite E'.
  - apply Hq. by eapply ws_write_doc.
  - apply Hr. by eapply ws_close_doc.
  - apply Hr. by eapply counter_doc.
  - apply Hr. by eapply histogram_doc.
  - done.
Qed.
End Duty.
