(* ===== verification/DutyRun.v ===== *)
(** * The programs of the process do their duties

    Going through the workers, the processor of retries, the scheduler and the
    creation of notifications: whoever takes a notification from its place
    gives it another, or records its end, before the message is acknowledged
    and before it rests. *)

From stdpp Require Import gmap.
From S2P Require Import Prelude GoLib Domain Retry Sql Redis Effects Discipline NotificationRepo.
From S2P Require Import NotificationStore NotificationSpec Typed Queue QueueSpec RateLimit Delivery Hub.
From S2P Require Import Worker MemberSpec WorkerSpec Service Wiring Aside Ledger Custody CustodyStore.
From S2P Require Import CustodyRun Duty DutyInv DutyStep.

Section Duty.
Context {T : UuidText} {HT : UuidTextOk T} {TT : TimeText}.

(** ** Single operations *)

Lemma tends_last wk {A} (Q : Duty → A → Prop) d (p : prog A) :
  owed d = ∅ → only aside p → (∀ a, Q d a) → tends wk Q d p.
Proof.
  intros Ho Hp HQ. eapply tracks_mono; [apply tracks_idle|by intros ? a ->].
  eapply only_weaken; [|exact Hp]. intros X e. by apply aside_idles.
Qed.

Lemma tends_UpdateStatus wk {B} (Q : Duty → B → Prop) d id st le (f : option error → prog B) :
  id ∈ begun d → st ≠ StatusScheduled → (∀ r, tends wk Q (if terminal st then discharge id d else d) (f r)) →
  tends wk Q d (bind (UpdateStatus id st le) f).
Proof.
  intros Hb Hst HQ. unfold UpdateStatus. apply tends_do; [done|]. intros now _. cbn [pursue].
  fold (status_update now id st le). pose proof (status_write_update now id st le) as Hw.
  destruct (status_update now id st le) as [q args] eqn:Eq. destruct Hw as [_ Hw]. apply tends_do.
  - right; left. by exists now, id, st, le.
  - intros x _. cbn [pursue]. rewrite Hw. destruct x as [k|e]; [destruct (k =? 0)|]; apply HQ.
Qed.

Lemma tends_Ack wk {B} (Q : Duty → B → Prop) d k i (f : option error → prog B) :
  (k, i) ∈ ackable d → (∀ r, tends wk Q d (f r)) → tends wk Q d (bind (Ack k i) f).
Proof. intros H HQ. unfold Ack. apply tends_do; [done|]. intros x _. apply HQ. Qed.

Lemma tends_IncrementAttempt wk {B} (Q : Duty → B → Prop) d id (f : option error → prog B) :
  (∀ r, tends wk Q d (f r)) → tends wk Q d (bind (IncrementAttempt id) f).
Proof.
  intros HQ. unfold IncrementAttempt. apply tends_do; [right; right; left; split; [done|by eexists]|].
  intros x _. destruct x; apply HQ.
Qed.

Lemma valid_priority_stream p : Priority_Valid p = true → StreamKey p ∈ priority_streams.
Proof. rewrite Priority_Valid_spec. intros H. by apply (list_elem_of_fmap_2 StreamKey) in H. Qed.

Lemma tends_Enqueue wk {B} (Q : Duty → B → Prop) d id ch p (f : option error → prog B) :
  StreamKey p ∈ priority_streams → (∀ r, tends wk Q (discharge id d) (f r)) →
  tends wk Q d (bind (Enqueue id ch p) f).
Proof.
  intros Hp HQ. unfold Enqueue. apply tends_do; [done|]. intros x _. cbn [pursue redis_pursue].
  rewrite decide_True, entry_about by done. destruct x; apply HQ.
Qed.

Lemma tends_EnqueueDelayed wk {B} (Q : Duty → B → Prop) d n t (f : option error → prog B) :
  well_typed n → (∀ r, tends wk Q (discharge (n_ID n) d) (f r)) →
  tends wk Q d (bind (EnqueueDelayed (n_ID n) (n_Channel n) (n_Priority n) t) f).
Proof.
  intros Hwt HQ. unfold EnqueueDelayed. apply tends_do; [done|]. intros x _. cbn [pursue redis_pursue].
  unfold member_due. rewrite parse_delayed_member by apply Hwt.
  rewrite decide_True by apply valid_priority_stream, Hwt. rewrite uuid_Parse_String. destruct x; apply HQ.
Qed.

(** ** The workers *)

(** What is held of other messages stays so. *)
Record onward (d d' : Duty) : Prop := {
  on_owed : owed d' = ∅;
  on_letters : letters d' = letters d;
  on_begun : begun d' = begun d;
  on_ackable : ackable d ⊆ ackable d';
}.

Lemma onward_refl d : owed d = ∅ → onward d d.
Proof. by split. Qed.

Lemma onward_trans d1 d2 d3 : onward d1 d2 → onward d2 d3 → onward d1 d3.
Proof. intros [] []. split; [done|congruence|congruence|set_solver]. Qed.

Lemma onward_discharge d id : owed d = ∅ → onward d (discharge id d).
Proof.
  intros Ho. split; cbn; [set_solver|done|done|]. destruct (letters d !! id); set_solver.
Qed.

Lemma discharged_ackable d id s : letters d !! id = Some s → s ∈ ackable (discharge id d).
Proof. intros H. cbn. rewrite H. set_solver. Qed.

Definition slot (msg : Message) : Slot := (m_StreamID msg, m_MessageID msg).

Lemma tends_settle wk d n msg result :
  owed d = ∅ → letters d !! n_ID n = Some (slot msg) → n_ID n ∈ begun d → well_typed n →
  tends wk (λ d' _, onward d d') d (settle n msg result).
Proof.
  intros Ho Hl Hb Hwt. unfold settle. apply discharged_ackable in Hl.
  pose proof (onward_discharge d (n_ID n) Ho) as Hon. pose proof (on_owed _ _ Hon) as Ho'.
  destruct (d_Error result) as [err|].
  2: { apply tends_UpdateStatus; [done..|intros _]. apply tends_Ack; [done|intros _]. aside_first.
       apply tends_last; [done|apply aside_Broadcast|done]. }
  eapply (tracks_seq _ (λ d' _, d' = discharge (n_ID n) d)); [|intros d' _ ->; by apply tends_Ack].
  destruct (ShouldRetry _ _).
  - aside_first. apply tends_UpdateStatus; [done..|intros _]. apply tends_EnqueueDelayed; [done|intros _].
    aside_first. apply tends_last; [done|apply aside_Broadcast|done].
  - apply tends_UpdateStatus; [done..|intros _]. do 3 aside_first.
    apply tends_last; [done|apply aside_Broadcast|done].
Qed.

Lemma tends_GetByID wk {B} (Q : Duty → B → Prop) d id (f : result error Notification → prog B) :
  id ∈ begun d →
  (∀ n, n_ID n = id → well_typed n →
     tends wk Q (if terminal (n_Status n) then discharge id d else d) (f (Ok n))) →
  tends wk Q d (bind (GetByID id) f).
Proof.
  intros Hb HQ. unfold GetByID. apply tends_do; [left; split; [by left|by exists id]|].
  intros x Hx. destruct (Hx eq_refl id eq_refl Hb) as (row & n & -> & Hs & Hid & Hwt).
  cbn [pursue pg_pursue select_by_id]. rewrite decide_True, Hs by done.
  change (scanNotification (Ok (Some row))) with
    (match scan_fields row with Some n => Ok n | None => Er (EWrap "scanning notification: " scan_error "") end).
  rewrite Hs. by apply HQ.
Qed.

Lemma tends_process_notification wk d dp msg id :
  aside_providers dp → owed d = ∅ → letters d !! id = Some (slot msg) → id ∈ begun d →
  tends wk (λ d' _, onward d d') d (process_notification dp msg id).
Proof.
  intros Hp Ho Hl Hb. unfold process_notification. apply tends_GetByID; [done|]. intros n <- Hwt.
  fold (terminal (n_Status n)). destruct (terminal (n_Status n)).
  { apply tends_Ack; [by apply discharged_ackable|]. intros _. by apply onward_discharge. }
  apply tends_UpdateStatus; [done..|intros _]. cbn [terminal].
  destruct (dp_providers dp !! n_Channel n) as [p|] eqn:Ep.
  2: { apply tends_UpdateStatus; [done..|intros _]. apply tends_Ack; [by apply discharged_ackable|].
       intros _. by apply onward_discharge. }
  eapply (tracks_seq _ (unmoved d)); [|intros d' result ->; by apply tends_settle].
  unfold deliver_once. aside_first. apply tends_aside; [done|by apply (Hp _ _ Ep)|intros result]. do 2 aside_first.
  apply tends_IncrementAttempt. intros _. by aside_first.
Qed.

(** What is known of a message that is to be processed. *)
Definition in_charge (d : Duty) (msg : Message) : Prop :=
  match msg_about msg with
  | Some id => letters d !! id = Some (slot msg) ∧ id ∈ begun d
  | None => slot msg ∈ ackable d
  end.

Lemma in_charge_onward d d' msg : onward d d' → in_charge d msg → in_charge d' msg.
Proof.
  intros [_ Hl Hb Ha]. unfold in_charge. rewrite Hl, Hb. destruct (msg_about msg); [done|]. set_solver.
Qed.

Lemma tends_processMessage wk fuel d dp msg :
  aside_providers dp → owed d = ∅ → in_charge d msg →
  tends wk (λ d' _, onward d d') d (processMessage fuel dp msg).
Proof.
  intros Hp Ho Hc. unfold processMessage, in_charge, msg_about in *. pose proof (onward_refl d Ho) as Hr.
  destruct (uuid_Parse _) as [id|]; [|by apply tends_Ack].
  aside_first. match goal with g : Gate |- _ => destruct g end; [|done..].
  destruct Hc. eapply tracks_seq; [by apply tends_process_notification|done].
Qed.

Lemma tends_process_all wk fuel d dp ms :
  aside_providers dp → owed d = ∅ → Forall (in_charge d) ms →
  tends wk (λ d' _, owed d' = ∅) d (process_all fuel dp ms).
Proof.
  intros Hp. revert d. induction ms as [|m ms IH]; intros d Ho Hms; [done|]. cbn [process_all].
  apply Forall_cons in Hms as [Hm Hms]. eapply tracks_seq; [by apply tends_processMessage|].
  intros d' [] Hon; [|by apply Hon]. apply IH; [by apply Hon|].
  eapply Forall_impl; [exact Hms|]. intros x. by apply in_charge_onward.
Qed.

(** The messages are those that were read, in order. *)
Definition message_from (p : string * Entry) (m : Message) : Prop :=
  slot m = (p.1, e_id p.2) ∧ msg_about m = about p.2.

Lemma tends_messages_of wk k es d :
  owed d = ∅ →
  tends wk (λ d' ms, d' = d ∧ Forall2 message_from ((λ e, (k, e)) <$> es) ms) d (messages_of k es).
Proof.
  intros Ho. induction es as [|e es IH]; [done|]. cbn [messages_of]. unfold message_of.
  destruct (field "notification_id" (e_values e)) as [id|] eqn:Ei, (field "channel" (e_values e));
    try (split; [done|by intros []]).
  eapply (tracks_seq _ (λ d' m, d' = d ∧ message_from (k, e) m)).
  { split; [done|]. split; [done|]. unfold msg_about, about, about_values. cbn. by rewrite Ei. }
  intros d' m [-> Hm]. eapply tracks_seq; [exact IH|]. intros d' ms [-> Hms]. split; [done|]. by constructor.
Qed.

Lemma tends_stream_messages wk l d :
  owed d = ∅ → tends wk (λ d' ms, d' = d ∧ Forall2 message_from (tagged l) ms) d (stream_messages l).
Proof.
  intros Ho. induction l as [|[k es] l IH]; [done|]. cbn [stream_messages].
  eapply tracks_seq; [by apply tends_messages_of|]. intros d' ms [-> Hms].
  eapply tracks_seq; [exact IH|]. intros d' ms' [-> Hms']. split; [done|]. by apply Forall2_app.
Qed.

(** Taking all the messages that were read. *)
Lemma received_owed l d : owed (foldr receive d l) = owed d.
Proof. induction l as [|[k e] l IH]; [done|]. cbn. unfold receive. by destruct (about _). Qed.

Lemma receive_letter q d id : about q.2 = Some id → receive q d = take_letter id (q.1, e_id q.2) d.
Proof. intros E. unfold receive. by rewrite E. Qed.

Lemma receive_other q d : about q.2 = None → receive q d = let_ack (q.1, e_id q.2) d.
Proof. intros E. unfold receive. by rewrite E. Qed.

Lemma received l d (p : string * Entry) m :
  NoDup (omap (λ p, about p.2) l) → p ∈ l → message_from p m → in_charge (foldr receive d l) m.
Proof.
  intros Hnd Hp [Hs Ha]. unfold in_charge. rewrite Hs, Ha.
  induction l as [|q l IH]; [by apply not_elem_of_nil in Hp|]. cbn in Hnd. cbn [foldr].
  apply elem_of_cons in Hp as [->|Hp].
  - destruct (about q.2) as [id|] eqn:Eq.
    + rewrite (receive_letter _ _ id) by done. cbn. rewrite lookup_insert_eq. set_solver.
    + rewrite receive_other by done. cbn. set_solver.
  - destruct (about q.2) as [id'|] eqn:Eq.
    + apply NoDup_cons in Hnd as [Hn Hnd]. specialize (IH Hnd Hp).
      rewrite (receive_letter _ _ id') by done. destruct (about p.2) as [id|] eqn:Ep; [|done]. cbn.
      destruct IH as [IH1 IH2]. rewrite lookup_insert_ne; [set_solver|]. intros ->.
      apply Hn, list_elem_of_omap. by exists p.
    + specialize (IH Hnd Hp). rewrite receive_other by done.
      destruct (about p.2); [done|]. cbn. set_solver.
Qed.

Lemma read_ids_tagged l : read_ids l = omap (λ p, about p.2) (tagged l).
Proof.
  unfold read_ids, tagged. induction l as [|[k es] l IH]; [done|]. cbn [mbind list_bind fst snd].
  rewrite !omap_app, IH. f_equal. clear. induction es as [|e es IH]; [done|]. cbn. by rewrite IH.
Qed.

Lemma tends_Work rounds fuel dp d :
  aside_providers dp → owed d = ∅ → tends true (λ d' _, owed d' = ∅) d (Work rounds fuel dp).
Proof.
  intros Hp. revert d. induction rounds as [|rounds IH]; intros d Ho; [done|]. cbn [Work].
  aside_first. match goal with b : bool |- _ => destruct b end; [done|].
  unfold ReadMessages. eapply (tracks_seq _ (λ d' r, owed d' = ∅ ∧
    match r with Ok ms => Forall (in_charge d') ms | Er _ => True end)).
  - apply tends_do; [done|]. intros [[l|]|e] Hx; [|by split|by split]. cbn [pursue redis_pursue].
    eapply tracks_seq; [apply tends_stream_messages; by rewrite received_owed|]. intros d' ms [-> Hms].
    split; [by rewrite received_owed|]. cbn in Hx. rewrite read_ids_tagged in Hx.
    apply Forall_forall. intros m (i & Hm)%list_elem_of_lookup.
    destruct (Forall2_lookup_r _ _ _ _ _ Hms Hm) as (p & Hpi & Hpm).
    eapply received; [done|by eapply list_elem_of_lookup_2|done].
  - intros d' [ms|e] [Ho' Hms].
    + eapply tracks_seq; [by apply tends_process_all|]. intros d'' [] Ho''; [by apply IH|done].
    + aside_first. match goal with b : bool |- _ => destruct b end; [done|]. aside_first. by apply IH.
Qed.

(** ** Delayed retries *)

(** What is owed is about the members that are left. *)
Lemma tends_requeue wk d m ms :
  owed d ⊆ list_to_set (omap member_due (m :: ms)) →
  tends wk (λ d' _, owed d' ⊆ list_to_set (omap member_due ms)) d (requeue m).
Proof.
  intros Ho. unfold requeue. cbn in Ho. unfold member_due at 1 in Ho.
  destruct (parseMember m) as [[|p0 [|p1 [|p2 []]]]|]; try (by apply Ho).
  set (id := match uuid_Parse p0 with Some u => u | None => uuid_Parse_junk p0 end).
  destruct (decide (StreamKey p2 ∈ priority_streams)) as [Hp|Hp].
  - apply tends_Enqueue; [done|intros _]. hnf. cbn. unfold id. destruct (uuid_Parse p0) as [u|]; set_solver.
  - unfold Enqueue. apply tends_do; [done|]. intros x _. cbn [pursue redis_pursue].
    rewrite decide_False by done. by destruct x.
Qed.

Lemma tends_requeue_all wk d ms :
  owed d ⊆ list_to_set (omap member_due ms) → tends wk (λ d' _, owed d' = ∅) d (for_range ms requeue).
Proof.
  revert d. induction ms as [|m ms IH]; intros d Ho; [hnf; cbn in Ho; set_solver|]. cbn [for_range].
  eapply tracks_seq; [by apply (tends_requeue _ _ _ ms)|]. intros d' ? Ho'. by apply IH.
Qed.

Lemma tends_ProcessDelayed ticks d :
  owed d = ∅ → tends false (λ d' _, owed d' = ∅) d (ProcessDelayed ticks).
Proof.
  revert d. induction ticks as [|ticks IH]; intros d Ho; [done|]. cbn [ProcessDelayed].
  aside_first. match goal with b : bool |- _ => destruct b end; [done|].
  eapply (tracks_seq _ (λ d' _, owed d' = ∅)); [|intros d' ? Ho'; by apply IH].
  unfold processDelayedBatch, PopDelayedDue. aside_first.
  eapply (tracks_seq _ (λ d' r, match r with
    | Ok ms => owed d' ⊆ list_to_set (omap member_due ms) | Er _ => owed d' = ∅ end)).
  - apply tends_do; [done|]. intros [ms|e] _; [|done]. destruct ms as [|m ms]; [hnf; cbn; set_solver|].
    apply tends_do; [done|]. intros x _. hnf. cbn [pursue redis_pursue owe owed]. set_solver.
  - intros d' [ms|e] Hr; [|done]. by apply tends_requeue_all.
Qed.

(** ** The scheduler *)

Lemma tends_enqueue_all wk d ns :
  owed d ⊆ list_to_set (n_ID <$> ns) → Forall well_typed ns →
  tends wk (λ d' _, owed d' = ∅) d
    (for_range ns (λ n, run! Enqueue (n_ID n) (n_Channel n) (n_Priority n) in Ret tt)).
Proof.
  revert d. induction ns as [|n ns IH]; intros d Ho Hns; [hnf; cbn in Ho; set_solver|]. cbn [for_range].
  apply Forall_cons in Hns as [Hn Hns]. rewrite fmap_cons in Ho. cbn in Ho.
  eapply (tracks_seq _ (λ d' _, owed d' ⊆ list_to_set (n_ID <$> ns))); [|intros d' ? Ho'; by apply IH].
  apply tends_Enqueue; [by apply valid_priority_stream, Hn|]. intros _. hnf. cbn. set_solver.
Qed.

Lemma tends_run_loop ticks iv limit d :
  owed d = ∅ → tends false (λ d' _, owed d' = ∅) d (run_loop ticks iv limit).
Proof.
  revert d. induction ticks as [|ticks IH]; intros d Ho; [done|]. cbn [run_loop].
  aside_first. match goal with b : bool |- _ => destruct b end; [done|].
  eapply (tracks_seq _ (λ d' _, owed d' = ∅)); [|intros d' ? Ho'; by apply IH].
  unfold poll. eapply (tracks_seq _ (λ d' r, match r with
    | Ok ns => owed d' ⊆ list_to_set (n_ID <$> ns) ∧ Forall well_typed ns | Er _ => owed d' = ∅ end)).
  - unfold FetchScheduledDue. apply tends_do; [left; split; [done|]; split; [done|]; by exists limit|].
    intros x Hx. destruct (Hx eq_refl) as (rows & ns & -> & Hs & Hwt). cbn [pursue pg_pursue fetch_due].
    hnf. rewrite Hs. split; [|done]. apply scan_all_ids in Hs. rewrite Hs. cbn. set_solver.
  - intros d' [ns|e] Hr; [|done]. destruct Hr. by apply tends_enqueue_all.
Qed.

Lemma tends_Run ticks iv limit d :
  owed d = ∅ → tends false (λ d' _, owed d' = ∅) d (Run ticks iv limit).
Proof. unfold Run. destruct (_ <=? _); [by split|apply tends_run_loop]. Qed.

(** ** Creating notifications *)

(** A notification as it is created. *)
Record creatable (n : Notification) : Prop := {
  cr_priority : StreamKey (n_Priority n) ∈ priority_streams;
  cr_status : n_Status n = StatusPending ∨ n_Status n = StatusScheduled;
}.

(** Those of [ns] that are to be sent now, and only they, are owed. *)
Record created (d : Duty) (ns : list Notification) : Prop := {
  cd_owed id : id ∈ owed d → ∃ n, n ∈ ns ∧ n_ID n = id ∧ n_Status n ≠ StatusScheduled;
  cd_begun n : n ∈ ns → n_Status n ≠ StatusScheduled → n_ID n ∈ begun d;
}.

Lemma creatable_live n : creatable n → terminal (n_Status n) = false.
Proof. by intros [_ [-> | ->]]. Qed.

Lemma creatable_ident i c u n : creatable n → creatable (set_ident i c u n).
Proof. intros [? ?]. by destruct n. Qed.

Lemma drafted_new n :
  creatable n → drafted insert_notification (insert_args n (json_Marshal (n_TemplateVars n))).
Proof. intros Hn. split; [done|]. exists n. split; [done|]. by apply creatable_live. Qed.

Lemma tends_Create d n :
  owed d = ∅ → creatable n →
  tends false (λ d' r, match r.2 with
    | Some _ => owed d' = ∅ | None => creatable r.1 ∧ created d' [r.1] end) d (Create n).
Proof.
  intros Ho Hn. unfold Create. do 2 aside_first. 
  match goal with u : UUID, t : Z |- _ => rename u into id, t into now end.
  replace (n_TemplateVars n) with (n_TemplateVars (set_ident id now now n)) by by destruct n.
  apply tends_do; [left; split; [done|]; by apply drafted_new, creatable_ident|].
  intros x _. cbn [pursue pg_pursue insert_notification]. rewrite insert_key_args. destruct x as [k|e]; [|done]. hnf. cbn [fst snd].
  pose proof (creatable_ident id now now n Hn) as Hn'. split; [done|]. case_decide as Hs.
  - split; [by rewrite Ho|]. intros m ->%list_elem_of_singleton ?. done.
  - split; cbn.
    + intros i. rewrite Ho. intros Hi. exists (set_ident id now now n). split; [by left|]. split; [set_solver|done].
    + intros m ->%list_elem_of_singleton _. set_solver.
Qed.

Lemma tends_enqueue_pending d n ns s :
  ns_producer s = true → creatable n → created d (n :: ns) →
  tends false (λ d' _, created d' ns) d (enqueue_pending s n).
Proof.
  intros Hs Hn Hc. unfold enqueue_pending. rewrite Hs, andb_true_r.
  destruct (cr_status _ Hn) as [Ep|Ep]; rewrite Ep; cbn.
  - assert (Hne : n_Status n ≠ StatusScheduled) by by rewrite Ep.
    assert (Hb : n_ID n ∈ begun d) by (eapply cd_begun; [done|by left|done]).
    assert (Hc' : created (discharge (n_ID n) d) ns).
    { split; cbn.
      - intros id Hid. destruct (cd_owed _ _ Hc id) as (m & Hm & <- & ?); [set_solver|].
        apply elem_of_cons in Hm as [->|Hm]; [set_solver|]. by exists m.
      - intros m Hm. apply (cd_begun _ _ Hc). by right. }
    apply tends_Enqueue; [apply Hn|]. intros [e|]; [done|]. by apply tends_UpdateStatus.
  - split.
    + intros id Hid. destruct (cd_owed _ _ Hc id Hid) as (m & Hm & <- & Hne).
      apply elem_of_cons in Hm as [->|Hm]; [done|]. by exists m.
    + intros m Hm. apply (cd_begun _ _ Hc). by right.
Qed.

Lemma tends_enqueue_batch d ns s :
  ns_producer s = true → Forall creatable ns → created d ns →
  tends false (λ d' _, owed d' = ∅) d (enqueue_batch s ns).
Proof.
  intros Hs. revert d. induction ns as [|n ns IH]; intros d Hns Hc; cbn [enqueue_batch].
  { apply set_eq. intros id. split; [|set_solver]. by intros (m & ?%not_elem_of_nil & _)%(cd_owed _ _ Hc). }
  apply Forall_cons in Hns as [Hn Hns]. eapply tracks_seq; [by apply tends_enqueue_pending|].
  intros d' m Hc'. eapply tracks_seq; [by apply IH|]. done.
Qed.
End Duty.
