(* ===== verification/DutySystem.v ===== *)
(** * No notification is lost

    The handlers do their duties as well; so every interleaving of the
    goroutines of the process does, as long as no server fails. Hence the
    theorem: whatever is stored ends, or can be found where it waits. *)

From stdpp Require Import gmap.
From S2P Require Import Prelude GoLib Domain Sql Redis Effects Discipline NotificationRepo.
From S2P Require Import NotificationStore Typed Queue QueueSpec Worker WorkerSpec Validator Templates Service.
From S2P Require Import Api Wiring Interleave History System Running Aside Ledger Custody CustodyStore CustodyInv.
From S2P Require Import CustodyStep CustodySystem Duty DutyInv DutyStep DutyRun.

(** ** Requests *)

Section Requests.
Context {T : UuidText} {HT : UuidTextOk T} {TT : TimeText} {V : StructValidator} {TX : TextTemplate}
  {MP : MailParser} {TP : TimeParse} {JB : JsonBody}.
Context (svc : NotificationService) (Hsvc : ns_producer svc = true).

Lemma tends_batch_inserts h now ns l d :
  drafts d !! h = Some (Some l) → Forall creatable ns → owed d = ∅ →
  tends false (λ d' r, owed d' = ∅ ∧ (r.2 = None → Forall creatable r.1 ∧
    drafts d' !! h = Some (Some (l ++ (note_key <$> r.1))))) d (batch_inserts h now ns).
Proof.
  revert l d. induction ns as [|n ns IH]; intros l d Hl Hns Ho.
  { hnf. rewrite app_nil_r. by split. }
  apply Forall_cons in Hns as [Hn Hns]. cbn [batch_inserts]. aside_first.
  match goal with u : UUID |- _ => rename u into id end.
  apply tends_do; [split; [by apply drafted_new, creatable_ident|by exists l]|].
  intros x _. cbn [pursue pg_pursue]. rewrite insert_key_args, Hl. destruct x as [k|e]; [|by split].
  eapply tracks_seq; [apply (IH (l ++ [note_key (set_ident id now now n)])); [|done..]|].
  - cbn. by rewrite lookup_insert_eq.
  - intros d' [ns' err] [Ho' Hk]. split; [done|]. intros He. cbn in *. destruct (Hk He) as [Hns' Hd].
    split; [constructor; [by apply creatable_ident|done]|]. by rewrite Hd, <- app_assoc.
Qed.

Lemma tends_CreateBatch ns d :
  Forall creatable ns → owed d = ∅ →
  tends false (λ d' r, match r.2 with
    | Some _ => owed d' = ∅ | None => Forall creatable r.1 ∧ created d' r.1 end) d (CreateBatch ns).
Proof.
  intros Hns Ho. unfold CreateBatch. apply tends_do; [done|]. intros [h|e] _; [|done]. cbn [pursue pg_pursue].
  aside_first. eapply tracks_seq; [apply (tends_batch_inserts _ _ _ []); [|done..]|].
  { cbn. by rewrite lookup_insert_eq. }
  intros d1 [ns' err] [Ho1 Hk]. cbn [fst snd] in *.
  eapply (tracks_seq _ (λ d' err, match err with
    | Some _ => owed d' = ∅ | None => Forall creatable ns' ∧ created d' ns' end)).
  - destruct err as [e|]; [done|]. destruct (Hk eq_refl) as [Hc Hd]. rewrite app_nil_l in Hd.
    apply tends_do.
    { split; [done|]. eexists. split; [exact Hd|]. apply Forall_fmap. eapply Forall_impl; [exact Hc|].
      intros n. apply creatable_live. }
    intros [e|] _; [done|]. cbn [pursue pg_pursue]. rewrite Hd. split; [done|]. split; cbn.
    + intros id. rewrite Ho1, (right_id_L ∅ (∪)). intros (p & -> & [Hs (n & -> & Hn)%list_elem_of_fmap]%list_elem_of_filter)%elem_of_list_to_set%list_elem_of_fmap.
      by exists n.
    + intros n Hn Hs. apply elem_of_union_l, elem_of_list_to_set. by apply unscheduled_in.
  - intros d2 err' Hr. apply tends_do; [done|]. intros x _. cbn [pursue pg_pursue].
    destruct err'; [done|]. destruct Hr as [? [Hco Hcb]]. split; [done|]. by split.
Qed.

(** ** Requests as a whole *)

Lemma set_schedule_creatable req n :
  StreamKey (n_Priority n) ∈ priority_streams → creatable (set_schedule req n).
Proof.
  intros Hp. unfold set_schedule. destruct (r_ScheduledAt req), n; (split; [done|]); [by right|by left].
Qed.

(** The priority of the request is the notification's. *)
Lemma tends_from_template d f r req n :
  owed d = ∅ →
  tends false (λ d' x, d' = d ∧ match x with Ok m => n_Priority m = n_Priority n | Er _ => True end) d
    (from_template f r req n).
Proof.
  intros Ho. unfold from_template. destruct (r_TemplateID req); [|done].
  apply tends_aside; [done|apply aside_Template_GetByID|intros [t|e]; [|done]].
  destruct (Render t (r_TemplateVars req)) as [[sb bd]|]; [|done]. split; [done|]. by destruct n.
Qed.

Lemma tends_Service_Create req d :
  owed d = ∅ → tends false (λ d' _, owed d' = ∅) d (NotificationService_Create svc req).
Proof.
  intros Ho. unfold NotificationService_Create. destruct (ValidateStruct _); [done|].
  destruct (negb _); [done|]. destruct (negb (Priority_Valid _)) eqn:Ep; [done|].
  apply negb_false_iff, valid_priority_stream in Ep.
  eapply tracks_seq; [by apply tends_from_template|]. intros d' [n|e] [-> Hn]; [|done].
  destruct (ValidateNotificationContent _ _ _ _); [done|].
  eapply tracks_seq; [apply tends_Create; [done|apply set_schedule_creatable; by rewrite Hn]|].
  intros d' [m [e|]] Hm; [done|]. destruct Hm as [Hc Hcr]. cbn [fst] in *.
  eapply tracks_seq; [by apply (tends_enqueue_pending _ m [])|]. intros d2 m' Hc2.
  apply set_eq. intros id. split; [|set_solver]. by intros (k & ?%not_elem_of_nil & _)%(cd_owed _ _ Hc2).
Qed.

Lemma tends_batch_members b i l d :
  owed d = ∅ →
  tends false (λ d' r, d' = d ∧ match r with Ok ns => Forall creatable ns | Er _ => True end) d
    (batch_members svc b i l).
Proof.
  intros Ho. revert i. induction l as [|r l IH]; intros i; [by split|]. cbn [batch_members].
  eapply (tracks_seq _ (λ d' x, d' = d ∧ match x with Ok m => creatable m | Er _ => True end)).
  - unfold batch_member. destruct (negb _); [done|]. destruct (negb (Priority_Valid _)) eqn:Ep; [done|].
    apply negb_false_iff, valid_priority_stream in Ep.
    eapply tracks_seq; [by apply tends_from_template|]. intros d' [n|e] [-> Hn]; [|done].
    destruct (ValidateNotificationContent _ _ _ _); [done|]. split; [done|].
    apply set_schedule_creatable. by rewrite Hn.
  - intros d' [n|e] [-> Hn]; [|done]. eapply tracks_seq; [apply IH|]. intros d' [ns|e] [-> Hns]; [|done].
    split; [done|]. by constructor.
Qed.

Lemma tends_Service_CreateBatch req d :
  owed d = ∅ → tends false (λ d' _, owed d' = ∅) d (NotificationService_CreateBatch svc req).
Proof.
  intros Ho. unfold NotificationService_CreateBatch. destruct (ValidateStruct _); [done|].
  destruct (_ <? _); [done|]. aside_first. eapply tracks_seq; [by apply tends_batch_members|].
  intros d' [ns|e] [-> Hns]; [|done]. eapply tracks_seq; [by apply tends_CreateBatch|].
  intros d' [ms [e|]] Hms; [done|]. destruct Hms. eapply tracks_seq; [by apply tends_enqueue_batch|done].
Qed.

Lemma passing_idles X (e : Eff X) : passing X e → idles (duty_ledger false) no_duty X e.
Proof.
  intros [He|He]; [by apply aside_idles|].
  destruct e as [X e| | | | | | | | | | | | | | | |]; try done. destruct e as [|s args| | | | |]; try done.
  split; [by left|]. destruct He as ([-> | ->] & id & ->); [|done]. intros [[row|]|]; done.
Qed.

Lemma tends_serve reads rw req r : tends false (λ d' _, owed d' = ∅) no_duty (serve svc reads rw req r).
Proof.
  destruct (creating r) eqn:Er.
  2: { eapply (tracks_mono _ (unmoved no_duty)); [|by intros d' a ->]. apply tracks_idle.
       eapply only_weaken; [apply passing_idles|by apply passing_serve]. }
  destruct r; try done; cbn [serve]; (eapply (tracks_seq _ (λ d' _, owed d' = ∅)); [|done]).
  - unfold NotificationHandler_Create. destruct (Decode_CreateNotification _); [|done].
    eapply tracks_seq; [by apply tends_Service_Create|done].
  - unfold NotificationHandler_CreateBatch. destruct (Decode_BatchCreate _); [|done].
    eapply tracks_seq; [by apply tends_Service_CreateBatch|done].
Qed.

Lemma tends_NewRouter reads req : tends false (λ d' _, owed d' = ∅) no_duty (NewRouter svc reads req).
Proof. apply (tracks_router _ (λ d, owed d = ∅)); try done. intros r. apply tends_serve. Qed.
End Requests.

(** ** The process *)

Section System.
Context {T : UuidText} {HT : UuidTextOk T} {TT : TimeText} {V : StructValidator} {TX : TextTemplate}
  {MP : MailParser} {TP : TimeParse} {JB : JsonBody} {S : Services} {HS : ServicesOk S} {HO : SentOnce S}.

(** The transactions are the same in both accounts. *)
Lemma drafts_opened X (e : Eff X) x g d :
  drafts d = opened g → drafts (pursue e x d) = opened (after e x g).
Proof.
  intros E. destruct e as [X e|X e| | | | | | | | | | | | | | |]; try done.
  - destruct e as [s args|s args|s args| |h s args|h|h]; cbn [pursue pg_pursue after pg_after].
    + transitivity (drafts d); [|rewrite E; symmetry].
      * repeat case_match; done.
      * repeat case_match; done.
    + transitivity (drafts d); [|rewrite E; symmetry].
      * repeat case_match; done.
      * repeat case_match; done.
    + transitivity (drafts d); [|rewrite E; symmetry].
      * repeat case_match; done.
      * repeat case_match; by rewrite ?hold_all_opened.
    + destruct x; cbn; by rewrite E.
    + rewrite E. repeat case_match; cbn; by rewrite E.
    + rewrite E. repeat case_match; cbn; by rewrite ?hold_all_opened, E.
    + cbn. by rewrite E.
  - destruct e; cbn [pursue redis_pursue after redis_after]; try done.
    + repeat case_match; done.
    + destruct x as [[l|]|]; [|done..]. rewrite hold_all_opened, <- E.
      induction (tagged l) as [|[k en] l' IH]; [done|]. cbn [foldr]. unfold receive at 1. by destruct (about _).
    + repeat case_match; done.
    + destruct x as [ms|]; [|done]. by rewrite listed_opened.
    + destruct x; [done|]. by rewrite hold_all_opened.
Qed.

(** A worker takes nothing upon itself. *)
Lemma worker_owes_nothing X (e : Eff X) x d :
  proper true d e → owed d = ∅ → owed (pursue e x d) = ∅.
Proof.
  intros Ha Ho.
  assert (Hdis : ∀ id, owed (discharge id d) = ∅) by (intros id; cbn; set_solver).
  destruct e as [X e|X e| | | | | | | | | | | | | | |]; try done.
  - destruct e as [s args|s args|s args| |h s args|h|h]; cbn [pursue pg_pursue proper pg_proper] in *.
    + destruct Ha as [[? _]|[(t & id & st & le & Heq & _)|[(-> & id & ->)|Hs]]]; [done| |done|].
      * pose proof (status_write_update t id st le) as Hw. rewrite <- Heq in Hw. destruct Hw as [_ Hw].
        specialize (Hw x d). cbn [pg_pursue] in Hw. rewrite Hw. by destruct (terminal st).
      * by destruct s as [[]|[]|[]|[]|[]].
    + repeat case_match; done.
    + destruct Ha as [[? _]|Hs]; [done|]. by destruct s as [[]|[]|[]|[]|[]].
    + by destruct x.
    + repeat case_match; done.
    + by destruct Ha.
    + done.
  - destruct e; cbn [pursue redis_pursue proper redis_proper] in *; try done.
    + repeat case_match; done.
    + destruct x as [[l|]|]; [|done..]. by rewrite received_owed.
    + repeat case_match; done.
    + by destruct Ha.
Qed.

(** The end of the notification was recorded: before, or by an event of the run. *)
Definition recorded (w : World) (tr : list Event) (id : UUID) : Prop :=
  (∃ n, abs (w_db w) !! id = Some n ∧ terminal (n_Status n) = true) ∨ ∃ ev, ev ∈ tr ∧ ends ev = Some id.

Section Run.
Context (r : nat) (w0 : World).

Definition both_ledgers (i : nat) : Ledger (Ghost * Duty) :=
  both (ledgers r i) (duty_ledger (bool_decide (i < r)%nat)).

Definition nothing_owed (i : nat) (gd : Ghost * Duty) (u : unit) : Prop := True ∧ owed gd.2 = ∅.

(** Both accounts hold; the first [r] goroutines are the workers. *)
Record in_charge_of (h : list Event) (w : World) (gds : list (Ghost * Duty)) : Prop := {
  io_custody : in_custody r w gds.*1;
  io_duty : duty (recorded w0 h) w gds.*2;
  io_drafts i gd : gds !! i = Some gd → drafts gd.2 = opened gd.1;
  io_workers i gd : gds !! i = Some gd → (i < r)%nat → owed gd.2 = ∅;
}.

Lemma charge_kept h w gds i gd X (e : Eff X) x w' :
  in_charge_of h w gds → gds !! i = Some gd → system_effect any_ack X e → lg_allowed (both_ledgers i) gd e →
  svc e w x w' → fault (Ev e x) = false →
  in_charge_of (h ++ [Ev e x]) w' (<[i := lg_after (both_ledgers i) e x gd]> gds) ∧
  lg_plausible (both_ledgers i) e x gd ∧ system_answer any_ack X e x.
Proof.
  intros [Hc Hd Hdr Hwk] Hi Hsys Ha Hs Hf. destruct gd as [g d].
  assert (Hg : gds.*1 !! i = Some g) by by rewrite list_lookup_fmap, Hi.
  assert (Hdi : gds.*2 !! i = Some d) by by rewrite list_lookup_fmap, Hi.
  destruct Ha as [Hag Had]. cbn [fst snd] in *.
  pose proof (faultless_claim _ Hf) as Hrem.
  destruct (custody_kept _ _ _ _ _ _ _ _ _ Hc Hg Hsys Hag Hs Hrem) as (Hc' & Hp & Hx).
  destruct Hc as [Hok Hcu Htx].
  destruct (duty_effect (recorded w0 h) r w gds.*1 gds.*2 i d (bool_decide (i < r)%nat) X e x w')
    as [Hd' Hr]; try done.
  { intros h' l Hl. pose proof (Hdr _ _ Hi) as Eo. cbn in Eo. rewrite Eo in Hl. by eapply (ot_inserts _ _ Htx). }
  { intros g' Hg'. rewrite Hg in Hg'. by injection Hg' as <-. }
  split; [|by split]. split.
  - rewrite list_fmap_insert. exact Hc'.
  - rewrite list_fmap_insert. eapply duty_more; [|exact Hd'].
    intros id [[?|(ev & Hin & He)]|He]; [by left|right; exists ev|right; exists (Ev e x)];
      rewrite elem_of_app, list_elem_of_singleton; auto.
  - intros j gd Hj. destruct (decide (j = i)) as [->|Hne].
    + rewrite list_lookup_insert_eq in Hj by (by eapply lookup_lt_Some). injection Hj as <-. cbn.
      apply drafts_opened, (Hdr _ _ Hi).
    + rewrite list_lookup_insert_ne in Hj by done. by apply Hdr in Hj.
  - intros j gd Hj Hlt. destruct (decide (j = i)) as [->|Hne].
    + rewrite list_lookup_insert_eq in Hj by (by eapply lookup_lt_Some). injection Hj as <-. cbn.
      rewrite bool_decide_true in Had by done. by apply worker_owes_nothing; [|apply (Hwk _ _ Hi)].
    + rewrite list_lookup_insert_ne in Hj by done. by eapply Hwk.
Qed.
End Run.

Lemma main_threads_tend cfg rounds fuel ticks reads reqs :
  let r := Z.to_nat (wc_PoolSize (cf_Worker cfg)) in let ts := main_threads cfg rounds fuel ticks reads reqs in
  ∀ i p, ts !! i = Some p → tends (bool_decide (i < r)%nat) (λ d _, owed d = ∅) no_duty p.
Proof.
  intros r ts i p Hp. unfold ts, main_threads, pool_threads, Start in Hp. cbn [main_pool NewPool pl_size] in Hp.
  fold r in Hp.
  apply lookup_app_Some in Hp as [[-> Hi]%lookup_replicate|[Hi Hp]].
  - rewrite bool_decide_true by done. eapply (tracks_seq _ (λ d _, owed d = ∅)); [|done].
    by apply tends_Work; [apply main_aside_providers|].
  - rewrite length_replicate in Hi, Hp. rewrite bool_decide_false by lia.
    apply lookup_app_Some in Hp as [Hp|[_ Hp]].
    + destruct (i - r)%nat as [|[|k]]; [..|done]; injection Hp as <-.
      * by apply tends_ProcessDelayed.
      * by apply tends_Run.
    + apply list_lookup_fmap_Some in Hp as (req & -> & _). eapply tracks_seq; [by apply tends_NewRouter|done].
Qed.

Lemma tended_duty w n :
  (∀ id nt, abs (w_db w) !! id = Some nt → terminal (n_Status nt) = true ∨ awaits w id) →
  duty (recorded w []) w (replicate n no_duty).
Proof.
  intros Ht.
  assert (Hack : ∀ s, ¬ may_ack (replicate n no_duty) s).
  { intros s (j & d & [-> _]%lookup_replicate & Hs). cbn in Hs. set_solver. }
  split.
  - intros id [nt Hn]. destruct (Ht _ _ Hn) as [Hter|Ha]; [apply ca_end; left; by exists nt|].
    destruct Ha as [k e Hk He Ha|k i Hk Hi Hm|m Hm Hdue|nt' Hn' Hs].
    + by eapply ca_message.
    + by eapply ca_letter.
    + by eapply ca_retry.
    + by eapply ca_schedule.
  - intros id nt Hn Hter. left. by exists nt.
  - intros j d id k i [-> _]%lookup_replicate Hl. cbn in Hl. by rewrite lookup_empty in Hl.
  - by intros k i []%Hack.
  - intros j d id [-> _]%lookup_replicate Hb. cbn in Hb. set_solver.
Qed.

(** The goroutine has returned, or waits for its next tick. *)
Definition rests (p : prog unit) : bool :=
  match p with
  | Ret _ => true
  | Vis e _ => match e with SleepOrDone _ => true | _ => false end
  end.

(** Who rests owes nothing. *)
Lemma rests_owes_nothing r i g d p :
  tracks (both_ledgers r i) (nothing_owed i) (g, d) p → rests p = true → owed d = ∅.
Proof.
  destruct p as [u|X e k]; [by intros [_ H]|]. intros [[_ Ha] _] Hr. by destruct e.
Qed.

(** (C3) No notification is lost. As long as no server answers with an error,
    and the Redis client sends no command again, then however the goroutines of the process interleave and whenever it is
    stopped: when the goroutines besides the workers have returned or wait for
    their next tick, every stored notification has its end recorded (it was
    delivered, failed or cancelled), or it can be found where it waits: in a
    priority stream as a message that is not read or not acknowledged, in the
    delayed set as a retry that will be enqueued, or scheduled. *)
Theorem nothing_is_lost cfg rounds fuel ticks reads reqs w tr ts' w' :
  system_ok w → orderly w →
  (∀ id n, abs (w_db w) !! id = Some n → terminal (n_Status n) = true ∨ awaits w id) →
  interleaves (main_threads cfg rounds fuel ticks reads reqs) w tr ts' w' → fault_free tr →
  (∀ i p, (Z.to_nat (wc_PoolSize (cf_Worker cfg)) ≤ i)%nat → ts' !! i = Some p → rests p = true) →
  ∀ id n, abs (w_db w') !! id = Some n → recorded w tr id ∨ awaits w' id.
Proof.
  intros Hok Ho Ht H Hff Hrest id n Hn. set (r := Z.to_nat (wc_PoolSize (cf_Worker cfg))) in *.
  eapply (interleaves_accounted (both_ledgers r) nothing_owed (in_charge_of r w) _ _ _ []) in H
    as (gds & [Hlen Hacc] & [_ Hd _ Hwk]); [| | | | |exact Hff].
  - destruct (du_all _ _ _ Hd id) as [He|k e Hk He Ha|k i Hk Hi Hm _|m Hm Hdue|nt' Hn' Hs|Hob]; [by eexists|..].
    + by left.
    + right. by eapply aw_message.
    + right. by eapply aw_in_flight.
    + right. by eapply aw_retry.
    + right. by eapply aw_schedule.
    + exfalso. destruct Hob as (i & d & Hid & Hin).
      apply list_lookup_fmap_Some in Hid as ([g d'] & -> & Hi). cbn in Hin.
      assert (Howed : owed d' = ∅); [|rewrite Howed in Hin; set_solver].
      destruct (decide (i < r)%nat) as [Hlt|Hge]; [by apply (Hwk _ _ Hi)|].
      destruct (lookup_lt_is_Some_2 ts' i) as [p Hp]; [rewrite <- Hlen; by eapply lookup_lt_Some|].
      eapply rests_owes_nothing; [by eapply Hacc|]. apply (Hrest i); [lia|done].
  - intros. by eapply charge_kept.
  - apply main_threads_safe. by right.
  - instantiate (1 := replicate (length (main_threads cfg rounds fuel ticks reads reqs)) (empty_handed, no_duty)).
    pose proof (main_threads_accounted cfg rounds fuel ticks reads reqs) as [_ Hcu].
    split; [apply length_replicate|]. intros i p gd Hp [-> Hlt]%lookup_replicate. 
    apply (tracks_both (ledgers r i) (duty_ledger (bool_decide (i < r)%nat)) (λ _ _, True) (λ d _, owed d = ∅)).
    + eapply Hcu; [exact Hp|]. by apply lookup_replicate.
    + by eapply main_threads_tend.
  - split.
    + rewrite fmap_replicate. split; [done|by apply orderly_custody|apply replicate_open].
    + rewrite fmap_replicate. by apply tended_duty.
    + by intros i gd [-> _]%lookup_replicate.
    + by intros i gd [-> _]%lookup_replicate.
Qed.
End System.
