(* ===== verification/Plain.v ===== *)
(** * Going through plain programs

    Programs that neither post a notification nor count an attempt nor touch the
    hub, and how to see that a program is one: a tactic that goes through it,
    into the functions it calls, and a lemma for each recursive one. *)

From stdpp Require Import gmap.
From S2P Require Import Prelude GoLib Domain Sql Effects Discipline NotificationRepo Queue RateLimit.
From S2P Require Import Worker Validator Templates Service Api Custody.

(** The statement counts attempts. *)
Definition counting (s : Stmt) : bool :=
  match s with SUpdate Notifications sets _ _ => counts sets | _ => false end.

(** A single notification is read by its id. *)
Definition reads_by_id (s : Stmt) (args : list Val) : Prop :=
  match s with
  | SSelect Notifications _ _ _ _ => s = select_by_id ∧ ∃ id, args = [VUuid id]
  | _ => True
  end.

(** Neither a call of the webhook nor a WebSocket, and nothing of the hub. *)
Definition plain : EffPred := λ X e,
  match e with
  | HttpPost _ _ | WsAccept _ | WsRead _ | WsWrite _ _ | WsClose _ | Mem _ => False
  | Pg (PgExec s _) => counting s = false
  | Pg (PgQueryRow s args) => reads_by_id s args
  | _ => True
  end.

(** Go through a program, into the functions it calls. *)
Create HintDb plain.

Ltac head_of p := lazymatch p with ?f _ => head_of f | _ => p end.

Ltac plain_effect := first [exact I | reflexivity | split; [reflexivity|by eexists]].

Ltac plain_step :=
  first
    [ solve [eauto with plain]
    | exact I
    | by split; [exact I|intros []]
    | apply only_do; plain_effect
    | apply only_for_range; intros ?
    | match goal with
      | |- only _ (bind _ _) => apply only_bind; [|intros ?]
      | |- only _ (match ?x with _ => _ end) => destruct x
      | |- only _ ?p => let h := head_of p in progress unfold h
      end ].

Ltac plain_go := repeat plain_step.

Section Free.
Context {T : UuidText} {TT : TimeText} {V : StructValidator} {TX : TextTemplate}
  {MP : MailParser} {TP : TimeParse} {JB : JsonBody}.

Abbreviation is_plain p := (only plain p).

Lemma plain_rate_gate fuel mx ch : is_plain (rate_gate fuel mx ch).
Proof. induction fuel as [|fuel IH]; cbn [rate_gate]; plain_go. Qed.

Lemma plain_UpdateStatus id st le : is_plain (UpdateStatus id st le).
Proof.
  unfold UpdateStatus. apply only_bind; [by apply only_do|intros now].
  destruct (st =? StatusDelivered)%string; [|destruct (negb (le =? "")%string)]; plain_go.
Qed.

Lemma plain_batch_inserts h now ns : is_plain (batch_inserts h now ns).
Proof. induction ns as [|n ns IH]; cbn [batch_inserts]; plain_go. Qed.

Lemma plain_List f : is_plain (List f).
Proof. unfold List. destruct (build_conditions f) as [[c a] i]. plain_go. Qed.

Lemma plain_Template_Update id req : is_plain (TemplateRepository_Update id req).
Proof. unfold TemplateRepository_Update. destruct (set_clauses req) as [[c a] i]. plain_go. Qed.

Lemma plain_messages_of k es : is_plain (messages_of k es).
Proof. induction es as [|e es IH]; cbn [messages_of]; plain_go. Qed.

Lemma plain_stream_messages l : is_plain (stream_messages l).
Proof.
  induction l as [|[k es] l IH]; cbn [stream_messages]; [done|].
  apply only_bind; [apply plain_messages_of|intros ms]. plain_go.
Qed.
End Free.

#[export] Hint Resolve plain_rate_gate plain_UpdateStatus plain_batch_inserts plain_List plain_Template_Update
  plain_stream_messages : plain.

Section MoreFree.
Context {T : UuidText} {TT : TimeText} {V : StructValidator} {TX : TextTemplate}
  {MP : MailParser} {TP : TimeParse} {JB : JsonBody}.
Context (svc : NotificationService).

Abbreviation is_plain p := (only plain p).

Lemma plain_from_template f r req n : is_plain (from_template f r req n).
Proof. plain_go. Qed.

Lemma plain_batch_members b i l : is_plain (batch_members svc b i l).
Proof.
  revert i. induction l as [|r l IH]; intros i; cbn [batch_members]; [done|].
  apply only_bind; [unfold batch_member; plain_go|intros []; plain_go].
Qed.

Lemma plain_enqueue_batch ns : is_plain (enqueue_batch svc ns).
Proof. induction ns as [|n ns IH]; cbn [enqueue_batch]; plain_go. Qed.

Lemma plain_ProcessDelayed ticks : is_plain (ProcessDelayed ticks).
Proof. induction ticks as [|ticks IH]; cbn [ProcessDelayed]; plain_go. Qed.

Lemma plain_Run ticks iv limit : is_plain (Run ticks iv limit).
Proof.
  unfold Run. destruct (_ <=? _); [by split|].
  induction ticks as [|ticks IH]; cbn [run_loop]; plain_go.
Qed.
End MoreFree.

#[export] Hint Resolve plain_from_template plain_batch_members plain_enqueue_batch
  plain_ProcessDelayed plain_Run : plain.
