(* ===== verification/Tally.v ===== *)
(** * Tally: which notification a call of the webhook was for

    A worker posts a notification it has read, and counts the attempt right
    after that. This file follows it through its program: what it has read and
    whether it has posted it without having counted it yet ([Tally]), what it may
    do then ([tallying]), and that every program of the process keeps to it.
    TallySystem.v concludes how often the webhook is called. *)

From stdpp Require Import gmap.
From S2P Require Import Prelude GoLib Domain Sql Effects Discipline NotificationRepo Queue RateLimit.
From S2P Require Import Delivery Hub Worker Validator Templates Service Api Wiring Interleave Ledger Custody Plain.

(** ** The account *)

(** The notification that was read last, and whether it was posted and its
    attempt has not been counted. *)
Record Tally := mkTally { seen : option Notification; posted : bool }.

Definition blank : Tally := mkTally None false.

(** The call of the webhook that a notification is sent with. *)
Definition call_of (cfg : Config) (n : Notification) : string * list (string * string) :=
  (dc_WebhookBaseURL (cf_Delivery cfg) +:+ channel_path (cf_Delivery cfg) (n_Channel n), channel_payload n).

Definition tally_after {X} (e : Eff X) (x : X) (t : Tally) : Tally :=
  match e in Eff Y return Y → Tally with
  | HttpPost _ _ => λ _, mkTally (seen t) true
  | Pg e => λ x,
      match e in PgE Y return Y → Tally with
      | PgExec s _ => λ _, if counting s then mkTally (seen t) false else t
      | PgQueryRow (SSelect Notifications _ _ _ _) _ => λ x,
          match x with
          | Ok (Some row) =>
              match scan_fields row with Some n => mkTally (Some n) (posted t) | None => t end
          | _ => t
          end
      | _ => λ _, t
      end x
  | _ => λ _, t
  end x.

(** Between posting and counting only time passes. *)
Definition tally_allowed (cfg : Config) {X} (t : Tally) (e : Eff X) : Prop :=
  match e with
  | Now | NewV7 | Observe _ _ _ => True
  | HttpPost url pl => posted t = false ∧ ∃ n, seen t = Some n ∧ (url, pl) = call_of cfg n
  | Pg (PgExec s args) =>
      (s = increment_attempt ∧ posted t = true ∧ ∃ n, seen t = Some n ∧ args = [VUuid (n_ID n)]) ∨
      (counting s = false ∧ posted t = false)
  | Pg (PgQueryRow s args) => posted t = false ∧ reads_by_id s args
  | _ => posted t = false
  end.

Definition tallying (cfg : Config) : Ledger Tally :=
  mkLedger (λ X, @tally_allowed cfg X) (λ _ _ _ _, True) (λ X, @tally_after X).

(** Nothing is posted that was not counted. *)
Definition settled {A} (t : Tally) (_ : A) : Prop := posted t = false.

Abbreviation tallies cfg := (tracks (tallying cfg) settled).

(** ** Programs that neither post nor count *)

Definition no_delivery : EffPred := λ X e,
  match e with
  | HttpPost _ _ => False
  | Pg (PgExec s _) => counting s = false
  | Pg (PgQueryRow s args) => reads_by_id s args
  | _ => True
  end.

Lemma tallies_free cfg t {A} (p : prog A) : only no_delivery p → posted t = false → tallies cfg t p.
Proof.
  revert t. induction p as [a|X e k IH]; intros t; [done|]. intros [He Hk] Ht. split.
  - destruct e as [X e| | | | | | | | | | | | | | | |]; try done. destruct e; try done; first [by right | by split].
  - intros x _. apply IH; [apply Hk|].
    destruct e as [X e| | | | | | | | | | | | | | | |]; try done. destruct e as [s a|s a| | | | |]; cbn in *; try done.
    + by rewrite He.
    + by repeat case_match.
Qed.

Lemma free_plain {A} (p : prog A) : only plain p → only no_delivery p.
Proof.
  apply only_weaken. intros X e He. destruct e as [X e| | | | | | | | | | | | | | | |]; try done; by destruct e.
Qed.

Lemma free_read_loop fuel c : only no_delivery (read_loop fuel c).
Proof. induction fuel as [|fuel IH]; cbn [read_loop]; plain_go. Qed.

#[export] Hint Resolve free_plain free_read_loop : plain.

(** ** The workers *)

Section Workers.
Context {T : UuidText} {HT : UuidTextOk T} {TT : TimeText} {V : StructValidator} {TX : TextTemplate}
  {MP : MailParser} {TP : TimeParse} {JB : JsonBody}.
Context (cfg : Config).

Lemma tallies_seq {A B} t (p : prog A) (f : A → prog B) :
  tallies cfg t p → (∀ t' a, posted t' = false → tallies cfg t' (f a)) → tallies cfg t (bind p f).
Proof. intros Hp Hf. eapply tracks_seq; [exact Hp|]. intros t' a Ht. by apply Hf. Qed.

(** A program that neither posts nor counts, then another. *)
Lemma tallies_then {A B} t (p : prog A) (f : A → prog B) :
  posted t = false → only no_delivery p → (∀ t' a, posted t' = false → tallies cfg t' (f a)) →
  tallies cfg t (bind p f).
Proof. intros Ht Hp. apply tallies_seq. by apply tallies_free. Qed.

(** The provider posts what was read. *)
Lemma tallies_Send ch p n t :
  main_providers cfg !! ch = Some p → n_Channel n = ch → seen t = Some n → posted t = false →
  tracks (tallying cfg) (λ t' _, t' = mkTally (Some n) true) t (Send p n).
Proof.
  unfold main_providers. rewrite !lookup_insert_Some. intros Hp Hch Hs Ht.
  assert (Hpost : ∀ url pl, (url, pl) = call_of cfg n → ∀ B (f : HttpRes → prog B) Q,
    (∀ x, tracks (tallying cfg) Q (mkTally (Some n) true) (f x)) →
    tracks (tallying cfg) Q t (bind (do (HttpPost url pl)) f)).
  { intros url pl Hc B f Q Hf. apply tracks_do; [split; [done|by exists n]|].
    intros x _. cbn [lg_after tallying tally_after]. rewrite Hs. apply Hf. }
  destruct Hp as [[<- <-]|[_ [[<- <-]|[_ [[<- <-]|[_ Hp]]]]]]; [..|by rewrite lookup_empty in Hp];
    cbn [Send EmailProvider SMSProvider PushProvider]; unfold Email_Send, SMS_Send, Push_Send, since_ms;
    (apply tracks_do; [done|intros start _]); apply Hpost;
    try (intros []; apply tracks_do; done);
    unfold call_of, channel_payload, email_payload, sms_payload, push_payload, channel_path; by rewrite Hch.
Qed.

(** Posted, and counted right after. *)
Lemma tallies_deliver_once p n t :
  main_providers cfg !! n_Channel n = Some p → seen t = Some n → posted t = false →
  tallies cfg t (deliver_once n p).
Proof.
  intros Hp Hs Ht. unfold deliver_once. apply tracks_do; [done|intros start _].
  eapply tracks_seq; [by eapply tallies_Send|]. intros t' result ->.
  do 2 (apply tracks_do; [done|intros ? _]).
  eapply (tracks_seq _ settled).
  - unfold IncrementAttempt. apply tracks_do; [left; split; [done|]; split; [done|]; by exists n|].
    intros [] _; done.
  - intros t1 e Ht1. apply tallies_then; [done|plain_go|]. by intros t2 e' Ht2.
Qed.

Lemma tallies_process_notification msg id t :
  posted t = false → tallies cfg t (process_notification (main_dispatcher cfg) msg id).
Proof.
  intros Ht. unfold process_notification.
  eapply (tracks_seq _ (λ t' r, posted t' = false ∧ match r with Ok n => seen t' = Some n | Er _ => True end)).
  { unfold GetByID. apply tracks_do; [split; [done|]; split; [done|]; by exists id|].
    intros [[row|]|] _; [|by split..]. cbn [lg_after tallying tally_after select_by_id scanNotification].
    destruct (scan_fields row); by split. }
  intros t1 [n|e] [Ht1 Hs]; [|apply tallies_free; [plain_go|done]].
  destruct (_ || _ || _); [apply tallies_free; [plain_go|done]|].
  eapply (tracks_seq _ (λ t' _, t' = t1)).
  { unfold UpdateStatus. apply tracks_do; [done|intros now _]. cbn [String.eqb StatusDelivered StatusProcessing].
    apply tracks_do; [by right|]. intros [k|e] _; [destruct (k =? 0)|]; done. }
  intros t2 e ->. change (dp_providers (main_dispatcher cfg)) with (main_providers cfg).
  destruct (main_providers cfg !! n_Channel n) as [p|] eqn:Ep; [|apply tallies_free; [plain_go|done]].
  apply tallies_seq; [by apply tallies_deliver_once|]. intros t3 result Ht3.
  apply tallies_free; [|done]. plain_go.
Qed.

Lemma tallies_process_all fuel ms t :
  posted t = false → tallies cfg t (process_all fuel (main_dispatcher cfg) ms).
Proof.
  revert t. induction ms as [|m ms IH]; intros t Ht; [done|]. cbn [process_all].
  apply tallies_seq; [|intros t1 [] Ht1; [by apply IH|done]].
  unfold processMessage. destruct (uuid_Parse _) as [id|]; [|apply tallies_free; [plain_go|done]].
  apply tallies_then; [done|plain_go|intros t1 [] Ht1; [|done..]].
  apply tallies_seq; [by apply tallies_process_notification|done].
Qed.

Lemma tallies_Work rounds fuel t : posted t = false → tallies cfg t (Work rounds fuel (main_dispatcher cfg)).
Proof.
  revert t. induction rounds as [|rounds IH]; intros t Ht; [done|]. cbn [Work].
  apply tallies_then; [done|plain_go|intros t1 [] Ht1; [done|]].
  apply tallies_then; [done|plain_go|intros t2 [ms|e] Ht2].
  - apply tallies_seq; [by apply tallies_process_all|intros t3 [] Ht3; [by apply IH|done]].
  - apply tallies_then; [done|plain_go|intros t3 [] Ht3; [done|]].
    apply tallies_then; [done|plain_go|intros t4 u Ht4]. by apply IH.
Qed.
End Workers.

(** ** The process *)

Section Process.
Context {T : UuidText} {HT : UuidTextOk T} {TT : TimeText} {V : StructValidator} {TX : TextTemplate}
  {MP : MailParser} {TP : TimeParse} {JB : JsonBody}.
Context (cfg : Config).

Lemma free_serve svc reads rw req r : only no_delivery (serve svc reads rw req r).
Proof.
  destruct r; cbn [serve]; plain_go.
Qed.

Lemma tallies_NewRouter svc reads req t : posted t = false → tallies cfg t (NewRouter svc reads req).
Proof.
  intros Ht. apply (tracks_router _ (λ t, posted t = false)); try done. intros r.
  apply tallies_free; [apply free_serve|done].
Qed.

Lemma main_threads_tally rounds fuel ticks reads reqs :
  Forall (tallies cfg blank) (main_threads cfg rounds fuel ticks reads reqs).
Proof.
  unfold main_threads, pool_threads. rewrite !Forall_app. split_and!.
  - apply Forall_replicate. apply tallies_seq; [by apply tallies_Work|done].
  - repeat constructor; (apply tallies_free; [|done]); apply free_plain; [apply plain_ProcessDelayed|apply plain_Run].
  - apply Forall_fmap, Forall_true. intros req. apply tallies_seq; [by apply tallies_NewRouter|done].
Qed.
End Process.
