(* ===== verification/TallySystem.v ===== *)
(** * How often the webhook is called

    Every effect that a tally allows keeps the books: each call of the webhook so
    far was for a stored notification, and as many attempts of it were counted,
    up to the goroutines that are about to count one. These have the notification
    in hand (Custody.v), so there is one at most, and an attempt is left. Hence
    the bound on the calls, for every interleaving. *)

From stdpp Require Import gmap.
From S2P Require Import Prelude GoLib Domain Sql Effects Discipline NotificationRepo NotificationStore.
From S2P Require Import Typed History Queue Delivery Worker Validator Templates Service Api Wiring.
From S2P Require Import Interleave System Running Aside Ledger Custody CustodyStore CustodyInv CustodyStep.
From S2P Require Import CustodySystem Plain Tally.

(** ** Counting *)

Section Count.
Context {A : Type} (P : A → Prop) `{!∀ x, Decision (P x)}.

Definition count (l : list A) : Z := Z.of_nat (length (filter P l)).

Lemma count_snoc l x : count (l ++ [x]) = count l + if decide (P x) then 1 else 0.
Proof.
  unfold count. rewrite filter_app, length_app, filter_cons, filter_nil. case_decide; cbn [length]; lia.
Qed.

Lemma count_insert l i x y :
  l !! i = Some x →
  count (<[i := y]> l) + (if decide (P x) then 1 else 0) = count l + if decide (P y) then 1 else 0.
Proof.
  unfold count. revert i. induction l as [|z l IH]; intros [|i] Hl; try done; cbn in Hl.
  - injection Hl as ->. change (<[0%nat := y]> (x :: l)) with (y :: l).
    rewrite !filter_cons. do 2 case_decide; cbn [length]; lia.
  - specialize (IH _ Hl). change (<[Datatypes.S i := y]> (z :: l)) with (z :: <[i := y]> l).
    rewrite !filter_cons. destruct (decide (P z)); cbn [length]; lia.
Qed.

Lemma count_nonneg l : 0 ≤ count l.
Proof. unfold count. lia. Qed.

Lemma count_none l : (∀ x, x ∈ l → ¬ P x) → count l = 0.
Proof. intros Hn. unfold count. rewrite filter_none; [done|]. by apply Forall_forall. Qed.

(** One place in the list satisfies it at most. *)
Lemma count_le_1 l :
  (∀ i j x y, l !! i = Some x → l !! j = Some y → P x → P y → i = j) → count l ≤ 1.
Proof.
  unfold count. induction l as [|z l IH]; intros Hu; [done|]. rewrite filter_cons. case_decide as Hz.
  - fold (count l). rewrite filter_none; [done|]. apply Forall_forall.
    intros y (j & Hj)%list_elem_of_lookup Hy. by specialize (Hu 0%nat (Datatypes.S j) z y eq_refl Hj Hz Hy).
  - apply IH. intros i j x y Hi Hj Hx Hy. by specialize (Hu (Datatypes.S i) (Datatypes.S j) x y Hi Hj Hx Hy) as [= ->].
Qed.

Lemma count_pos l : 0 < count l → ∃ i x, l !! i = Some x ∧ P x.
Proof.
  unfold count. intros Hp. destruct (filter P l) as [|x k] eqn:E; [done|].
  assert (Hx : x ∈ filter P l) by (rewrite E; by left).
  apply list_elem_of_filter in Hx as [Hx (i & Hi)%list_elem_of_lookup]. by exists i, x.
Qed.
End Count.

Definition occurrences (id : UUID) (ids : list UUID) : Z := count (λ i, i = id) ids.

(** ** The books *)

(** The attempts counted of a notification: none, of one that is not stored. *)
Definition attempts_of (S : Store) (id : UUID) : Z :=
  match S !! id with Some n => n_AttemptCount n | None => 0 end.

(** The call of the webhook sent the notification. *)
Definition sent_for (cfg : Config) (S : Store) (id : UUID)
    (post : string * list (string * string) * HttpRes) : Prop :=
  ∃ n, S !! id = Some n ∧ post.1 = call_of cfg n.

(** The goroutine has posted the notification and not counted it. *)
Definition pending (id : UUID) (t : Tally) : Prop := posted t = true ∧ n_ID <$> seen t = Some id.

#[export] Instance pending_dec id t : Decision (pending id t).
Proof. unfold pending. apply _. Defined.

(** No attempt's count was answered with an error. *)
Definition count_failed (ev : Event) : bool :=
  match ev with
  | Ev e x =>
      match e in Eff Y return Y → bool with
      | Pg e => λ x,
          match e in PgE Y return Y → bool with
          | PgExec s _ => λ x, counting s && negb (is_ok x)
          | _ => λ _, false
          end x
      | _ => λ _, false
      end x
  end.

Definition counts_answered (tr : list Event) : Prop := Forall (λ ev, count_failed ev = false) tr.

#[export] Instance counts_answered_dec tr : Decision (counts_answered tr).
Proof. unfold counts_answered. apply _. Defined.

Record tallied (cfg : Config) (S0 : Store) (h : list Event) (w : World) (ts : list Tally) : Prop := {
  ta_evolves : evolves S0 (abs (w_db w));
  ta_seen i t n : ts !! i = Some t → seen t = Some n → ∃ m, abs (w_db w) !! n_ID n = Some m ∧ same_request n m;
  ta_calls : ∃ ids, Forall2 (sent_for cfg (abs (w_db w))) ids (posts h) ∧
    ∀ id, is_Some (abs (w_db w) !! id) →
      attempts_of S0 id + occurrences id ids ≤ attempts_of (abs (w_db w)) id + count (pending id) ts;
}.

Lemma same_request_call cfg n m : same_request n m → call_of cfg m = call_of cfg n.
Proof.
  intros (_ & _ & _ & Hc & _ & Hr & Hs & Hb & _). unfold call_of, channel_payload. by rewrite Hc, Hr, Hs, Hb.
Qed.

Lemma sent_for_evolves cfg S S' id p : evolves S S' → sent_for cfg S id p → sent_for cfg S' id p.
Proof.
  intros He (n & Hn & Hp). destruct (He _ _ Hn) as (m & Hm & Hr & _). exists m. split; [done|].
  by rewrite (same_request_call _ n).
Qed.

Lemma posts_one {X} (e : Eff X) x : no_post _ e → posts [Ev e x] = [].
Proof. by destruct e. Qed.

Section Step.
Context {S : Services} {HS : ServicesOk S} {HO : SentOnce S}.
Context (cfg : Config) (S0 : Store) (h : list Event) (w w' : World) (ts : list Tally) (i : nat) (t : Tally).
Context (Ht : tallied cfg S0 h w ts) (Hi : ts !! i = Some t).
Context (Hev : evolves (abs (w_db w)) (abs (w_db w'))).
Context (Hpos : ∀ id n, abs (w_db w') !! id = Some n → 0 ≤ n_AttemptCount n).

Lemma attempts_later id : is_Some (abs (w_db w) !! id) → attempts_of (abs (w_db w)) id ≤ attempts_of (abs (w_db w')) id.
Proof. intros [n Hn]. destruct (Hev _ _ Hn) as (m & Hm & _ & Hle). unfold attempts_of. by rewrite Hn, Hm. Qed.

(** What was read is still stored, and what this goroutine reads is. *)
Lemma seen_step t' :
  (∀ n, seen t' = Some n → seen t = Some n ∨ abs (w_db w) !! n_ID n = Some n) →
  ∀ j tj n, <[i := t']> ts !! j = Some tj → seen tj = Some n →
    ∃ m, abs (w_db w') !! n_ID n = Some m ∧ same_request n m.
Proof.
  intros Hnew j tj n Hj Hn.
  assert (Hold : ∃ m, abs (w_db w) !! n_ID n = Some m ∧ same_request n m).
  { destruct (decide (j = i)) as [->|Hne].
    - rewrite list_lookup_insert_eq in Hj by (by eapply lookup_lt_Some). injection Hj as <-.
      destruct (Hnew _ Hn) as [Hs|Hs]; [by eapply (ta_seen _ _ _ _ _ Ht)|by exists n].
    - rewrite list_lookup_insert_ne in Hj by done. by eapply (ta_seen _ _ _ _ _ Ht). }
  destruct Hold as (m & Hm & Hr). destruct (Hev _ _ Hm) as (m' & Hm' & Hr' & _).
  exists m'. split; [done|]. by etrans.
Qed.

(** The calls so far are still accounted for. *)
Lemma calls_step t' ids :
  Forall2 (sent_for cfg (abs (w_db w))) ids (posts h) →
  (∀ id, is_Some (abs (w_db w) !! id) →
     attempts_of S0 id + occurrences id ids ≤ attempts_of (abs (w_db w')) id + count (pending id) (<[i := t']> ts)) →
  Forall2 (sent_for cfg (abs (w_db w'))) ids (posts h) ∧
  ∀ id, is_Some (abs (w_db w') !! id) →
    attempts_of S0 id + occurrences id ids ≤ attempts_of (abs (w_db w')) id + count (pending id) (<[i := t']> ts).
Proof.
  intros Hids Hle. split; [eapply Forall2_impl; [exact Hids|]; intros; by eapply sent_for_evolves|].
  intros id [n Hn]. destruct (abs (w_db w) !! id) as [m|] eqn:E; [by apply Hle|].
  assert (E0 : attempts_of S0 id = 0).
  { unfold attempts_of. destruct (S0 !! id) as [m|] eqn:Em; [|done].
    destruct (ta_evolves _ _ _ _ _ Ht _ _ Em) as (m' & Hm' & _). congruence. }
  assert (Hno : occurrences id ids = 0).
  { apply count_none. intros j Hj ->. apply list_elem_of_lookup in Hj as [k Hk].
    destruct (Forall2_lookup_l _ _ _ _ _ Hids Hk) as (p & _ & m & Hm & _). congruence. }
  rewrite E0, Hno. unfold attempts_of. rewrite Hn.
  pose proof (Hpos _ _ Hn). pose proof (count_nonneg (pending id) (<[i := t']> ts)). lia.
Qed.

(** Nothing is posted or counted. *)
Lemma tallied_same ev t' :
  posts [ev] = [] → (∀ id, pending id t' ↔ pending id t) →
  (∀ n, seen t' = Some n → seen t = Some n ∨ abs (w_db w) !! n_ID n = Some n) →
  tallied cfg S0 (h ++ [ev]) w' (<[i := t']> ts).
Proof.
  intros Hp Hpend Hseen. destruct (ta_calls _ _ _ _ _ Ht) as (ids & Hids & Hle).
  split; [by etrans; [apply (ta_evolves _ _ _ _ _ Ht)|]|by apply seen_step|].
  exists ids. rewrite posts_app, Hp, app_nil_r. apply calls_step; [done|]. intros id Hid.
  pose proof (count_insert (pending id) ts i t t' Hi) as Hc. rewrite (decide_ext _ _ _ _ (Hpend id)) in Hc.
  specialize (Hle id Hid). pose proof (attempts_later _ Hid). lia.
Qed.

(** A notification that was read is posted. *)
Lemma tallied_post url pl x n :
  abs (w_db w') = abs (w_db w) → posted t = false → seen t = Some n → (url, pl) = call_of cfg n →
  tallied cfg S0 (h ++ [Ev (HttpPost url pl) x]) w' (<[i := mkTally (seen t) true]> ts).
Proof.
  intros E Hp Hs Hc. destruct (ta_calls _ _ _ _ _ Ht) as (ids & Hids & Hle).
  destruct (ta_seen _ _ _ _ _ Ht _ _ _ Hi Hs) as (m & Hm & Hr).
  split; [etrans; [apply (ta_evolves _ _ _ _ _ Ht)|done]|apply seen_step; by left|].
  exists (ids ++ [n_ID n]). rewrite posts_app. rewrite E in *. split.
  - apply Forall2_app; [done|]. repeat constructor. exists m. split; [done|].
    cbn. by rewrite (same_request_call _ n).
  - intros id Hid. specialize (Hle id Hid).
    pose proof (count_insert (pending id) ts i t (mkTally (seen t) true) Hi) as Hn.
    rewrite (decide_False (P := pending id t)) in Hn by (intros [? _]; congruence).
    unfold occurrences in *. rewrite count_snoc.
    assert (Hiff : pending id (mkTally (seen t) true) ↔ n_ID n = id).
    { unfold pending. cbn. rewrite Hs. cbn. naive_solver. }
    rewrite (decide_ext _ _ _ _ Hiff) in Hn. case_decide; lia.
Qed.

(** Its attempt is counted. *)
Lemma tallied_count n k ev :
  posts [ev] = [] → posted t = true → seen t = Some n →
  svc (Pg (PgExec increment_attempt [VUuid (n_ID n)])) w (Ok k) w' → db_ok (w_db w) →
  tallied cfg S0 (h ++ [ev]) w' (<[i := mkTally (seen t) false]> ts).
Proof.
  intros Hp Hpo Hs Hsvc Hok. destruct (ta_calls _ _ _ _ _ Ht) as (ids & Hids & Hle).
  destruct (ta_seen _ _ _ _ _ Ht _ _ _ Hi Hs) as (m & Hm & Hr).
  split; [by etrans; [apply (ta_evolves _ _ _ _ _ Ht)|]|apply seen_step; by left|].
  exists ids. rewrite posts_app, Hp, app_nil_r. apply calls_step; [done|]. intros id Hid. specialize (Hle id Hid).
  pose proof (count_insert (pending id) ts i t (mkTally (seen t) false) Hi) as Hn.
  rewrite (decide_False (P := pending id (mkTally (seen t) false))) in Hn by by intros [? _].
  assert (Hiff : pending id t ↔ n_ID n = id).
  { unfold pending. rewrite Hpo, Hs. cbn. naive_solver. }
  rewrite (decide_ext _ _ _ _ Hiff) in Hn.
  assert (Ha : attempts_of (abs (w_db w')) id =
               attempts_of (abs (w_db w)) id + if decide (n_ID n = id) then 1 else 0).
  { apply increment_statement in Hsvc as [[_ Hno]|(s & now & Hst & ->)]; [|..|done].
    { rewrite Hno in Hm by done. done. }
    unfold attempts_of. case_decide as Hd; [subst id|by rewrite lookup_insert_ne, Z.add_0_r].
    rewrite lookup_insert_eq, Hst. by destruct s. }
  case_decide; lia.
Qed.

Lemma tallied_step X (e : Eff X) x :
  svc e w x w' → db_ok (w_db w) → tally_allowed cfg t e → count_failed (Ev e x) = false →
  tallied cfg S0 (h ++ [Ev e x]) w' (<[i := tally_after e x t]> ts).
Proof.
  intros Hs Hok Ha Hcf.
  assert (Hsame : no_post _ e → tally_after e x t = t → tallied cfg S0 (h ++ [Ev e x]) w' (<[i := tally_after e x t]> ts)).
  { intros Hp ->. apply tallied_same; [by apply posts_one|done|by left]. }
  destruct e as [X e| |url pl| | | | | | | | | | | | | |]; try by apply Hsame.
  - destruct e as [s args|s args| | | | |]; try by apply Hsame.
    + destruct Ha as [(-> & Hp & n & Hn & ->)|[Hcs Hp]].
      * destruct x as [k|]; [|done]. by eapply (tallied_count n k).
      * apply Hsame; [done|]. cbn. by rewrite Hcs.
    + destruct s as [|[] cols wh ord lim| | |]; try by apply Hsame.
      destruct Ha as [Hp [Hq (id & ->)]]. rewrite Hq in *. apply select_statement in Hs as [_ Hx]; [|done].
      destruct x as [[row|]|]; [|by apply Hsame..]. destruct Hx as (n & Hsc & Hn).
      cbn [tally_after select_by_id]. rewrite Hsc. apply tallied_same; [done| |].
      * intros id'. unfold pending. cbn. rewrite Hp. naive_solver.
      * intros n' [= <-]. right.
        assert (n_ID n = id) as -> by (by apply (rt_ids _ (db_ok_typed _ Hok)) in Hn). done.
  - destruct Ha as (Hp & n & Hn & Hc). cbn [tally_after]. eapply tallied_post; try done.
    apply http_doc in Hs as (t' & _ & ->). done.
Qed.
End Step.

(** ** The theorem *)

Section System.
Context {T : UuidText} {HT : UuidTextOk T} {TT : TimeText} {V : StructValidator} {TX : TextTemplate}
  {MP : MailParser} {TP : TimeParse} {JB : JsonBody} {S : Services} {HS : ServicesOk S} {HO : SentOnce S}.
Context (cfg : Config).

Definition counted_ledgers (r i : nat) : Ledger (Ghost * Tally) := both (ledgers r i) (tallying cfg).

Definition all_settled (i : nat) (gt : Ghost * Tally) (u : unit) : Prop := True ∧ posted gt.2 = false.

(** Both accounts hold. *)
Record on_the_books (r : nat) (S0 : Store) (h : list Event) (w : World) (gts : list (Ghost * Tally)) : Prop := {
  ob_custody : in_custody r w gts.*1;
  ob_tally : tallied cfg S0 h w gts.*2;
}.

Lemma books_kept r S0 h w gts i gt X (e : Eff X) x w' :
  on_the_books r S0 h w gts → gts !! i = Some gt → system_effect any_ack X e → lg_allowed (counted_ledgers r i) gt e →
  svc e w x w' → claim_unsure (Ev e x) = false ∧ count_failed (Ev e x) = false →
  on_the_books r S0 (h ++ [Ev e x]) w' (<[i := lg_after (counted_ledgers r i) e x gt]> gts) ∧
  lg_plausible (counted_ledgers r i) e x gt ∧ system_answer any_ack X e x.
Proof.
  intros [Hc Ht] Hi Hsys [Hag Hat] Hs [Hrem Hcnt]. destruct gt as [g t]. cbn [fst snd] in *.
  assert (Hg : gts.*1 !! i = Some g) by by rewrite list_lookup_fmap, Hi.
  assert (Hti : gts.*2 !! i = Some t) by by rewrite list_lookup_fmap, Hi.
  destruct (custody_kept _ _ _ _ _ _ _ _ _ Hc Hg Hsys Hag Hs Hrem) as (Hc' & Hp & Hx).
  split; [|by split]. split; rewrite list_fmap_insert; [exact Hc'|].
  destruct Hc as [Hok _ _]. eapply (tallied_step cfg S0 h w w' _ i t Ht Hti); try done; [..|apply Hok].
  - by apply (effect_step any_ack) in Hs as [[] _]; [|done|apply any_permits|done].
  - intros id n Hn. apply (cu_bound _ _ _ (ic_custody _ _ _ Hc') _ _ Hn).
Qed.

(** Who has posted and not counted is about to count, so it has the notification
    in hand. *)
Lemma pending_held r i g t p id :
  tracks (counted_ledgers r i) (all_settled i) (g, t) p → pending id t → ∃ n, held g !! id = Some (Holding n).
Proof.
  intros H [Hp Hs]. revert g t H Hp Hs. induction p as [u|X e k IH]; intros g t H Hp Hs.
  { destruct H as [_ H]. cbn in H. congruence. }
  destruct H as [[Ha Hat] Hk]. cbn [fst snd] in *.
  destruct e as [X e| | | | | | | | | | | | | | | |]; cbn in Hat; try congruence.
  - destruct e as [s args|s args| | | | |]; cbn in Hat; try congruence.
    + destruct Hat as [(-> & _ & n & Hn & ->)|[_ ?]]; [|congruence]. rewrite Hn in Hs. injection Hs as <-.
      destruct Ha as [([=] & _)|[(_ & i' & n' & [= <-] & Hh)|[Hcs Hg]]]; [by eexists|].
      specialize (Hcs eq_refl). apply Forall_cons in Hcs as [[Hin|[[=] _]] _]. cbn in Hin.
      rewrite !elem_of_cons, elem_of_nil in Hin. intuition discriminate.
    + destruct Hat; congruence.
  - destruct Hat; congruence.
  - by apply (IH 0 g t (Hk 0 (conj I I))).
  - by apply (IH uuid_Nil g t (Hk uuid_Nil (conj I I))).
  - by apply (IH tt g t (Hk tt (conj I I))).
Qed.

Lemma blank_tallied w n : tallied cfg (abs (w_db w)) [] w (replicate n blank).
Proof.
  split; [done| |].
  - by intros i t m [-> _]%lookup_replicate.
  - exists []. split; [done|]. intros id _. change (occurrences id []) with 0. pose proof (count_nonneg (pending id) (replicate n blank)). lia.
Qed.

(** The books of a run of the process. *)
Lemma main_books rounds fuel ticks reads reqs w tr ts' w' :
  system_ok w → orderly w → interleaves (main_threads cfg rounds fuel ticks reads reqs) w tr ts' w' →
  claims_settled tr → counts_answered tr →
  ∃ r gts, accounted (counted_ledgers r) all_settled ts' gts ∧ on_the_books r (abs (w_db w)) tr w' gts.
Proof.
  intros Hok Ho H Hrem Hcnt. set (r := Z.to_nat (wc_PoolSize (cf_Worker cfg))).
  set (ts := main_threads cfg rounds fuel ticks reads reqs) in *.
  assert (Hev : Forall (λ ev, claim_unsure ev = false ∧ count_failed ev = false) tr) by by apply Forall_and.
  eapply (interleaves_accounted (counted_ledgers r) all_settled (on_the_books r (abs (w_db w))) _ _ _ []
    _ _ _ _ _ (replicate (length ts) (empty_handed, blank))) in H as (gts & Hacc & Hb); [| | | | |exact Hev].
  - by exists r, gts.
  - intros. by eapply books_kept.
  - apply main_threads_safe. by right.
  - split; [apply length_replicate|]. intros i p g Hp [-> Hi]%lookup_replicate.
    destruct (main_threads_accounted cfg rounds fuel ticks reads reqs) as [_ Ha].
    pose proof (main_threads_tally cfg rounds fuel ticks reads reqs) as Hta. rewrite Forall_lookup in Hta.
    eapply tracks_mono; [apply tracks_both; [eapply (Ha i p empty_handed)|by eapply Hta]|done]; [done|].
    by apply lookup_replicate.
  - split; rewrite fmap_replicate; [|apply blank_tallied].
    split; [done|by apply orderly_custody|apply replicate_open].
Qed.

(** At most one goroutine is about to count an attempt of a notification, and
    only if there is one left. *)
Lemma pending_within r S0 h w ts gts id n :
  accounted (counted_ledgers r) all_settled ts gts → on_the_books r S0 h w gts → abs (w_db w) !! id = Some n →
  n_AttemptCount n + count (pending id) gts.*2 ≤ Z.max 1 (n_MaxRetries n).
Proof.
  intros [Hlen Hacc] [[_ Hc _] _] Hn. pose proof (cu_bound _ _ _ Hc _ _ Hn) as Hb.
  assert (Hholds : ∀ i t, gts.*2 !! i = Some t → pending id t →
    ∃ g m, gts.*1 !! i = Some g ∧ held g !! id = Some (Holding m)).
  { intros i t Hi Hp. apply list_lookup_fmap_Some in Hi as ([g t'] & -> & Hi).
    destruct (lookup_lt_is_Some_2 ts i) as [p Hp']; [rewrite <- Hlen; by eapply lookup_lt_Some|].
    destruct (pending_held _ _ _ _ _ _ (Hacc _ _ _ Hp' Hi) Hp) as [m Hm].
    exists g, m. split; [by rewrite list_lookup_fmap, Hi|done]. }
  destruct (Z.lt_ge_cases 0 (count (pending id) gts.*2)) as [Hpos|Hz]; [|lia].
  destruct (count_pos _ _ Hpos) as (i & t & Hi & Hp). destruct (Hholds _ _ Hi Hp) as (g & m & Hg & Hh).
  pose proof (cu_phases _ _ _ Hc _ _ _ _ Hg Hh n Hn) as (_ & _ & Hlt).
  assert (count (pending id) gts.*2 ≤ 1); [|lia].
  apply count_le_1. intros j k tj tk Hj Hk Hpj Hpk.
  destruct (Hholds _ _ Hj Hpj) as (gj & mj & Hgj & Hhj). destruct (Hholds _ _ Hk Hpk) as (gk & mk & Hgk & Hhk).
  assert (E : WithThread j = WithThread k); [|by injection E].
  eapply (cu_unique _ _ _ Hc id); [exists gj|exists gk]; by rewrite ?Hhj, ?Hhk.
Qed.

(** (C6) The webhook is never called more often than the retry limits allow. As
    long as the Redis client sends no command again, no removal from the delayed
    set and no count of an attempt is answered with an error and the rows of the
    scheduler's UPDATE do not break off, then however the goroutines of the process
    interleave, whatever else fails and whenever the process is stopped: each
    call of the webhook sent a stored notification (to the URL of its channel,
    with its content), and none was sent more often than it had attempts left
    when the process started, its retry limit (or one, if that is zero) less
    the attempts counted until then. *)
Theorem webhook_calls_bounded rounds fuel ticks reads reqs w tr ts' w' :
  system_ok w → orderly w → interleaves (main_threads cfg rounds fuel ticks reads reqs) w tr ts' w' →
  claims_settled tr → counts_answered tr →
  ∃ ids, Forall2 (sent_for cfg (abs (w_db w'))) ids (posts tr) ∧
    ∀ id n, abs (w_db w') !! id = Some n →
      occurrences id ids ≤ Z.max 1 (n_MaxRetries n) - attempts_of (abs (w_db w)) id.
Proof.
  intros Hok Ho H Hrem Hcnt. destruct (main_books _ _ _ _ _ _ _ _ _ Hok Ho H Hrem Hcnt) as (r & gts & Hacc & Hb).
  destruct (ta_calls _ _ _ _ _ (ob_tally _ _ _ _ _ Hb)) as (ids & Hids & Hle). exists ids. split; [done|].
  intros id n Hn. specialize (Hle id (mk_is_Some _ _ Hn)). unfold attempts_of at 2 in Hle. rewrite Hn in Hle.
  pose proof (pending_within _ _ _ _ _ _ _ _ Hacc Hb Hn). lia.
Qed.
End System.
