(* ===== verification/Sockets.v ===== *)
(** * WebSockets behind the router

    The hub alone does what it promises (HubSpec.v). But the router serves every
    request through Logging, whose writer is not a [http.Hijacker]: each handshake
    is refused, and no client ever watches a notification. *)

From stdpp Require Import gmap.
From S2P Require Import Prelude GoLib Domain Sql Effects Discipline NotificationRepo Queue RateLimit.
From S2P Require Import Delivery Hub Worker Validator Templates Service Api Wiring Interleave Ledger Custody.
From S2P Require Import Plain Frames.

(** ** What may happen to an empty hub *)

Definition hub_idle {X} (e : Eff X) : Prop :=
  match e with
  | Mem f => (f empty_hub).2 = empty_hub
  | WsAccept rw => Hijacker rw = false
  | WsRead _ | WsWrite _ _ | WsClose _ => False
  | _ => True
  end.

(** What is read of it, and how a handshake ends. *)
Definition hub_answer {X} (e : Eff X) (x : X) : Prop :=
  match e in Eff Y return Y → Prop with
  | Mem f => λ x, x = (f empty_hub).1
  | WsAccept _ => λ x, is_ok x = false
  | _ => λ _, True
  end x.

Definition unwatched : Ledger unit :=
  mkLedger (λ X _ e, hub_idle e) (λ X e x _, hub_answer e x) (λ _ _ _ _, tt).

Abbreviation idles_hub p := (tracks unwatched (λ _ _, True) tt p).

Lemma idles_guarded {A} (p : prog A) :
  idles_hub p → guarded (λ X e, hub_idle e) (λ X e x, hub_answer e x) p.
Proof. induction p as [a|X e k IH]; [done|]. intros [He Hk]. split; [done|]. intros x Hx. by apply IH, Hk. Qed.

Lemma idles_plain {A} (p : prog A) : only plain p → idles_hub p.
Proof.
  induction p as [a|X e k IH]; [done|]. intros [He Hk]. split; [by destruct e|]. intros x _. apply IH, Hk.
Qed.

Lemma idles_seq {A B} (p : prog A) (f : A → prog B) :
  idles_hub p → (∀ a, idles_hub (f a)) → idles_hub (bind p f).
Proof. intros Hp Hf. eapply tracks_seq; [exact Hp|]. by intros []. Qed.

(** Go through a program: its plain parts at once. *)
Create HintDb sockets.

Ltac idle_step :=
  first
    [ solve [eauto with sockets]
    | solve [apply idles_plain; plain_go]
    | match goal with
      | |- tracks _ _ _ (bind _ _) => apply idles_seq; [|intros ?]
      | |- tracks _ _ _ (match ?x with _ => _ end) => destruct x
      end ].

Ltac idle_go := repeat idle_step.

Section Programs.
Context {T : UuidText} {TT : TimeText} {V : StructValidator} {TX : TextTemplate}
  {MP : MailParser} {TP : TimeParse} {JB : JsonBody}.

(** Nobody watches, so nothing is sent. *)
Lemma idles_Broadcast id st : idles_hub (Broadcast id st).
Proof.
  unfold Broadcast. apply tracks_do; [done|]. intros ref Href. cbn in Href. rewrite lookup_empty in Href. subst ref.
  apply tracks_do; [done|]. intros n Hn. cbn in Hn. subst n. exact I.
Qed.

Lemma idles_Send cfg ch p n : main_providers cfg !! ch = Some p → idles_hub (Send p n).
Proof.
  unfold main_providers. rewrite !lookup_insert_Some.
  intros [[_ <-]|[_ [[_ <-]|[_ [[_ <-]|[_ Hp]]]]]]; [..|by rewrite lookup_empty in Hp];
    cbn [Send EmailProvider SMSProvider PushProvider]; unfold Email_Send, SMS_Send, Push_Send;
    (apply tracks_do; [done|intros start _]); (apply tracks_do; [done|]);
    intros [] _; apply idles_plain; plain_go.
Qed.

Lemma idles_IncrementAttempt id : idles_hub (IncrementAttempt id).
Proof. unfold IncrementAttempt. apply tracks_do; [done|]. by intros [] _. Qed.
End Programs.

#[export] Hint Resolve idles_Broadcast idles_IncrementAttempt : sockets.

Section Process.
Context {T : UuidText} {TT : TimeText} {V : StructValidator} {TX : TextTemplate}
  {MP : MailParser} {TP : TimeParse} {JB : JsonBody}.
Context (cfg : Config).

Lemma idles_settle n msg r : idles_hub (settle n msg r).
Proof. unfold settle. idle_go. Qed.

Lemma idles_process_all fuel ms : idles_hub (process_all fuel (main_dispatcher cfg) ms).
Proof.
  induction ms as [|m ms IH]; [done|]. cbn [process_all]. apply idles_seq; [|by intros []].
  unfold processMessage. destruct (uuid_Parse _) as [id|]; [|apply idles_plain; plain_go].
  apply idles_seq; [apply idles_plain; plain_go|intros []; [|done..]]. apply idles_seq; [|done].
  unfold process_notification. apply idles_seq; [apply idles_plain; plain_go|intros [n|e]].
  2: { apply idles_plain. plain_go. }
  destruct (_ || _ || _); [apply idles_plain; plain_go|].
  apply idles_seq; [apply idles_plain; plain_go|intros e].
  change (dp_providers (main_dispatcher cfg)) with (main_providers cfg).
  destruct (main_providers cfg !! n_Channel n) as [p|] eqn:Ep; [|apply idles_plain; plain_go].
  apply idles_seq; [|intros r; apply idles_settle].
  unfold deliver_once. apply tracks_do; [done|intros start _].
  apply idles_seq; [by eapply idles_Send|intros r]. idle_go.
Qed.

Lemma idles_Work rounds fuel : idles_hub (Work rounds fuel (main_dispatcher cfg)).
Proof.
  pose proof idles_process_all. induction rounds as [|rounds IH]; [done|]. cbn [Work]. idle_go; auto.
Qed.

(** The handshake is refused. *)
Lemma idles_HandleWebSocket fuel rw id : Hijacker rw = false → idles_hub (HandleWebSocket fuel rw id).
Proof.
  intros Hrw. unfold HandleWebSocket. destruct (uuid_Parse id) as [u|]; [|done].
  apply tracks_do; [done|]. by intros [c|e] Hx.
Qed.

Lemma idles_NewRouter svc reads req : idles_hub (NewRouter svc reads req).
Proof.
  apply (tracks_router _ (λ _, True)); try done; try (by intros []). intros r.
  destruct r; cbn [serve]; try (apply idles_plain; by plain_go).
  apply idles_seq; [by apply idles_HandleWebSocket|done].
Qed.

Lemma main_threads_idle rounds fuel ticks reads reqs :
  Forall (λ p, idles_hub p) (main_threads cfg rounds fuel ticks reads reqs).
Proof.
  unfold main_threads, pool_threads. rewrite !Forall_app. split_and!.
  - apply Forall_replicate. apply idles_seq; [apply idles_Work|done].
  - repeat constructor; apply idles_plain; [apply plain_ProcessDelayed|apply plain_Run].
  - apply Forall_fmap, Forall_true. intros req. apply idles_seq; [apply idles_NewRouter|done].
Qed.
End Process.

(** ** The theorem *)

(** A handshake that succeeded, or the use of a connection. *)
Definition socket_used (ev : Event) : bool :=
  match ev with
  | Ev e x =>
      match e in Eff Y return Y → bool with
      | WsAccept _ => λ x, is_ok x
      | WsRead _ | WsWrite _ _ | WsClose _ => λ _, true
      | _ => λ _, false
      end x
  end.

Section System.
Context {T : UuidText} {TT : TimeText} {V : StructValidator} {TX : TextTemplate}
  {MP : MailParser} {TP : TimeParse} {JB : JsonBody} {S : Services} {HS : ServicesOk S} {HO : SentOnce S}.

Lemma hub_step X (e : Eff X) w x w' :
  hub_idle e → w_hub w = empty_hub → svc e w x w' → w_hub w' = empty_hub ∧ hub_answer e x.
Proof.
  intros He Hh H.
  assert (Hq : quiet w w' → w_hub w' = empty_hub) by by intros (t & _ & ->).
  assert (Hr : w' = w → w_hub w' = empty_hub) by by intros ->.
  destruct e; cbn [hub_idle] in He; try done; try (split; [|done]).
  - apply postgres_doc, pg_frame in H as (_ & -> & _). done.
  - by rewrite (redis_only _ _ _ _ _ H).
  - apply Hq. by eapply http_doc.
  - by apply clock_doc in H as [_ ->].
  - apply Hr. by eapply uuid_doc.
  - apply Hr. by eapply ctx_doc.
  - apply Hq. by eapply sleep_or_done_doc.
  - apply Hq. by eapply sleep_doc.
  - apply Hq. by eapply ping_doc.
  - apply ws_accept_doc in H as [Hw Ha]. split; [by apply Hq|]. cbn. destruct (is_ok x); [|done].
    rewrite Ha in He by done. done.
  - apply memory_doc in H as [E _]. rewrite Hh in E. cbn [hub_answer]. by rewrite <- E in *.
  - apply Hr. by eapply counter_doc.
  - apply Hr. by eapply histogram_doc.
Qed.

(** (C32) Nobody ever watches a notification. However the goroutines of the process
    interleave, whatever is requested and whatever the surroundings answer:
    every WebSocket handshake is refused, as the writer that Logging gives to
    the handlers cannot be taken over, the hub stays as empty as it started, and
    no update of a status is ever sent. *)
Theorem websockets_never_open cfg rounds fuel ticks reads reqs w tr ts' w' :
  w_hub w = empty_hub → interleaves (main_threads cfg rounds fuel ticks reads reqs) w tr ts' w' →
  w_hub w' = empty_hub ∧ Forall (λ ev, socket_used ev = false) tr.
Proof.
  intros Hh H.
  assert (Hg : Forall (guarded (λ X e, hub_idle e) (λ X e x, hub_answer e x)) (main_threads cfg rounds fuel ticks reads reqs)).
  { eapply Forall_impl; [apply main_threads_idle|]. intros p. apply idles_guarded. }
  assert (Hstep : ∀ X (e : Eff X) w x w', hub_idle e → w_hub w = empty_hub → svc e w x w' →
    w_hub w' = empty_hub ∧ hub_answer e x) by (intros; by eapply hub_step).
  split; [by apply (interleaves_inv _ _ _ _ _ _ _ _ Hstep Hg Hh) in H as [? _]|].
  eapply Forall_impl; [exact (interleaves_trace _ _ _ _ _ _ _ _ Hstep Hg Hh H)|].
  intros [X e x] [He Ha]. by destruct e.
Qed.
End System.
