(* ===== verification/Ref.v ===== *)
(** * Reference surroundings

    A deterministic Postgres, Redis, clock and network that can be run, and the
    proof that they satisfy the laws of [ServicesOk]. The concrete runs that
    accompany the theorems use them. *)

From stdpp Require Import gmap.
From S2P Require Import Prelude GoLib Domain Sql SqlFacts Redis Effects.

(** ** Constraints are decidable *)

#[export] Instance typed_row_dec t r : Decision (typed_row t r).
Proof. unfold typed_row. apply _. Defined.

#[export] Instance unique_on_dec c m : Decision (unique_on c m).
Proof. unfold unique_on. apply _. Defined.

#[export] Instance fk_ok_dec c m m' : Decision (fk_ok c m m').
Proof.
  unfold fk_ok. apply map_Forall_dec. intros i r.
  destruct (r !! c) as [[]|]; apply _.
Defined.

#[export] Instance table_ok_dec db t : Decision (table_ok db t).
Proof.
  destruct (decide (map_Forall (λ _ r, typed_row t r) (table t db))) as [H1|H1];
    [|right; by intros []].
  destruct (decide (Forall (λ p, unique_on p.2 (table t db)) (unique_constraints t))) as [H2|H2];
    [|right; by intros []].
  destruct (decide (Forall (λ p, fk_ok p.1 (table t db) (table p.2 db)) (foreign_keys t)))
    as [H3|H3]; [|right; by intros []].
  by left.
Defined.

#[export] Instance db_ok_dec db : Decision (db_ok db).
Proof.
  destruct (decide (table_ok db Notifications)) as [H1|H1]; [|right; intros H; apply H1, H].
  destruct (decide (table_ok db Templates)) as [H2|H2]; [|right; intros H; apply H2, H].
  destruct (decide (table_ok db DeliveryAttempts)) as [H3|H3]; [|right; intros H; apply H3, H].
  left. by intros [].
Defined.

(** ** Statements *)

Definition ord_rel (ord : list (string * Dir)) (p q : UUID * Row) : Prop := ord_le ord p q = true.

#[export] Instance ord_rel_dec ord p q : Decision (ord_rel ord p q).
Proof. unfold ord_rel. apply _. Defined.

Definition sort_rows (ord : list (string * Dir)) (l : list (UUID * Row)) : list (UUID * Row) :=
  merge_sort (ord_rel ord) l.

Definition limit_rows (args : list Val) (now : Z) (lim : option Expr) (l : list (UUID * Row))
    : option (list (UUID * Row)) :=
  match lim with
  | None => Some l
  | Some e => match eval args now ∅ e with
              | Some (VInt n) => if 0 <=? n then Some (take (Z.to_nat n) l) else None
              | _ => None
              end
  end.

(** The effect of a statement: affected rows, answered rows, tables, inserted
    id, and the table. *)
Definition effect (args : list Val) (now : Z) (db : DB) (s : Stmt)
    : option (Z * list (list Val) * DB * option UUID * TableName) :=
  match s with
  | SInsert t cols vals =>
      p ← insert_row t cols vals args now;
      Some (1, [], set_table t (<[p.1 := p.2]> (table t db)) db, Some p.1, t)
  | SSelect t cols wh ord lim =>
      cs ← mapM (resolve t args now) wh;
      l ← limit_rows args now lim (sort_rows ord (matching cs (table t db)));
      Some (Z.of_nat (length l), project cols <$> l, db, None, t)
  | SUpdate t sets wh ret =>
      cs ← mapM (resolve t args now) wh;
      l ← update_rows t sets args now (matching cs (table t db));
      Some (Z.of_nat (length l), project ret <$> l,
            set_table t (put_rows l (table t db)) db, None, t)
  | SUpdateIn t sets wh ord lim ret =>
      cs ← mapM (resolve t args now) wh;
      sel ← limit_rows args now (Some lim)
              (sort_rows ord (filter (λ p, p.1 ∉ db_locked db now) (matching cs (table t db))));
      l ← update_rows t sets args now sel;
      Some (Z.of_nat (length l), project ret <$> l,
            set_table t (put_rows l (table t db)) db, None, t)
  | SDelete t wh =>
      cs ← mapM (resolve t args now) wh;
      let l := matching cs (table t db) in
      Some (Z.of_nat (length l), [], set_table t (foldr delete (table t db) l.*1) db, None, t)
  end.

Lemma sort_rows_ordered ord l : ordered ord (sort_rows ord l) l.
Proof.
  split; [apply merge_sort_Permutation|].
  change (StronglySorted (ord_rel ord) (sort_rows ord l)). apply StronglySorted_merge_sort.
  - intros p q r. apply ord_le_trans.
  - intros p q. apply ord_le_total.
Qed.

Lemma limit_rows_limited args now lim l l' :
  limit_rows args now lim l = Some l' → limited args now lim l l'.
Proof.
  unfold limit_rows, limited. destruct lim as [e|]; [|congruence].
  destruct (eval args now ∅ e) as [[]|]; try done.
  destruct (Z.leb_spec 0 z); [|done]. intros [= <-]. by exists z.
Qed.

Lemma effect_sound args now db s n rows db' ins t :
  effect args now db s = Some (n, rows, db', ins, t) → sql_effect args now db s n rows db' ins t.
Proof.
  destruct s as [t0 cols vals|t0 cols wh ord lim|t0 sets wh ret|t0 sets wh ord lim ret|t0 wh];
    cbn [effect]; intros H.
  - apply bind_Some in H as ([id r] & Hi & H). cbn in H. simplify_eq. by constructor.
  - apply bind_Some in H as (cs & Hc & H). apply bind_Some in H as (l & Hl & H). simplify_eq.
    econstructor; [done|apply sort_rows_ordered|by apply limit_rows_limited].
  - apply bind_Some in H as (cs & Hc & H). apply bind_Some in H as (l & Hl & H). simplify_eq.
    by econstructor.
  - apply bind_Some in H as (cs & Hc & H). apply bind_Some in H as (sel & Hs & H).
    apply bind_Some in H as (l & Hl & H). simplify_eq.
    apply (eff_update_in _ _ _ _ sets wh cs ord lim ret sel sel l); [done| |done|done].
    eexists. split; [apply sort_rows_ordered|by apply limit_rows_limited].
  - apply bind_Some in H as (cs & Hc & H). simplify_eq. by econstructor.
Qed.

Definition type_error : DbErr := DbPg "22P02" "" "invalid input".

#[export] Instance inserted_dec (ins : option UUID) (m : Table) :
  Decision (∃ id, ins = Some id ∧ is_Some (m !! id)).
Proof.
  destruct ins as [id|]; [|right; by intros (? & ? & _)].
  destruct (decide (is_Some (m !! id))) as [H|H]; [left; by exists id|right].
  intros (? & [= <-] & ?). done.
Defined.

Definition sql_run (args : list Val) (now : Z) (db : DB) (s : Stmt) : PgRes * DB :=
  match effect args now db s with
  | None => (PgFail type_error, db)
  | Some (n, rows, db', ins, t) =>
      if decide (∃ id, ins = Some id ∧ is_Some (table t db !! id)) then
        (PgFail (DbPg "23505" (pkey t) "duplicate key"), db)
      else
        match filter (λ p, ¬ unique_on p.2 (table t db')) (unique_constraints t) with
        | (name, _) :: _ => (PgFail (DbPg "23505" name "duplicate key"), db)
        | [] =>
            if decide (db_ok db') then (PgDone n rows, db')
            else (PgFail (DbPg "23503" "" "constraint"), db)
        end
  end.

Lemma sql_run_step args now db s :
  sql_step args now db s (sql_run args now db s).1 (sql_run args now db s).2.
Proof.
  unfold sql_run. destruct (effect args now db s) as [[[[[n rows] db'] ins] t]|] eqn:E;
    [|by apply step_error].
  apply effect_sound in E. case_decide as Hins; cbn.
  - eapply step_unique; [done|]. by left.
  - destruct (filter _ (unique_constraints t)) as [|[name c] l] eqn:Hf.
    + case_decide; [|by apply step_error]. eapply step_ok; [done| |done].
      intros id ->. apply eq_None_not_Some. intros Hs. apply Hins. by exists id.
    + eapply step_unique; [done|]. right. exists c.
      assert (Hc : (name, c) ∈ filter (λ p, ¬ unique_on p.2 (table t db')) (unique_constraints t))
        by (rewrite Hf; by left).
      apply list_elem_of_filter in Hc as [? ?]. done.
Qed.

(** ** The surroundings *)

(** What a run may choose: the webhook's answers, and at which instants the
    context has ended or a backend is down; also when the rows of a query break
    off after the first and the statement is undone, and when the client gets no
    answer from Redis in time and sends its command again. *)
Record RefEnv := mkEnv {
  ref_http : string → list (string * string) → HttpRes;
  ref_done : Z → bool;
  ref_pg_down : Z → bool;
  ref_redis_down : Z → bool;
  ref_pg_cut : Z → bool;
  ref_redis_slow : Z → bool;
}.

Definition mkRefEnv http done pg_down redis_down : RefEnv :=
  mkEnv http done pg_down redis_down (λ _, false) (λ _, false).

Definition ref_statement (env : RefEnv) (s : Stmt) (args : list Val) (w : World) : PgRes * World :=
  if ref_pg_down env (w_clock w) then (PgFail (DbOther "connection refused"), w)
  else
    let t := w_clock w in
    let (r, db') := sql_run args t (w_db w) s in (r, set_db db' (set_clock t w)).

Definition ref_pg (env : RefEnv) {X} (e : PgE X) (w : World) : option (X * World) :=
  match e in PgE Y return option (Y * World) with
  | PgExec s args => let (r, w') := ref_statement env s args w in Some (exec_reply r, w')
  | PgQueryRow s args => let (r, w') := ref_statement env s args w in Some (row_reply r, w')
  | PgQuery s args =>
      let (r, w') := ref_statement env s args w in
      Some (match r with
            | PgDone _ rows =>
                if ref_pg_cut env (w_clock w) then
                  (Ok (take 1 rows, Some (DbOther "unexpected EOF")), set_db (w_db w) w')
                else (Ok (rows, None), w')
            | PgFail e => (Er e, w')
            end)
  | PgBegin =>
      let h := w_begun w in
      match w_txs w !! h with
      | Some _ => None
      | None => Some (Ok h, set_begun (h + 1) (set_txs (<[h := mkTx [] false]> (w_txs w)) w))
      end
  | PgTxExec h s args =>
      match w_txs w !! h with
      | None => None
      | Some tx =>
          let db := overlay (tx_writes tx) (w_db w) in
          let failed e := Some (Er e, set_txs (<[h := mkTx (tx_writes tx) true]> (w_txs w)) w) in
          if tx_failed tx then failed (DbPg "25P02" "" "current transaction is aborted")
          else
            match s, sql_run args (w_clock w) db s with
            | SInsert t cols vals, (PgDone 1 [], _) =>
                match insert_row t cols vals args (w_clock w) with
                | Some (id, r) =>
                    Some (Ok 1, set_txs (<[h := mkTx (tx_writes tx ++ [(t, id, r)]) false]>
                                           (w_txs w)) w)
                | None => None
                end
            | _, (PgFail e, _) => failed e
            | _, _ => None
            end
      end
  | PgCommit h =>
      match w_txs w !! h with
      | None => None
      | Some tx =>
          let applied := overlay (tx_writes tx) (w_db w) in
          let closed := set_txs (delete h (w_txs w)) w in
          if tx_failed tx then Some (Some (DbOther "rolled back"), closed)
          else if decide (fresh_writes (tx_writes tx) (w_db w) ∧ db_ok applied) then
            Some (None, set_db applied closed)
          else Some (Some (DbOther "rolled back"), closed)
      end
  | PgRollback h => Some (tt, set_txs (delete h (w_txs w)) w)
  end.

Definition ref_redis (env : RefEnv) {X} (e : RedisE X) (w : World) : X * World :=
  let r := w_redis w in
  let down := ref_redis_down env (w_clock w) in
  let refused := "connection refused" in
  match e in RedisE Y return Y * World with
  | XAdd k vs =>
      if down then (Some refused, w)
      else (None, set_redis (xadd k (s_top (stream k r) + 1) vs r) w)
  | XGroupCreateMkStream k g =>
      if down then (Some refused, w)
      else match xgroup_create k g r with
           | Some r1 => (None, set_redis r1 w)
           | None => (Some busygroup, set_redis r w)
           end
  | XReadGroup g c ks n =>
      if down || negb (bool_decide (Forall (λ k, is_Some (s_groups (stream k r) !! g)) ks)) then
        (Er refused, w)
      else let (l, r1) := xreadgroup g c (Z.to_nat n) (w_clock w) ks r in
           (Ok (match l with [] => None | _ => Some l end), set_redis r1 w)
  | XAck k g id => if down then (Some refused, w) else (None, set_redis (xack k g id r) w)
  | XAutoClaim k g c idle n =>
      if down || negb (bool_decide (is_Some (s_groups (stream k r) !! g))) then (Er refused, w)
      else let (l, r1) := xautoclaim k g c idle (Z.to_nat n) (w_clock w) r in
           (Ok l, set_redis r1 w)
  | XRange k => if down then (Er refused, w) else (Ok (s_entries (stream k r)), set_redis r w)
  | ZAdd k sc m => if down then (Some refused, w) else (None, set_redis (zadd k sc m r) w)
  | ZRangeByScore k mx n =>
      if down then (Er refused, w)
      else (Ok (zrangebyscore k mx (Z.to_nat n) r), set_redis r w)
  | ZRem k ms => if down then (Some refused, w) else (None, set_redis (zrem k ms r) w)
  | EvalScript f =>
      if down then (Er refused, w) else let (z, r1) := f (UnixMilli (w_clock w)) 7 r in (Ok z, set_redis r1 w)
  end.

(** New ids are counted: by the rows there are and the rows to come. *)
Definition ref_uuid (w : World) : UUID :=
  uuid_of_N (1 + N.of_nat (size (db_notifications (w_db w)) + size (db_templates (w_db w)) +
                           size (db_attempts (w_db w)) +
                           map_fold (λ _ tx n, length (tx_writes tx) + n)%nat 0%nat (w_txs w))).

Definition ref_handle (env : RefEnv) {X} (e : Eff X) (w : World) : option (X * World) :=
  match e in Eff Y return option (Y * World) with
  | Pg e => ref_pg env e w
  | Rd e =>
      let (x, w') := ref_redis env e w in
      Some (if ref_redis_slow env (w_clock w) then ref_redis env e w' else (x, w'))
  | HttpPost url payload =>
      Some (ref_http env url payload, set_clock (w_clock w + time_Millisecond) w)
  | Now => let t := w_clock w + 1000 in Some (t, set_clock t w)
  | NewV7 => Some (ref_uuid w, w)
  | CtxErr => Some (ref_done env (w_clock w), w)
  | SleepOrDone d =>
      if ref_done env (w_clock w) then Some (true, set_clock (w_clock w) w)
      else Some (false, set_clock (w_clock w + Z.max 0 d) w)
  | Sleep d => Some (tt, set_clock (w_clock w + Z.max 0 d) w)
  | Ping b => Some (None, set_clock (w_clock w) w)
  | WsAccept rw =>
      Some (if Hijacker rw then Ok (Z.to_N (w_clock w))
            else Er "http.ResponseWriter does not implement http.Hijacker", set_clock (w_clock w) w)
  | WsRead c => Some (Some "closed", set_clock (w_clock w) w)
  | Mem f => let (x, h) := f (w_hub w) in Some (x, set_hub h w)
  | WsWrite c m => Some (None, set_clock (w_clock w) w)
  | WsClose c => Some (tt, w)
  | Inc c l => Some (tt, w)
  | Observe h l d => Some (tt, w)
  | Panic => None
  end.

#[export] Instance ref_services (env : RefEnv) : Services :=
  λ X e w x w', ref_handle env e w = Some (x, w').

(** ** They satisfy the laws *)

Lemma ref_statement_doc env s args w r w' :
  ref_statement env s args w = (r, w') → statement s args w r w'.
Proof.
  unfold ref_statement. destruct (ref_pg_down env (w_clock w)).
  - intros [= <- <-]. exists (w_clock w), (w_db w). split; [lia|].
    split; [apply step_lost|by destruct w].
  - destruct (sql_run args (w_clock w) (w_db w) s) as [r1 db'] eqn:E. intros [= <- <-].
    exists (w_clock w), db'. split; [lia|]. split; [|done].
    pose proof (sql_run_step args (w_clock w) (w_db w) s) as H. by rewrite E in H.
Qed.

Lemma sql_run_fail args now db s e db' : sql_run args now db s = (PgFail e, db') → db' = db.
Proof.
  unfold sql_run. intros H. repeat case_match; by simplify_eq.
Qed.

Lemma ref_tx_doc env h s args w x w' :
  ref_pg env (PgTxExec h s args) w = Some (x, w') → tx_exec h s args w x w'.
Proof.
  cbn. destruct (w_txs w !! h) as [tx|] eqn:Htx; [|done]. unfold tx_exec.
  destruct (tx_failed tx) eqn:Hf.
  - intros [= <- <-]. exists tx. split; [done|]. right.
    exists (DbPg "25P02" "" "current transaction is aborted"), 0. split; [by apply step_error|done].
  - pose proof (sql_run_step args (w_clock w) (overlay (tx_writes tx) (w_db w)) s) as Hs.
    destruct (sql_run args (w_clock w) (overlay (tx_writes tx) (w_db w)) s)
      as [[n rows|e] db'] eqn:E; cbn in Hs.
    + intros H. exists tx. split; [done|]. left.
      destruct s as [t cols vals| | | |]; rewrite E in H; cbn in H; try discriminate H.
      destruct n as [|[]|]; try discriminate H. destruct rows; [|discriminate H].
      destruct (insert_row t cols vals args (w_clock w)) as [[id r]|] eqn:Hi; [|done].
      injection H as <- <-. by exists t, cols, vals, id, r, (w_clock w), db'.
    + intros H. exists tx. split; [done|]. right. exists e, (w_clock w).
      pose proof (sql_run_fail _ _ _ _ _ _ E) as ->.
      destruct s; rewrite E in H; by injection H as <- <-.
Qed.

Lemma ref_pg_doc env X (e : PgE X) w x w' : ref_pg env e w = Some (x, w') → pg_doc e w x w'.
Proof.
  destruct e as [s args|s args|s args| |h s args|h|h].
  1-2: cbn; destruct (ref_statement env s args w) as [r w1] eqn:E; intros [= <- <-];
    exists r; (split; [by eapply ref_statement_doc|done]).
  - cbn. destruct (ref_statement env s args w) as [r w1] eqn:E. intros H.
    exists r, w1. split; [by eapply ref_statement_doc|]. destruct r as [n rows|e].
    + destruct (ref_pg_cut env (w_clock w)); injection H as <- <-; cbn.
      * split; [right|by right]. exists (take 1 rows), (drop 1 rows). eexists. by rewrite take_drop.
      * split; [by left|by left].
    + injection H as <- <-. split; [done|by left].
  - cbn. destruct (w_txs w !! w_begun w) eqn:E; [done|]. intros [= <- <-]. left. by exists (w_begun w).
  - apply ref_tx_doc.
  - cbn. destruct (w_txs w !! h) as [tx|] eqn:Htx; [|done]. unfold tx_commit. intros H.
    exists tx. split; [done|].
    destruct (tx_failed tx);
      [|destruct (decide (fresh_writes (tx_writes tx) (w_db w) ∧
                          db_ok (overlay (tx_writes tx) (w_db w)))) as [[? ?]|]];
      injection H as <- <-; [right; left| left|right; left]; eauto.
  - cbn. by intros [= <- <-].
Qed.

Lemma redis_cmd_ok {X} (ok : X → Redis → Prop) err w x r' :
  ok x r' → redis_cmd ok err w x (set_redis r' w).
Proof. intros H. exists r'. split; [done|by left]. Qed.

Lemma redis_cmd_down {X} (ok : X → Redis → Prop) (err : X → Prop) w x :
  err x → redis_cmd ok err w x w.
Proof. intros H. exists (w_redis w). split; [by destruct w|]. right. by split; [|left]. Qed.

Lemma ref_redis_doc env X (e : RedisE X) w x w' : ref_redis env e w = (x, w') → redis_doc e w x w'.
Proof.
  destruct e; cbn; destruct (ref_redis_down env (w_clock w)); cbn; intros H;
    try (injection H as <- <-; by apply redis_cmd_down);
    try (injection H as <- <-; by apply redis_cmd_ok).
  - injection H as <- <-. apply redis_cmd_ok. split; [done|]. eexists. split; [|done]. lia.
  - destruct (xgroup_create k g (w_redis w)) eqn:E; injection H as <- <-; by apply redis_cmd_ok.
  - case_bool_decide; cbn in H; [|injection H as <- <-; by apply redis_cmd_down].
    destruct (xreadgroup _ _ _ _ _ _) as [l r1] eqn:E. injection H as <- <-. apply redis_cmd_ok.
    split; [done|]. exists (w_clock w). by rewrite E.
  - case_bool_decide; cbn in H; [|injection H as <- <-; by apply redis_cmd_down].
    destruct (xautoclaim _ _ _ _ _ _ _) as [l r1] eqn:E. injection H as <- <-.
    apply redis_cmd_ok. split; [done|]. exists (w_clock w). by rewrite E.
  - destruct (script (UnixMilli (w_clock w)) 7 (w_redis w)) as [z r1] eqn:E. injection H as <- <-. apply redis_cmd_ok.
    eexists _, 7. by rewrite E.
Qed.

Lemma ref_resent_doc env X (e : RedisE X) w x w' :
  ref_handle env (Rd e) w = Some (x, w') → resent_doc MaxRetries e w x w'.
Proof.
  cbn. destruct (ref_redis env e w) as [y w1] eqn:E1. destruct (ref_redis_slow env (w_clock w)).
  - intros [= E2]. exists 1%nat, w1. split; [unfold MaxRetries; lia|].
    split; [|by eapply ref_redis_doc]. apply nsteps_once. exists y. by eapply ref_redis_doc.
  - intros [= <- <-]. exists 0%nat, w. split; [lia|]. split; [constructor|by eapply ref_redis_doc].
Qed.

Lemma quiet_set_clock w t : w_clock w ≤ t → quiet w (set_clock t w).
Proof. intros ?. by exists t. Qed.

#[export] Instance ref_services_ok env : ServicesOk (ref_services env).
Proof.
  split; unfold svc, ref_services; cbn [ref_handle]; intros.
  - by eapply ref_pg_doc.
  - eapply ref_resent_doc, H.
  - simplify_eq. apply quiet_set_clock. unfold time_Millisecond. lia.
  - simplify_eq. cbn. split; [lia|done].
  - by simplify_eq.
  - by simplify_eq.
  - destruct (ref_done env (w_clock w)); simplify_eq; cbn;
      (split; [apply quiet_set_clock; lia|]); [done|lia].
  - simplify_eq. split; [apply quiet_set_clock; lia|cbn; lia].
  - simplify_eq. apply quiet_set_clock. lia.
  - simplify_eq. split; [apply quiet_set_clock; lia|by destruct (Hijacker rw)].
  - simplify_eq. apply quiet_set_clock. lia.
  - destruct (f (w_hub w)) eqn:E. by simplify_eq.
  - simplify_eq. apply quiet_set_clock. lia.
  - by simplify_eq.
  - by simplify_eq.
  - by simplify_eq.
Qed.

(** A client that is answered in time sends every command once. *)
Lemma ref_sent_once env : (∀ t, ref_redis_slow env t = false) → SentOnce (ref_services env).
Proof.
  intros Hs X e w x w'. unfold svc, ref_services. cbn. rewrite Hs.
  destruct (ref_redis env e w) as [y w1] eqn:E. intros [= <- <-].
  exists 0%nat, w. split; [lia|]. split; [constructor|by eapply ref_redis_doc].
Qed.

#[export] Hint Extern 1 (SentOnce (ref_services _)) => (apply ref_sent_once; done) : typeclass_instances.

(** ** Running a program *)

Fixpoint run (env : RefEnv) {A} (p : prog A) (w : World) : option (list Event * A * World) :=
  match p with
  | Ret a => Some ([], a, w)
  | Vis e k =>
      match ref_handle env e w with
      | None => None
      | Some (x, w1) =>
          match run env (k x) w1 with
          | None => None
          | Some (tr, a, w') => Some (Ev e x :: tr, a, w')
          end
      end
  end.

Lemma run_exec env {A} (p : prog A) w tr a w' :
  run env p w = Some (tr, a, w') → exec (S := ref_services env) p w tr a w'.
Proof.
  revert w tr. induction p as [b|X e k IH]; intros w tr H.
  - cbn in H. by injection H as <- <- <-.
  - cbn in H. destruct (ref_handle env e w) as [[x w1]|] eqn:E; [|done].
    destruct (run env (k x) w1) as [[[tr1 a1] w2]|] eqn:E2; [|done].
    injection H as <- <- <-. exists x, w1, tr1. split; [done|]. split; [done|]. by apply IH.
Qed.

Definition runs (env : RefEnv) {A} (p : prog A) (w : World) : bool :=
  match run env p w with Some _ => true | None => false end.

(** A concrete run whose trace and result pass a test. *)
Definition runs_where (env : RefEnv) {A} (p : prog A) (w : World) (test : list Event → A → bool)
    : bool :=
  match run env p w with Some (tr, a, _) => test tr a | None => false end.

Lemma run_where_has env {A} (p : prog A) w test (Q : list Event → A → World → Prop) :
  runs_where env p w test = true →
  (∀ tr a w', exec (S := ref_services env) p w tr a w' → test tr a = true → Q tr a w') →
  ∃ tr a w', exec (S := ref_services env) p w tr a w' ∧ Q tr a w'.
Proof.
  unfold runs_where. destruct (run env p w) as [[[tr a] w']|] eqn:E; [|done].
  intros Ht H. apply run_exec in E. exists tr, a, w'. split; [done|by apply H].
Qed.

(** A concrete execution has what every execution has. *)
Lemma run_has env {A} (p : prog A) w (Q : list Event → A → World → Prop) :
  runs_where env p w (λ _ _, true) = true →
  (∀ tr a w', exec (S := ref_services env) p w tr a w' → Q tr a w') →
  ∃ tr a w', exec (S := ref_services env) p w tr a w' ∧ Q tr a w'.
Proof. intros Hr H. apply (run_where_has _ _ _ _ _ Hr). eauto. Qed.

(** A test of each event of a trace. *)
Definition none_of (bad : Event → bool) (tr : list Event) : bool := forallb (λ ev, negb (bad ev)) tr.

Lemma none_of_spec bad tr : none_of bad tr = true → Forall (λ ev, bad ev = false) tr.
Proof.
  intros H. apply Forall_forall. intros ev Hev. unfold none_of in H. rewrite forallb_forall in H.
  apply negb_true_iff, H. by apply list_elem_of_In.
Qed.

(** The same for an execution without faults. *)
Lemma run_clean_has env {A} (p : prog A) w (Q : list Event → A → World → Prop) :
  runs_where env p w (λ tr _, none_of fault tr) = true →
  (∀ tr a w', exec (S := ref_services env) p w tr a w' → fault_free tr → Q tr a w') →
  ∃ tr a w', exec (S := ref_services env) p w tr a w' ∧ Q tr a w'.
Proof.
  intros Hr H. apply (run_where_has _ _ _ _ _ Hr). intros tr a w' He Ht%none_of_spec. by apply H.
Qed.

(** The same when the result passes a test. *)
Lemma run_to_has env {A} (p : prog A) w (test : A → bool) (Q : list Event → A → World → Prop) :
  runs_where env p w (λ tr a, none_of fault tr && test a) = true →
  (∀ tr a w', exec (S := ref_services env) p w tr a w' → fault_free tr → test a = true → Q tr a w') →
  ∃ tr a w', exec (S := ref_services env) p w tr a w' ∧ Q tr a w'.
Proof.
  intros Hr H. apply (run_where_has _ _ _ _ _ Hr).
  intros tr a w' He [Ht%none_of_spec Ha]%andb_true_iff. by apply H.
Qed.
