(* ===== verification/Simulation.v ===== *)
(** * The repository refines the store

    A client sees the notification repository through its methods. [perform]
    runs one of them; [spec_step] is the same operation on the abstract store.
    Any sequence of calls on a database without faults is a run of the
    specification, and a faulty call does what is specified or nothing. *)

From stdpp Require Import gmap.
From S2P Require Import Prelude GoLib Domain Sql Effects Frames NotificationRepo NotificationStore.
From S2P Require Import NotificationSpec Listing Releasing Batches Ref.

(** ** Calls and answers *)

Inductive Op :=
  | OpCreate (n : Notification)
  | OpCreateBatch (ns : list Notification)
  | OpGetByID (id : UUID)
  | OpList (f : NotificationFilter)
  | OpUpdateStatus (id : UUID) (st : Status) (lastError : string)
  | OpIncrementAttempt (id : UUID)
  | OpCancel (id : UUID)
  | OpFetchScheduledDue (limit : Z).

Inductive Reply :=
  | RpCreate (n : Notification) (err : option error)
  | RpBatch (ns : list Notification) (err : option error)
  | RpGet (r : result error Notification)
  | RpList (r : result error NotificationList)
  | RpErr (err : option error)
  | RpFetch (r : result error (list Notification)).

Definition perform (op : Op) : prog Reply :=
  match op with
  | OpCreate n => let! '(n, err) := Create n in Ret (RpCreate n err)
  | OpCreateBatch ns => let! '(ns, err) := CreateBatch ns in Ret (RpBatch ns err)
  | OpGetByID id => let! r := GetByID id in Ret (RpGet r)
  | OpList f => let! r := List f in Ret (RpList r)
  | OpUpdateStatus id st le => let! r := UpdateStatus id st le in Ret (RpErr r)
  | OpIncrementAttempt id => let! r := IncrementAttempt id in Ret (RpErr r)
  | OpCancel id => let! r := Cancel id in Ret (RpErr r)
  | OpFetchScheduledDue l => let! r := FetchScheduledDue l in Ret (RpFetch r)
  end.

Fixpoint perform_all (ops : list Op) : prog (list Reply) :=
  match ops with
  | [] => Ret []
  | op :: ops => let! r := perform op in let! rs := perform_all ops in Ret (r :: rs)
  end.

(** ** Specification *)

(** [spec_step L t0 t1 op S r S']: the operation [op] at an instant between [t0]
    and [t1] takes the store [S] to [S'] and answers [r]; [L] are the locks that
    others hold, at each instant. *)
Inductive spec_step (L : Z → gset UUID) (t0 t1 : Z) : Op → Store → Reply → Store → Prop :=
  | sp_create n S S' now id out :
      t0 ≤ now ≤ t1 →
      Spec.create (set_ident id now now n) S S' out →
      spec_step L t0 t1 (OpCreate n) S
        (RpCreate (set_ident id now now n) (ESentinel <$> out)) S'
  | sp_batch ns S S' now ns' :
      t0 ≤ now ≤ t1 → Forall2 (identified now) ns ns' → creates ns' S S' →
      spec_step L t0 t1 (OpCreateBatch ns) S (RpBatch ns' None) S'
  | sp_batch_conflict ns S now ns' :
      t0 ≤ now ≤ t1 → conflicts now ns S →
      spec_step L t0 t1 (OpCreateBatch ns) S
        (RpBatch ns' (Some (ESentinel ErrIdempotencyConflict))) S
  | sp_get id S n :
      S !! id = Some n → spec_step L t0 t1 (OpGetByID id) S (RpGet (Ok n)) S
  | sp_get_none id S :
      S !! id = None →
      spec_step L t0 t1 (OpGetByID id) S (RpGet (Er (ESentinel ErrNotFound))) S
  | sp_list f S :
      let limit := effective_limit (f_Limit f) in
      spec_step L t0 t1 (OpList f) S
        (RpList (Ok (page limit (take (Z.to_nat (limit + 1)) (listing f S))))) S
  | sp_update id st le S now :
      t0 ≤ now ≤ t1 →
      spec_step L t0 t1 (OpUpdateStatus id st le) S
        (RpErr (ESentinel <$> (Spec.update_status now id st le S).2))
        (Spec.update_status now id st le S).1
  | sp_increment id S now :
      t0 ≤ now ≤ t1 →
      spec_step L t0 t1 (OpIncrementAttempt id) S (RpErr None) (Spec.increment_attempt now id S)
  | sp_cancel id S now :
      t0 ≤ now ≤ t1 →
      spec_step L t0 t1 (OpCancel id) S
        (RpErr (ESentinel <$> (Spec.cancel now id S).2)) (Spec.cancel now id S).1
  | sp_fetch limit S now ns :
      t0 ≤ now ≤ t1 → chosen now limit (L now) S ns →
      spec_step L t0 t1 (OpFetchScheduledDue limit) S (RpFetch (Ok (Spec.release now <$> ns)))
        (put (Spec.release now <$> ns) S).

Inductive spec_steps (L : Z → gset UUID) (t0 : Z) : Z → list Op → Store → list Reply → Store → Prop :=
  | sps_nil t1 S : t0 ≤ t1 → spec_steps L t0 t1 [] S [] S
  | sps_cons t t1 op ops S r rs S1 S2 :
      spec_step L t0 t op S r S1 → spec_steps L t t1 ops S1 rs S2 →
      spec_steps L t0 t1 (op :: ops) S (r :: rs) S2.

Section Simulation.
Context {S : Services} {HS : ServicesOk S} {HO : SentOnce S}.

(** One call: a step of the specification, or a fault, and then the store is
    as before or as after such a step. *)
Lemma perform_outcome op w tr r w' :
  db_ok (w_db w) → exec (perform op) w tr r w' →
  let step r := spec_step (db_locked (w_db w)) (w_clock w) (w_clock w') op (abs (w_db w)) r (abs (w_db w')) in
  repo_frame w w' ∧
  (step r ∨ (¬ fault_free tr ∧ (abs (w_db w') = abs (w_db w) ∨ ∃ r', step r'))).
Proof.
  intros Hok H step. subst step. destruct op as [n|ns|id|f|id st le|id|id|limit]; cbn [perform] in H;
    exec_step H; try (destruct x as [n' err]); exec_step H; rewrite ?app_nil_r.
  - apply Create_refines in Hx as (Hf & now & id & Hnow & -> & Hcase); [|done].
    split; [done|]. destruct Hcase as [(out & Hc & ->)|(? & _ & [?|?])]; [left|right..].
    + by econstructor.
    + split; [done|by left].
    + split; [done|]. right. eexists. by econstructor.
  - apply CreateBatch_refines in Hx as (Hf & Hcase); [|done]. split; [done|].
    destruct Hcase as [(-> & now & Hnow & HF & Hc)|[(-> & Hdb & now & Hnow & Hc)|(? & _ & Hcase)]].
    + left. by econstructor.
    + left. rewrite Hdb. by econstructor.
    + right. split; [done|]. destruct Hcase as [Hdb|(now & Hnow & HF & Hc)].
      * left. by rewrite Hdb.
      * right. eexists. by econstructor.
  - apply GetByID_reads in Hx as (Hf & Hdb & Hcase); [|done]. unfold repo_frame. rewrite Hdb.
    split; [done|].
    destruct Hcase as [(n & -> & Hn)|[(-> & Hn)|(e & _ & _ & ?)]]; [left|left|right].
    + by constructor.
    + by constructor.
    + split; [done|by left].
  - apply List_reads in Hx as (Hf & Hdb & Hcase); [|done]. unfold repo_frame. rewrite Hdb.
    split; [done|]. destruct Hcase as [->|(? & _)]; [left; constructor|].
    right. split; [done|by left].
  - apply UpdateStatus_refines in Hx as (Hf & now & Hnow & Hcase); [|done].
    split; [done|]. destruct Hcase as [(-> & ->)|(? & _ & [->| ->])].
    + left. by constructor.
    + right. split; [done|by left].
    + right. split; [done|]. right. eexists. by constructor.
  - apply IncrementAttempt_refines in Hx as (Hf & now & Hnow & Hcase); [|done].
    split; [done|]. destruct Hcase as [(-> & ->)|(? & _ & [->| ->])].
    + left. by constructor.
    + right. split; [done|by left].
    + right. split; [done|]. right. eexists. by constructor.
  - apply Cancel_refines in Hx as (Hf & now & Hnow & Hcase); [|done].
    split; [done|]. destruct Hcase as [(-> & ->)|(? & _ & [->| ->])].
    + left. by constructor.
    + right. split; [done|by left].
    + right. split; [done|]. right. eexists. by constructor.
  - apply FetchScheduledDue_refines in Hx as (Hf & Hcase); [|done]. split; [done|].
    destruct Hcase as [(now & ns & Hnow & _ & Hc & [[-> ->]|(? & Hx)])|(? & -> & _)].
    + left. by econstructor.
    + right. split; [done|]. destruct Hx as [[[->| ->] _]|[-> _]]; [right|by left|right];
        eexists; by econstructor.
    + right. split; [done|by left].
Qed.

(** (C1) The repository refines the abstract store: started on a well-formed
    database, every sequence of its methods that meets no fault of the
    database answers and changes the notifications as the abstract
    operations do, at instants that follow one another, keeps every
    constraint of the schema, and touches neither Redis nor the hub. *)
Theorem repository_refines_store ops w tr rs w' :
  db_ok (w_db w) → fault_free tr → exec (perform_all ops) w tr rs w' →
  repo_frame w w' ∧
  spec_steps (db_locked (w_db w)) (w_clock w) (w_clock w') ops (abs (w_db w)) rs (abs (w_db w')).
Proof.
  revert w tr rs. induction ops as [|op ops IH]; intros w tr rs Hok Hff H;
    cbn [perform_all] in H.
  - apply exec_ret in H as (-> & -> & ->). split; [|by constructor]. by split; [|split].
  - exec_step H. rename x into r. exec_step H. exec_step H.
    rewrite !app_nil_r in Hff. apply fault_free_app in Hff as [Hff1 Hff2].
    apply perform_outcome in Hx as (Hf1 & [Hs1|[? _]]); [|done..].
    apply IH in Hx0 as (Hf2 & Hs2); [|by apply Hf1|done].
    assert (El : db_locked (w_db w0) = db_locked (w_db w)) by apply Hf1. rewrite El in Hs2.
    split; [|by econstructor].
    destruct Hf1 as (? & ? & ?), Hf2 as (? & ? & ?).
    split; [by etrans|]. split; [done|by etrans].
Qed.

(** (C2) No method is left half done: whatever faults the database has, a call
    keeps every constraint of the schema and leaves the store as it was or as
    the specified operation leaves it; and it answers as specified unless a
    fault was reported. *)
Theorem repository_call_atomic op w tr r w' :
  db_ok (w_db w) → exec (perform op) w tr r w' →
  let step r := spec_step (db_locked (w_db w)) (w_clock w) (w_clock w') op (abs (w_db w)) r (abs (w_db w')) in
  repo_frame w w' ∧
  (step r ∨ (¬ fault_free tr ∧ (abs (w_db w') = abs (w_db w) ∨ ∃ r', step r'))).
Proof. apply perform_outcome. Qed.
End Simulation.
