(* ===== verification/Samples.v ===== *)
(** * Samples

    Concrete parameters of the model (text forms, validators, templates) that
    satisfy their laws, and concrete states of the world, for the examples that
    accompany the theorems. *)

From stdpp Require Import gmap.
From Stdlib Require Import Ascii.
From S2P Require Import Prelude GoLib Domain Sql Redis RedisFacts Effects NotificationRepo.
From S2P Require Import NotificationStore Queue QueueSpec RateLimit Delivery DeliverySpec Hub.
From S2P Require Import Worker WorkerSpec MemberSpec Validator Templates Service Api Wiring Boot Ref.

(** ** Text forms *)

(** A positive number in binary, the low bit first, closed by a letter. *)
Fixpoint text_of_pos (p : positive) : string :=
  match p with
  | xH => "e"
  | xO p => String "0" (text_of_pos p)
  | xI p => String "1" (text_of_pos p)
  end.

Fixpoint pos_of_text (s : string) : option positive :=
  match s with
  | String c s' =>
      if Ascii.eqb c "e" then match s' with EmptyString => Some xH | _ => None end
      else if Ascii.eqb c "0" then xO <$> pos_of_text s'
      else if Ascii.eqb c "1" then xI <$> pos_of_text s'
      else None
  | EmptyString => None
  end.

Lemma pos_of_text_of_pos p : pos_of_text (text_of_pos p) = Some p.
Proof. induction p as [p IH|p IH|]; cbn; [by rewrite IH..|done]. Qed.

Lemma text_of_pos_colon p : ":"%char ∉ String.list_ascii_of_string (text_of_pos p).
Proof.
  induction p as [p IH|p IH|]; cbn; rewrite ?not_elem_of_cons; [by split..|].
  split; [done|apply not_elem_of_nil].
Qed.

#[export] Instance sample_uuid_text : UuidText := {|
  uuid_String u := text_of_pos (N.succ_pos (uuid_n u));
  uuid_Parse s := (λ p, uuid_of_N (Pos.pred_N p)) <$> pos_of_text s;
  uuid_Parse_junk _ := uuid_Nil;
|}.

#[export] Instance sample_uuid_text_ok : UuidTextOk sample_uuid_text.
Proof.
  split.
  - intros u. cbn. rewrite pos_of_text_of_pos. cbn. by rewrite N.pos_pred_succ, uuid_of_N_n.
  - intros u. apply text_of_pos_colon.
  - intros u. cbn. by destruct (N.succ_pos (uuid_n u)).
Qed.

Definition text_of_Z (z : Z) : string :=
  match z with
  | Z0 => "z"
  | Zpos p => String "+" (text_of_pos p)
  | Zneg p => String "-" (text_of_pos p)
  end.

Definition Z_of_text (s : string) : option Z :=
  match s with
  | String c s' =>
      if Ascii.eqb c "z" then Some 0
      else if Ascii.eqb c "+" then Zpos <$> pos_of_text s'
      else Zneg <$> pos_of_text s'
  | EmptyString => None
  end.

#[export] Instance sample_time_text : TimeText := {| Format_RFC3339 := text_of_Z |}.

#[export] Instance sample_time_parse : TimeParse := {|
  Parse_RFC3339Nano := Z_of_text;
  Format_RFC3339Nano := text_of_Z;
|}.

#[export] Instance sample_time_parse_ok : TimeParseOk sample_time_parse.
Proof.
  split; [intros [|p|p] _|intros [|p|p]]; cbn; rewrite ?pos_of_text_of_pos; done.
Qed.

(** ** Validation and templates *)

#[export] Instance sample_validator : StructValidator := {|
  validate_Struct s := if struct_ok s then None else Some "invalid";
|}.

#[export] Instance sample_validator_ok : StructValidatorOk sample_validator.
Proof. split. intros s. cbn. by destruct (struct_ok s). Qed.

(** A template language without actions, in which an opening brace is a syntax
    error. *)
#[export] Instance sample_templates : TextTemplate := {|
  Tpl := string;
  template_Parse _ s := if strings_Contains s "{" then Er "unclosed action" else Ok s;
  template_Execute s _ := Ok s;
|}.

#[export] Instance sample_mail : MailParser := {|
  mail_ParseAddress s := strings_Contains s "@";
|}.

(** ** Surroundings *)

(** Everything works, and the webhook answers with the given status. *)
Definition env_of (answer : HttpRes) : RefEnv :=
  mkRefEnv (λ _ _, answer) (λ _, false) (λ _, false) (λ _, false).

Definition env_ok : RefEnv := env_of (HttpResp 202 "accepted").
Definition env_bad : RefEnv := env_of (HttpResp 500 "error").

Definition no_redis : RefEnv := mkRefEnv (λ _ _, HttpResp 202 "") (λ _, false) (λ _, false) (λ _, true).

(** Redis answers so late that every command is sent twice. *)
Definition env_slow : RefEnv :=
  mkEnv (λ _ _, HttpResp 202 "") (λ _, false) (λ _, false) (λ _, false) (λ _, false) (λ _, true).

(** The rows of a query break off after the first, and the statement is undone. *)
Definition env_cut : RefEnv :=
  mkEnv (λ _ _, HttpResp 202 "") (λ _, false) (λ _, false) (λ _, false) (λ _, true) (λ _, false).

(** ** Worlds *)

Definition redis_groups : Redis :=
  fold_left (λ r k, default r (xgroup_create k ConsumerGroup r)) priority_streams (mkRedis ∅ ∅ ∅).

Definition empty_world : World :=
  mkWorld (mkDB ∅ ∅ ∅ (λ _, ∅)) ∅ 0 redis_groups (10 ^ 18) empty_hub.

(** The world after a program, if it runs. *)
Definition world_after {A} (env : RefEnv) (p : prog A) (w : World) : World :=
  match run env p w with Some (_, _, w') => w' | None => w end.

Definition value_after {A} (env : RefEnv) (p : prog A) (w : World) : option A :=
  match run env p w with Some (_, a, _) => Some a | None => None end.

Definition sample_service : NotificationService := NewNotificationService true 0.

Definition sms_request : CreateNotificationRequest :=
  mkCreateReq "key-1" ChannelSMS PriorityHigh "+15550001111" "" "hello" None None None None.

Definition later_request : CreateNotificationRequest :=
  mkCreateReq "key-2" ChannelPush PriorityLow "token" "" "hello" None None (Some (10 ^ 18 + 5000)) (Some 3).

(** One notification is queued, one is scheduled and soon due. *)
Definition sample_world : World :=
  world_after env_ok
    (run! NotificationService_Create sample_service sms_request in
     run! NotificationService_Create sample_service later_request in Ret tt) empty_world.

Definition sample_dispatcher : Dispatcher :=
  mkDispatcher "worker-1"
    {[ChannelSMS := SMSProvider "http://hook" "/id"; ChannelEmail := EmailProvider "http://hook" "/id";
      ChannelPush := PushProvider "http://hook" "/id"]} 100.

(** The first delivery failed; its retry and the scheduled notification are due. *)
Definition due_world : World :=
  let w := world_after env_bad (Work 1 21 sample_dispatcher) sample_world in
  set_clock (w_clock w + 10 * time_Second) w.

Definition first_message : Message :=
  mkMessage (StreamKey PriorityHigh) 1 (uuid_String (uuid_of_N 1)) ChannelSMS.

(** ** They are well formed *)

#[export] Instance StronglySorted_dec {A} (R : relation A) `{!∀ x y, Decision (R x y)} l :
  Decision (StronglySorted R l).
Proof.
  induction l as [|x l IH]; [left; constructor|].
  destruct IH as [Hs|Hs]; [|right; by intros [? ?]%StronglySorted_inv].
  destruct (decide (Forall (R x) l)) as [Hf|Hf]; [by left; constructor|].
  right. by intros [? ?]%StronglySorted_inv.
Defined.

#[export] Instance id_lt_dec a b : Decision (id_lt a b).
Proof. unfold id_lt. apply _. Defined.

#[export] Instance stream_ok_dec s : Decision (stream_ok s).
Proof.
  destruct (decide (StronglySorted id_lt (s_entries s))) as [H1|H1];
    [|right; by intros []].
  destruct (decide (Forall (λ e, 0 < e_id e ≤ s_top s)%N (s_entries s))) as [H2|H2];
    [|right; by intros []].
  destruct (decide (map_Forall (λ _ g, (g_last g ≤ s_top s)%N ∧
    map_Forall (λ i _, (i ≤ g_last g)%N) (g_pending g)) (s_groups s))) as [H3|H3];
    [|right; by intros []].
  by left.
Defined.

#[export] Instance world_ok_dec w : Decision (world_ok w).
Proof. unfold world_ok, redis_ok. apply _. Defined.

Lemma empty_world_ok : world_ok empty_world.
Proof. apply (bool_decide_unpack _). by vm_compute. Qed.

Lemma sample_world_ok : world_ok sample_world.
Proof. apply (bool_decide_unpack _). by vm_compute. Qed.

Lemma due_world_ok : world_ok due_world.
Proof. apply (bool_decide_unpack _). by vm_compute. Qed.

#[export] Instance sample_webhook : Webhook := {|
  wh_url _ := "http://hook/id";
  wh_payload := channel_payload;
|}.

Lemma sample_providers_ok env : providers_ok (S := ref_services env) sample_dispatcher.
Proof.
  assert (HS := ref_services_ok env).
  intros ch p Hp. unfold sample_dispatcher in Hp. cbn [dp_providers] in Hp.
  rewrite !lookup_insert_Some, lookup_singleton_Some in Hp.
  destruct Hp as [(<- & <-)|(_ & [(<- & <-)|(_ & <- & <-)])];
    eexists; (split; [apply (_ : ProviderOk _ _ ("http://hook" +:+ "/id") _)|]); intros n Hn;
    unfold wh_payload, sample_webhook, channel_payload, email_payload, sms_payload, push_payload; by rewrite Hn.
Qed.

(** A platform on which everything is there; the migrations were applied. *)
Definition sample_platform : Platform :=
  mkPlatform (Ok default_config) (λ _, None) None (λ _, None) (λ _, None) (λ _, None) ErrNoChange (λ _, None).
