(* ===== verification/Races.v ===== *)
(** * Races between the goroutines

    Some statuses are written without looking at the one there is, so that some
    interleavings of the process end in a state nobody meant. Each is shown by a
    schedule of the process's own goroutines, run on the reference
    surroundings. *)

From stdpp Require Import gmap.
From S2P Require Import Prelude GoLib Domain Sql Redis RedisFacts Effects Discipline.
From S2P Require Import NotificationRepo NotificationStore Queue QueueSpec RateLimit Delivery Hub.
From S2P Require Import Worker Validator Templates Service Api Wiring Interleave System Ref.
From S2P Require Import Samples.

(** ** Schedules *)

(** Run the goroutines by turns: whose turn, and for how many effects. A
    goroutine that cannot move loses its turn. *)
Definition turn (env : RefEnv) (i : nat) (st : list Event * list (prog unit) * World)
    : list Event * list (prog unit) * World :=
  let '(tr, ts, w) := st in
  match ts !! i with
  | Some (Vis e k) =>
      match ref_handle env e w with
      | Some (x, w') => (tr ++ [Ev e x], <[i := k x]> ts, w')
      | None => st
      end
  | _ => st
  end.

Definition run_schedule (env : RefEnv) (ts : list (prog unit)) (w : World) (sched : list (nat * nat))
    : list Event * list (prog unit) * World :=
  foldl (λ st p, Nat.iter p.2 (turn env p.1) st) ([], ts, w) sched.

Lemma interleaves_snoc `{S : Services} ts w tr ts1 w1 i X (e : Eff X) k x w2 :
  interleaves ts w tr ts1 w1 → ts1 !! i = Some (Vis e k) → svc e w1 x w2 →
  interleaves ts w (tr ++ [Ev e x]) (<[i := k x]> ts1) w2.
Proof.
  intros H Hi Hs. eapply interleaves_app; [exact H|]. econstructor; [done..|]. constructor.
Qed.

Lemma run_schedule_interleaves env ts w sched tr ts' w' :
  run_schedule env ts w sched = (tr, ts', w') → interleaves (S := ref_services env) ts w tr ts' w'.
Proof.
  assert (Ht : ∀ i st, interleaves (S := ref_services env) ts w st.1.1 st.1.2 st.2 →
    interleaves (S := ref_services env) ts w (turn env i st).1.1 (turn env i st).1.2 (turn env i st).2).
  { intros i [[tr0 ts0] w0] H. cbn in *. destruct (ts0 !! i) as [[|X e k]|] eqn:Hi; try done.
    destruct (ref_handle env e w0) as [[x w1]|] eqn:Hx; [|done]. cbn.
    by eapply (interleaves_snoc (S := ref_services env)). }
  assert (Hall : ∀ l st, interleaves (S := ref_services env) ts w st.1.1 st.1.2 st.2 →
    let st' := foldl (λ st p, Nat.iter p.2 (turn env p.1) st) st l in
    interleaves (S := ref_services env) ts w st'.1.1 st'.1.2 st'.2).
  { induction l as [|[i n] l IH]; intros st H; [done|]. apply IH.
    induction n as [|n IHn]; [done|]. by apply Ht. }
  intros E. specialize (Hall sched ([], ts, w) (il_nil _ _)).
  unfold run_schedule in E. cbv zeta in Hall. by rewrite E in Hall.
Qed.

(** Two schedules, one after the other, and what can be seen after each. *)
Lemma schedule_twice env ts w s1 s2 (P Q : list Event → World → Prop)
    `{!∀ tr w, Decision (P tr w)} `{!∀ tr w, Decision (Q tr w)} :
  (let st1 := run_schedule env ts w s1 in
   let st2 := run_schedule env st1.1.2 st1.2 s2 in
   bool_decide (P st1.1.1 st1.2) && bool_decide (Q st2.1.1 st2.2)) = true →
  ∃ tr1 ts1 w1 tr2 ts2 w2,
    interleaves (S := ref_services env) ts w tr1 ts1 w1 ∧ P tr1 w1 ∧
    interleaves (S := ref_services env) ts1 w1 tr2 ts2 w2 ∧ Q tr2 w2.
Proof.
  cbv zeta. destruct (run_schedule env ts w s1) as [[tr1 ts1] w1] eqn:E1. cbn [fst snd].
  destruct (run_schedule env ts1 w1 s2) as [[tr2 ts2] w2] eqn:E2. cbn [fst snd].
  intros [HP%bool_decide_eq_true HQ%bool_decide_eq_true]%andb_true_iff. exists tr1, ts1, w1, tr2, ts2, w2.
  split_and!; try done; by eapply run_schedule_interleaves.
Qed.

(** ** The process *)

(** Bodies decode to one given request. *)
#[local] Instance sms_bodies : JsonBody := {|
  Decode_CreateNotification _ := Some sms_request;
  Decode_BatchCreate _ := None;
  Decode_CreateTemplate _ := None;
  Decode_UpdateTemplate _ := None;
|}.

Definition process (reqs : list Request) : list (prog unit) :=
  main_threads default_config 1 21 1 1 reqs.

Definition the_id : UUID := uuid_of_N 1.

Definition status_of_id (w : World) : option Status := n_Status <$> abs (w_db w) !! the_id.

Definition api (path : list string) : Request :=
  mkRequest "POST" (["api"; "v1"; "notifications"] ++ path) (λ _, "") "" "r-1".

(** The workers check the status of a notification once, before they mark it as
    being processed: a notification can be cancelled (the request is answered
    200) and then be sent and end as delivered. *)
Theorem cancelled_yet_delivered :
  ∃ tr1 ts1 w1 tr2 ts2 w2,
    interleaves (S := ref_services env_ok)
      (process [api [uuid_String the_id; "cancel"]]) sample_world tr1 ts1 w1 ∧
    (status_of_id w1 = Some StatusCancelled ∧ posts tr1 = []) ∧
    interleaves (S := ref_services env_ok) ts1 w1 tr2 ts2 w2 ∧
    (status_of_id w2 = Some StatusDelivered ∧ length (posts tr2) = 1%nat).
Proof.
  (* worker 0 reads the message and the notification; the request; the worker *)
  refine (schedule_twice _ _ _ [(0, 5); (12, 3)]%nat [(0, 60)]%nat
    (λ tr w, status_of_id w = Some StatusCancelled ∧ posts tr = [])
    (λ tr w, status_of_id w = Some StatusDelivered ∧ length (posts tr) = 1%nat) _).
  by vm_compute.
Qed.

(** A request that creates a notification marks it queued after it put it in
    its stream. When a worker is faster, a delivered notification is marked
    queued again, with no message for it left. *)
Theorem delivered_yet_queued :
  ∃ tr1 ts1 w1 tr2 ts2 w2,
    interleaves (S := ref_services env_ok) (process [api []]) empty_world tr1 ts1 w1 ∧
    (status_of_id w1 = Some StatusDelivered ∧ length (posts tr1) = 1%nat) ∧
    interleaves (S := ref_services env_ok) ts1 w1 tr2 ts2 w2 ∧
    (status_of_id w2 = Some StatusQueued ∧ unacked (StreamKey PriorityHigh) (w_redis w2) = ∅).
Proof.
  (* the request until its XADD; worker 0; the rest of the request *)
  refine (schedule_twice _ _ _ [(12, 5); (0, 60)]%nat [(12, 10)]%nat
    (λ tr w, status_of_id w = Some StatusDelivered ∧ length (posts tr) = 1%nat)
    (λ tr w, status_of_id w = Some StatusQueued ∧
             unacked (StreamKey PriorityHigh) (w_redis w) = ∅) _).
  by vm_compute.
Qed.

(** A notification whose first delivery failed, when its retry is due. *)
Definition retry_world : World :=
  let w := world_after env_bad (Work 1 21 (main_dispatcher default_config)) sample_world in
  set_clock (w_clock w + 10 * time_Second) w.

(** Popping due retries is not atomic: two processes that pop at the same time
    both put the one retry in its stream, and two workers deliver it twice. *)
Theorem retry_delivered_twice :
  ∃ tr1 ts1 w1 tr2 ts2 w2,
    interleaves (S := ref_services env_ok) (process [] ++ [ProcessDelayed 1]) retry_world tr1 ts1 w1 ∧
    (size (zset DelayedSet (w_redis retry_world)) = 1%nat ∧
     length (ln_waiting (lane ConsumerGroup (StreamKey PriorityHigh) (w_redis w1))) = 2%nat) ∧
    interleaves (S := ref_services env_ok) ts1 w1 tr2 ts2 w2 ∧
    length (posts tr2) = 2%nat.
Proof.
  (* both processors read what is due, then both go on; workers 0 and 1 *)
  unshelve refine (schedule_twice _ _ _ [(10, 3); (12, 9); (10, 9)]%nat [(0, 5); (1, 5); (0, 60); (1, 60)]%nat
    (λ tr w, size (zset DelayedSet (w_redis retry_world)) = 1%nat ∧
       length (ln_waiting (lane ConsumerGroup (StreamKey PriorityHigh) (w_redis w))) = 2%nat)
    (λ (tr : list Event) (_ : World), length (posts tr) = 2%nat) _).
  - intros. apply _.
  - by vm_compute.
Qed.
