(* ===== verification/Losses.v ===== *)
(** * How a notification is lost, or is in two places

    No notification is lost as long as no server fails and the goroutines that
    move notifications without a message come to rest (DutySystem.v). The first
    closed runs of this file show that both are needed: a notification is stored,
    its end is not recorded, and nothing in the streams, the delayed set or the
    table will bring it back. A notification is in one place at a time as long
    as removals from the delayed set are answered, the client sends no command
    again and the scheduler's rows do not break off (CustodySystem.v); the other
    runs show that each of these is needed. *)

From stdpp Require Import gmap.
From S2P Require Import Prelude GoLib Domain Sql Redis Effects Discipline NotificationRepo.
From S2P Require Import NotificationStore Queue QueueSpec Worker Service Api Wiring Interleave System.
From S2P Require Import Custody CustodyInv CustodySystem Duty DutyInv DutySystem Ref Samples Races.

(** The notification is stored as unfinished, and waits nowhere: the streams have
    no message that is not acknowledged, the delayed set is empty. *)
Definition forgotten (st : Status) (w : World) : Prop :=
  status_of_id w = Some st ∧ zset DelayedSet (w_redis w) = ∅ ∧
  Forall (λ k, waiting (w_redis w) k = [] ∧ inflight k (w_redis w) = ∅) priority_streams.

#[export] Instance forgotten_dec st w : Decision (forgotten st w).
Proof. unfold forgotten. apply _. Defined.

Lemma forgotten_awaits st w : st ≠ StatusScheduled → forgotten st w → ¬ awaits w the_id.
Proof.
  intros Hst (Hs & Hz & Hk) Ha. rewrite Forall_forall in Hk. destruct Ha as [k e Hin He _|k i Hin Hi _|m Hm _|n Hn Hsch].
  - destruct (Hk _ Hin) as [E _]. rewrite E in He. by apply not_elem_of_nil in He.
  - destruct (Hk _ Hin) as [_ E]. rewrite E in Hi. by apply not_elem_of_empty in Hi.
  - rewrite Hz, lookup_empty in Hm. by destruct Hm.
  - unfold status_of_id in Hs. rewrite Hn in Hs. injection Hs as Hs. congruence.
Qed.

(** Every goroutine besides the ten workers has returned or waits for its tick. *)
Definition others_rest (ts : list (prog unit)) : bool := forallb rests (drop 10 ts).

(** A schedule and what is seen after it. *)
Lemma schedule_forgets env ts w s st (P : list Event → list (prog unit) → Prop) `{!∀ tr ts, Decision (P tr ts)} :
  st ≠ StatusScheduled →
  (let r := run_schedule env ts w s in bool_decide (P r.1.1 r.1.2) && bool_decide (forgotten st r.2)) = true →
  ∃ tr ts' w', interleaves (S := ref_services env) ts w tr ts' w' ∧ P tr ts' ∧
    status_of_id w' = Some st ∧ ¬ awaits w' the_id.
Proof.
  intros Hst. cbv zeta. destruct (run_schedule env ts w s) as [[tr ts'] w'] eqn:E. cbn [fst snd].
  intros [HP%bool_decide_eq_true Hf%bool_decide_eq_true]%andb_true_iff. exists tr, ts', w'.
  split; [by eapply run_schedule_interleaves|]. split; [done|]. split; [apply Hf|by eapply forgotten_awaits].
Qed.

(** The reference surroundings, with a server that fails for a while. *)
Definition outage (from to t : Z) : bool := (from <=? t) && (t <? to).

Definition redis_out (from to : Z) : RefEnv :=
  mkRefEnv (λ _ _, HttpResp 202 "accepted") (λ _, false) (λ _, false) (outage from to).

Definition postgres_out (from to : Z) : RefEnv :=
  mkRefEnv (λ _ _, HttpResp 202 "accepted") (λ _, false) (outage from to) (λ _, false).

(** The process stops while the processor of retries has a retry in hand: taken
    off the delayed set, not enqueued yet. Nothing failed, but the retry is gone. *)
Theorem retry_lost_at_stop :
  ∃ tr ts' w', interleaves (S := ref_services env_ok) (process []) retry_world tr ts' w' ∧
    fault_free tr ∧ status_of_id w' = Some StatusQueued ∧ ¬ awaits w' the_id.
Proof.
  refine (schedule_forgets _ _ _ [(10, 4)]%nat _ (λ tr _, fault_free tr) _ _); [done|by vm_compute].
Qed.

(** Redis fails between the removal of a retry and its enqueueing: the error is
    dropped, and the retry is gone. *)
Theorem retry_lost_to_a_fault :
  ∃ env tr ts' w', interleaves (S := ref_services env) (process [api []]) retry_world tr ts' w' ∧
    (others_rest ts' = true ∧ claims_settled tr) ∧
    status_of_id w' = Some StatusQueued ∧ ¬ awaits w' the_id.
Proof.
  (* the tick, its time, the range, the removal; a request, which reads the time; the rest of both *)
  pose (out := w_clock retry_world + time_Second + 2000).
  exists (redis_out out (out + time_Second)).
  refine (schedule_forgets _ _ _ [(10, 4); (12, 1); (10, 4); (12, 60)]%nat _
    (λ tr ts, others_rest ts = true ∧ claims_settled tr) _ _); [done|by vm_compute].
Qed.

(** The database does not answer when a worker reads a notification: the message
    is acknowledged, and the notification stays queued without one. *)
Theorem message_lost_to_a_fault :
  ∃ env tr ts' w', interleaves (S := ref_services env) (process []) sample_world tr ts' w' ∧
    (others_rest ts' = true ∧ posts tr = []) ∧ status_of_id w' = Some StatusQueued ∧ ¬ awaits w' the_id.
Proof.
  pose (out := w_clock sample_world + 1000).
  exists (postgres_out out (out + 1000)).
  refine (schedule_forgets _ _ _ [(0, 60)]%nat _ (λ tr ts, others_rest ts = true ∧ posts tr = []) _ _);
    [done|by vm_compute].
Qed.

(** Redis does not answer when a notification is created: it stays pending, and
    the scheduler, which is said to pick it up, does not. *)
Theorem pending_never_scheduled :
  ∃ env tr ts' w', interleaves (S := ref_services env) (process [api []]) empty_world tr ts' w' ∧
    others_rest ts' = true ∧ status_of_id w' = Some StatusPending ∧ ¬ awaits w' the_id.
Proof.
  pose (out := w_clock empty_world). exists (redis_out out (out + time_Second)).
  unshelve refine (schedule_forgets _ _ _ [(12, 60); (11, 60)]%nat _ (λ _ ts, others_rest ts = true) _ _);
    [intros; apply _|done|by vm_compute].
Qed.

(** The empty world is in order, as nothing waits in it. *)
Lemma empty_orderly : orderly empty_world.
Proof.
  assert (Hno : ∀ id p, ¬ waits_at empty_world id p).
  { intros id p Hp. destruct p as [k i|m| |i].
    - destruct Hp as (Hk & e & He & _).
      assert (Hl : Forall (λ k, waiting (w_redis empty_world) k = []) priority_streams)
        by (repeat constructor; by vm_compute).
      rewrite Forall_forall in Hl. change (e ∈ waiting (w_redis empty_world) k) in He. rewrite (Hl _ Hk) in He. by apply not_elem_of_nil in He.
    - by destruct Hp as [[s Hs] _].
    - by destruct Hp as (n & Hn & _).
    - by destruct Hp as (g & Hg & _). }
  split; [intros id p q Hp; by destruct (Hno id p)|intros id p Hp; by destruct (Hno id p)|done|].
  by intros m [s Hs].
Qed.

(** In a stream and in the delayed set at once. *)
Definition in_two_places (m : string) (w : World) : bool :=
  bool_decide (is_Some (zset DelayedSet (w_redis w) !! m)) &&
  existsb (λ e, bool_decide (about e = Some the_id)) (waiting (w_redis w) (StreamKey PriorityHigh)).

Lemma two_places_disorder m w : member_about m = Some the_id → in_two_places m w = true → ¬ orderly w.
Proof.
  intros Hm [Hd%bool_decide_eq_true (e & He%list_elem_of_In & Ha%bool_decide_eq_true)%existsb_exists]%andb_true_iff Ho.
  assert (E : InDelayed m = InLane (StreamKey PriorityHigh) (e_id e)); [|done].
  apply (od_place _ Ho the_id).
  - split; [done|]. split; [done|]. by intros i g m' Hg.
  - split; [by left|]. by exists e.
Qed.

Definition three_requests : list (prog unit) := process [api []; api []; api []].

(** A notification was created and its delivery failed; the scheduler's wait has
    taken the time; the processor of retries has found what is due. *)
Definition retry_found : list (nat * nat) := [(12, 60); (0, 60); (11, 1); (10, 3)]%nat.

(** A removal from the delayed set is answered with an error: the retry is enqueued
    and stays in the set, so that it is in two places. *)
Theorem two_places_after_a_fault :
  ∃ env tr ts' w', interleaves (S := ref_services env) three_requests empty_world tr ts' w' ∧
    orderly empty_world ∧ ¬ orderly w'.
Proof.
  (* another request takes a moment, the removal fails, a third one, the message is added *)
  pose (out := w_clock (run_schedule env_bad three_requests empty_world retry_found).2 + 1000).
  exists (mkRefEnv (λ _ _, HttpResp 500 "error") (λ _, false) (λ _, false) (outage out (out + 1000))).
  set (env := mkRefEnv _ _ _ _). set (m := delayed_member the_id ChannelSMS PriorityHigh).
  assert (Hr : in_two_places m (run_schedule env three_requests empty_world
                 (retry_found ++ [(13, 1); (10, 1); (14, 1); (10, 1)]%nat)).2 = true) by by vm_compute.
  destruct (run_schedule env three_requests empty_world _) as [[tr ts'] w'] eqn:E. cbn [snd] in Hr.
  exists tr, ts', w'. split; [by eapply run_schedule_interleaves|]. split; [apply empty_orderly|].
  by apply (two_places_disorder m).
Qed.

(** Twice in one stream. *)
Definition twice_in_stream (k : string) (w : World) : bool :=
  (1 <? length (filter (λ e, about e = Some the_id) (waiting (w_redis w) k)))%nat &&
  bool_decide (NoDup (e_id <$> waiting (w_redis w) k)).

Lemma twice_disorder k w : k ∈ priority_streams → twice_in_stream k w = true → ¬ orderly w.
Proof.
  intros Hk [Hlen%Nat.ltb_lt Hnd%bool_decide_eq_true]%andb_true_iff Ho.
  set (l := filter (λ e, about e = Some the_id) (waiting (w_redis w) k)) in *.
  assert (Hin : ∀ e, e ∈ l → waits_at w the_id (InLane k (e_id e))).
  { intros e [Ha He]%list_elem_of_filter. split; [done|]. by exists e. }
  assert (Hl : NoDup (e_id <$> l)) by (eapply sublist_NoDup; [exact Hnd|]; apply fmap_sublist, sublist_filter).
  destruct l as [|e1 [|e2 l]]; cbn in Hlen; [lia..|].
  assert (E : InLane k (e_id e1) = InLane k (e_id e2))
    by (apply (od_place _ Ho the_id); apply Hin; [by left|by right; left]).
  injection E as E. rewrite !fmap_cons, E in Hl. apply NoDup_cons in Hl as [Hl _]. apply Hl. by left.
Qed.

(** The client sends an XADD again whose answer did not come in time, as main lets
    it: no call fails, and the message is in its stream twice. *)
Theorem two_messages_after_a_resend :
  ∃ tr ts' w', interleaves (S := ref_services env_slow) (process [api []]) empty_world tr ts' w' ∧
    fault_free tr ∧ orderly empty_world ∧ ¬ orderly w'.
Proof.
  assert (Hr : let st := run_schedule env_slow (process [api []]) empty_world [(12, 60)]%nat in
    bool_decide (fault_free st.1.1) && twice_in_stream (StreamKey PriorityHigh) st.2 = true) by by vm_compute.
  cbv zeta in Hr. destruct (run_schedule env_slow _ empty_world _) as [[tr ts'] w'] eqn:E. cbn [fst snd] in Hr.
  apply andb_true_iff in Hr as [Hff%bool_decide_eq_true Hr].
  exists tr, ts', w'. split; [by eapply run_schedule_interleaves|]. split; [done|]. split; [apply empty_orderly|].
  eapply (twice_disorder (StreamKey PriorityHigh)); [by left|done].
Qed.

(** A scheduled notification is also in a stream. *)
Definition released_early (id : UUID) (w : World) : bool :=
  bool_decide (n_Status <$> abs (w_db w) !! id = Some StatusScheduled) &&
  existsb (λ k, existsb (λ e, bool_decide (about e = Some id)) (waiting (w_redis w) k)) priority_streams.

Lemma released_early_disorder id w : released_early id w = true → ¬ orderly w.
Proof.
  intros [Hs%bool_decide_eq_true (k & Hk%list_elem_of_In & (e & He%list_elem_of_In & Ha%bool_decide_eq_true)%existsb_exists)%existsb_exists]%andb_true_iff Ho.
  destruct (abs (w_db w) !! id) as [n|] eqn:Hn; [|done]. injection Hs as Hs.
  assert (E : InSchedule = InLane k (e_id e)); [|done].
  apply (od_place _ Ho id); [by exists n|]. split; [done|]. by exists e.
Qed.

(** The rows of the scheduler's statement break off, and the statement is undone:
    it enqueues what it has read, and the table has it as scheduled still. *)
Theorem two_places_after_a_broken_stream :
  ∃ tr ts' w', interleaves (S := ref_services env_cut) (process []) due_world tr ts' w' ∧
    posts tr = [] ∧ ¬ orderly w'.
Proof.
  assert (Hr : let st := run_schedule env_cut (process []) due_world [(11, 60)]%nat in
    bool_decide (posts st.1.1 = []) && released_early (uuid_of_N 2) st.2 = true) by by vm_compute.
  cbv zeta in Hr. destruct (run_schedule env_cut _ due_world _) as [[tr ts'] w'] eqn:E. cbn [fst snd] in Hr.
  apply andb_true_iff in Hr as [Hp%bool_decide_eq_true Hr].
  exists tr, ts', w'. split; [by eapply run_schedule_interleaves|]. split; [done|].
  by eapply released_early_disorder.
Qed.
