(* ===== verification/Witnesses.v ===== *)
(** * The theorems at work

    For each theorem with hypotheses, a concrete case in which they hold. *)

From stdpp Require Import gmap.
From S2P Require Import Custody CustodyInv CustodySystem Tally TallySystem Duty DutyInv DutySystem.
From S2P Require Import Groups Prelude GoLib Domain Sql Redis RedisFacts Effects Discipline Frames.
From S2P Require Import NotificationRepo NotificationStore NotificationSpec Listing Releasing.
From S2P Require Import Batches Attempts Queue QueueSpec RateLimit RateLimitSpec Delivery.
From S2P Require Import DeliverySpec Retry Hub HubSpec Worker MemberSpec QueueSim WorkerSpec.
From S2P Require Import Lifecycle Validator Templates TemplateSpec TemplateSim Service ServiceSpec.
From S2P Require Import SchedulerSpec Api Wiring Consuming ApiSpec Paging Routing Interleave.
From S2P Require Import History System Running Ref Simulation Samples Races Draining Retrying.
From S2P Require Import Journey Typed Shutdown Boot Losses Sockets Answers.

#[local] Opaque sample_world.

Definition sample_id : UUID := uuid_of_N 1.

Definition sample_notification : Notification :=
  mkNotification uuid_Nil "key-3" None ChannelEmail PriorityNormal "a@b" "hi" "body" None None
    StatusPending None 0 3 "" None 0 0.

Definition sample_ops : list Op :=
  [OpCreate sample_notification; OpCreateBatch [sample_notification; sample_notification];
   OpGetByID sample_id; OpList (mkFilter None (Some ChannelSMS) None None 1);
   OpUpdateStatus sample_id StatusFailed "broken"; OpIncrementAttempt sample_id;
   OpCancel sample_id; OpFetchScheduledDue 10].

Lemma repository_refines_store_witness :
  ∃ tr rs w', exec (S := ref_services env_ok) (perform_all sample_ops) sample_world tr rs w' ∧
    repo_frame sample_world w' ∧
    spec_steps (db_locked (w_db sample_world)) (w_clock sample_world) (w_clock w') sample_ops (abs (w_db sample_world)) rs
      (abs (w_db w')).
Proof.
  apply (run_clean_has env_ok); [by vm_compute|]. intros tr rs w' H Hff.
  exact (repository_refines_store _ _ _ _ _ (proj1 sample_world_ok) Hff H).
Defined.

Lemma processMessage_settles_witness :
  ∃ tr p w', exec (S := ref_services env_bad) (processMessage 21 sample_dispatcher first_message)
      sample_world tr p w' ∧
    p = Returned ∧ world_ok w' ∧ worker_frame sample_world w' ∧ length (posts tr) = 1%nat ∧
    settled sample_dispatcher first_message sample_id (w_clock sample_world) (w_clock w') (abs (w_db sample_world))
      (aqueue (w_redis sample_world)) (abs (w_db w')) (aqueue (w_redis w')) (posts tr).
Proof.
  apply (run_where_has env_bad _ _
    (λ tr _, none_of fault tr && (negb (gave_up tr) && bool_decide (length (posts tr) = 1%nat)))); [by vm_compute|].
  intros tr p w' H [Hff%none_of_spec [Hg%negb_true_iff Hn%bool_decide_eq_true]%andb_true_iff]%andb_true_iff.
  assert (Hid : uuid_Parse (m_NotificationID first_message) = Some sample_id)
    by apply uuid_Parse_String.
  destruct (processMessage_settles 21 sample_dispatcher first_message sample_id sample_world tr p w'
    (sample_providers_ok env_bad) sample_world_ok Hff Hid) as (Hp & Hw & Hf & Hs); [done|lia| |exact H|].
  - assert (E : zset (limiter_key (m_Channel first_message)) (w_redis sample_world) = ∅)
      by by vm_compute.
    intros m t Hm. rewrite E in Hm. exfalso. exact (lookup_empty_Some _ _ Hm).
  - rewrite Hg in Hs. exact (conj Hp (conj Hw (conj Hf (conj Hn Hs)))).
Defined.

Lemma repository_call_atomic_witness :
  ∃ tr r w', exec (S := ref_services env_ok) (perform (OpCreate sample_notification)) sample_world tr r w' ∧
    repo_frame sample_world w'.
Proof.
  apply (run_has env_ok); [by vm_compute|]. intros tr r w' H.
  exact (proj1 (repository_call_atomic _ _ _ _ _ (proj1 sample_world_ok) H)).
Defined.

(** The notification the first message is about. *)
Definition sample_record : Notification :=
  default sample_notification (abs (w_db sample_world) !! sample_id).

Lemma attempts_bounded_witness :
  let msgs := [first_message; first_message; first_message] in
  ∃ tr p w', exec (S := ref_services env_bad) (process_all 21 sample_dispatcher msgs)
      sample_world tr p w' ∧ Z.of_nat (length (posts tr)) ≤ 5.
Proof.
  intros msgs. apply (run_clean_has env_bad); [by vm_compute|]. intros tr p w' H Hff.
  assert (Hn : abs (w_db sample_world) !! sample_id = Some sample_record) by by vm_compute.
  assert (E : attempts_left sample_record = 5) by by vm_compute.
  assert (Hid : uuid_Parse (m_NotificationID first_message) = Some sample_id)
    by apply uuid_Parse_String.
  assert (Hm : Forall (λ m, uuid_Parse (m_NotificationID m) = Some sample_id) msgs)
    by by repeat constructor.
  rewrite <- E.
  exact (attempts_bounded 21 sample_dispatcher msgs sample_id sample_record _ _ _ _
    (sample_providers_ok env_bad) sample_world_ok Hff Hm Hn H).
Defined.

Lemma Create_outcome_witness :
  ∃ tr r w', exec (S := ref_services env_ok)
      (NotificationService_Create sample_service sms_request) empty_world tr r w' ∧
    create_outcome sample_service sms_request empty_world w' r.
Proof.
  apply (run_clean_has env_ok); [by vm_compute|]. intros tr r w' H Hff.
  exact (proj2 (proj2 (proj2 (Create_outcome _ _ _ _ _ _ empty_world_ok Hff H)))).
Defined.

Definition sample_batch : BatchCreateRequest := mkBatchReq (Some [sms_request; later_request]).

Lemma CreateBatch_outcome_witness :
  ∃ tr r w', exec (S := ref_services env_ok)
      (NotificationService_CreateBatch sample_service sample_batch) empty_world tr r w' ∧
    batch_outcome sample_service sample_batch empty_world w' r.
Proof.
  apply (run_clean_has env_ok); [by vm_compute|]. intros tr r w' H Hff.
  exact (proj2 (proj2 (proj2 (CreateBatch_outcome _ _ _ _ _ _ empty_world_ok Hff H)))).
Defined.

(** One notification is released and becomes pending. *)
Lemma poll_releases_witness :
  (∃ tr u w', exec (S := ref_services env_ok) (poll 10) due_world tr u w' ∧
    ∃ now ns, w_clock due_world ≤ now ≤ w_clock w' ∧ chosen now 10 ∅ (abs (w_db due_world)) ns ∧
      abs (w_db w') = put (Spec.release now <$> ns) (abs (w_db due_world)) ∧
      appends (entry_of <$> ns) (aqueue (w_redis due_world)) (aqueue (w_redis w'))) ∧
  n_Status <$> abs (w_db (world_after env_ok (poll 10) due_world)) !! uuid_of_N 2 = Some StatusPending.
Proof.
  split; [|by vm_compute]. apply (run_clean_has env_ok); [by vm_compute|]. intros tr u w' H Hff.
  exact (proj2 (proj2 (proj2 (poll_releases _ _ _ _ _ due_world_ok Hff H)))).
Defined.

(** The retry is taken off the delayed set and joins its stream. *)
Lemma processDelayedBatch_requeues_witness :
  (∃ tr u w', exec (S := ref_services env_ok) processDelayedBatch due_world tr u w' ∧
    ∃ now Q1, w_clock due_world ≤ now ≤ w_clock w' ∧
      let Q := aqueue (w_redis due_world) in
      let ms := due_members (UnixMilli now) 50 (q_delayed Q) in
      delayed_to (foldr delete (q_delayed Q) ms) Q Q1 ∧
      appends (omap member_entry ms) Q1 (aqueue (w_redis w'))) ∧
  size (zset DelayedSet (w_redis due_world)) = 1%nat ∧
  size (zset DelayedSet (w_redis (world_after env_ok processDelayedBatch due_world))) = 0%nat.
Proof.
  split; [|split; by vm_compute]. apply (run_clean_has env_ok); [by vm_compute|]. intros tr u w' H Hff.
  exact (proj2 (proj2 (proj2 (processDelayedBatch_requeues _ _ _ _ due_world_ok Hff H)))).
Defined.

(** ** Templates, limiter, queue *)

Lemma template_repository_refines_witness :
  ∃ tr r w', exec (S := ref_services env_ok)
      (perform_template (TCreate (mkTemplate uuid_Nil "welcome" ChannelEmail "hi" "hello" 0 0)))
      sample_world tr r w' ∧ template_frame sample_world w' ∧
    tstep (w_clock sample_world) (w_clock w') (abs (w_db sample_world))
      (TCreate (mkTemplate uuid_Nil "welcome" ChannelEmail "hi" "hello" 0 0))
      (tabs (w_db sample_world)) r (tabs (w_db w')).
Proof.
  apply (run_clean_has env_ok); [by vm_compute|]. intros tr r w' H Hff.
  destruct (template_repository_refines _ _ _ _ _ (proj1 sample_world_ok) H)
    as [Hf [Hs|[(Hn & _)|[([=] & _) _]]]]; [exact (conj Hf Hs)|by destruct Hn].
Defined.

(** Two of three requests pass; and the key of the first has expired when the third
    comes, as the server's clock has got ahead. *)
Lemma limiter_window_bound_witness :
  let reqs := [mkReq 1000 2000 1; mkReq 1200 2200 5; mkReq 1300 2300 7] in
  Z.of_nat (length (in_window 1000 1500 (let_through "ratelimit:sms" 1000 2 reqs (mkRedis ∅ ∅ ∅)))) ≤ 2 ∧
  let late := [mkReq 1000 2000 1; mkReq 1300 3000 7] in
  Z.of_nat (length (in_window 300 1500 (let_through "ratelimit:sms" 1000 1 late (mkRedis ∅ ∅ ∅)))) ≤ 1.
Proof.
  split.
  - apply (limiter_window_bound "ratelimit:sms" 1000 2 0 _ (mkRedis ∅ ∅ ∅) 1500); [lia|lia|lia|done| |];
      apply (bool_decide_unpack _); by vm_compute.
  - apply (limiter_window_bound "ratelimit:sms" 1000 1 700 _ (mkRedis ∅ ∅ ∅) 1500); [lia|lia|lia|done| |];
      apply (bool_decide_unpack _); by vm_compute.
Defined.

(** Without the lag in the window the bound does not hold: both requests pass,
    within 300 milliseconds of their callers' clocks. *)
Lemma limiter_expires_early :
  let late := [mkReq 1000 2000 1; mkReq 1300 3000 7] in
  in_window 1000 1500 (let_through "ratelimit:sms" 1000 1 late (mkRedis ∅ ∅ ∅)) = late.
Proof. by vm_compute. Qed.

Lemma limiter_same_draw_witness :
  let p := mkReq 1000 2000 7 in
  let_through "ratelimit:sms" 1000 2 (replicate 5 p) (mkRedis ∅ ∅ ∅) = replicate 5 p.
Proof. apply (limiter_same_draw "ratelimit:sms" 1000 2 (mkReq 1000 2000 7) 5 (mkRedis ∅ ∅ ∅)); [lia|lia|done]. Defined.


Lemma delayed_member_roundtrip_witness :
  parseMember (delayed_member sample_id ChannelSMS PriorityHigh)
  = Some [uuid_String sample_id; ChannelSMS; PriorityHigh].
Proof. exact (proj1 (delayed_member_roundtrip sample_id ChannelSMS PriorityHigh eq_refl eq_refl)). Defined.

Lemma ClaimStale_claims_witness :
  ∃ tr r w', exec (S := ref_services env_ok) (ClaimStale "worker-1" 0) sample_world tr r w' ∧
    same_queue (w_redis sample_world) (w_redis w').
Proof.
  apply (run_has env_ok); [by vm_compute|]. intros tr r w' H.
  exact (proj1 (proj2 (proj2 (ClaimStale_claims _ _ _ _ _ _ (proj2 sample_world_ok) H)))).
Defined.

Lemma dead_letter_roundtrip_witness :
  ∃ tr res w', exec (S := ref_services env_ok)
      (let! e := Push sample_id ChannelSMS "status 500" in let! r := Read 10 in Ret (e, r))
      sample_world tr res w' ∧
    ∃ ms m, res = (None, Ok (ms ++ [m])) ∧ m_NotificationID m = uuid_String sample_id.
Proof.
  apply (run_clean_has env_ok); [by vm_compute|]. intros tr res w' H Hff.
  assert (Hn : Z.of_nat (length (s_entries (stream DLQStream (w_redis sample_world)))) < 10)
    by by vm_compute.
  destruct (dead_letter_roundtrip _ _ _ _ _ _ _ _ (proj2 sample_world_ok) Hff Hn H)
    as (ms & m & E & _ & _ & Em & _).
  exists ms, m. by split.
Defined.

Lemma startup_prepares_witness :
  ∃ tr r w', exec (S := ref_services env_ok) (startup sample_platform) sample_world tr r w' ∧
    same_queue (w_redis sample_world) (w_redis w') ∧ r = Ok default_config ∧
    Forall (λ k, is_Some (group ConsumerGroup k (w_redis w'))) priority_streams.
Proof.
  apply (run_where_has env_ok _ _ (λ _ r, is_ok r)); [by vm_compute|]. intros tr r w' H Hr.
  destruct r as [cfg|]; [|done].
  destruct (startup_prepares sample_platform _ _ _ _ (proj2 sample_world_ok) H) as (_ & _ & Hq & Hg & Hs).
  split; [exact Hq|]. split; [by injection Hg as <-|exact Hs].
Defined.

Lemma scheduler_leaves_unscheduled_witness :
  ∃ tr u w', exec (S := ref_services env_ok) (Run 2 (5 * time_Second) 100) sample_world tr u w' ∧
    abs (w_db w') !! sample_id = Some sample_record.
Proof.
  apply (run_has env_ok); [by vm_compute|]. intros tr u w' H.
  assert (Hn : abs (w_db sample_world) !! sample_id = Some sample_record) by by vm_compute.
  assert (Hs : n_Status sample_record ≠ StatusScheduled) by by vm_compute.
  exact (scheduler_leaves_unscheduled _ _ _ _ _ _ _ _ _ (proj1 sample_world_ok) H Hn Hs).
Defined.

Lemma attempt_log_roundtrip_witness :
  ∃ tr res w', exec (S := ref_services env_ok)
      (let! e := CreateDeliveryAttempt (mkAttempt uuid_Nil sample_id 1 500 "" "status 500" 12 0) in
       let! r := GetDeliveryAttempts sample_id in Ret (e, r)) sample_world tr res w' ∧
    ∃ l, res.2 = Ok l ∧ length l = 1%nat.
Proof.
  apply (run_to_has env_ok _ _ (λ p, match p.1 with None => true | Some _ => false end));
    [by vm_compute|].
  intros tr [[e|] r] w' H Hff Ht; [done|].
  assert (Hlog : log (w_db sample_world) = ∅) by (apply map_size_empty_inv; by vm_compute).
  assert (Hlok : log_ok (w_db sample_world)) by (apply (bool_decide_unpack _); by vm_compute).
  destruct (attempt_log_roundtrip (mkAttempt uuid_Nil sample_id 1 500 "" "status 500" 12 0)
    _ _ _ _ (proj1 sample_world_ok) Hlok Hff H) as (i & now & l & E & _ & _ & _ & Hp).
  exists l. split; [exact E|]. rewrite Hp, Hlog. reflexivity.
Defined.

(** ** The API *)

Definition sample_query : Query := λ k, if (k =? "limit")%string then "1" else "".

Definition sample_filter : NotificationFilter := mkFilter None None None None 1.

Lemma pagination_complete_witness :
  ∃ tr r w', exec (S := ref_services env_ok) (fetch_all 3 sample_query) sample_world tr r w' ∧
    r = Some (listing sample_filter (abs (w_db sample_world))).
Proof.
  apply (run_clean_has env_ok); [by vm_compute|]. intros tr r w' H Hff.
  assert (Hq : parse_filter sample_query = inr sample_filter) by by vm_compute.
  assert (Ht : map_Forall (λ _ n, time_range (n_CreatedAt n)) (abs (w_db sample_world)))
    by (apply (bool_decide_unpack _); by vm_compute).
  assert (Hk : (length (listing sample_filter (abs (w_db sample_world))) ≤ 3)%nat)
    by (apply (bool_decide_unpack _); by vm_compute).
  exact (proj1 (pagination_complete _ _ _ _ _ _ _ (proj1 sample_world_ok) Hff Hq Ht Hk H)).
Defined.

Definition sample_cancel : Request := api [uuid_String the_id; "cancel"].
Definition sample_watch : Request := mkRequest "GET" ["ws"; "notifications"; uuid_String the_id] (λ _, "") "" "r-2".

#[local] Instance sample_bodies : JsonBody := {|
  Decode_CreateNotification _ := Some sms_request;
  Decode_BatchCreate _ := Some sample_batch;
  Decode_CreateTemplate _ := None;
  Decode_UpdateTemplate _ := None;
|}.

(** Cancelling is answered without a server error, watching is refused. *)
Lemma no_server_error_witness :
  (∃ tr x w', exec (S := ref_services env_ok) (NewRouter sample_service 1 sample_cancel) sample_world tr x w' ∧
     answered (RCancel (uuid_String the_id)) x.2) ∧
  (∃ tr x w', exec (S := ref_services env_ok) (NewRouter sample_service 1 sample_watch) sample_world tr x w' ∧
     answered (RWebSocket (uuid_String the_id)) x.2).
Proof.
  assert (Hlok : log_ok (w_db sample_world)) by (apply (bool_decide_unpack _); by vm_compute).
  assert (Hc : route (rq_Method sample_cancel) (rq_Path sample_cancel) = Serve (RCancel (uuid_String the_id)))
    by by vm_compute.
  assert (Hw : route (rq_Method sample_watch) (rq_Path sample_watch) = Serve (RWebSocket (uuid_String the_id)))
    by by vm_compute.
  split; (apply (run_clean_has env_ok); [by vm_compute|]); intros tr [rid a] w' H Hff.
  - pose proof (no_server_error _ _ _ _ _ _ _ _ sample_world_ok Hlok Hff H) as Ha. by rewrite Hc in Ha.
  - pose proof (no_server_error _ _ _ _ _ _ _ _ sample_world_ok Hlok Hff H) as Ha. by rewrite Hw in Ha.
Defined.

Lemma reads_change_nothing_witness :
  ∃ tr a w', exec (S := ref_services env_ok)
      (serve sample_service 1 serverWriter sample_cancel (RGet (uuid_String the_id))) sample_world tr a w' ∧
    w_db w' = w_db sample_world.
Proof.
  apply (run_has env_ok); [by vm_compute|]. intros tr a w' H.
  exact (proj1 (reads_change_nothing sample_service 1 serverWriter sample_cancel (RGet (uuid_String the_id)) _ _ _ _
    eq_refl (proj1 sample_world_ok) H)).
Defined.

Lemma unknown_status_is_500_witness :
  let q := λ k, if (k =? "status")%string then "bogus" else "" in
  ∃ tr resp w', exec (S := ref_services env_ok) (NotificationHandler_List q) sample_world tr resp w' ∧
    rs_status resp = 500.
Proof.
  intros q. apply (run_has env_ok); [by vm_compute|]. intros tr resp w' H.
  assert (Hq : parse_filter q = inr (mkFilter (Some "bogus") None None None 0)) by by vm_compute.
  assert (Hs : "bogus" ∉ [StatusPending; StatusScheduled; StatusQueued; StatusProcessing; StatusDelivered;
                          StatusFailed; StatusCancelled])
    by (apply (bool_decide_unpack _); by vm_compute).
  exact (unknown_status_is_500 q "bogus" _ _ _ _ _ (proj1 sample_world_ok) Hq eq_refl Hs H).
Defined.

Lemma handleDomainError_by_root_witness :
  let e1 := ESentinel ErrNotFound in
  let e2 := EWrap "fetching template: " (ESentinel ErrNotFound) "" in
  handleDomainError e1 = handleDomainError e2.
Proof.
  exact (proj2 (handleDomainError_by_root (ESentinel ErrNotFound)
    (EWrap "fetching template: " (ESentinel ErrNotFound) "")) eq_refl eq_refl).
Defined.

Lemma filter_roundtrip_witness :
  let f := mkFilter (Some StatusQueued) (Some ChannelSMS) None (Some (mkCursor 5000 sample_id)) 20 in
  parse_filter (query_of f) = inr f.
Proof.
  intros f. apply (filter_roundtrip f). split; [done|done|by unfold int_max|].
  intros c [= <-]. by unfold time_range.
Defined.

(** ** The hub and the providers *)

Lemma watcher_gets_updates_witness :
  ∃ tr u w', exec (S := ref_services env_ok)
      (run! subscribe sample_id 7 in run! Broadcast sample_id "delivered" in unsubscribe sample_id 7)
      empty_world tr u w' ∧
    writes tr = [(7%N, broadcast_msg sample_id "delivered")].
Proof.
  apply (run_has env_ok); [by vm_compute|]. intros tr u w' H.
  assert (Hc : 7%N ∉ watchers (w_hub empty_world) sample_id)
    by (apply (bool_decide_unpack _); by vm_compute).
  assert (Hok : hub_ok (w_hub empty_world)) by exact empty_hub_ok.
  exact (proj1 (watcher_gets_updates _ _ _ _ _ _ _ _ Hok Hc H)).
Defined.

Lemma provider_sends_once_witness :
  ∃ tr r w', exec (S := ref_services env_bad)
      (Send (SMSProvider "https://webhook.site" "/sms") sample_record) sample_world tr r w' ∧
    quiet sample_world w' ∧ 0 ≤ d_DurationMs r.
Proof.
  apply (run_has env_bad); [by vm_compute|]. intros tr r w' H.
  assert (Hch : n_Channel sample_record = ChannelSMS) by by vm_compute.
  assert (Hp : main_providers default_config !! n_Channel sample_record
               = Some (SMSProvider "https://webhook.site" "/sms")) by (rewrite Hch; reflexivity).
  destruct (provider_sends_once default_config _ _ _ _ _ _ Hp H) as (? & ? & _). by split.
Defined.

(** ** To the end *)

(** A world without sorted sets, as they are before the first request. *)
Lemma no_zsets_past w : r_zsets (w_redis w) = ∅ → limiter_past w.
Proof. intros Hz ch m t. unfold zset. by rewrite Hz. Qed.

Lemma no_zsets_ready N w :
  world_ok w → r_zsets (w_redis w) = ∅ → (waiting_total (aqueue (w_redis w)) ≤ N)%nat → ready N w.
Proof.
  intros Hw Hz HN. assert (E : q_delayed (aqueue (w_redis w)) = ∅) by (cbn; unfold zset; by rewrite Hz).
  split; [done|by apply no_zsets_past|by intros m t; rewrite E, lookup_empty|].
  rewrite E, map_size_empty. lia.
Qed.

Lemma worker_drains_witness :
  ∃ tr p w', exec (S := ref_services env_bad) (Work 1 21 sample_dispatcher) sample_world tr p w' ∧
    ln_waiting (q_lanes (aqueue (w_redis sample_world)) (StreamKey PriorityHigh)) ≠ [] ∧
    ln_waiting (q_lanes (aqueue (w_redis w')) (StreamKey PriorityHigh)) = [].
Proof.
  apply (run_where_has env_bad _ _ (λ tr _, none_of fault tr && none_of ctx_ended tr)); [by vm_compute|].
  intros tr p w' H [Hff%none_of_spec Hu%none_of_spec]%andb_true_iff.
  split; [by vm_compute|].
  assert (Hl : limiter_past sample_world) by (apply no_zsets_past, map_size_empty_inv; by vm_compute).
  assert (Hlen : Forall (λ k, (length (ln_waiting (q_lanes (aqueue (w_redis sample_world)) k)) ≤ 1)%nat)
                   priority_streams) by (apply (bool_decide_unpack _); by vm_compute).
  rewrite Forall_forall in Hlen.
  assert (Hmax : 0 < dp_maxPerSec sample_dispatcher) by done.
  exact (proj1 (worker_drains sample_dispatcher 21 (sample_providers_ok env_bad) Hmax (le_n 21) 1 _ _ _ _ _
    sample_world_ok Hl Hff Hu Hlen H (list_elem_of_here (StreamKey PriorityHigh) _))).
Defined.

Lemma main_posts_once_witness :
  ∃ tr p w', exec (S := ref_services env_bad) (processMessage 21 (main_dispatcher default_config) first_message)
      sample_world tr p w' ∧
    ∃ answer n',
      posts tr = [("https://webhook.site/sms", channel_payload sample_record, answer)] ∧
      abs (w_db w') !! sample_id = Some n' ∧ n_Status n' = status_after answer sample_record.
Proof.
  apply (run_where_has env_bad _ _ (λ tr _, none_of fault tr && none_of ctx_ended tr)); [by vm_compute|].
  intros tr p w' H [Hff%none_of_spec Hu%none_of_spec]%andb_true_iff.
  assert (Hl : limiter_past sample_world) by (apply no_zsets_past, map_size_empty_inv; by vm_compute).
  assert (Hn : abs (w_db sample_world) !! sample_id = Some sample_record) by by vm_compute.
  assert (Ht : terminal (n_Status sample_record) = false) by by vm_compute.
  assert (Hch : n_Channel sample_record = ChannelSMS) by by vm_compute.
  assert (Hid : uuid_Parse (m_NotificationID first_message) = Some sample_id) by apply uuid_Parse_String.
  assert (Hmax : 0 < wc_RateLimitPerSec (cf_Worker default_config)) by by vm_compute.
  destruct (main_posts_once default_config 21 first_message sample_id sample_record sample_world tr p w'
    Hmax (le_n 21) sample_world_ok Hl Hff Hu Hid Hn Ht H) as (answer & n' & E1 & E2 & _ & E3).
  exists answer, n'. split; [|exact (conj E2 E3)].
  unfold wh_url, main_webhook in E1. rewrite Hch in E1. exact E1.
Defined.

(** Two attempts; the webhook answers 500. *)
Definition small_request : CreateNotificationRequest :=
  mkCreateReq "key-9" ChannelSMS PriorityHigh "+15550001111" "" "hello" None None None (Some 2).

Definition small_world : World :=
  world_after env_ok (NotificationService_Create sample_service small_request) empty_world.

#[local] Instance entry_eq_dec : EqDecision Entry.
Proof. solve_decision. Defined.

Definition small_entry : Entry := mkEntry 1 (entry_values sample_id ChannelSMS).

#[local] Opaque small_world.

Definition small_record : Notification :=
  default sample_notification (abs (w_db small_world) !! sample_id).

Lemma queued_notifications_end_witness :
  ∃ tr u w', exec (S := ref_services env_bad) (turns sample_dispatcher 21 1 301 2) small_world tr u w' ∧
    length (posts tr) = 2%nat ∧
    ∃ nt', abs (w_db w') !! sample_id = Some nt' ∧ terminal (n_Status nt') = true.
Proof.
  apply (run_where_has env_bad _ _ (λ tr _, none_of fault tr && none_of ctx_ended tr &&
    (length (posts tr) =? 2)%nat)); [by vm_compute|].
  intros tr u w' H [[Hff%none_of_spec Hu%none_of_spec]%andb_true_iff Hp%Nat.eqb_eq]%andb_true_iff.
  split; [exact Hp|].
  assert (Hw : world_ok small_world) by (apply (bool_decide_unpack _); by vm_compute).
  assert (Hr : ready 1 small_world).
  { apply no_zsets_ready; [exact Hw|apply map_size_empty_inv; by vm_compute|].
    apply (bool_decide_unpack _); by vm_compute. }
  assert (Hmax : 0 < dp_maxPerSec sample_dispatcher) by done.
  assert (He : small_entry ∈ ln_waiting (q_lanes (aqueue (w_redis small_world)) (StreamKey PriorityHigh)))
    by (apply (bool_decide_unpack _); by vm_compute).
  assert (Hn : abs (w_db small_world) !! sample_id = Some small_record) by by vm_compute.
  assert (Ha : attempts_left small_record ≤ Z.of_nat 2) by by vm_compute.
  exact (queued_notifications_end sample_dispatcher 21 1 301 1 (sample_providers_ok env_bad) Hmax
    (le_n 21) (le_n 1) (le_n 301) 2 small_world tr u w' (StreamKey PriorityHigh) small_entry
    (mkMessage (StreamKey PriorityHigh) 1 (uuid_String sample_id) ChannelSMS) sample_id small_record
    Hr Hff Hu H (list_elem_of_here _ _) He eq_refl (uuid_Parse_String sample_id) Hn Ha).
Defined.

(** The answer is a notification with at most two attempts. *)
Definition two_attempts (r : result error Notification) : bool :=
  match r with Ok n => n_MaxRetries n <=? 2 | Er _ => false end.

Lemma accepted_notification_ends_witness :
  ∃ tr r w', exec (S := ref_services env_bad)
      (let! r := NotificationService_Create sample_service small_request in
       run! turns sample_dispatcher 21 1 301 2 in Ret r) empty_world tr r w' ∧
    ∃ n nt, r = Ok n ∧ abs (w_db w') !! n_ID n = Some nt ∧ terminal (n_Status nt) = true.
Proof.
  apply (run_where_has env_bad _ _ (λ tr r, none_of fault tr && none_of ctx_ended tr && two_attempts r));
    [by vm_compute|].
  intros tr r w' H [[Hff%none_of_spec Hu%none_of_spec]%andb_true_iff Hr]%andb_true_iff.
  destruct r as [n|]; [|done]. apply Z.leb_le in Hr. exists n.
  assert (Hready : ready 0 empty_world).
  { apply no_zsets_ready; [exact empty_world_ok|apply map_size_empty_inv; by vm_compute|].
    apply (bool_decide_unpack _); by vm_compute. }
  assert (Hmax : 0 < dp_maxPerSec sample_dispatcher) by done.
  assert (Hn : Z.max 1 (n_MaxRetries n) ≤ Z.of_nat 2) by lia.
  destruct (accepted_notification_ends sample_dispatcher 21 1 301 0 sample_service small_request 2
    empty_world tr n w' (sample_providers_ok env_bad) Hmax (le_n 21) (le_n 1) (le_n 301) Hready eq_refl
    eq_refl Hff Hu H Hn) as (nt & E1 & E2). exists nt. done.
Defined.

(** ** The running system *)

#[local] Instance entry_ok_dec e : Decision (entry_ok e).
Proof. unfold entry_ok. apply _. Defined.

Lemma streams_ok_intro r :
  redis_ok r → map_Forall (λ _ s, Forall entry_ok (s_entries s)) (r_streams r) → streams_ok r.
Proof.
  intros Hok H. split; [done|]. intros k. unfold stream.
  destruct (r_streams r !! k) as [s|] eqn:E; cbn; [by apply (H k)|constructor].
Qed.

Lemma sample_system_ok : system_ok sample_world.
Proof.
  split; [apply sample_world_ok| |].
  - apply streams_ok_intro; [apply sample_world_ok|]. apply (bool_decide_unpack _). by vm_compute.
  - assert (E : w_hub sample_world = empty_hub) by by vm_compute. rewrite E. apply empty_hub_ok.
Qed.

(** Worker 0 delivers the queued notification, the scheduler releases the other
    one and worker 1 delivers it. *)
Definition sample_schedule : list (nat * nat) := [(0, 60); (11, 60); (1, 60)]%nat.

Lemma sample_interleaving :
  ∃ tr ts' w', interleaves (S := ref_services env_ok) (process []) sample_world tr ts' w' ∧
    length (posts tr) = 2%nat.
Proof.
  assert (Hp : length (posts (run_schedule env_ok (process []) sample_world sample_schedule).1.1) = 2%nat)
    by by vm_compute.
  destruct (run_schedule env_ok (process []) sample_world sample_schedule) as [[tr ts'] w'] eqn:E.
  exists tr, ts', w'. split; [by eapply run_schedule_interleaves|done].
Qed.

Lemma system_stays_wellformed_witness :
  ∃ tr ts' w', interleaves (S := ref_services env_ok) (process []) sample_world tr ts' w' ∧
    length (posts tr) = 2%nat ∧
    system_ok w' ∧ ¬ Exists panicking ts'.
Proof.
  destruct sample_interleaving as (tr & ts' & w' & H & Hp). exists tr, ts', w'.
  split; [exact H|]. split; [exact Hp|].
  destruct (system_stays_wellformed _ _ _ _ _ _ _ _ _ _ sample_system_ok H) as [Hw Hpan].
  split; [exact Hw|]. intros Hex. apply Hpan in Hex. revert Hex. by vm_compute.
Defined.

Lemma stored_notifications_typed_witness :
  ∃ tr ts' w', interleaves (S := ref_services env_ok) (process []) sample_world tr ts' w' ∧
    length (posts tr) = 2%nat ∧ rows_typed (w_db w').
Proof.
  destruct sample_interleaving as (tr & ts' & w' & H & Hp). exists tr, ts', w'.
  split; [exact H|]. split; [exact Hp|].
  exact (stored_notifications_typed _ _ _ _ _ _ _ _ _ _ sample_system_ok H).
Defined.

Lemma notifications_are_kept_witness :
  ∃ tr ts' w', interleaves (S := ref_services env_ok) (process []) sample_world tr ts' w' ∧
    length (posts tr) = 2%nat ∧
    evolves (abs (w_db sample_world)) (abs (w_db w')).
Proof.
  destruct sample_interleaving as (tr & ts' & w' & H & Hp). exists tr, ts', w'.
  split; [exact H|]. split; [exact Hp|].
  exact (notifications_are_kept _ _ _ _ _ _ _ _ _ _ sample_system_ok H).
Defined.

Lemma messages_stay_until_acked_witness :
  ∃ tr ts' w', interleaves (S := ref_services env_ok) (process []) sample_world tr ts' w' ∧
    length (posts tr) = 2%nat ∧
    (1%N ∈ unacked (StreamKey PriorityHigh) (w_redis w') ∨
     acked tr (StreamKey PriorityHigh) 1%N).
Proof.
  destruct sample_interleaving as (tr & ts' & w' & H & Hp). exists tr, ts', w'.
  split; [exact H|]. split; [exact Hp|].
  assert (Hid : 1%N ∈ unacked (StreamKey PriorityHigh) (w_redis sample_world))
    by (apply (bool_decide_unpack _); by vm_compute).
  exact (messages_stay_until_acked _ _ _ _ _ _ _ _ _ _ _ _ sample_system_ok H Hid).
Defined.

(** Worker 0 is stopped before the notification's message is acknowledged. *)
Definition interrupted : list (nat * nat) := [(0, 8)]%nat.

Definition at_work (p : option (prog unit)) : bool := match p with Some (Vis _ _) => true | _ => false end.

Lemma interrupted_run :
  ∃ tr ts' w' p, interleaves (S := ref_services env_ok) (process []) sample_world tr ts' w' ∧
    ts' !! 0%nat = Some p ∧ at_work (Some p) = true ∧ 1%N ∈ inflight (StreamKey PriorityHigh) (w_redis w').
Proof.
  assert (Hp : let st := run_schedule env_ok (process []) sample_world interrupted in
    at_work (st.1.2 !! 0%nat) && bool_decide (1%N ∈ inflight (StreamKey PriorityHigh) (w_redis st.2)) = true)
    by by vm_compute.
  cbv zeta in Hp.
  destruct (run_schedule env_ok (process []) sample_world interrupted) as [[tr ts'] w'] eqn:E.
  cbn [fst snd] in Hp. apply andb_true_iff in Hp as [Hp Hin%bool_decide_eq_true].
  destruct (ts' !! 0%nat) as [p|] eqn:Ep; [|done].
  exists tr, ts', w', p. split; [by eapply run_schedule_interleaves|]. by split; [|split].
Qed.

Lemma pool_stops_witness :
  ∃ tr ts' w' p, interleaves (S := ref_services env_ok) (process []) sample_world tr ts' w' ∧
    ts' !! 0%nat = Some p ∧ at_work (Some p) = true ∧ stops_within ended 32 p.
Proof.
  destruct interrupted_run as (tr & ts' & w' & p & H & Hp & Hw & _). exists tr, ts', w', p.
  split; [exact H|]. split; [exact Hp|]. split; [exact Hw|].
  assert (Hlt : (0 < Z.to_nat (wc_PoolSize (cf_Worker default_config)))%nat) by (vm_compute; lia).
  exact (pool_stops default_config 1 21 1 1 [] _ _ _ _ 0 p sample_system_ok H Hlt Hp).
Defined.

(** The process is stopped and a new one started, which delivers the scheduled
    notification only. *)
Lemma restarted_run :
  ∃ tr1 ts1 w1 tr2 ts2 w2,
    interleaves (S := ref_services env_ok) (process []) sample_world tr1 ts1 w1 ∧
    1%N ∈ inflight (StreamKey PriorityHigh) (w_redis w1) ∧
    interleaves (S := ref_services env_ok) (process []) w1 tr2 ts2 w2 ∧ length (posts tr2) = 1%nat.
Proof.
  assert (Hp : let st1 := run_schedule env_ok (process []) sample_world interrupted in
    bool_decide (1%N ∈ inflight (StreamKey PriorityHigh) (w_redis st1.2)) &&
    (length (posts (run_schedule env_ok (process []) st1.2 sample_schedule).1.1) =? 1)%nat = true)
    by by vm_compute.
  cbv zeta in Hp.
  destruct (run_schedule env_ok (process []) sample_world interrupted) as [[tr1 ts1] w1] eqn:E1.
  cbn [fst snd] in Hp.
  destruct (run_schedule env_ok (process []) w1 sample_schedule) as [[tr2 ts2] w2] eqn:E2.
  apply andb_true_iff in Hp as [Hin%bool_decide_eq_true Hlen%Nat.eqb_eq].
  exists tr1, ts1, w1, tr2, ts2, w2.
  exact (conj (run_schedule_interleaves _ _ _ _ _ _ _ E1)
    (conj Hin (conj (run_schedule_interleaves _ _ _ _ _ _ _ E2) Hlen))).
Qed.

Lemma in_flight_left_behind_witness :
  ∃ w1 tr ts' w', 1%N ∈ inflight (StreamKey PriorityHigh) (w_redis w1) ∧
    interleaves (S := ref_services env_ok) (process []) w1 tr ts' w' ∧ length (posts tr) = 1%nat ∧
    1%N ∈ inflight (StreamKey PriorityHigh) (w_redis w') ∧ ¬ touched tr (StreamKey PriorityHigh) 1%N.
Proof.
  destruct restarted_run as (tr0 & ts0 & w1 & tr & ts' & w' & H0 & Hin & H & Hl).
  pose proof (proj1 (system_invariant any_ack _ _ _ _ _ _ _ _ _ _ any_permits (or_intror eq_refl) sample_system_ok H0)) as Hw1.
  exists w1, tr, ts', w'. split; [exact Hin|]. split; [exact H|]. split; [exact Hl|].
  exact (in_flight_left_behind _ _ _ _ _ _ _ _ _ _ _ _ Hw1 Hin H).
Defined.

(** ** Custody *)

Lemma empty_system_ok : system_ok empty_world.
Proof.
  split; [apply empty_world_ok| |exact empty_hub_ok].
  apply streams_ok_intro; [apply empty_world_ok|]. apply (bool_decide_unpack _). by vm_compute.
Qed.

(** A request creates a notification, and worker 0 delivers it up to the count of
    the attempt. *)
Definition at_the_count : list (nat * nat) := [(12, 20); (0, 13)]%nat.

Lemma counting_run :
  ∃ tr ts' w' p, interleaves (S := ref_services env_ok) (process [api []]) empty_world tr ts' w' ∧
    claims_settled tr ∧ counts_answered tr ∧ length (posts tr) = 1%nat ∧
    ts' !! 0%nat = Some p ∧ works_on p the_id.
Proof.
  assert (Hp : let st := run_schedule env_ok (process [api []]) empty_world at_the_count in
    bool_decide (claims_settled st.1.1) = true ∧ bool_decide (counts_answered st.1.1) = true ∧
    length (posts st.1.1) = 1%nat ∧
    match st.1.2 !! 0%nat with Some p => works_on p the_id | None => False end)
    by (vm_compute; by split_and!).
  cbv zeta in Hp.
  destruct (run_schedule env_ok (process [api []]) empty_world at_the_count) as [[tr ts'] w'] eqn:E.
  cbn [fst snd] in Hp. destruct Hp as (Hr%bool_decide_eq_true & Hc%bool_decide_eq_true & Hl & Hp).
  destruct (ts' !! 0%nat) as [p|] eqn:Ep; [|destruct Hp].
  exists tr, ts', w', p.
  exact (conj (run_schedule_interleaves _ _ _ _ _ _ _ E) (conj Hr (conj Hc (conj Hl (conj Ep Hp))))).
Qed.

Lemma one_place_at_a_time_witness :
  ∃ tr ts' w', interleaves (S := ref_services env_ok) (process [api []]) empty_world tr ts' w' ∧
    length (posts tr) = 1%nat ∧ orderly w'.
Proof.
  destruct counting_run as (tr & ts' & w' & p & H & Hr & _ & Hl & _). exists tr, ts', w'.
  split; [exact H|]. split; [exact Hl|].
  exact (one_place_at_a_time _ _ _ _ _ _ _ _ _ _ empty_system_ok empty_orderly H Hr).
Defined.

Lemma no_two_work_on_one_witness :
  ∃ tr ts' w' p, interleaves (S := ref_services env_ok) (process [api []]) empty_world tr ts' w' ∧
    ts' !! 0%nat = Some p ∧ works_on p the_id ∧ ∀ pl, ¬ waits_at w' the_id pl.
Proof.
  destruct counting_run as (tr & ts' & w' & p & H & Hr & _ & _ & Hp & Hw). exists tr, ts', w', p.
  split; [exact H|]. split; [exact Hp|]. split; [exact Hw|].
  exact (proj2 (no_two_work_on_one _ _ _ _ _ _ _ _ _ _ 0 0 p p the_id empty_system_ok empty_orderly H Hr
                  Hp Hp Hw Hw)).
Defined.

(** The call was made, and its attempt is not counted yet. *)
Lemma webhook_calls_bounded_witness :
  ∃ tr ts' w' ids, interleaves (S := ref_services env_ok) (process [api []]) empty_world tr ts' w' ∧
    length (posts tr) = 1%nat ∧ Forall2 (sent_for default_config (abs (w_db w'))) ids (posts tr) ∧
    ∀ id n, abs (w_db w') !! id = Some n → occurrences id ids ≤ Z.max 1 (n_MaxRetries n) - 0.
Proof.
  destruct counting_run as (tr & ts' & w' & p & H & Hr & Hc & Hl & _).
  destruct (webhook_calls_bounded default_config _ _ _ _ _ _ _ _ _ empty_system_ok empty_orderly H Hr Hc)
    as (ids & Hids & Hle).
  exists tr, ts', w', ids. split; [exact H|]. split; [exact Hl|]. split; [exact Hids|exact Hle].
Defined.

(** ** Nothing is lost *)

(** As above; the notification's message is in flight in the end. *)
Lemma delivering_run :
  ∃ tr ts' w', interleaves (S := ref_services env_ok) (process [api []]) empty_world tr ts' w' ∧
    fault_free tr ∧ (∀ i p, (10 ≤ i)%nat → ts' !! i = Some p → rests p = true) ∧
    is_Some (abs (w_db w') !! the_id) ∧ Forall (λ ev, ends ev ≠ Some the_id) tr.
Proof.
  assert (Hp : let st := run_schedule env_ok (process [api []]) empty_world at_the_count in
    none_of fault st.1.1 && forallb rests (drop 10 st.1.2) &&
    bool_decide (is_Some (abs (w_db st.2) !! the_id)) &&
    bool_decide (Forall (λ ev, ends ev ≠ Some the_id) st.1.1) = true) by (by vm_compute).
  cbv zeta in Hp.
  destruct (run_schedule env_ok (process [api []]) empty_world at_the_count) as [[tr ts'] w'] eqn:E.
  cbn [fst snd] in Hp. apply andb_true_iff in Hp as [[[Hf Hr]%andb_true_iff Hs%bool_decide_eq_true]%andb_true_iff He%bool_decide_eq_true].
  exists tr, ts', w'. split; [exact (run_schedule_interleaves _ _ _ _ _ _ _ E)|].
  split; [exact (none_of_spec _ _ Hf)|]. split; [|exact (conj Hs He)].
  intros i p Hi Hp. rewrite forallb_forall in Hr. apply Hr, list_elem_of_In, (list_elem_of_lookup_2 _ (i - 10)).
  rewrite lookup_drop. replace (10 + (i - 10))%nat with i by lia. exact Hp.
Qed.

Lemma nothing_is_lost_witness :
  ∃ tr ts' w', interleaves (S := ref_services env_ok) (process [api []]) empty_world tr ts' w' ∧
    fault_free tr ∧ is_Some (abs (w_db w') !! the_id) ∧ awaits w' the_id.
Proof.
  destruct delivering_run as (tr & ts' & w' & H & Hf & Hr & Hs & He). exists tr, ts', w'.
  split; [exact H|]. split; [exact Hf|]. split; [exact Hs|]. destruct Hs as [n Hn].
  assert (H0 : ∀ id nt, abs (w_db empty_world) !! id ≠ Some nt) by by intros id nt.
  destruct (nothing_is_lost _ _ _ _ _ _ _ _ _ _ empty_system_ok empty_orderly
              (λ id nt Hnt, False_ind _ (H0 id nt Hnt)) H Hf Hr _ _ Hn)
    as [[(m & Hm & _)|(ev & Hin & Hev)]|Ha]; [destruct (H0 _ _ Hm)| |exact Ha].
  exfalso. rewrite Forall_forall in He. exact (He _ Hin Hev).
Defined.

(** ** WebSockets *)

(** A client asks to watch the notification that worker 0 delivers. *)
Definition watch_request : Request :=
  mkRequest "GET" ["ws"; "notifications"; uuid_String the_id] (λ _, "") "" "r-1".

(** The handshake was answered, with an error. *)
Definition refused (ev : Event) : bool :=
  match ev with
  | Ev e x => match e in Eff Y return Y → bool with WsAccept _ => λ x, negb (is_ok x) | _ => λ _, false end x
  end.

Lemma watching_run :
  ∃ tr ts' w', interleaves (S := ref_services env_ok) (process [watch_request]) sample_world tr ts' w' ∧
    existsb refused tr = true ∧ length (posts tr) = 1%nat.
Proof.
  assert (Hp : let st := run_schedule env_ok (process [watch_request]) sample_world [(12, 60); (0, 60)]%nat in
    existsb refused st.1.1 = true ∧ length (posts st.1.1) = 1%nat) by (vm_compute; by split).
  cbv zeta in Hp.
  destruct (run_schedule env_ok (process [watch_request]) sample_world _) as [[tr ts'] w'] eqn:E.
  exists tr, ts', w'. split; [exact (run_schedule_interleaves _ _ _ _ _ _ _ E)|exact Hp].
Qed.

Lemma websockets_never_open_witness :
  ∃ tr ts' w', interleaves (S := ref_services env_ok) (process [watch_request]) sample_world tr ts' w' ∧
    existsb refused tr = true ∧ w_hub w' = empty_hub ∧ Forall (λ ev, socket_used ev = false) tr.
Proof.
  destruct watching_run as (tr & ts' & w' & H & Hr & _). exists tr, ts', w'.
  split; [exact H|]. split; [exact Hr|].
  assert (Hh : w_hub sample_world = empty_hub) by (vm_compute; reflexivity).
  exact (websockets_never_open _ _ _ _ _ _ _ _ _ _ Hh H).
Defined.
